(* ===== verification/_CoqProject ===== *)
-Q . S2P
Prelude.v
GoStd.v
Errors.v
Upid.v
Md5.v
Bytes.v
Json.v
Config.v
Codec.v
Mesos.v
OfferStore.v
OfferCache.v
World.v
Rpc.v
State.v
Zk.v
ZooDetector.v
Detector.v
Goroutine.v
HttpMux.v
Threads.v
SchedDriver.v
DriverSys.v
DriverProps.v
Scheduler.v
SchedInv.v
System.v
Interleave.v
Runs.v
SchedProps.v
Executor.v
ExecDriver.v
ExecDriverProps.v
Cmd.v
Admin.v
TestServer.v
EndToEnd.v
DriverEnd.v
DetectorEnd.v
Messenger.v
HttpDecoder.v
Sasl.v
EtcdClient.v
EtcdRpc.v
ZkWire.v
ZkConn.v
ZkConnProps.v
ZkConnSafe.v
ZkOps.v
ZkRuns.v
ProtoWire.v
