(* ===== verification/Prelude.v ===== *)
(** * etcd-mesos: a verification development

    etcd-mesos runs an etcd cluster on Apache Mesos.  The scheduler
    (src/scheduler, started by src/cmd/etcd-mesos-scheduler) receives resource
    offers, caches them and launches one etcd task at a time; the executor
    (src/executor, src/cmd/etcd-mesos-executor) runs the etcd process of one task
    and rebuilds it as a new cluster on request; the proxy
    (src/cmd/etcd-mesos-proxy) asks the Mesos master for the running tasks and
    becomes an etcd proxy for them.  They share src/config (a node and its printed
    form, which is the task identifier), src/errors, src/offercache (the offers a
    launch may use) and src/rpc (calls to etcd, to the master and to ZooKeeper).
    Both talk to Mesos through the drivers of the vendored mesos-go
    (src/Godeps/_workspace/src/github.com/mesos/mesos-go, below mesos-go): the
    driver calls the scheduler's or the executor's methods, and is called by them.

    ** Files

    - Prelude.v, GoStd.v, Json.v, Codec.v, Mesos.v, Errors.v: shared lemmas; the
      integers, [strings] and [strconv] functions and JSON of Go that the sources
      use; the messages of Mesos with the helpers of the vendored mesosutil; the
      error values of src/errors/errors.go.
    - Upid.v: mesos-go/upid/upid.go, the identifiers of libprocess processes.
    - Config.v: src/config/config.go, src/config/memberlist.go.
    - OfferStore.v, OfferCache.v: OfferStore.v is the interface (a class of
      operations and a class of laws) through which the scheduler uses an offer
      cache; OfferCache.v is src/offercache/offercache.go, with the instance.
    - World.v: effects.  [IO A] maps an environment and the history of events to a
      result and new events; an [Env] answers every HTTP request, etcd read,
      ZooKeeper call, driver call, file operation and clock reading as a function
      of the history, and chooses the order in which a map is ranged over.
    - Rpc.v: src/rpc/constants.go, healthcheck.go, membership.go, reseed.go.
      State.v: src/rpc/state.go.  Zk.v: src/rpc/zk.go.
    - Goroutine.v: sections that hold a lock ([crit]) and goroutines that are
      sequences of sections ([proc]).  Threads.v: a component whose inputs and
      goroutines are such threads, as a transition system; contracts
      ([Contract], [ContractLaws]) that every section keeps and what
      follows for every run.
    - SchedDriver.v: mesos-go/scheduler/scheduler.go and schedcache.go, a
      definition for each handler, call and goroutine.  DriverSys.v: its contract and the proof
      that every section keeps it.  DriverProps.v: the theorems.
    - ExecDriver.v: mesos-go/executor/executor.go.  ExecDriverProps.v: its
      contract and theorems, and the etcd executor under it.
    - Scheduler.v: src/scheduler/scheduler.go.  The fields of [EtcdScheduler] that
      are set once are the record [SchedulerConfig], those that methods change the
      record [EtcdScheduler]; each method has a definition of its name.
    - SchedInv.v, System.v, Interleave.v: the invariant, what each section
      preserves; a rely and guarantee for each goroutine; the process as a
      transition system.  Runs.v: concrete runs.  SchedProps.v: single operations.
    - Executor.v: src/executor/executor.go; the harness of a task, the goroutines of its
      turns, its listener and the callbacks are a transition system ([xstep]).  Cmd.v: the three [main] functions.
      EndToEnd.v: properties that cross components.  DriverEnd.v: the programs
      over their drivers.
    - HttpMux.v: the dispatch of [http.ServeMux].  Admin.v: the administration interface and
      the artifact server of the scheduler and the reseed listener of the executor, behind
      that dispatch.  TestServer.v: src/testing/etcd.go, the server of the tests.
    - ZooDetector.v: mesos-go/detector/zoo (detect.go, client2.go), the detector that
      watches the masters registered in ZooKeeper.  Detector.v: standalone.go,
      factory.go and the plugin.  DetectorEnd.v: a detector and the scheduler
      driver it announces masters to, as one transition system.
    - Messenger.v: mesos-go/messenger (messenger.go, message.go,
      http_transporter.go): the queues, the goroutines, the stop, and the form of a
      message on the wire.  HttpDecoder.v: decoder.go, the state machine that reads
      requests from a connection, with the readers of Go it uses.
    - Sasl.v: mesos-go/auth (login.go, interface.go, callback, sasl with its mechanisms)
      and mesos-go/scheduler/handler.go: a login of the scheduler driver.  Md5.v: the
      digests of Go's library that CRAM-MD5 uses.
    - EtcdClient.v: the etcd client of the vendored coreos/go-etcd: machines, requests,
      retries, and the operations on keys.  EtcdRpc.v: the health check and the
      ranking of src/rpc over that client, down to single HTTP requests.
    - Bytes.v: slices of bytes with their capacity and the panics of their bounds, big-endian
      integers.  ZkWire.v: the wire format of the ZooKeeper client, the vendored
      samuel/go-zookeeper/zk (structs.go, constants.go).  ZkConn.v: its connection (conn.go, util.go): the
      loops that connect, send and receive, the requests, the watches and the callers, as
      a transition system.  ZkConnProps.v: the account of requests.  ZkConnSafe.v: watches, panics,
      the way of a request, reconnection.  ZkOps.v: the operations.  ZkRuns.v: concrete runs.
    - ProtoWire.v: the protocol buffer of a registered master, mesos-go/mesosproto/mesos.pb.go
      for [MasterInfo] and [Address], and [GetMasterFromZK] of Zk.v with it.

    ** What is shown

    - Every interleaving (Interleave.v): at most one task is pending, an offer is
      answered at most once, instance names are never reused, the maps of the
      scheduler agree, cached offers are large enough, and a goroutine panics only on
      a map of reconciliation information that was read back from the text null.
      They hold for every environment whose clock advances with the sleeps, every
      offer store that satisfies the laws, and every configuration whose three
      function fields neither answer offers nor launch ([cfg_quiet]; the
      functions of the constructor satisfy it, EndToEnd.v shows that [main]
      installs them).
    - The offer cache refines a bounded set (OfferCache.v): [Push] and
      [BlockingPop] against the set, and the accounting of offers over
      every interleaving in which a pop is two steps.
    - Single operations of the scheduler (SchedProps.v): the effect of a status
      update on each branch, the launch gate, the end of a reseed, the
      condition for unlocking, the ports of a task.
    - Calls (Rpc.v, State.v, Zk.v): what a nil or non-nil result says about the
      answers that were received, which requests are sent and how many, the
      ranking of reseed candidates, round trips of URIs and of the persisted map.
    - Executor and programs (Executor.v, EndToEnd.v): the command line, what is
      reported to Mesos; in every interleaving what a reseed request makes of the node and
      the two ways in which the executor can panic; that the task the scheduler prepares
      joins through the running nodes, is the node the executor starts and the record
      the scheduler files.
    - The scheduler driver (DriverProps.v), in every interleaving of messages,
      calls and goroutines: the invariant of its connection, the order of its
      states, the end of its callbacks, and that it panics in one place only; on every
      branch: launching, accepting offers, status updates, registration.
    - The executor driver (ExecDriverProps.v), in every interleaving: its
      well-formedness, that a stopped driver stays stopped and silent, and that an
      update is kept and sent again until it is acknowledged.
    - Scheduler and driver together (DriverEnd.v): what becomes of a launch in every state
      of the driver, in particular that one that a running driver cannot send comes back
      as a lost task and is no longer pending; in every run of the driver of a
      restarted scheduler, up to the first acknowledgement, each registration is under the
      identifier kept in ZooKeeper.
    - The detectors (ZooDetector.v, Detector.v, DetectorEnd.v): a listener is told every
      change of the leading registration, in order and once, with what was read right
      before; the detector and the
      [GetMasterFromZK] of the scheduler find the same master; with the driver, no
      interleaving of both breaks the driver's invariant, but two changes can be
      handled in the other order.
    - The messenger (Messenger.v, HttpDecoder.v): in every interleaving messages keep
      their order and none is lost or doubled between the calls and the
      network; a stop can make the decoder panic; a message and its
      sender are rebuilt by the receiver; a connection delivers the requests that were
      sent on it, whatever stalls there are outside of lines.
    - Logins (Sasl.v), in every interleaving of the caller and the handlers: success means
      a whole exchange with one authenticator, and only two kinds of messages
      make a login panic.
    - The etcd client (EtcdClient.v, EtcdRpc.v): a request ends after a bounded number of
      attempts, a synchronisation keeps the machines usable; the health check over
      the client ends on every map of members, and a nil result of it means two answers
      with one term and different indices from machines that a running member listed.
      (The reads of Rpc.v name the client by its endpoint; which machine answers is seen
      in EtcdRpc.v only.)
    - The HTTP interfaces (Admin.v, TestServer.v): what a client of each path reads back; requests change
      nothing but start reseeds, each artifact is served under the URI the tasks are
      given, and [MemberList] reads what the test server answers.
    - The ZooKeeper client (ZkWire.v, ZkConnProps.v, ZkConnSafe.v, ZkOps.v): structures are
      decoded to what was encoded; a reply without a boolean makes the decoder fail only by a count for which
      there is no memory; in every interleaving a request
      is answered once unless its write failed, its answer does not wait for
      the caller, a watch fires once, and the connection panics for six
      reasons only; an answer reaches its caller; after a disconnection each server is tried
      and the watches are set again; a protected node is not created twice.
    - Protocol buffers (ProtoWire.v): a registration is read back from its bytes, whose
      number is [Size]; unmarshalling ends on every input; a master that registers
      so is found by [GetMasterFromZK].
    - Behaviour that looks unintended is stated as a theorem about the code as it
      is: ports outside the offer, a second cluster after a re-registration, an
      unlocking by a stale synchronisation, a loop without pause in [GetState],
      errors that are dropped in [MemberList] and [RemoveInstance], panics in
      [GetMasterFromZK] and in the executor's harness; in the drivers, a panic after
      two master changes, callbacks handed over twice or in the other order,
      operations sent once for each offer, and an abort after a stale error; in the
      libraries, a leader that is not read again, ranks read from a random member,
      a panic of a stopping messenger, a decoder that spins, requests that a
      closed ZooKeeper connection does not answer, and lengths that overflow.

    ** Bounds and fuel

    - The interleaving theorems speak of states reached in fewer than 2^61
      transitions from a start time of at most 2^62 seconds ([clock_sane]), with task
      names whose index is at most 2^62 ([index_ok]), so that the [int64] counter
      does not wrap.  At a transition per nanosecond this is 73 years.
    - [reseed_wait] has fuel from the reseed timeout; SchedInv.v proves it enough
      when the clock advances.  [pop_valid] waits when its fuel is used up; each
      turn of the launcher may choose any fuel, so every finite run of the loop is
      covered.  [inner_loop] of [GetState] has no bound in the source: [GetState_spins]
      shows that no fuel is enough for some answers, [GetState_returns] that one
      round is enough when the answers decode.  [pop_loop] is bounded by
      the queue, the JSON parser by the length of the text.  The registration loop
      of the driver has no bound in the source; a step of the system may choose
      any fuel for it, and [registration_retried] shows one attempt for each unit.
      [send_loop] of the etcd client has no bound in the source when servers
      redirect ([redirects_spin]); without redirects twice the number of machines is
      enough.  [New] of the detectors follows files with fuel, which a file that
      names itself uses up ([New_cyclic_file]); the header readers of HttpDecoder.v have
      the length of what is left of the connection.
    - The runs of the ZooKeeper connection make fewer than 2^31 requests, so that numbers
      are not reused; the size of its buffers and its delay are parameters.  [multi_loop]
      has the length of its input ([multi_decodes_end]), [skip] of ProtoWire.v twice
      that length ([skip_ends]) and [unmarshal_loop] one turn for each byte ([unmarshal_ends]).

    ** What is simplified

    - Sections under a read lock that overlap in time are run one after the other,
      and so are the sections that take no lock; a data race has no behaviour of
      its own.  A goroutine that lists the previous reconciliation map after it was
      installed (scheduler.go:525-536) holds a reference to it ([oldMaps], [map_at]), and sees
      what was written to it meanwhile; the listing is one section.
    - A shutdown hook that is installed is an event; what follows it is still
      run, as with a hook that returns.  Durations are [int64] nanoseconds.
    - Error values carry their text where the sources build it; the text of library
      errors is not modelled.  [http.NewRequest] succeeds in src/rpc; in the messenger it may
      fail, and what it makes of a URL that it escapes is a parameter.
    - Memory is not exhausted, except by the allocations of the ZooKeeper client whose size
      the server names: whether they are granted is a parameter ([Memory]).
    - In the executor [LaunchTask] runs the goroutine it starts up to its loop.  In the loop
      a call of a command, of the file system, of etcd or of Mesos is one step.
    - In the drivers a timer may expire, and a delay may end, at any time; the
      outcome of the two [select]s of a stopping [withScheduler] is chosen by the
      environment; between two tasks of one lost launch another thread may run,
      where the source keeps the lock.  Sending is one event, answered by the
      environment, and an authentication is its outcome (Sasl.v has the process behind
      it).  Time stamps and the session
      identifiers of outgoing messages are left out.
    - A change of the ZooKeeper directory is handled in one step of the detector, and
      the listeners of the standalone detector do not panic.  Contexts of the
      messenger's [Send] are never done, as those of the drivers are not.  The
      decoder's lines are shorter than its buffer, and the goroutine that writes
      its answers takes them in order.  A successful answer of etcd is its
      index and term headers and whether its body decodes.
    - In the ZooKeeper client a decode that fails leaves no partial value, the exchange of
      [authenticate] is one step of the loop, an operation inside a multi request is not itself
      a multi request, and the order of a map is a choice of the run.  Unknown fields of a protocol buffer are skipped and
      not kept.  Requests to a multiplexer have a path that is clean, and run their handlers one
      after the other.

    ** What is not modelled

    Watches, TLS, cancelling and persistence of the etcd client; the locks, the four-letter
    words, the tracer and the server helpers of the ZooKeeper client, which nothing here calls;
    the messages of mesos.pb.go other than [MasterInfo] and [Address], whose code is generated by
    the same pattern, and the reflective codecs of the protocol buffer and codec libraries;
    glog, TLS and the logging connection of the transporter, the sockets
    that listen, flag parsing, the content of the static files, and the libraries that only tests use. *)

From stdpp Require Import base strings list gmap sorting.

(** ** Scope and hint databases *)

Declare Scope go_scope.
Delimit Scope go_scope with go.

Create HintDb etcd.

(** ** Tactics *)

(** A closed equation, decided by evaluation. *)
Ltac by_compute := vm_compute; reflexivity.

(** ** Lists *)

Section ListFacts.
Context {A : Type}.
Implicit Types l : list A.

(** Two members of a list without repeated keys that share a key are equal. *)
Lemma NoDup_fmap_elem_eq {B} (f : A → B) l x y :
  NoDup (f <$> l) → x ∈ l → y ∈ l → f x = f y → x = y.
Proof.
  induction l as [|a l IH]; intros Hnd Hx Hy Heq; [by apply not_elem_of_nil in Hx|].
  rewrite fmap_cons, NoDup_cons in Hnd. destruct Hnd as [Hni Hnd].
  apply elem_of_cons in Hx as [->|Hx]; apply elem_of_cons in Hy as [->|Hy]; auto.
  - destruct Hni. rewrite Heq. by apply list_elem_of_fmap_2.
  - destruct Hni. rewrite <- Heq. by apply list_elem_of_fmap_2.
Qed.

Lemma NoDup_snoc l x : NoDup l → x ∉ l → NoDup (l ++ [x]).
Proof.
  intros Hl Hx. apply NoDup_app. split; [done|]. split; [|apply NoDup_singleton].
  intros y Hy ->%list_elem_of_singleton. done.
Qed.

(** In a sorted list an element is related to those after it. *)
Lemma sorted_after (R : relation A) l1 x l2 y :
  StronglySorted R (l1 ++ x :: l2) → y ∈ l2 → R x y.
Proof.
  induction l1 as [|z l1 IH]; simpl; intros [Hs Hall]%StronglySorted_inv Hy; [|by auto].
  rewrite Forall_forall in Hall. by apply Hall.
Qed.
End ListFacts.

(** The changes in a sequence of values that follow a first one, and the last
    value. *)
Section Changes.
Context `{EqDecision A}.

Fixpoint changes (cur : A) (l : list A) : list A :=
  match l with
  | [] => []
  | n :: ns => if decide (n = cur) then changes cur ns else n :: changes n ns
  end.

Definition final (cur : A) (l : list A) : A := default cur (last l).

Lemma final_app cur a b : final cur (a ++ b) = final (final cur a) b.
Proof. unfold final. rewrite last_app. by destruct (last b). Qed.

Lemma changes_app cur a b : changes cur (a ++ b) = changes cur a ++ changes (final cur a) b.
Proof.
  revert cur. induction a as [|n a IH]; intros cur; [done|]. cbn [changes app].
  assert (Hf : final cur (n :: a) = final n a) by (unfold final; rewrite last_cons; by destruct (last a)).
  rewrite Hf. case_decide as Hn; [|by rewrite IH]. subst n. apply IH.
Qed.
End Changes.

(** ** Maps *)

Section MapFacts.
Context `{Countable K} {A : Type}.
Implicit Types m : gmap K A.

Lemma map_size_delete_le m k : size (delete k m) ≤ size m.
Proof.
  destruct (m !! k) as [x|] eqn:E.
  - rewrite (map_size_delete_Some k m) by (rewrite E; eauto). lia.
  - rewrite delete_id; auto.
Qed.

End MapFacts.

#[export] Hint Resolve map_size_delete_le : etcd.
