(* ===== verification/GoStd.v ===== *)
(** * The parts of Go and of its standard library the sources use

    Machine integers with their wrap-around ([uint64], [uint32], [int64]),
    [strings.Fields], [strings.Split], [strings.Join], [strings.TrimPrefix],
    [strings.HasPrefix], [strconv.ParseUint], [strconv.ParseInt],
    [strconv.FormatInt] and the [%d] verb.  Go strings are byte strings, so
    they are Rocq strings read byte by byte. *)

From Stdlib Require Import Ascii DecimalString DecimalN DecimalZ.
From stdpp Require Import base strings list numbers.
From S2P Require Import Prelude.

(** ** Machine integers *)

Definition u64 (z : Z) : Z := (z mod 2 ^ 64)%Z.
Definition u32 (z : Z) : Z := (z mod 2 ^ 32)%Z.
Definition i64 (z : Z) : Z := ((z + 2 ^ 63) mod 2 ^ 64 - 2 ^ 63)%Z.

Definition is_u64 (z : Z) : Prop := (0 ≤ z < 2 ^ 64)%Z.
Definition is_u32 (z : Z) : Prop := (0 ≤ z < 2 ^ 32)%Z.
Definition is_i64 (z : Z) : Prop := (- 2 ^ 63 ≤ z < 2 ^ 63)%Z.

Notation "x +u64 y" := (u64 (x + y)%Z) (at level 50, left associativity) : go_scope.
Notation "x -u64 y" := (u64 (x - y)%Z) (at level 50, left associativity) : go_scope.
Notation "x +u32 y" := (u32 (x + y)%Z) (at level 50, left associativity) : go_scope.

Lemma u64_bounds z : is_u64 (u64 z).
Proof. unfold is_u64, u64. apply Z.mod_pos_bound. lia. Qed.

Lemma u64_small z : is_u64 z → u64 z = z.
Proof. unfold is_u64, u64. apply Z.mod_small. Qed.

Lemma u32_bounds z : is_u32 (u32 z).
Proof. unfold is_u32, u32. apply Z.mod_pos_bound. lia. Qed.

Lemma i64_small z : is_i64 z → i64 z = z.
Proof. unfold is_i64, i64. intros. rewrite Z.mod_small; lia. Qed.

Lemma i64_bounds z : is_i64 (i64 z).
Proof.
  unfold is_i64, i64.
  pose proof (Z.mod_pos_bound (z + 2 ^ 63) (2 ^ 64) ltac:(lia)). lia.
Qed.

#[export] Hint Resolve u64_bounds u32_bounds i64_bounds : etcd.

(** ** Bytes of a string *)

Definition byte (a : ascii) : N := N_of_ascii a.

(** The [i]-th byte, 0 past the end. *)
Fixpoint byte_at (i : nat) (s : string) : N :=
  match s, i with
  | "", _ => 0%N
  | String a _, O => byte a
  | String _ s, S i => byte_at i s
  end.

Fixpoint all_bytes (p : ascii → bool) (s : string) : bool :=
  match s with
  | "" => true
  | String a s => p a && all_bytes p s
  end.

Lemma sapp_cons a s t : String a s +:+ t = String a (s +:+ t).
Proof. done. Qed.

Lemma sapp_nil_l s : "" +:+ s = s.
Proof. done. Qed.

Create Rewrite HintDb gostr.
#[export] Hint Rewrite sapp_cons sapp_nil_l : gostr.

Lemma all_bytes_app p s t : all_bytes p (s +:+ t) = all_bytes p s && all_bytes p t.
Proof.
  induction s as [|a s IH]; [done|]. rewrite sapp_cons. simpl. rewrite IH.
  by rewrite andb_assoc.
Qed.

Lemma all_bytes_impl (p q : ascii → bool) s :
  (∀ a, p a = true → q a = true) → all_bytes p s = true → all_bytes q s = true.
Proof.
  intros Hpq. induction s as [|a s IH]; simpl; [done|].
  rewrite !andb_true_iff. intros [Ha Hs]. auto.
Qed.

Lemma string_app_assoc s t u : (s +:+ t) +:+ u = s +:+ (t +:+ u).
Proof. induction s as [|a s IH]; [done|]. rewrite !sapp_cons. by rewrite IH. Qed.

Lemma string_app_nil s : s +:+ "" = s.
Proof. induction s as [|a s IH]; [done|]. rewrite sapp_cons. by rewrite IH. Qed.

(** ** [strings.Fields] *)

(** Width in bytes of the white-space rune the string starts with, 0 when it
    starts with none: the ASCII white space and the UTF-8 encodings of the
    runes [unicode.IsSpace] accepts (U+0085, U+00A0, U+1680, U+2000 to
    U+200A, U+2028, U+2029, U+202F, U+205F, U+3000).  A continuation byte
    starts none of these, so a byte-wise scan agrees with Go's rune-wise one. *)
Definition space_width (s : string) : nat :=
  let b0 := byte_at 0 s in
  let b1 := byte_at 1 s in
  let b2 := byte_at 2 s in
  if ((9 <=? b0) && (b0 <=? 13) || (b0 =? 32))%N then 1
  else if ((b0 =? 0xC2) && ((b1 =? 0x85) || (b1 =? 0xA0)))%N then 2
  else if ((b0 =? 0xE1) && (b1 =? 0x9A) && (b2 =? 0x80))%N then 3
  else if ((b0 =? 0xE2) && (b1 =? 0x80) &&
           ((0x80 <=? b2) && (b2 <=? 0x8A) || (b2 =? 0xA8) || (b2 =? 0xA9) || (b2 =? 0xAF)))%N then 3
  else if ((b0 =? 0xE2) && (b1 =? 0x81) && (b2 =? 0x9F))%N then 3
  else if ((b0 =? 0xE3) && (b1 =? 0x80) && (b2 =? 0x80))%N then 3
  else 0.

Definition push_word (w : string) (ws : list string) : list string :=
  match w with "" => ws | _ => w :: ws end.

(** The bytes up to the first white space, and the words after it; [skip]
    counts the bytes left of a white-space rune already recognised. *)
Fixpoint fields_split (skip : nat) (s : string) : string * list string :=
  match s with
  | "" => ("", [])
  | String a s' =>
      match skip with
      | S k => fields_split k s'
      | O =>
          match space_width s with
          | O => let '(w, ws) := fields_split 0 s' in (String a w, ws)
          | S k => let '(w, ws) := fields_split k s' in ("", push_word w ws)
          end
      end
  end.

Definition Fields (s : string) : list string :=
  let '(w, ws) := fields_split 0 s in push_word w ws.

(** A string in which no white-space rune starts. *)
Fixpoint no_space (s : string) : bool :=
  match s with
  | "" => true
  | String _ s' => (space_width s =? 0)%nat && no_space s'
  end.

(** Neither the end of the string nor a space completes a multi-byte
    white-space rune: a separator leaves the widths before it unchanged. *)
Lemma space_width_app_space a s t :
  space_width (String a s) = 0 → space_width (String a (s +:+ String " " t)) = 0.
Proof.
  assert (Hsp : byte " " = 32%N) by done.
  destruct s as [|b [|c s]]; autorewrite with gostr; unfold space_width; cbn [byte_at];
    rewrite ?Hsp; intros H.
  - repeat case_match; simplify_eq; try done;
      repeat match goal with E : _ = true |- _ => revert E end;
      rewrite ?andb_false_r; done.
  - repeat case_match; simplify_eq; try done;
      repeat match goal with E : _ = true |- _ => revert E end;
      rewrite ?andb_false_r; done.
  - done.
Qed.

Lemma fields_split_word w t :
  no_space w = true →
  fields_split 0 (w +:+ String " " t) = (w, Fields t).
Proof.
  induction w as [|a w IH]; intros Hns.
  - autorewrite with gostr. unfold Fields. simpl.
    destruct (fields_split 0 t) as [w ws]. done.
  - cbn [no_space] in Hns. apply andb_true_iff in Hns as [Hw Hns]. apply Nat.eqb_eq in Hw.
    rewrite sapp_cons. cbn [fields_split].
    rewrite space_width_app_space by done. by rewrite IH.
Qed.

Lemma fields_split_last w :
  no_space w = true → fields_split 0 w = (w, []).
Proof.
  induction w as [|a w IH]; intros Hns; [done|].
  cbn [no_space] in Hns. apply andb_true_iff in Hns as [Hw Hns]. apply Nat.eqb_eq in Hw.
  cbn [fields_split]. rewrite Hw. by rewrite IH.
Qed.

(** A word followed by one space is the first field, and the rest follow. *)
Lemma Fields_cons w t :
  w ≠ "" → no_space w = true → Fields (w +:+ String " " t) = w :: Fields t.
Proof.
  intros Hne Hns. unfold Fields at 1. rewrite fields_split_word by done.
  by destruct w.
Qed.

Lemma Fields_last w : w ≠ "" → no_space w = true → Fields w = [w].
Proof.
  intros Hne Hns. unfold Fields. rewrite fields_split_last by done. by destruct w.
Qed.

(** Printable ASCII other than the space never starts white space. *)
Definition is_graphic (a : ascii) : bool := ((33 <=? byte a) && (byte a <=? 126))%N.

Lemma graphic_no_space s : all_bytes is_graphic s = true → no_space s = true.
Proof.
  induction s as [|a s IH]; cbn [all_bytes no_space]; [done|].
  rewrite !andb_true_iff. intros [Ha Hs]. split; [|auto]. apply Nat.eqb_eq.
  unfold is_graphic in Ha. apply andb_true_iff in Ha as [H1 H2].
  apply N.leb_le in H1, H2. unfold space_width. cbn [byte_at].
  repeat case_match; try done; exfalso;
    repeat match goal with
    | E : (_ || _) = true |- _ => apply orb_true_iff in E as [E|E]
    | E : (_ && _) = true |- _ => apply andb_true_iff in E as [E ?]
    | E : (_ <=? _)%N = true |- _ => apply N.leb_le in E
    | E : (_ =? _)%N = true |- _ => apply N.eqb_eq in E
    end; lia.
Qed.

(** More bytes after a string cannot turn white space into something else. *)
Lemma space_width_app a s t :
  space_width (String a (s +:+ t)) = 0 → space_width (String a s) = 0.
Proof.
  destruct s as [|b [|c s]]; autorewrite with gostr; unfold space_width; cbn [byte_at].
  1,2: rewrite ?andb_false_r; intros H; repeat case_match; simplify_eq; done.
  done.
Qed.

Lemma fields_split_words skip s w ws :
  fields_split skip s = (w, ws) →
  (skip = 0 → no_space w = true ∧ ∃ r, s = w +:+ r) ∧
  no_space w = true ∧ Forall (λ v, v ≠ "" ∧ no_space v = true) ws.
Proof.
  revert skip w ws. induction s as [|a s IH]; intros skip w ws; cbn [fields_split].
  { intros [= <- <-]. split; [|done]. intros _. split; [done|]. by exists "". }
  destruct skip as [|k].
  - destruct (space_width (String a s)) as [|k] eqn:Hw.
    + destruct (fields_split 0 s) as [w' ws'] eqn:E. intros [= <- <-].
      destruct (IH _ _ _ E) as (H0 & Hns & Hws).
      destruct (H0 eq_refl) as (_ & r & ->).
      assert (no_space (String a w') = true).
      { cbn [no_space]. rewrite Hns, andb_true_r. apply Nat.eqb_eq.
        by eapply space_width_app. }
      split; [|done]. intros _. split; [done|]. by exists r.
    + destruct (fields_split k s) as [w' ws'] eqn:E. intros [= <- <-].
      destruct (IH _ _ _ E) as (_ & Hns & Hws).
      split; [|split; [done|]].
      * intros _. split; [done|]. by exists (String a s).
      * destruct w'; [done|]. constructor; [|done]. done.
  - intros E. destruct (IH _ _ _ E) as (_ & Hns & Hws). done.
Qed.

(** Every field is a non-empty word without white space. *)
Lemma Fields_words s : Forall (λ w, w ≠ "" ∧ no_space w = true) (Fields s).
Proof.
  unfold Fields. destruct (fields_split 0 s) as [w ws] eqn:E.
  apply fields_split_words in E as (_ & Hw & Hws).
  destruct w; [done|]. constructor; done.
Qed.

(** ** [strings.Split], [strings.Join] and prefixes *)

(** [strings.Split(s, sep)] for a separator of one byte. *)
Fixpoint Split (s : string) (sep : ascii) : list string :=
  match s with
  | "" => [""]
  | String a s' =>
      if bool_decide (a = sep) then "" :: Split s' sep
      else match Split s' sep with
           | [] => [String a ""]
           | w :: ws => String a w :: ws
           end
  end.

Fixpoint Join (ws : list string) (sep : string) : string :=
  match ws with
  | [] => ""
  | [w] => w
  | w :: ws => w +:+ sep +:+ Join ws sep
  end.

Definition has_no (c : ascii) (s : string) : bool := all_bytes (λ a, negb (bool_decide (a = c))) s.

Lemma Split_no s c : has_no c s = true → Split s c = [s].
Proof.
  unfold has_no. induction s as [|a s IH]; simpl; [done|].
  rewrite andb_true_iff, negb_true_iff. intros [Ha Hs]. rewrite Ha. by rewrite IH.
Qed.

Lemma Split_app s t c : has_no c s = true → Split (s +:+ String c t) c = s :: Split t c.
Proof.
  unfold has_no. induction s as [|a s IH].
  - intros _. simpl. by rewrite bool_decide_eq_true_2.
  - simpl. rewrite andb_true_iff, negb_true_iff. intros [Ha Hs]. rewrite Ha.
    by rewrite IH.
Qed.

(** Splitting a joined list gives the list back. *)
Lemma Split_Join ws c :
  ws ≠ [] → Forall (λ w, has_no c w = true) ws →
  Split (Join ws (String c "")) c = ws.
Proof.
  intros Hne Hall. induction Hall as [|w ws Hw Hall IH]; [done|].
  destruct ws as [|w' ws]; [by apply Split_no|].
  change (Join (w :: w' :: ws) (String c ""))
    with (w +:+ String c (Join (w' :: ws) (String c ""))).
  rewrite Split_app by done. f_equal. by apply IH.
Qed.

Lemma Split_nonempty s c : Split s c ≠ [].
Proof. destruct s as [|a s]; simpl; [done|]. repeat case_match; done. Qed.

Fixpoint HasPrefix (s p : string) {struct p} : bool :=
  match p, s with
  | "", _ => true
  | String a p, String b s => bool_decide (a = b) && HasPrefix s p
  | _, _ => false
  end.

(** The bytes after the first [n]. *)
Fixpoint drop_bytes (n : nat) (s : string) : string :=
  match n, s with
  | S n, String _ s => drop_bytes n s
  | _, _ => s
  end.

Definition TrimPrefix (s p : string) : string :=
  if HasPrefix s p then drop_bytes (String.length p) s else s.

Lemma HasPrefix_app p s : HasPrefix (p +:+ s) p = true.
Proof.
  induction p as [|a p IH]; [done|]. rewrite sapp_cons. simpl.
  by rewrite bool_decide_eq_true_2.
Qed.

Lemma drop_bytes_app p s : drop_bytes (String.length p) (p +:+ s) = s.
Proof. induction p as [|a p IH]; [done|]. by rewrite sapp_cons. Qed.

Lemma TrimPrefix_app p s : TrimPrefix (p +:+ s) p = s.
Proof. unfold TrimPrefix. by rewrite HasPrefix_app, drop_bytes_app. Qed.

Lemma HasPrefix_true s p : HasPrefix s p = true → s = p +:+ drop_bytes (String.length p) s.
Proof.
  revert s. induction p as [|a p IH]; intros s; [done|].
  destruct s as [|b s]; simpl; [done|]. rewrite andb_true_iff. intros [Ha Hs].
  apply bool_decide_eq_true in Ha as ->. rewrite sapp_cons. f_equal. by apply IH.
Qed.

(** ** [strconv] *)

Definition ParseUint (s : string) : option Z :=
  match s with
  | "" => None
  | _ => d ← NilEmpty.uint_of_string s;
         let n := Z.of_N (N.of_uint d) in
         if bool_decide (n < 2 ^ 64)%Z then Some n else None
  end.

Definition ParseInt (s : string) : option Z :=
  let '(neg, digits) :=
    match s with
    | String "-" r => (true, r)
    | String "+" r => (false, r)
    | _ => (false, s)
    end in
  un ← ParseUint digits;
  if negb neg && bool_decide (2 ^ 63 ≤ un)%Z then None
  else if neg && bool_decide (2 ^ 63 < un)%Z then None
  else Some (if neg then - un else un)%Z.

Definition FormatUint (z : Z) : string := NilEmpty.string_of_uint (N.to_uint (Z.to_N z)).

Definition FormatInt (z : Z) : string :=
  if bool_decide (z < 0)%Z then String "-" (FormatUint (- z)) else FormatUint z.

Definition is_digit (a : ascii) : bool := ((48 <=? byte a) && (byte a <=? 57))%N.

Lemma string_of_uint_digits d : all_bytes is_digit (NilEmpty.string_of_uint d) = true.
Proof. induction d; simpl; auto. Qed.

Lemma FormatUint_digits z : all_bytes is_digit (FormatUint z) = true.
Proof. apply string_of_uint_digits. Qed.

Lemma digit_graphic a : is_digit a = true → is_graphic a = true.
Proof.
  unfold is_digit, is_graphic. rewrite !andb_true_iff, !N.leb_le. lia.
Qed.

Lemma FormatUint_graphic z : all_bytes is_graphic (FormatUint z) = true.
Proof. eapply all_bytes_impl; [apply digit_graphic|apply FormatUint_digits]. Qed.

Lemma to_uint_nonnil n : N.to_uint n ≠ Decimal.Nil.
Proof.
  intros E. pose proof (DecimalN.Unsigned.of_to n) as H. rewrite E in H.
  subst n. done.
Qed.

Lemma FormatUint_nonempty z : FormatUint z ≠ "".
Proof.
  unfold FormatUint. pose proof (to_uint_nonnil (Z.to_N z)).
  by destruct (N.to_uint (Z.to_N z)).
Qed.

(** Printing then parsing an unsigned number gives it back. *)
Lemma ParseUint_FormatUint z : is_u64 z → ParseUint (FormatUint z) = Some z.
Proof.
  intros Hz. unfold ParseUint.
  destruct (FormatUint z) as [|a s] eqn:E; [by apply FormatUint_nonempty in E|].
  rewrite <- E. unfold FormatUint. rewrite NilEmpty.usu. simpl.
  rewrite DecimalN.Unsigned.of_to, Z2N.id by (unfold is_u64 in Hz; lia).
  by rewrite bool_decide_eq_true_2 by (unfold is_u64 in Hz; lia).
Qed.

Lemma ParseUint_bounds s z : ParseUint s = Some z → is_u64 z.
Proof.
  unfold ParseUint, is_u64. destruct s; [done|].
  intros (d & _ & H)%bind_Some. case_bool_decide; simplify_eq. lia.
Qed.

(** Printing then parsing a signed number gives it back. *)
Lemma ParseInt_FormatInt z : is_i64 z → ParseInt (FormatInt z) = Some z.
Proof.
  unfold is_i64. intros Hz. unfold FormatInt. case_bool_decide as Hneg.
  - unfold ParseInt. rewrite ParseUint_FormatUint by (unfold is_u64; lia). simpl.
    rewrite bool_decide_eq_false_2 by lia. f_equal. lia.
  - unfold ParseInt. pose proof (FormatUint_digits z) as Hd.
    assert (Hs : match FormatUint z with
                 | String "-" r => (true, r) | String "+" r => (false, r)
                 | _ => (false, FormatUint z) end = (false, FormatUint z)).
    { destruct (FormatUint z) as [|a s]; [done|]. cbn [all_bytes] in Hd.
      apply andb_true_iff in Hd as [Ha _]. unfold is_digit in Ha.
      by destruct a as [[] [] [] [] [] [] [] []]. }
    rewrite Hs, ParseUint_FormatUint by (unfold is_u64; lia). simpl.
    by rewrite bool_decide_eq_false_2 by lia.
Qed.

Lemma FormatInt_inj z1 z2 : is_i64 z1 → is_i64 z2 → FormatInt z1 = FormatInt z2 → z1 = z2.
Proof.
  intros H1 H2 E. apply ParseInt_FormatInt in H1, H2. rewrite E in H1. congruence.
Qed.

(** *** Decimal numbers of a fixed width are ordered as their texts *)

Fixpoint digits_val (acc : N) (s : string) : N :=
  match s with
  | "" => acc
  | String a s => digits_val (acc * 10 + (byte a - 48)) s
  end.

(** The value of a digit in front of others, from an accumulator. *)
Lemma uint_of_digit a d : is_digit a = true → ∃ d', uint_of_char a (Some d) = Some d' ∧
  (∀ p, ∃ p', N.pos p' = (N.pos p * 10 + (byte a - 48))%N ∧ Pos.of_uint_acc d' p = Pos.of_uint_acc d p') ∧
  (N.of_uint d' = N.of_uint d ∧ (byte a - 48 = 0)%N ∨
   ∃ p', N.pos p' = (byte a - 48)%N ∧ N.of_uint d' = N.pos (Pos.of_uint_acc d p')).
Proof.
  intros Ha. destruct a as [[] [] [] [] [] [] [] []]; vm_compute in Ha; try discriminate Ha;
    eexists; (split; [reflexivity|]); (split; [intros p; eexists; split; [|reflexivity]; unfold byte; cbn; lia|]);
    first [by left|right; eexists; split; [|reflexivity]; reflexivity].
Qed.

Lemma digits_uint s : all_bytes is_digit s = true → ∃ d, NilEmpty.uint_of_string s = Some d ∧
  (∀ p, N.pos (Pos.of_uint_acc d p) = digits_val (N.pos p) s) ∧ N.of_uint d = digits_val 0 s.
Proof.
  induction s as [|a s IH]; cbn [all_bytes]; [intros _; by eexists|]. intros [Ha Hs]%andb_true_iff.
  destruct (IH Hs) as (d & Hd & Hacc & Hval), (uint_of_digit a d Ha) as (d' & Hd' & Hacc' & Hval').
  exists d'. cbn [NilEmpty.uint_of_string digits_val]. rewrite Hd. split_and!; [done| |].
  - intros p. destruct (Hacc' p) as (p' & Hp' & ->). by rewrite Hacc, Hp'.
  - rewrite N.mul_0_l, N.add_0_l. destruct Hval' as [[-> ->]|(p' & <- & ->)]; [done|apply Hacc].
Qed.

Lemma digits_val_bounds acc s : all_bytes is_digit s = true →
  (acc * 10 ^ N.of_nat (String.length s) ≤ digits_val acc s < (acc + 1) * 10 ^ N.of_nat (String.length s))%N.
Proof.
  revert acc. induction s as [|a s IH]; intros acc; cbn [all_bytes digits_val String.length]; [simpl; lia|].
  intros [Ha Hs]%andb_true_iff. specialize (IH (acc * 10 + (byte a - 48))%N Hs).
  unfold is_digit in Ha. apply andb_true_iff in Ha as [H1%N.leb_le H2%N.leb_le].
  rewrite Nat2N.inj_succ, N.pow_succ_r'. set (k := (10 ^ _)%N) in *. nia.
Qed.

Lemma digits_val_le acc s t :
  all_bytes is_digit s = true → all_bytes is_digit t = true → String.length s = String.length t →
  String.le s t → (digits_val acc s ≤ digits_val acc t)%N.
Proof.
  revert acc t. induction s as [|a s IH]; intros acc [|b t]; cbn [all_bytes digits_val String.length]; try done.
  intros [Ha Hs]%andb_true_iff [Hb Ht]%andb_true_iff [= Hlen] Hle.
  unfold is_digit in Ha, Hb. apply andb_true_iff in Ha as [H1%N.leb_le H2%N.leb_le], Hb as [H3%N.leb_le H4%N.leb_le].
  unfold String.le, String.leb in Hle. cbn [String.compare] in Hle. unfold Ascii.compare in Hle. unfold byte in *.
  destruct (N.compare_spec (N_of_ascii a) (N_of_ascii b)) as [Heq|Hlt|Hgt]; [| |done].
  - rewrite Heq. by apply IH.
  - pose proof (digits_val_bounds (acc * 10 + (N_of_ascii a - 48)) s Hs) as Bs.
    pose proof (digits_val_bounds (acc * 10 + (N_of_ascii b - 48)) t Ht) as Bt.
    rewrite Hlen in Bs.
    pose proof (N.mul_le_mono_r (acc * 10 + (N_of_ascii a - 48) + 1) (acc * 10 + (N_of_ascii b - 48))
      (10 ^ N.of_nat (String.length t)) ltac:(lia)). lia.
Qed.

(** Up to nineteen digits there is no overflow. *)
Lemma ParseUint_digits s :
  all_bytes is_digit s = true → s ≠ "" → String.length s ≤ 19 →
  ParseUint s = Some (Z.of_N (digits_val 0 s)) ∧ (Z.of_N (digits_val 0 s) < 10 ^ 19)%Z.
Proof.
  intros Hs Hne Hlen. pose proof (digits_val_bounds 0 s Hs) as [_ B]. rewrite N.mul_1_l in B.
  pose proof (N.pow_le_mono_r 10 (N.of_nat (String.length s)) 19 ltac:(lia) ltac:(lia)) as Hp.
  change (10 ^ 19)%N with 10000000000000000000%N in Hp. change (10 ^ 19)%Z with 10000000000000000000%Z.
  destruct (digits_uint s Hs) as (d & Hd & _ & Hv). rewrite <- Hv in *. split; [|lia].
  unfold ParseUint. destruct s; [done|]. rewrite Hd. cbn [mbind option_bind].
  rewrite bool_decide_eq_true_2; [done|]. change (2 ^ 64)%Z with 18446744073709551616%Z. lia.
Qed.

Lemma digits_val_inj acc acc' s t :
  all_bytes is_digit s = true → all_bytes is_digit t = true → String.length s = String.length t →
  digits_val acc s = digits_val acc' t → acc = acc' ∧ s = t.
Proof.
  revert acc acc' t. induction s as [|a s IH]; intros acc acc' [|b t]; cbn [all_bytes digits_val String.length]; try done.
  intros [Ha Hs]%andb_true_iff [Hb Ht]%andb_true_iff [= Hlen] Hv.
  destruct (IH _ _ _ Hs Ht Hlen Hv) as [Hacc ->].
  unfold is_digit in Ha, Hb. apply andb_true_iff in Ha as [H1%N.leb_le H2%N.leb_le], Hb as [H3%N.leb_le H4%N.leb_le].
  split; [lia|]. f_equal. unfold byte in *. rewrite <- (ascii_N_embedding a), <- (ascii_N_embedding b). f_equal. lia.
Qed.
