(* ===== verification/Errors.v ===== *)
(** * Error values

    Go's [error] values as the sources produce and compare them: the sentinels
    of src/errors/errors.go, [config.ErrUnmarshal], the ZooKeeper client's
    [ErrNoNode] and [ErrNodeExists] (the only ones the code tests for), the
    errors built by [errors.New] and [fmt.Errorf], and those an HTTP client, a
    body read, the JSON decoder, the ZooKeeper client, the driver or the
    operating system report. *)

From stdpp Require Import base strings.
From S2P Require Import Prelude.

Inductive error : Type :=
  | ErrNoLeader
  | ErrEtcdConnection
  | ErrEtcdEndpoint
  | ErrEtcdRaftTermInstability
  | ErrEtcdRaftStall
  | ErrUnmarshal
  | ErrZkNoNode
  | ErrZkNodeExists
  | ErrZk (msg : string)
  | ErrNew (msg : string)
  | ErrHttp (msg : string)
  | ErrRead (msg : string)
  | ErrJson
  | ErrProto
  | ErrDriver (msg : string)
  | ErrOs (msg : string).

#[export] Instance error_eq_dec : EqDecision error.
Proof. solve_decision. Defined.

(** A value or an error: the [(T, error)] results of which the callers use the
    value only when the error is nil. *)
Inductive result (A : Type) : Type :=
  | Ok (a : A)
  | Err (e : error).
Arguments Ok {A} a.
Arguments Err {A} e.

#[export] Instance result_ret : MRet result := λ A a, Ok a.
#[export] Instance result_bind : MBind result := λ A B f m,
  match m with Ok a => f a | Err e => Err e end.

(** A call that returns, or a run-time panic: an index out of range, a nil
    pointer, a nil function. *)
Inductive go (A : Type) : Type :=
  | Returns (a : A)
  | Panics.
Arguments Returns {A} a.
Arguments Panics {A}.
