(* ===== verification/Upid.v ===== *)
(** * Process identifiers (mesos-go/upid/upid.go, vendored)

    A libprocess process is named [id@host:port].  [net.ResolveTCPAddr] asks the
    resolver, so whether it accepts an address is a parameter; it splits the
    address with [net.SplitHostPort] first, and so does [Parse] afterwards. *)

From Stdlib Require Import Ascii.
From stdpp Require Import base strings list.
From S2P Require Import Prelude GoStd Errors.

Record UPID := mkUPID {
  PidID : string;
  PidHost : string;
  PidPort : string;
}.

#[export] Instance UPID_eq_dec : EqDecision UPID.
Proof. solve_decision. Defined.

(** [net.SplitHostPort]: the port follows the last colon; a host in brackets may
    contain colons, another one may not. *)
Definition SplitHostPort (hostport : string) : option (string * string) :=
  match reverse (Split hostport ":") with
  | port :: ((_ :: _) as rest) =>
      let host := Join (reverse rest) ":" in
      if HasPrefix host "[" then
        match Split (drop_bytes 1 host) "]" with
        | [inner; ""] =>
            if has_no "[" inner && has_no "[" port && has_no "]" port then Some (inner, port) else None
        | _ => None
        end
      else if has_no ":" host && has_no "%" host && has_no "[" hostport && has_no "]" hostport
      then Some (host, port) else None
  | _ => None
  end.

(** [Parse]; the answer of [SplitHostPort] is there when [ResolveTCPAddr] accepted
    the address. *)
Definition Parse (ResolveTCPAddr : string → option error) (input : string) : result UPID :=
  match Split input "@" with
  | [id; addr] =>
      match ResolveTCPAddr addr with
      | Some e => Err e
      | None => let hp := default ("", "") (SplitHostPort addr) in Ok (mkUPID id hp.1 hp.2)
      end
  | _ => Err (ErrNew "Expect one `@' in the input")
  end.

Definition PidString (u : UPID) : string := PidID u +:+ "@" +:+ PidHost u +:+ ":" +:+ PidPort u.

(** [Equal] on pointers: nil equals nil only. *)
Definition Equal (u v : option UPID) : bool := bool_decide (u = v).

(** ** Printing and parsing *)

(** Free of the characters that structure an address. *)
Definition plain_text (s : string) : Prop :=
  has_no "@" s = true ∧ has_no ":" s = true ∧ has_no "%" s = true ∧ has_no "[" s = true ∧ has_no "]" s = true.

Definition wf_upid (u : UPID) : Prop :=
  has_no "@" (PidID u) = true ∧ plain_text (PidHost u) ∧ plain_text (PidPort u).

Lemma has_no_app c s t : has_no c (s +:+ t) = has_no c s && has_no c t.
Proof. apply all_bytes_app. Qed.

Lemma has_no_prefix s : has_no "[" s = true → HasPrefix s "[" = false.
Proof.
  destruct s as [|a s]; [done|]. unfold has_no. simpl. rewrite andb_true_iff, negb_true_iff.
  intros [Ha _]. apply bool_decide_eq_false in Ha. by rewrite bool_decide_eq_false_2.
Qed.

Lemma SplitHostPort_plain host port :
  plain_text host → plain_text port → SplitHostPort (host +:+ ":" +:+ port) = Some (host, port).
Proof.
  intros (_ & Hc & Hp & Hl & Hr) (_ & Hc' & _ & Hl' & Hr'). unfold SplitHostPort.
  rewrite !has_no_app, Hl, Hr, Hl', Hr', (sapp_cons ":" ""), sapp_nil_l, Split_app, (Split_no port) by done.
  cbn [reverse rev_append Join].
  rewrite has_no_prefix by done. by rewrite Hc, Hp.
Qed.

Lemma Parse_PidString resolve u :
  wf_upid u → resolve (PidHost u +:+ ":" +:+ PidPort u) = None → Parse resolve (PidString u) = Ok u.
Proof.
  intros (Hi & Hh & Hpo) Hres. unfold Parse, PidString.
  rewrite (sapp_cons "@" ""), sapp_nil_l, Split_app by done.
  rewrite Split_no by (by rewrite !has_no_app, (proj1 Hh), (proj1 Hpo)).
  rewrite Hres, SplitHostPort_plain by done. by destruct u.
Qed.

(** A process identifier survives printing.  When the identifier has no [@],
    the host and the port contain none of the characters that structure an
    address, and the resolver accepts the address, parsing the printed form
    gives the process back; so distinct such processes print differently. *)
Theorem upid_round_trip resolve u v :
  wf_upid u → wf_upid v → resolve (PidHost u +:+ ":" +:+ PidPort u) = None →
  Parse resolve (PidString u) = Ok u ∧ (PidString u = PidString v → u = v).
Proof.
  intros Hu Hv Hres. split; [by apply Parse_PidString|]. intros Heq.
  assert (Hs : Split (PidString u) "@" = Split (PidString v) "@") by by rewrite Heq.
  assert (Hr' : resolve (PidHost v +:+ ":" +:+ PidPort v) = None).
  { revert Hs. unfold PidString. destruct Hu as (Hi & Hh & Hpo), Hv as (Hi' & Hh' & Hpo').
    rewrite !(sapp_cons "@" ""), !sapp_nil_l, !Split_app by done.
    rewrite !Split_no by (rewrite !has_no_app; (rewrite (proj1 Hh), (proj1 Hpo) || rewrite (proj1 Hh'), (proj1 Hpo')); done).
    intros [= _ <-]. done. }
  pose proof (Parse_PidString _ u Hu Hres) as E1. pose proof (Parse_PidString _ v Hv Hr') as E2. rewrite Heq in E1. congruence.
Qed.

Lemma upid_round_trip_witness :
  Parse (λ _, None) "master@10.0.0.1:5050" = Ok (mkUPID "master" "10.0.0.1" "5050").
Proof.
  apply (upid_round_trip (λ _, None) (mkUPID "master" "10.0.0.1" "5050") (mkUPID "master" "10.0.0.1" "5050"));
    try done; split_and!; by_compute.
Defined.
