(* ===== verification/Md5.v ===== *)
(** * MD5 and HMAC

    The functions [md5.New] with [Sum], [hmac.New] with [Sum] and [hex.EncodeToString] of Go's
    library, as the CRAM-MD5 mechanism uses them (RFC 1321, RFC 2104).  Bytes are
    numbers below 256, words numbers below 2^32. *)

From Stdlib Require Import Ascii.
From stdpp Require Import base strings list.
From S2P Require Import Prelude GoStd.

(** ** MD5 *)

Definition md5_shifts (i : nat) : Z :=
  nth (i mod 4) (nth (i / 16) [[7; 12; 17; 22]; [5; 9; 14; 20]; [4; 11; 16; 23]; [6; 10; 15; 21]]%Z []) 0%Z.

Definition md5_table : list Z :=
  [0xd76aa478; 0xe8c7b756; 0x242070db; 0xc1bdceee; 0xf57c0faf; 0x4787c62a; 0xa8304613; 0xfd469501;
   0x698098d8; 0x8b44f7af; 0xffff5bb1; 0x895cd7be; 0x6b901122; 0xfd987193; 0xa679438e; 0x49b40821;
   0xf61e2562; 0xc040b340; 0x265e5a51; 0xe9b6c7aa; 0xd62f105d; 0x02441453; 0xd8a1e681; 0xe7d3fbc8;
   0x21e1cde6; 0xc33707d6; 0xf4d50d87; 0x455a14ed; 0xa9e3e905; 0xfcefa3f8; 0x676f02d9; 0x8d2a4c8a;
   0xfffa3942; 0x8771f681; 0x6d9d6122; 0xfde5380c; 0xa4beea44; 0x4bdecfa9; 0xf6bb4b60; 0xbebfbc70;
   0x289b7ec6; 0xeaa127fa; 0xd4ef3085; 0x04881d05; 0xd9d4d039; 0xe6db99e5; 0x1fa27cf8; 0xc4ac5665;
   0xf4292244; 0x432aff97; 0xab9423a7; 0xfc93a039; 0x655b59c3; 0x8f0ccc92; 0xffeff47d; 0x85845dd1;
   0x6fa87e4f; 0xfe2ce6e0; 0xa3014314; 0x4e0811a1; 0xf7537e82; 0xbd3af235; 0x2ad7d2bb; 0xeb86d391]%Z.

Definition not32 (x : Z) : Z := (2 ^ 32 - 1 - x)%Z.
Definition rotl32 (x c : Z) : Z := Z.lor (u32 (Z.shiftl x c)) (Z.shiftr x (32 - c)).

(** The function of a round and the word of the block it adds. *)
Definition md5_mix (i : nat) (b c d : Z) : Z :=
  match (i / 16)%nat with
  | 0%nat => Z.lor (Z.land b c) (Z.land (not32 b) d)
  | 1%nat => Z.lor (Z.land d b) (Z.land (not32 d) c)
  | 2%nat => Z.lxor b (Z.lxor c d)
  | _ => Z.lxor c (Z.lor b (not32 d))
  end.
Definition md5_word (i : nat) : nat :=
  match i / 16 with
  | 0 => i
  | 1 => (5 * i + 1) mod 16
  | 2 => (3 * i + 5) mod 16
  | _ => (7 * i) mod 16
  end.

Definition md5_state : Type := Z * Z * Z * Z.

Definition md5_round (block : list Z) (st : md5_state) (i : nat) : md5_state :=
  let '(a, b, c, d) := st in
  let f := u32 (md5_mix i b c d + a + nth i md5_table 0 + nth (md5_word i) block 0)%Z in
  (d, u32 (b + rotl32 f (md5_shifts i)), b, c).

Definition md5_block (st : md5_state) (block : list Z) : md5_state :=
  let '(a, b, c, d) := st in
  let '(a', b', c', d') := foldl (md5_round block) st (seq 0 64) in
  (u32 (a + a'), u32 (b + b'), u32 (c + c'), u32 (d + d')).

(** The bytes of a number, the low one first, and back. *)
Fixpoint le_bytes (n : nat) (z : Z) : list Z :=
  match n with O => [] | S n => Z.land z 255 :: le_bytes n (Z.shiftr z 8) end.
Fixpoint le_value (bs : list Z) : Z :=
  match bs with [] => 0 | b :: bs => (b + 256 * le_value bs)%Z end.

Fixpoint groups (fuel n : nat) (l : list Z) : list (list Z) :=
  match fuel, l with
  | S fuel, _ :: _ => take n l :: groups fuel n (drop n l)
  | _, _ => []
  end.

Definition md5_pad (m : list Z) : list Z :=
  m ++ [128%Z] ++ replicate ((55 + 64 - length m mod 64) mod 64) 0%Z ++ le_bytes 8 (u64 (8 * Z.of_nat (length m))).

Definition md5 (m : list Z) : list Z :=
  let p := md5_pad m in
  let blocks := (λ b, le_value <$> groups 16 4 b) <$> groups (length p) 64 p in
  let '(a, b, c, d) := foldl md5_block (0x67452301, 0xefcdab89, 0x98badcfe, 0x10325476)%Z blocks in
  le_bytes 4 a ++ le_bytes 4 b ++ le_bytes 4 c ++ le_bytes 4 d.

(** ** HMAC *)

Definition hmac_key (k : list Z) : list Z :=
  let k := if bool_decide (64 < length k) then md5 k else k in k ++ replicate (64 - length k) 0%Z.

Definition hmac_md5 (key m : list Z) : list Z :=
  let k := hmac_key key in
  md5 (((λ b, Z.lxor b 92) <$> k) ++ md5 (((λ b, Z.lxor b 54) <$> k) ++ m)).

(** ** Text *)

Fixpoint string_bytes (s : string) : list Z :=
  match s with "" => [] | String a s => Z.of_N (byte a) :: string_bytes s end.

Definition hex_digit_of (z : Z) : ascii := ascii_of_N (Z.to_N (if bool_decide (z < 10)%Z then 48 + z else 87 + z)).

(** [hex.EncodeToString]. *)
Fixpoint EncodeToString (bs : list Z) : string :=
  match bs with
  | [] => ""
  | b :: bs => String (hex_digit_of (Z.shiftr b 4)) (String (hex_digit_of (Z.land b 15)) (EncodeToString bs))
  end.

(** Values given in RFC 1321 and RFC 2104. *)
Lemma md5_values :
  EncodeToString (md5 []) = "d41d8cd98f00b204e9800998ecf8427e" ∧
  EncodeToString (md5 (string_bytes "abc")) = "900150983cd24fb0d6963f7d28e17f72" ∧
  EncodeToString (md5 (string_bytes "12345678901234567890123456789012345678901234567890123456789012345678901234567890")) =
    "57edf4a22be3c955ac49da2e2107b67a" ∧
  EncodeToString (hmac_md5 (string_bytes "Jefe") (string_bytes "what do ya want for nothing?")) =
    "750c783e6ab0b503eaa86e310a5db738".
Proof. by vm_compute. Qed.

Lemma le_bytes_length n z : length (le_bytes n z) = n.
Proof. revert z. induction n as [|n IH]; intros z; cbn; [done|]. by rewrite IH. Qed.

Lemma md5_length m : length (md5 m) = 16.
Proof. unfold md5. destruct (foldl _ _ _) as [[[a b] c] d]. by rewrite !length_app, !le_bytes_length. Qed.

Lemma EncodeToString_length bs : String.length (EncodeToString bs) = 2 * length bs.
Proof. induction bs as [|b bs IH]; [done|]. cbn. rewrite IH. lia. Qed.

Lemma land_low z k : (0 ≤ k)%Z → (0 ≤ Z.land z (Z.ones k) < 2 ^ k)%Z.
Proof. intros Hk. rewrite Z.land_ones by done. apply Z.mod_pos_bound. lia. Qed.

Lemma le_bytes_small n z : Forall (λ b, 0 ≤ b < 256)%Z (le_bytes n z).
Proof. revert z. induction n as [|n IH]; intros z; constructor; [apply (land_low z 8); lia|apply IH]. Qed.

Lemma md5_small m : Forall (λ b, 0 ≤ b < 256)%Z (md5 m).
Proof.
  unfold md5. destruct (foldl _ _ _) as [[[a b] c] d]. rewrite !Forall_app. split_and!; apply le_bytes_small.
Qed.

Definition lower_hex (a : ascii) : bool := is_digit a || ((97 <=? byte a) && (byte a <=? 102))%N.

Lemma hex_digit_of_lower z : (0 ≤ z < 16)%Z → lower_hex (hex_digit_of z) = true.
Proof.
  intros Hz. rewrite <- (Z2Nat.id z) by lia. assert (Hn : Z.to_nat z < 16) by lia. revert Hn. generalize (Z.to_nat z) as n.
  intros n Hn. do 16 (destruct n as [|n]; [done|]). lia.
Qed.

(** The printed digest is thirty-two lower-case hexadecimal digits. *)
Lemma EncodeToString_lower bs : Forall (λ b, 0 ≤ b < 256)%Z bs → all_bytes lower_hex (EncodeToString bs) = true.
Proof.
  induction 1 as [|b bs Hb _ IH]; [done|]. cbn [EncodeToString all_bytes]. rewrite IH, !hex_digit_of_lower; [done| |].
  - apply (land_low b 4). lia.
  - rewrite Z.shiftr_div_pow2 by lia. change (2 ^ 4)%Z with 16%Z. split; [apply Z.div_pos; lia|]. apply Z.div_lt_upper_bound; lia.
Qed.
