(* ===== verification/Bytes.v ===== *)
(** * Byte slices of Go

    A slice is the part of its array from its first element on, and a length: the
    capacity is the length of that part, so that a slice expression with an upper
    bound may reach past the length of the slice, as in Go.  A read or a write out
    of range is one of the two run-time panics.  Also [encoding/binary]'s
    big-endian integers, [int32], and loops with a count that is not small. *)

From Stdlib Require Import Ascii.
From stdpp Require Import base strings list numbers.
From S2P Require Import Prelude GoStd Md5.

Open Scope Z_scope.

(** ** [int32] *)

Definition i32 (z : Z) : Z := (z + 2 ^ 31) mod 2 ^ 32 - 2 ^ 31.
Definition is_i32 (z : Z) : Prop := - 2 ^ 31 ≤ z < 2 ^ 31.

Lemma i32_small z : is_i32 z → i32 z = z.
Proof. unfold is_i32, i32. intros. rewrite Z.mod_small; lia. Qed.

Lemma i32_bounds z : is_i32 (i32 z).
Proof. unfold is_i32, i32. pose proof (Z.mod_pos_bound (z + 2 ^ 31) (2 ^ 32)). lia. Qed.

(** Shifting a residue before reducing it again. *)
Lemma mod_shift_mod z k m : m ≠ 0 → (z mod m + k) mod m = (z + k) mod m.
Proof. intros. by rewrite Z.add_mod_idemp_l. Qed.

Lemma i32_u32 z : i32 (u32 z) = i32 z.
Proof. unfold i32, u32. by rewrite mod_shift_mod. Qed.

Lemma i64_u64 z : i64 (u64 z) = i64 z.
Proof. unfold i64, u64. by rewrite mod_shift_mod. Qed.

(** ** Bytes *)

Abbreviation is_byte b := (0 ≤ b < 256) (only parsing).
Definition are_bytes (bs : list Z) : Prop := Forall (λ b, is_byte b) bs.

Fixpoint be_bytes (n : nat) (z : Z) : list Z :=
  match n with
  | O => []
  | S n => Z.land (Z.shiftr z (8 * Z.of_nat n)) 255 :: be_bytes n z
  end.

Definition be_value (bs : list Z) : Z := foldl (λ acc b, Z.lor (Z.shiftl acc 8) b) 0 bs.

Lemma be_bytes_length n z : length (be_bytes n z) = n.
Proof. induction n as [|n IH]; simpl; congruence. Qed.

Lemma land_255 z : Z.land z 255 = z mod 256.
Proof. exact (Z.land_ones z 8 ltac:(lia)). Qed.

Lemma be_bytes_small n z : are_bytes (be_bytes n z).
Proof.
  induction n as [|n IH]; simpl; constructor; [|done]. rewrite land_255. by apply Z.mod_pos_bound.
Qed.

Lemma lor_shiftl_byte a b : is_byte b → Z.lor (Z.shiftl a 8) b = a * 256 + b.
Proof.
  intros Hb. assert (Hz : Z.land (Z.shiftl a 8) b = 0).
  { apply Z.bits_inj'. intros i Hi. rewrite Z.land_spec, Z.bits_0, Z.shiftl_spec by done.
    destruct (Z.lt_ge_cases i 8); [by rewrite Z.testbit_neg_r by lia|].
    destruct (decide (b = 0)) as [->|]; [by rewrite Z.bits_0, andb_false_r|].
    rewrite (Z.bits_above_log2 b i); [apply andb_false_r|lia|].
    assert (Z.log2 b < 8) by (apply Z.log2_lt_pow2; lia). lia. }
  rewrite <- Z.lxor_lor, <- Z.add_nocarry_lxor, Z.shiftl_mul_pow2 by (done || lia). lia.
Qed.

(** A big-endian integer is read back, modulo its width, in front of any accumulator. *)
Lemma be_value_bytes_acc n z acc :
  foldl (λ a b, Z.lor (Z.shiftl a 8) b) acc (be_bytes n z) = acc * 2 ^ (8 * Z.of_nat n) + z mod 2 ^ (8 * Z.of_nat n).
Proof.
  revert acc. induction n as [|n IH]; intros acc; [simpl; rewrite Z.mod_1_r; lia|].
  cbn [be_bytes foldl]. rewrite IH, land_255, lor_shiftl_byte by (by apply Z.mod_pos_bound).
  rewrite Z.shiftr_div_pow2 by lia.
  replace (8 * Z.of_nat (S n)) with (8 * Z.of_nat n + 8) by lia. rewrite (Z.pow_add_r 2) by lia. change (2 ^ 8) with 256.
  rewrite (Z.rem_mul_r z (2 ^ (8 * Z.of_nat n)) 256) by lia. lia.
Qed.

Lemma be_value_bytes n z : be_value (be_bytes n z) = z mod 2 ^ (8 * Z.of_nat n).
Proof. unfold be_value. rewrite be_value_bytes_acc. lia. Qed.

Lemma be_value_bounds bs : are_bytes bs → 0 ≤ be_value bs < 2 ^ (8 * Z.of_nat (length bs)).
Proof.
  unfold be_value. induction bs as [|b bs IH] using rev_ind; [done|]. intros [Hbs Hb]%Forall_app.
  rewrite foldl_snoc, lor_shiftl_byte by (by inversion Hb). specialize (IH Hbs). rewrite length_app. simpl length.
  replace (8 * Z.of_nat (length bs + 1)) with (8 * Z.of_nat (length bs) + 8) by lia.
  rewrite Z.pow_add_r by lia. inversion Hb. lia.
Qed.

(** ** Strings as bytes *)

Definition string_of_bytes (bs : list Z) : string :=
  String.string_of_list_ascii ((λ b, ascii_of_N (Z.to_N b)) <$> bs).

Lemma string_bytes_length s : length (string_bytes s) = String.length s.
Proof. induction s; simpl; congruence. Qed.

Lemma string_of_bytes_of s : string_of_bytes (string_bytes s) = s.
Proof.
  unfold string_of_bytes. induction s as [|a s IH]; [done|]. cbn -[ascii_of_N]. f_equal; [|done].
  unfold byte. by rewrite N2Z.id, ascii_N_embedding.
Qed.

Lemma string_bytes_small s : are_bytes (string_bytes s).
Proof.
  induction s as [|a s IH]; constructor; [|done]. unfold byte. pose proof (N_ascii_bounded a). lia.
Qed.

(** ** Slices *)

Record slice := mkSlice { arr : list Z; len : Z }.

Definition cap (b : slice) : Z := Z.of_nat (length (arr b)).

(** A slice that ends where its array ends: what [make([]byte, n)] returns. *)
Definition whole (a : list Z) : slice := mkSlice a (Z.of_nat (length a)).
Definition wf_slice (b : slice) : Prop := 0 ≤ len b ≤ cap b.

(** [SliceBounds] and [IndexRange] are run-time panics, [Failed] an error value, and
    [NoMemory] is the end of an allocation for which there is no memory. *)
Inductive res (E A : Type) :=
  | Got (a : A)
  | Failed (e : E)
  | SliceBounds
  | IndexRange
  | NoMemory.
Arguments Got {E A} a.
Arguments Failed {E A} e.
Arguments SliceBounds {E A}.
Arguments IndexRange {E A}.
Arguments NoMemory {E A}.

#[export] Instance res_ret E : MRet (res E) := λ A a, Got a.
#[export] Instance res_bind E : MBind (res E) := λ A B f m,
  match m with Got a => f a | Failed e => Failed e | SliceBounds => SliceBounds | IndexRange => IndexRange | NoMemory => NoMemory end.

#[export] Instance res_fmap E : FMap (res E) := λ A B f m, a ← m; Got (f a).

(** Decide the bounds of a slice expression. *)
Ltac bounds :=
  repeat match goal with
  | |- context [(?a <=? ?b)] => destruct (Z.leb_spec a b); try lia
  | |- context [(?a <? ?b)] => destruct (Z.ltb_spec a b); try lia
  end; cbn [andb].

Section Slices.
Context {E : Type}.

(** [b[lo:]], [b[lo:hi]], [b[i]]. *)
Definition from (b : slice) (lo : Z) : res E slice :=
  if (0 <=? lo) && (lo <=? len b) then Got (mkSlice (drop (Z.to_nat lo) (arr b)) (len b - lo)) else SliceBounds.

Definition sub (b : slice) (lo hi : Z) : res E (list Z) :=
  if (0 <=? lo) && (lo <=? hi) && (hi <=? cap b)
  then Got (take (Z.to_nat (hi - lo)) (drop (Z.to_nat lo) (arr b))) else SliceBounds.

Definition index (b : slice) (i : Z) : res E Z :=
  if (0 <=? i) && (i <? len b) then Got (arr b !!! Z.to_nat i) else IndexRange.

(** [copy(b[lo:lo+len(bs)], bs)]: the array after it. *)
Definition put (b : slice) (lo : Z) (bs : list Z) : res E slice :=
  if (0 <=? lo) && (lo + Z.of_nat (length bs) <=? cap b)
  then Got (mkSlice (take (Z.to_nat lo) (arr b) ++ bs ++ drop (Z.to_nat lo + length bs) (arr b)) (len b))
  else SliceBounds.

(** [b[i] = x]. *)
Definition set_index (b : slice) (i x : Z) : res E slice :=
  if (0 <=? i) && (i <? len b) then Got (mkSlice (<[Z.to_nat i := x]> (arr b)) (len b)) else IndexRange.

(** A write through [b[lo:]] that left [tail] changes the array of [b]. *)
Definition join (b : slice) (lo : Z) (tail : slice) : slice :=
  mkSlice (take (Z.to_nat lo) (arr b) ++ arr tail) (len b).

(** *** A loop of [p] turns, with a fault ending it *)

Fixpoint pos_loop {S} (p : positive) (f : S → res E S) (s : S) : res E S :=
  match p with
  | xH => f s
  | xO p => s1 ← pos_loop p f s; pos_loop p f s1
  | xI p => s0 ← f s; s1 ← pos_loop p f s0; pos_loop p f s1
  end.

Definition loop {S} (n : Z) (f : S → res E S) (s : S) : res E S :=
  match n with Z.pos p => pos_loop p f s | _ => Got s end.

Fixpoint nat_loop {S} (n : nat) (f : S → res E S) (s : S) : res E S :=
  match n with O => Got s | S n => s ← f s; nat_loop n f s end.

Lemma nat_loop_add {S} n m (f : S → res E S) s : nat_loop (n + m) f s = (s1 ← nat_loop n f s; nat_loop m f s1).
Proof. revert s. induction n as [|n IH]; intros s; [done|]. simpl. destruct (f s); [apply IH|done..]. Qed.

Lemma pos_loop_nat {S} p (f : S → res E S) s : pos_loop p f s = nat_loop (Pos.to_nat p) f s.
Proof.
  revert s. induction p as [p IH|p IH|]; intros s; cbn [pos_loop].
  - rewrite Pos2Nat.inj_xI. simpl. destruct (f s) as [s0|?| | |]; [|done..]. cbn. rewrite IH.
    rewrite Nat.add_0_r, nat_loop_add. by destruct (nat_loop _ f s0); cbn; [rewrite IH|..].
  - rewrite Pos2Nat.inj_xO. simpl. rewrite Nat.add_0_r, nat_loop_add, IH.
    by destruct (nat_loop _ f s); cbn; [rewrite IH|..].
  - rewrite Pos2Nat.inj_1. simpl. by destruct (f s).
Qed.

(** The loop by halves is the loop of [n] turns. *)
Lemma loop_nat {S} n (f : S → res E S) s : loop n f s = nat_loop (Z.to_nat n) f s.
Proof. destruct n; simpl; [done| |done]. apply pos_loop_nat. Qed.

(** *** Facts on slices *)

Lemma from_whole a lo : 0 ≤ lo ≤ Z.of_nat (length a) → from (whole a) lo = Got (whole (drop (Z.to_nat lo) a)).
Proof.
  intros. unfold from, whole. cbn [arr len]. bounds. do 2 f_equal. rewrite length_drop. lia.
Qed.

Lemma from_past b lo : len b < lo → from b lo = SliceBounds.
Proof. intros. unfold from. by bounds. Qed.

Lemma put_past b lo bs : cap b < lo + Z.of_nat (length bs) → put b lo bs = SliceBounds.
Proof. intros. unfold put. by bounds. Qed.

Lemma put_front a bs : (length bs ≤ length a)%nat → put (whole a) 0 bs = Got (whole (bs ++ drop (length bs) a)).
Proof.
  intros. unfold put, whole, cap. cbn [arr len]. bounds. do 2 f_equal. cbn.
  rewrite length_app, length_drop. lia.
Qed.

Lemma put_after a bs bs' : (length bs + length bs' ≤ length a)%nat →
  put (whole (bs ++ drop (length bs) a)) (Z.of_nat (length bs)) bs' =
  Got (whole ((bs ++ bs') ++ drop (length (bs ++ bs')) a)).
Proof.
  intros. unfold put, whole, cap. cbn [arr len].
  assert (Hl : length (bs ++ drop (length bs) a) = length a) by (rewrite length_app, length_drop; lia).
  bounds. f_equal. f_equal.
  - rewrite Nat2Z.id, take_app_length, <- app_assoc. do 2 f_equal.
    rewrite drop_app_ge, drop_drop, length_app by lia. f_equal. lia.
  - rewrite !length_app, !length_drop, ?length_app. lia.
Qed.
End Slices.
