(* ===== verification/Json.v ===== *)
(** * encoding/json, as far as the sources use it

    The scheduler hands the list of nodes to the executor as JSON, persists the
    reconciliation map in ZooKeeper as JSON, and reads the answers of etcd and of
    the Mesos master as JSON.  This file has the JSON values, the compact
    printer [json.Marshal] uses (with its HTML-safe string escapes), a parser
    that accepts the grammar of [json.Unmarshal]'s scanner, and the theorem that
    parsing what was printed gives the value back. *)

From Stdlib Require Import Ascii DecimalString DecimalN.
From stdpp Require Import base strings list numbers.
From S2P Require Import Prelude GoStd.

Set Warnings "-register-all".

Inductive json :=
  | JNull
  | JBool (b : bool)
  | JNum (lit : string)
  | JStr (s : string)
  | JArr (vs : list json)
  | JObj (kvs : list (string * json)).

Section JsonInd.
Context (P : json → Prop).
Context (HNull : P JNull) (HBool : ∀ b, P (JBool b)) (HNum : ∀ l, P (JNum l))
  (HStr : ∀ s, P (JStr s)) (HArr : ∀ vs, Forall P vs → P (JArr vs))
  (HObj : ∀ kvs, Forall (λ kv, P kv.2) kvs → P (JObj kvs)).

(** Induction through the nested lists. *)
Fixpoint json_nested_ind (v : json) : P v :=
  match v with
  | JNull => HNull
  | JBool b => HBool b
  | JNum l => HNum l
  | JStr s => HStr s
  | JArr vs => HArr vs
      ((fix go vs : Forall P vs :=
          match vs with
          | [] => List.Forall_nil _
          | v :: vs => List.Forall_cons _ _ _ (json_nested_ind v) (go vs)
          end) vs)
  | JObj kvs => HObj kvs
      ((fix go kvs : Forall (λ kv, P kv.2) kvs :=
          match kvs with
          | [] => List.Forall_nil _
          | kv :: kvs => List.Forall_cons _ _ _ (json_nested_ind kv.2) (go kvs)
          end) kvs)
  end.
End JsonInd.

(** ** UTF-8 *)

Definition is_cont (b : N) : bool := ((0x80 <=? b) && (b <=? 0xBF))%N.
Definition in_range (lo hi b : N) : bool := ((lo <=? b) && (b <=? hi))%N.

(** Width of the valid UTF-8 sequence the string starts with, 0 when invalid. *)
Definition utf8_width (s : string) : nat :=
  let b0 := byte_at 0 s in
  let b1 := byte_at 1 s in
  let b2 := byte_at 2 s in
  let b3 := byte_at 3 s in
  if (b0 <? 0x80)%N then 1
  else if in_range 0xC2 0xDF b0 && is_cont b1 then 2
  else if (in_range 0xE1 0xEC b0 || in_range 0xEE 0xEF b0) && is_cont b1 && is_cont b2 then 3
  else if (b0 =? 0xE0)%N && in_range 0xA0 0xBF b1 && is_cont b2 then 3
  else if (b0 =? 0xED)%N && in_range 0x80 0x9F b1 && is_cont b2 then 3
  else if in_range 0xF1 0xF3 b0 && is_cont b1 && is_cont b2 && is_cont b3 then 4
  else if (b0 =? 0xF0)%N && in_range 0x90 0xBF b1 && is_cont b2 && is_cont b3 then 4
  else if (b0 =? 0xF4)%N && in_range 0x80 0x8F b1 && is_cont b2 && is_cont b3 then 4
  else 0.

Definition chr (n : N) : ascii := ascii_of_N n.

(** UTF-8 encoding of a code point. *)
Definition utf8_encode (r : N) : string :=
  if (r <? 0x80)%N then String (chr r) ""
  else if (r <? 0x800)%N then
    String (chr (0xC0 + r / 64)) (String (chr (0x80 + r mod 64)) "")
  else if (r <? 0x10000)%N then
    String (chr (0xE0 + r / 4096))
      (String (chr (0x80 + r / 64 mod 64)) (String (chr (0x80 + r mod 64)) ""))
  else
    String (chr (0xF0 + r / 262144))
      (String (chr (0x80 + r / 4096 mod 64))
        (String (chr (0x80 + r / 64 mod 64)) (String (chr (0x80 + r mod 64)) ""))).

(** U+FFFD, which replaces invalid input. *)
Definition replacement : string := utf8_encode 0xFFFD.

(** ** Printing *)

Definition dquote : ascii := chr 34.
Definition backslash : ascii := chr 92.

Definition hex_digit (n : N) : ascii := if (n <? 10)%N then chr (48 + n) else chr (87 + n).

Definition esc (c : ascii) : string := String backslash (String c "").

(** [\u00XX]. *)
Definition esc_u00 (b : N) : string :=
  esc "u" +:+ String "0" (String "0" (String (hex_digit (b / 16)) (String (hex_digit (b mod 16)) ""))).

(** One ASCII byte inside a printed string. *)
Definition esc_byte (a : ascii) : string :=
  if bool_decide (a = dquote) || bool_decide (a = backslash) then esc a
  else if bool_decide (byte a = 10%N) then esc "n"
  else if bool_decide (byte a = 13%N) then esc "r"
  else if bool_decide (byte a = 9%N) then esc "t"
  else if (byte a <? 32)%N || bool_decide (a = "<"%char) || bool_decide (a = ">"%char)
          || bool_decide (a = "&"%char) then esc_u00 (byte a)
  else String a "".

(** What to do with the bytes left of a multi-byte rune. *)
Inductive rest_mode := Copy (n : nat) | Skip (n : nat).

Fixpoint quote_go (m : rest_mode) (s : string) : string :=
  match s with
  | "" => ""
  | String a s' =>
      match m with
      | Copy (S k) => String a (quote_go (Copy k) s')
      | Skip (S k) => quote_go (Skip k) s'
      | _ =>
          if (byte a <? 0x80)%N then esc_byte a +:+ quote_go (Copy 0) s'
          else match utf8_width s with
               | O => esc "u" +:+ "fffd" +:+ quote_go (Copy 0) s'
               | S k =>
                   if ((byte a =? 0xE2) && (byte_at 1 s =? 0x80) && (byte_at 2 s =? 0xA8))%N
                   then esc "u" +:+ "2028" +:+ quote_go (Skip k) s'
                   else if ((byte a =? 0xE2) && (byte_at 1 s =? 0x80) && (byte_at 2 s =? 0xA9))%N
                   then esc "u" +:+ "2029" +:+ quote_go (Skip k) s'
                   else String a (quote_go (Copy k) s')
               end
      end
  end.

Definition quote (s : string) : string :=
  String dquote (quote_go (Copy 0) s +:+ String dquote "").

#[global] Arguments quote : simpl never.

(** Comma-separated printing of the elements of an array or an object. *)
Fixpoint commas (ws : list string) : string :=
  match ws with
  | [] => ""
  | [w] => w
  | w :: ws => w +:+ String "," (commas ws)
  end.

Fixpoint print (v : json) : string :=
  match v with
  | JNull => "null"
  | JBool true => "true"
  | JBool false => "false"
  | JNum lit => lit
  | JStr s => quote s
  | JArr vs => String "[" (commas (print <$> vs) +:+ "]")
  | JObj kvs => String "{" (commas ((λ kv, quote kv.1 +:+ String ":" (print kv.2)) <$> kvs) +:+ "}")
  end.

(** ** Parsing *)

Definition is_ws (a : ascii) : bool :=
  bool_decide (byte a = 32%N) || bool_decide (byte a = 9%N) ||
  bool_decide (byte a = 10%N) || bool_decide (byte a = 13%N).

Fixpoint skip_ws (s : string) : string :=
  match s with
  | String a s' => if is_ws a then skip_ws s' else s
  | "" => ""
  end.

Definition hex_val (a : ascii) : option N :=
  let b := byte a in
  if in_range 48 57 b then Some (b - 48)%N
  else if in_range 97 102 b then Some (b - 87)%N
  else if in_range 65 70 b then Some (b - 55)%N
  else None.

Definition hex4 (a b c d : ascii) : option N :=
  x ← hex_val a; y ← hex_val b; z ← hex_val c; w ← hex_val d;
  Some (x * 4096 + y * 256 + z * 16 + w)%N.

Definition is_surrogate (r : N) : bool := in_range 0xD800 0xDFFF r.

(** The code point of a surrogate pair, if it is one. *)
Definition surrogate_pair (hi lo : N) : option N :=
  if in_range 0xD800 0xDBFF hi && in_range 0xDC00 0xDFFF lo
  then Some ((hi - 0xD800) * 1024 + (lo - 0xDC00) + 0x10000)%N
  else None.

Definition simple_escape (c : ascii) : option ascii :=
  if bool_decide (c = dquote) || bool_decide (c = backslash) || bool_decide (c = "/"%char) then Some c
  else if bool_decide (c = "b"%char) then Some (chr 8)
  else if bool_decide (c = "f"%char) then Some (chr 12)
  else if bool_decide (c = "n"%char) then Some (chr 10)
  else if bool_decide (c = "r"%char) then Some (chr 13)
  else if bool_decide (c = "t"%char) then Some (chr 9)
  else None.

Definition emit (pre : string) (o : option (string * string)) : option (string * string) :=
  '(w, r) ← o; Some (pre +:+ w, r).

(** The contents of a string literal after its opening quote, and what follows
    its closing quote; [copy] counts the bytes left of a multi-byte rune. *)
Fixpoint unquote (copy : nat) (s : string) : option (string * string) :=
  match s with
  | "" => None
  | String a s1 =>
      match copy with
      | S k => emit (String a "") (unquote k s1)
      | O =>
          if bool_decide (a = dquote) then Some ("", s1)
          else if bool_decide (a = backslash) then
            match s1 with
            | "" => None
            | String c s2 =>
                if bool_decide (c = "u"%char) then
                  match s2 with
                  | String h1 (String h2 (String h3 (String h4 s3))) =>
                      r ← hex4 h1 h2 h3 h4;
                      if is_surrogate r then
                        match s3 with
                        | String e (String u (String g1 (String g2 (String g3 (String g4 s4))))) =>
                            match (if bool_decide (e = backslash) && bool_decide (u = "u"%char)
                                   then r' ← hex4 g1 g2 g3 g4; surrogate_pair r r' else None) with
                            | Some p => emit (utf8_encode p) (unquote 0 s4)
                            | None => emit replacement (unquote 0 s3)
                            end
                        | _ => emit replacement (unquote 0 s3)
                        end
                      else emit (utf8_encode r) (unquote 0 s3)
                  | _ => None
                  end
                else
                  x ← simple_escape c; emit (String x "") (unquote 0 s2)
            end
          else if (byte a <? 32)%N then None
          else match utf8_width s with
               | O => emit replacement (unquote 0 s1)
               | S k => emit (String a "") (unquote k s1)
               end
      end
  end.

(** The number grammar as a finite automaton. *)
Inductive num_state := NStart | NNeg | NZero | NInt | NDot | NFrac | NExp | NExpSign | NExpDigits.

Definition num_step (q : num_state) (a : ascii) : option num_state :=
  let digit := is_digit a in
  let zero := bool_decide (a = "0"%char) in
  let dot := bool_decide (a = "."%char) in
  let e := bool_decide (a = "e"%char) || bool_decide (a = "E"%char) in
  let sign := bool_decide (a = "+"%char) || bool_decide (a = "-"%char) in
  match q with
  | NStart => if bool_decide (a = "-"%char) then Some NNeg
              else if zero then Some NZero else if digit then Some NInt else None
  | NNeg => if zero then Some NZero else if digit then Some NInt else None
  | NZero => if dot then Some NDot else if e then Some NExp else None
  | NInt => if digit then Some NInt else if dot then Some NDot else if e then Some NExp else None
  | NDot => if digit then Some NFrac else None
  | NFrac => if digit then Some NFrac else if e then Some NExp else None
  | NExp => if sign then Some NExpSign else if digit then Some NExpDigits else None
  | NExpSign | NExpDigits => if digit then Some NExpDigits else None
  end.

Fixpoint num_run (q : num_state) (s : string) : option num_state :=
  match s with
  | "" => Some q
  | String a s => q' ← num_step q a; num_run q' s
  end.

Definition valid_number (s : string) : bool :=
  match num_run NStart s with
  | Some (NZero | NInt | NFrac | NExpDigits) => true
  | _ => false
  end.

Definition is_num_char (a : ascii) : bool :=
  is_digit a || bool_decide (a = "."%char) || bool_decide (a = "e"%char) ||
  bool_decide (a = "E"%char) || bool_decide (a = "+"%char) || bool_decide (a = "-"%char).

Fixpoint span_num (s : string) : string * string :=
  match s with
  | String a s' => if is_num_char a then let '(w, r) := span_num s' in (String a w, r) else ("", s)
  | "" => ("", "")
  end.

(** The literals [true], [false] and [null]. *)
Definition keyword (k : string) (v : json) (s : string) : option (json * string) :=
  if HasPrefix s k then Some (v, drop_bytes (String.length k) s) else None.

Definition starts_with (c : ascii) (s : string) : option string :=
  match s with
  | String a s' => if bool_decide (a = c) then Some s' else None
  | "" => None
  end.

Fixpoint parse_value (fuel : nat) (s : string) {struct fuel} : option (json * string) :=
  match fuel with
  | O => None
  | S f =>
      match skip_ws s with
      | "" => None
      | String a r as s1 =>
          if bool_decide (a = dquote) then '(w, r') ← unquote 0 r; Some (JStr w, r')
          else if bool_decide (a = "["%char) then
            match starts_with "]" (skip_ws r) with
            | Some r' => Some (JArr [], r')
            | None => '(vs, r') ← parse_elems f r; Some (JArr vs, r')
            end
          else if bool_decide (a = "{"%char) then
            match starts_with "}" (skip_ws r) with
            | Some r' => Some (JObj [], r')
            | None => '(kvs, r') ← parse_members f r; Some (JObj kvs, r')
            end
          else if bool_decide (a = "t"%char) then keyword "true" (JBool true) s1
          else if bool_decide (a = "f"%char) then keyword "false" (JBool false) s1
          else if bool_decide (a = "n"%char) then keyword "null" JNull s1
          else let '(w, r') := span_num s1 in
               if valid_number w then Some (JNum w, r') else None
      end
  end
with parse_elems (fuel : nat) (s : string) {struct fuel} : option (list json * string) :=
  match fuel with
  | O => None
  | S f =>
      '(v, r) ← parse_value f s;
      match starts_with "," (skip_ws r), starts_with "]" (skip_ws r) with
      | Some r', _ => '(vs, r'') ← parse_elems f r'; Some (v :: vs, r'')
      | None, Some r' => Some ([v], r')
      | None, None => None
      end
  end
with parse_members (fuel : nat) (s : string) {struct fuel} : option (list (string * json) * string) :=
  match fuel with
  | O => None
  | S f =>
      r0 ← starts_with dquote (skip_ws s);
      '(k, r1) ← unquote 0 r0;
      r2 ← starts_with ":" (skip_ws r1);
      '(v, r) ← parse_value f r2;
      match starts_with "," (skip_ws r), starts_with "}" (skip_ws r) with
      | Some r', _ => '(kvs, r'') ← parse_members f r'; Some ((k, v) :: kvs, r'')
      | None, Some r' => Some ([(k, v)], r')
      | None, None => None
      end
  end.

(** The value a whole document denotes; every nesting and every element costs
    input bytes, so the length of the input is enough fuel. *)
Definition parse (s : string) : option json :=
  '(v, r) ← parse_value (S (String.length s)) s;
  match skip_ws r with "" => Some v | _ => None end.

Example parse_ex :
  parse (String "{" (quote "a" +:+ " : [1, -2.5e3 ,null,true], " +:+ quote "b" +:+ ": {} } "))
  = Some (JObj [("a", JArr [JNum "1"; JNum "-2.5e3"; JNull; JBool true]); ("b", JObj [])]).
Proof. reflexivity. Qed.

(** ** Parsing what was printed *)

Definition is_ascii (s : string) : bool := all_bytes (λ a, (byte a <? 0x80)%N) s.

(** Values whose strings are ASCII and whose numbers are JSON numbers. *)
Fixpoint wf_json (v : json) : bool :=
  match v with
  | JNum l => valid_number l
  | JStr s => is_ascii s
  | JArr vs => forallb wf_json vs
  | JObj kvs => forallb (λ kv, is_ascii kv.1 && wf_json kv.2) kvs
  | _ => true
  end.

(** A printed ASCII byte is read back as itself. *)
Lemma unquote_esc_byte a t :
  (byte a < 0x80)%N → unquote 0 (esc_byte a +:+ t) = emit (String a "") (unquote 0 t).
Proof.
  intros Ha. destruct a as [[] [] [] [] [] [] [] []];
    first [discriminate Ha|reflexivity].
Qed.

Lemma unquote_quote_go s t :
  is_ascii s = true → unquote 0 (quote_go (Copy 0) s +:+ String dquote t) = Some (s, t).
Proof.
  unfold is_ascii. induction s as [|a s IH]; intros Hs; [done|].
  cbn [all_bytes] in Hs. apply andb_true_iff in Hs as [Ha Hs].
  cbn [quote_go]. rewrite Ha, string_app_assoc.
  rewrite unquote_esc_byte by by apply N.ltb_lt. by rewrite IH.
Qed.

Lemma quote_app s t : quote s +:+ t = String dquote (quote_go (Copy 0) s +:+ String dquote t).
Proof. unfold quote. rewrite sapp_cons, string_app_assoc. done. Qed.

(** A character a number may contain is none of those that start another value. *)
Lemma num_char_start a :
  is_num_char a = true →
  is_ws a = false ∧ a ≠ dquote ∧ a ≠ "["%char ∧ a ≠ "{"%char ∧ a ≠ "t"%char ∧
  a ≠ "f"%char ∧ a ≠ "n"%char ∧ a ≠ "]"%char ∧ a ≠ "}"%char.
Proof.
  intros Ha. destruct a as [[] [] [] [] [] [] [] []];
    first [discriminate Ha|split_and!; done].
Qed.

Lemma num_step_char q a q' : num_step q a = Some q' → is_num_char a = true.
Proof.
  intros Hq. destruct (is_num_char a) eqn:Ha; [done|]. exfalso.
  assert (∀ q, num_step q a = None) as Hn; [|by rewrite Hn in Hq].
  clear q Hq. destruct a as [[] [] [] [] [] [] [] []];
    first [discriminate Ha|intros []; reflexivity].
Qed.

Lemma num_run_chars q s q' : num_run q s = Some q' → all_bytes is_num_char s = true.
Proof.
  revert q. induction s as [|a s IH]; intros q; simpl; [done|].
  intros (q1 & Hq1%num_step_char & Hr)%bind_Some. rewrite Hq1. simpl. by eapply IH.
Qed.

Lemma valid_number_chars s :
  valid_number s = true → all_bytes is_num_char s = true ∧ s ≠ "".
Proof.
  unfold valid_number. destruct (num_run NStart s) as [q|] eqn:E; [|done].
  intros Hq. split; [by eapply num_run_chars|]. intros ->. simpl in E. by simplify_eq.
Qed.

(** What may follow a printed value: the end, or a character no number has. *)
Definition stop (r : string) : Prop :=
  match r with "" => True | String a _ => is_num_char a = false end.

Lemma span_num_app w r : all_bytes is_num_char w = true → stop r → span_num (w +:+ r) = (w, r).
Proof.
  induction w as [|a w IH]; intros Hw Hr.
  - rewrite sapp_nil_l. destruct r as [|a r]; [done|]. simpl in Hr |- *. by rewrite Hr.
  - cbn [all_bytes] in Hw. apply andb_true_iff in Hw as [Ha Hw].
    rewrite sapp_cons. cbn [span_num]. rewrite Ha. by rewrite IH.
Qed.

(** Fuel one value takes. *)
Fixpoint jsize (v : json) : nat :=
  match v with
  | JArr vs => S (sum_list ((λ v, S (jsize v)) <$> vs))
  | JObj kvs => S (sum_list ((λ kv, S (jsize kv.2)) <$> kvs))
  | _ => 1
  end.

(** A printed value starts with no white space and no closing bracket. *)
Lemma print_head v :
  wf_json v = true →
  ∃ a s, print v = String a s ∧ is_ws a = false ∧ a ≠ "]"%char ∧ a ≠ "}"%char.
Proof.
  destruct v as [|[]|l|s|vs|kvs]; simpl; intros Hwf; try by eexists _, _.
  apply valid_number_chars in Hwf as [Hc Hne]. destruct l as [|a l]; [done|].
  cbn [all_bytes] in Hc. apply andb_true_iff in Hc as [Ha _].
  apply num_char_start in Ha. exists a, l. tauto.
Qed.

Lemma skip_ws_print v r : wf_json v = true → skip_ws (print v +:+ r) = print v +:+ r.
Proof.
  intros (a & s & -> & Ha & _)%print_head. rewrite sapp_cons. simpl. by rewrite Ha.
Qed.

Definition parse_print_at (v : json) : Prop := ∀ f r,
  wf_json v = true → jsize v ≤ f → stop r → parse_value f (print v +:+ r) = Some (v, r).

Lemma parse_elems_print vs f r :
  vs ≠ [] → Forall parse_print_at vs → forallb wf_json vs = true →
  sum_list ((λ v, S (jsize v)) <$> vs) ≤ f →
  parse_elems f (commas (print <$> vs) +:+ String "]" r) = Some (vs, r).
Proof.
  intros Hne HF. revert f. induction HF as [|v vs Hv HF IH]; intros f Hwf Hf; [done|].
  simpl in Hwf. apply andb_true_iff in Hwf as [Hwv Hwf].
  rewrite fmap_cons in Hf. simpl in Hf. destruct f as [|f]; [lia|]. cbn [parse_elems].
  destruct vs as [|v' vs].
  - simpl. rewrite Hv by (done || lia). done.
  - change (commas (print <$> v :: v' :: vs))
      with (print v +:+ String "," (commas (print <$> v' :: vs))).
    rewrite string_app_assoc, sapp_cons, Hv by (done || lia). simpl.
    rewrite IH; [done|done|done|lia].
Qed.

Lemma parse_members_print kvs f r :
  kvs ≠ [] → Forall (λ kv, parse_print_at kv.2) kvs →
  forallb (λ kv, is_ascii kv.1 && wf_json kv.2) kvs = true →
  sum_list ((λ kv, S (jsize kv.2)) <$> kvs) ≤ f →
  parse_members f (commas ((λ kv, quote kv.1 +:+ String ":" (print kv.2)) <$> kvs)
                   +:+ String "}" r) = Some (kvs, r).
Proof.
  intros Hne HF. revert f. induction HF as [|[k v] kvs Hv HF IH]; intros f Hwf Hf; [done|].
  simpl in Hwf, Hv. apply andb_true_iff in Hwf as [Hwv Hwf].
  apply andb_true_iff in Hwv as [Hk Hwv].
  rewrite fmap_cons in Hf. simpl in Hf. destruct f as [|f]; [lia|]. cbn [parse_members].
  destruct kvs as [|kv' kvs].
  - change (commas _) with (quote k +:+ String ":" (print v)).
    rewrite string_app_assoc, sapp_cons, quote_app. simpl.
    rewrite unquote_quote_go by done. simpl. rewrite Hv by (done || lia). done.
  - set (pr := λ kv : string * json, quote kv.1 +:+ String ":" (print kv.2)).
    change (commas (pr <$> (k, v) :: kv' :: kvs))
      with ((quote k +:+ String ":" (print v)) +:+ String "," (commas (pr <$> kv' :: kvs))).
    rewrite !string_app_assoc, !sapp_cons, quote_app. simpl.
    rewrite unquote_quote_go by done. simpl. rewrite ?string_app_assoc, ?sapp_cons.
    rewrite Hv by (done || lia). simpl. rewrite IH; [done|done|done|lia].
Qed.

Lemma parse_value_num l f r :
  valid_number l = true → stop r → parse_value (S f) (l +:+ r) = Some (JNum l, r).
Proof.
  intros Hl Hr. pose proof (valid_number_chars _ Hl) as [Hc Hne].
  pose proof (span_num_app _ _ Hc Hr) as Hspan.
  destruct l as [|a l]; [done|]. cbn [all_bytes] in Hc. apply andb_true_iff in Hc as [Ha _].
  apply num_char_start in Ha as (Hws & ? & ? & ? & ? & ? & ? & _).
  rewrite sapp_cons in *. cbn [parse_value skip_ws]. rewrite Hws.
  rewrite !bool_decide_eq_false_2 by done. by rewrite Hspan, Hl.
Qed.

Lemma starts_with_print c v r :
  wf_json v = true → c = "]"%char ∨ c = "}"%char → starts_with c (print v +:+ r) = None.
Proof.
  intros (a & s & -> & _ & H1 & H2)%print_head Hc. rewrite sapp_cons. simpl.
  rewrite bool_decide_eq_false_2; [done|]. destruct Hc; congruence.
Qed.

Lemma commas_cons w ws : ∃ t, commas (w :: ws) = w +:+ t.
Proof. destruct ws; simpl; [exists ""; by rewrite string_app_nil|by eexists]. Qed.

Lemma parse_print_value v : parse_print_at v.
Proof.
  induction v as [|b|l|s|vs IH|kvs IH] using json_nested_ind;
    intros f r Hwf Hf Hr; (destruct f as [|f]; [simpl in Hf; lia|]).
  - done.
  - by destruct b.
  - by apply parse_value_num.
  - cbn [print]. rewrite quote_app. simpl. by rewrite unquote_quote_go.
  - cbn [print]. rewrite sapp_cons, string_app_assoc. cbn [parse_value skip_ws].
    change (is_ws "[") with false. simpl.
    destruct vs as [|v vs]; [done|]. simpl in Hf.
    pose proof Hwf as Hwf'. simpl in Hwf'. apply andb_true_iff in Hwf' as [Hv _].
    destruct (commas_cons (print v) (print <$> vs)) as [t Ht].
    assert (starts_with "]" (skip_ws (commas (print <$> v :: vs) +:+ "]" +:+ r)) = None) as ->.
    { rewrite fmap_cons, Ht, string_app_assoc, skip_ws_print, starts_with_print; auto. }
    rewrite sapp_cons, sapp_nil_l. rewrite parse_elems_print; try done. simpl. lia.
  - cbn [print]. rewrite sapp_cons, string_app_assoc. cbn [parse_value skip_ws].
    change (is_ws "{") with false. simpl.
    destruct kvs as [|[k v] kvs]; [done|]. simpl in Hf.
    match goal with |- context [starts_with "}" (skip_ws ?x)] =>
      assert (starts_with "}" (skip_ws x) = None) as -> end.
    { rewrite fmap_cons. destruct (commas_cons (quote k +:+ String ":" (print v))
        ((λ kv, quote kv.1 +:+ String ":" (print kv.2)) <$> kvs)) as [t Ht].
      simpl in Ht |- *. rewrite Ht, !string_app_assoc, quote_app. done. }
    rewrite sapp_cons, sapp_nil_l. rewrite parse_members_print; try done. simpl. lia.
Qed.

Lemma slength_app s t : String.length (s +:+ t) = String.length s + String.length t.
Proof. induction s as [|a s IH]; [done|]. rewrite sapp_cons. simpl. by rewrite IH. Qed.

Lemma commas_length ws :
  sum_list ((λ w, S (String.length w)) <$> ws) ≤ S (String.length (commas ws)).
Proof.
  induction ws as [|w [|w' ws] IH]; [simpl; lia|simpl; lia|].
  change (commas (w :: w' :: ws)) with (w +:+ String "," (commas (w' :: ws))).
  rewrite slength_app. rewrite fmap_cons. simpl in IH |- *. lia.
Qed.

Lemma sum_list_le {A} (f g : A → nat) l :
  Forall (λ x, f x ≤ g x) l → sum_list (f <$> l) ≤ sum_list (g <$> l).
Proof. induction 1; csimpl; lia. Qed.

(** The input is long enough to serve as fuel. *)
Lemma jsize_length v : wf_json v = true → jsize v ≤ String.length (print v).
Proof.
  induction v as [|b|l|s|vs IH|kvs IH] using json_nested_ind; intros Hwf.
  - simpl. lia.
  - destruct b; simpl; lia.
  - apply valid_number_chars in Hwf as [_ Hne]. destruct l; [done|]. simpl. lia.
  - unfold print, quote. simpl. lia.
  - simpl. rewrite slength_app. simpl. pose proof (commas_length (print <$> vs)) as Hc.
    rewrite <- list_fmap_compose in Hc.
    assert (sum_list ((λ v, S (jsize v)) <$> vs) ≤
            sum_list ((λ w, S (String.length w)) ∘ print <$> vs)); [|lia].
    apply sum_list_le. simpl in Hwf. rewrite forallb_forall in Hwf.
    rewrite Forall_forall in IH |- *. intros v Hv. simpl.
    specialize (IH v Hv (Hwf v Hv)). lia.
  - simpl. rewrite slength_app. simpl.
    set (pr := λ kv : string * json, quote kv.1 +:+ String ":" (print kv.2)).
    pose proof (commas_length (pr <$> kvs)) as Hc. rewrite <- list_fmap_compose in Hc.
    assert (sum_list ((λ kv, S (jsize kv.2)) <$> kvs) ≤
            sum_list ((λ w, S (String.length w)) ∘ pr <$> kvs)); [|lia].
    apply sum_list_le. simpl in Hwf. rewrite forallb_forall in Hwf.
    rewrite Forall_forall in IH |- *. intros kv Hkv. unfold pr. simpl.
    specialize (Hwf kv Hkv). apply andb_true_iff in Hwf as [_ Hwf].
    specialize (IH kv Hkv Hwf). rewrite slength_app. simpl. lia.
Qed.

Lemma parse_print v : wf_json v = true → parse (print v) = Some v.
Proof.
  intros Hwf. unfold parse.
  pose proof (parse_print_value v (S (String.length (print v))) "" Hwf) as Hp.
  rewrite string_app_nil in Hp. rewrite Hp; [done| |done].
  pose proof (jsize_length v Hwf). lia.
Qed.

(** ** Numbers the code prints *)

Lemma num_run_digits q s :
  q = NInt → all_bytes is_digit s = true → num_run q s = Some NInt.
Proof.
  intros ->. induction s as [|a s IH]; [done|]. cbn [all_bytes num_run num_step].
  rewrite andb_true_iff. intros [-> Hs]. simpl. auto.
Qed.

Lemma valid_number_FormatUint z : valid_number (FormatUint z) = true.
Proof.
  unfold FormatUint. set (n := Z.to_N z).
  pose proof (DecimalN.Unsigned.to_of (N.to_uint n)) as Hn.
  rewrite DecimalN.Unsigned.of_to in Hn. rewrite Hn. unfold Decimal.unorm.
  assert (Hz : ∀ d, Decimal.nzhead d = Decimal.Nil ∨
    ∃ a s, NilEmpty.string_of_uint (Decimal.nzhead d) = String a s ∧
      num_step NStart a = Some NInt ∧ all_bytes is_digit s = true).
  { clear. induction d; simpl; auto; right; do 2 eexists; split_and!; try done;
      apply string_of_uint_digits. }
  destruct (Hz (N.to_uint n)) as [->|(a & s & Hs & Hstep & Hd)]; [done|].
  assert (valid_number (String a s) = true) as Hv.
  { unfold valid_number. cbn [num_run]. rewrite Hstep. simpl. by rewrite num_run_digits. }
  destruct (Decimal.nzhead (N.to_uint n)); [done|by rewrite Hs..].
Qed.

Lemma digits_ascii s : all_bytes is_digit s = true → is_ascii s = true.
Proof.
  apply all_bytes_impl. intros a. unfold is_digit. rewrite andb_true_iff, !N.leb_le, N.ltb_lt. lia.
Qed.
