(* ===== verification/Config.v ===== *)
(** * The node configuration (src/config)

    [Node] is the record every part of the system passes around; its printed
    form is the Mesos task identifier, from which [Parse] recovers it. *)

From Stdlib Require Import Ascii.
From stdpp Require Import base strings list.
From S2P Require Import Prelude GoStd Errors.

(** src/config/config.go, [type Node struct]. *)
Record Node := mkNode {
  Name : string;
  Host : string;
  RPCPort : Z;
  ClientPort : Z;
  ReseedPort : Z;
  Type_ : string;
  SlaveID : string;
}.

#[export] Instance Node_eq_dec : EqDecision Node.
Proof. solve_decision. Defined.

(** The etcd member record the cluster members answer with, of which the code
    reads the name and the identifier ([httptypes.Member] in
    [ClusterMemberList]). *)
Record Member := mkMember {
  MemberID : string;
  MemberName : string;
  PeerURLs : list string;
  ClientURLs : list string;
}.

Record ClusterMemberList := mkMemberList { Members : list Member }.

(** src/config/config.go, [Parse]. *)
Definition Parse (text : string) : result Node :=
  match Fields text with
  | [f0; f1; f2; f3; f4] =>
      match ParseUint f2 with
      | None => Err ErrUnmarshal
      | Some rpc =>
          match ParseUint f3 with
          | None => Err ErrUnmarshal
          | Some client =>
              match ParseUint f4 with
              | None => Err ErrUnmarshal
              | Some reseed => Ok (mkNode f0 f1 rpc client reseed "" "")
              end
          end
      end
  | _ => Err ErrUnmarshal
  end.

(** src/config/config.go, [Node.String]: the [%s %s %d %d %d] form. *)
Definition NodeString (n : Node) : string :=
  Name n +:+ String " " (Host n +:+ String " " (FormatUint (RPCPort n) +:+ String " "
    (FormatUint (ClientPort n) +:+ String " " (FormatUint (ReseedPort n))))).

(** ** Well-formed nodes *)

Definition is_word (s : string) : Prop := s ≠ "" ∧ no_space s = true.

Definition wf_node (n : Node) : Prop :=
  is_word (Name n) ∧ is_word (Host n) ∧
  is_u64 (RPCPort n) ∧ is_u64 (ClientPort n) ∧ is_u64 (ReseedPort n).

(** What survives the trip through the task identifier. *)
Definition strip_node (n : Node) : Node :=
  mkNode (Name n) (Host n) (RPCPort n) (ClientPort n) (ReseedPort n) "" "".

Lemma FormatUint_word z : is_word (FormatUint z).
Proof. split; [apply FormatUint_nonempty|apply graphic_no_space, FormatUint_graphic]. Qed.

#[export] Hint Resolve FormatUint_word : etcd.

Lemma Fields_NodeString n :
  is_word (Name n) → is_word (Host n) →
  Fields (NodeString n) =
    [Name n; Host n; FormatUint (RPCPort n); FormatUint (ClientPort n); FormatUint (ReseedPort n)].
Proof.
  intros [? ?] [? ?]. unfold NodeString.
  destruct (FormatUint_word (RPCPort n)), (FormatUint_word (ClientPort n)),
    (FormatUint_word (ReseedPort n)).
  by rewrite !Fields_cons, Fields_last by done.
Qed.

Lemma Parse_NodeString n : wf_node n → Parse (NodeString n) = Ok (strip_node n).
Proof.
  intros (Hn & Hh & Hr & Hc & Hs). unfold Parse. rewrite Fields_NodeString by done.
  by rewrite !ParseUint_FormatUint by done.
Qed.

(** What [Parse] returns is well formed. *)
Lemma Parse_wf t n : Parse t = Ok n → wf_node n ∧ strip_node n = n.
Proof.
  unfold Parse. pose proof (Fields_words t) as Hw.
  destruct (Fields t) as [|f0 [|f1 [|f2 [|f3 [|f4 [|? ?]]]]]]; try done.
  repeat case_match; try done. intros [= <-].
  repeat match goal with H : ParseUint _ = Some _ |- _ => apply ParseUint_bounds in H end.
  repeat match goal with H : Forall _ (_ :: _) |- _ => inversion H; subst; clear H end.
  done.
Qed.

(** ** Theorems *)

(** a node whose name and host are words and whose ports are 64-bit is
    recovered from the task identifier [String] prints, up to the two fields
    ([Type], [SlaveID]) the identifier does not carry; so two such nodes with
    the same task identifier agree on everything the identifier carries. *)
Theorem task_id_round_trip n m :
  wf_node n → wf_node m →
  Parse (NodeString n) = Ok (strip_node n) ∧
  (NodeString n = NodeString m → strip_node n = strip_node m).
Proof.
  intros Hn Hm. split; [by apply Parse_NodeString|]. intros E.
  pose proof (Parse_NodeString n Hn) as Pn. rewrite E, Parse_NodeString in Pn by done.
  congruence.
Qed.

Lemma task_id_round_trip_witness :
  Parse (NodeString (mkNode "etcd-1" "localhost" 31000 31001 31002 "new" "slave-1"))
  = Ok (mkNode "etcd-1" "localhost" 31000 31001 31002 "" "").
Proof.
  apply (task_id_round_trip (mkNode "etcd-1" "localhost" 31000 31001 31002 "new" "slave-1")
    (mkNode "etcd-2" "localhost" 31000 31001 31002 "new" "slave-1"));
    vm_compute; repeat split; discriminate.
Defined.

(** whatever text [Parse] accepts, the node it returns prints to a text
    that [Parse] maps to the same node: printing is a normal form of the
    accepted task identifiers. *)
Theorem Parse_normal_form t n :
  Parse t = Ok n → Parse (NodeString n) = Ok n.
Proof. intros [Hwf Hs]%Parse_wf. rewrite Parse_NodeString by done. by rewrite Hs. Qed.

Lemma Parse_normal_form_witness :
  Parse (NodeString (mkNode "a" "b" 7 2 3 "" "")) = Ok (mkNode "a" "b" 7 2 3 "" "").
Proof. apply (Parse_normal_form "  a  b 007 2 3 "). reflexivity. Defined.
