(* ===== verification/Codec.v ===== *)
(** * The JSON documents of the system

    How [json.Unmarshal] fills the Go types the sources decode into and how
    [json.Marshal] prints the ones they encode.  Object keys match struct fields
    up to case folding, unknown keys are ignored, [null] leaves a field as it is,
    and a value of the wrong kind makes the whole decoding fail.  An array under
    a repeated key is decoded afresh. *)

From Stdlib Require Import Ascii.
From stdpp Require Import base strings list gmap sorting.
From S2P Require Import Prelude GoStd Errors Json Config.

(** ** Decoding combinators *)

Definition lower (a : ascii) : ascii :=
  if in_range 65 90 (byte a) then chr (byte a + 32) else a.

(** Simple case folding of an object key compared with an ASCII field name: the
    long s and the Kelvin sign fold to ASCII letters. *)
Fixpoint fold_key (s : string) : string :=
  match s with
  | "" => ""
  | String a s1 =>
      match s1 with
      | String b s2 =>
          if bool_decide (byte a = 0xC5%N) && bool_decide (byte b = 0xBF%N)
          then String "s" (fold_key s2)
          else match s2 with
               | String c s3 =>
                   if bool_decide (byte a = 0xE2%N) && bool_decide (byte b = 0x84%N)
                        && bool_decide (byte c = 0xAA%N)
                   then String "k" (fold_key s3)
                   else String (lower a) (fold_key s1)
               | "" => String (lower a) (fold_key s1)
               end
      | "" => String (lower a) ""
      end
  end.

Definition dec_string (old : string) (v : json) : option string :=
  match v with JStr s => Some s | JNull => Some old | _ => None end.

Definition dec_u64 (old : Z) (v : json) : option Z :=
  match v with JNum l => ParseUint l | JNull => Some old | _ => None end.

(** Digits of a number literal: mantissa without its point, exponent of ten. *)
Fixpoint mantissa (s : string) (frac : bool) (m e : Z) : Z * Z * string :=
  match s with
  | "" => (m, e, "")
  | String a s' =>
      if is_digit a then
        mantissa s' frac (m * 10 + (Z.of_N (byte a) - 48)) (if frac then e - 1 else e)%Z
      else if bool_decide (a = "."%char) then mantissa s' true m e
      else (m, e, s')
  end.

(** Whether [strconv.ParseFloat] accepts the literal: it fails when the value
    rounds beyond the largest binary64, 2^1024 - 2^971. *)
Definition float_in_range (lit : string) : bool :=
  let digits := match lit with String "-" r => r | _ => lit end in
  let '(m, e, expo) := mantissa digits false 0 0 in
  let x := default 0%Z (ParseInt expo) in
  let expo_big := match expo with "" => false | _ => bool_decide (ParseInt expo = None) end in
  let expo_neg := HasPrefix expo "-" in
  if bool_decide (m = 0%Z) then true
  else if expo_big then expo_neg
  else let k := (e + x)%Z in
       if bool_decide (400 < k)%Z then false
       else if bool_decide (0 ≤ k)%Z then bool_decide (m * 10 ^ k < 2 ^ 1024 - 2 ^ 970)%Z
       else if bool_decide (Z.of_nat (String.length digits) < - k)%Z then true
       else bool_decide (m < (2 ^ 1024 - 2 ^ 970) * 10 ^ (- k))%Z.

(** A [float64] field whose value is not used: only acceptance matters. *)
Definition dec_float (v : json) : option unit :=
  match v with
  | JNum l => if float_in_range l then Some tt else None
  | JNull => Some tt
  | _ => None
  end.

Definition dec_slice {A} (dec : json → option A) (v : json) : option (list A) :=
  match v with JArr vs => mapM dec vs | JNull => Some [] | _ => None end.

Fixpoint dec_fields {A} (set : A → string → json → option A) (a : A)
    (kvs : list (string * json)) : option A :=
  match kvs with
  | [] => Some a
  | (k, v) :: kvs => a' ← set a (fold_key k) v; dec_fields set a' kvs
  end.

Definition dec_struct {A} (set : A → string → json → option A) (zero : A) (v : json) : option A :=
  match v with JObj kvs => dec_fields set zero kvs | JNull => Some zero | _ => None end.

(** A map of Go: [None] is the nil map, which reads as an empty one. *)
Abbreviation gomap A := (option (gmap string A)).
Definition entries {A} (m : gomap A) : gmap string A := default ∅ m.

(** [null] sets the map to nil. *)
Definition dec_map {A} (dec : json → option A) (v : json) : option (gomap A) :=
  match v with
  | JObj kvs => Some <$> foldl (λ m kv, m' ← m; x ← dec kv.2; Some (<[kv.1 := x]> m')) (Some ∅) kvs
  | JNull => Some None
  | _ => None
  end.

(** ** Lists of nodes: scheduler to executor *)

Definition node_zero : Node := mkNode "" "" 0 0 0 "" "".

Definition set_node (n : Node) (k : string) (v : json) : option Node :=
  let 'mkNode name host rpc client reseed ty slave := n in
  if bool_decide (k = "name") then x ← dec_string name v; Some (mkNode x host rpc client reseed ty slave)
  else if bool_decide (k = "host") then x ← dec_string host v; Some (mkNode name x rpc client reseed ty slave)
  else if bool_decide (k = "rpcport") then x ← dec_u64 rpc v; Some (mkNode name host x client reseed ty slave)
  else if bool_decide (k = "clientport") then x ← dec_u64 client v; Some (mkNode name host rpc x reseed ty slave)
  else if bool_decide (k = "httpport") then x ← dec_u64 reseed v; Some (mkNode name host rpc client x ty slave)
  else if bool_decide (k = "type") then x ← dec_string ty v; Some (mkNode name host rpc client reseed x slave)
  else if bool_decide (k = "slaveid") then x ← dec_string slave v; Some (mkNode name host rpc client reseed ty x)
  else Some n.

(** An element of a [[]*Node]: [null] is the nil pointer. *)
Definition dec_node_ptr (v : json) : option (option Node) :=
  match v with
  | JNull => Some None
  | _ => n ← dec_struct set_node node_zero v; Some (Some n)
  end.

Definition Unmarshal_nodes (data : string) : option (list (option Node)) :=
  v ← parse data; dec_slice dec_node_ptr v.

Definition node_json (n : Node) : json :=
  JObj [("name", JStr (Name n)); ("host", JStr (Host n));
        ("rpcPort", JNum (FormatUint (RPCPort n)));
        ("clientPort", JNum (FormatUint (ClientPort n)));
        ("httpPort", JNum (FormatUint (ReseedPort n)));
        ("type", JStr (Type_ n)); ("slaveID", JStr (SlaveID n))].

Definition Marshal_nodes (ns : list Node) : string := print (JArr (node_json <$> ns)).

(** ** The reconciliation map: scheduler to ZooKeeper and back *)

Definition key_le (x y : string * string) : Prop := String.le x.1 y.1.

#[export] Instance key_le_dec : RelDecision key_le.
Proof. intros x y. unfold key_le. apply _. Defined.

(** Go prints the keys of a map in increasing order. *)
Definition Marshal_map (m : gmap string string) : string :=
  print (JObj ((λ kv, (kv.1, JStr kv.2)) <$> merge_sort key_le (map_to_list m))).

Definition Unmarshal_map (data : string) : option (gomap string) :=
  v ← parse data; dec_map (dec_string "") v.

(** ** Answers of etcd *)

Definition set_member (m : Member) (k : string) (v : json) : option Member :=
  let 'mkMember id name peers clients := m in
  if bool_decide (k = "id") then x ← dec_string id v; Some (mkMember x name peers clients)
  else if bool_decide (k = "name") then x ← dec_string name v; Some (mkMember id x peers clients)
  else if bool_decide (k = "peerurls") then x ← dec_slice (dec_string "") v; Some (mkMember id name x clients)
  else if bool_decide (k = "clienturls") then x ← dec_slice (dec_string "") v; Some (mkMember id name peers x)
  else Some m.

Definition set_member_list (l : ClusterMemberList) (k : string) (v : json) : option ClusterMemberList :=
  if bool_decide (k = "members") then
    ms ← dec_slice (dec_struct set_member (mkMember "" "" [] [])) v; Some (mkMemberList ms)
  else Some l.

Definition Unmarshal_members (body : string) : option ClusterMemberList :=
  v ← parse body; dec_struct set_member_list (mkMemberList []) v.

(** The reply to the removal of a member: its message. *)
Definition set_message (m : string) (k : string) (v : json) : option string :=
  if bool_decide (k = "message") then dec_string m v else Some m.

Definition Unmarshal_message (body : string) : option string :=
  v ← parse body; dec_struct set_message "" v.

(** The leader statistics, of which only well-formedness is used. *)
Definition check_latency (_ : unit) (k : string) (v : json) : option unit :=
  if bool_decide (k ∈ ["current"; "average"; "standarddeviation"; "minimum"; "maximum"])
  then dec_float v else Some tt.

Definition check_counts (_ : unit) (k : string) (v : json) : option unit :=
  if bool_decide (k = "fail") || bool_decide (k = "success")
  then _ ← dec_u64 0 v; Some tt else Some tt.

Definition check_follower (_ : unit) (k : string) (v : json) : option unit :=
  if bool_decide (k = "latency") then dec_struct check_latency tt v
  else if bool_decide (k = "counts") then dec_struct check_counts tt v
  else Some tt.

Definition set_leader (l : string) (k : string) (v : json) : option string :=
  if bool_decide (k = "leader") then dec_string l v
  else if bool_decide (k = "followers") then _ ← dec_map (dec_struct check_follower tt) v; Some l
  else Some l.

Definition Unmarshal_leader (body : string) : option string :=
  v ← parse body; dec_struct set_leader "" v.

(** ** Round trips *)

(** Nodes whose strings are ASCII and whose ports are 64-bit. *)
Definition ascii_node (n : Node) : Prop :=
  is_ascii (Name n) = true ∧ is_ascii (Host n) = true ∧ is_ascii (Type_ n) = true ∧
  is_ascii (SlaveID n) = true ∧
  is_u64 (RPCPort n) ∧ is_u64 (ClientPort n) ∧ is_u64 (ReseedPort n).

Lemma node_json_wf n : ascii_node n → wf_json (node_json n) = true.
Proof.
  intros (Hn & Hh & Ht & Hs & _). cbn -[is_ascii valid_number].
  by rewrite Hn, Hh, Ht, Hs, !valid_number_FormatUint.
Qed.

Lemma dec_node_json n : ascii_node n → dec_node_ptr (node_json n) = Some (Some n).
Proof.
  intros (_ & _ & _ & _ & Hr & Hc & Hx). destruct n as [name host rpc client reseed ty slave].
  simpl in *. lazy -[ParseUint FormatUint]. by rewrite !ParseUint_FormatUint by done.
Qed.

Lemma nodes_json_wf ns : Forall ascii_node ns → wf_json (JArr (node_json <$> ns)) = true.
Proof.
  intros HF. cbn [wf_json]. induction HF as [|n ns Hn HF IH]; [done|].
  rewrite fmap_cons. cbn [forallb]. by rewrite node_json_wf, IH.
Qed.

Lemma Unmarshal_Marshal_nodes ns :
  Forall ascii_node ns → Unmarshal_nodes (Marshal_nodes ns) = Some (Some <$> ns).
Proof.
  intros HF. unfold Unmarshal_nodes, Marshal_nodes. rewrite parse_print by by apply nodes_json_wf.
  simpl. induction HF as [|n ns Hn HF IH]; [done|]. rewrite !fmap_cons. cbn [mapM].
  rewrite dec_node_json by done. simpl. by rewrite IH.
Qed.

(** Maps whose keys and values are ASCII. *)
Definition ascii_map (m : gmap string string) : Prop :=
  map_Forall (λ k v, is_ascii k = true ∧ is_ascii v = true) m.

Lemma dec_map_strings (l : list (string * string)) acc :
  foldl (λ m kv, m' ← m; x ← dec_string "" kv.2; Some (<[kv.1 := x]> m')) (Some acc)
    ((λ kv, (kv.1, JStr kv.2)) <$> l)
  = Some (foldl (λ m kv, <[kv.1 := kv.2]> m) acc l : gmap string string).
Proof. revert acc. induction l as [|kv l IH]; intros acc; [done|]. simpl. by rewrite IH. Qed.

Lemma foldl_insert_lookup (l : list (string * string)) (acc : gmap string string) :
  NoDup l.*1 → (∀ k, k ∈ l.*1 → acc !! k = None) →
  foldl (λ m kv, <[kv.1 := kv.2]> m) acc l = list_to_map l ∪ acc.
Proof.
  revert acc. induction l as [|[k v] l IH]; intros acc Hnd Hacc; simpl.
  - by rewrite map_empty_union.
  - rewrite fmap_cons, NoDup_cons in Hnd. destruct Hnd as [Hk Hnd]. simpl in Hk.
    rewrite IH; [|done|].
    + rewrite <- insert_union_l, <- insert_union_r; [done|].
      by apply not_elem_of_list_to_map_1.
    + intros k' Hk'. rewrite lookup_insert_ne; [|set_solver]. apply Hacc. simpl. by right.
Qed.

Lemma NoDup_sorted_keys (m : gmap string string) : NoDup (merge_sort key_le (map_to_list m)).*1.
Proof. rewrite merge_sort_Permutation. apply NoDup_fst_map_to_list. Qed.

Lemma Unmarshal_Marshal_map m : ascii_map m → Unmarshal_map (Marshal_map m) = Some (Some m).
Proof.
  intros Hm. unfold Unmarshal_map, Marshal_map. rewrite parse_print.
  - simpl. rewrite dec_map_strings. cbn [fmap option_fmap option_map]. do 2 f_equal.
    rewrite foldl_insert_lookup; [|apply NoDup_sorted_keys|intros; apply lookup_empty].
    rewrite map_union_empty, (list_to_map_proper _ (map_to_list m)).
    + apply list_to_map_to_list.
    + apply NoDup_sorted_keys.
    + apply merge_sort_Permutation.
  - cbn [wf_json]. apply forallb_forall. intros kv Hkv.
    apply list_elem_of_In, list_elem_of_fmap in Hkv as ([k v] & -> & Hkv). simpl.
    rewrite merge_sort_Permutation in Hkv. apply elem_of_map_to_list, Hm in Hkv as [-> ->].
    done.
Qed.
