(* ===== verification/Mesos.v ===== *)
(** * Mesos protocol messages

    The protobuf messages the scheduler and the executor exchange with Mesos,
    with the fields the sources read or write, and the constructors of
    mesosutil.  A [required] protobuf field is a plain field; an [optional] one
    that the code reads through its nil-safe getter is an [option].  The
    [double] values are Go's [float64], here Rocq's binary64 primitive floats. *)

From Stdlib Require Import Floats.
From stdpp Require Import base strings list.
From S2P Require Import Prelude GoStd Upid.

Record Value_Range := mkRange { Begin : Z; End_ : Z }.

Inductive Value_Type := SCALAR | RANGES | SET.

Record Resource := mkResource {
  RName : string;
  RType : Value_Type;
  RScalar : option float;
  RRanges : option (list Value_Range);
}.

Record Offer := mkOffer {
  OfferId : string;
  OfferSlaveId : string;
  OfferHostname : string;
  OfferResources : list Resource;
}.

(** The nil-safe getters of the generated code. *)
Definition GetScalarValue (r : Resource) : float := default 0%float (RScalar r).
Definition GetRange (r : Resource) : list Value_Range := default [] (RRanges r).

(** mesosutil. *)
Definition NewValueRange (begin end_ : Z) : Value_Range := mkRange begin end_.

Fixpoint FilterResources {R} (resources : list R) (filter : R → bool) : list R :=
  match resources with
  | [] => []
  | r :: rs => if filter r then r :: FilterResources rs filter else FilterResources rs filter
  end.

(** Each offer replaces the result of the ones before it. *)
Definition FilterOffersResources (offers : list Offer) (filter : Resource → bool) : list Resource :=
  foldl (λ _ offer, FilterResources (OfferResources offer) filter) [] offers.

Definition NewScalarResource (name : string) (val : float) : Resource :=
  mkResource name SCALAR (Some val) None.

Definition NewRangesResource (name : string) (ranges : list Value_Range) : Resource :=
  mkResource name RANGES None (Some ranges).

(** ** Task status *)

Inductive TaskState :=
  | TASK_STAGING | TASK_STARTING | TASK_RUNNING | TASK_FINISHED
  | TASK_FAILED | TASK_KILLED | TASK_LOST | TASK_ERROR.

#[export] Instance TaskState_eq_dec : EqDecision TaskState.
Proof. solve_decision. Defined.

Record TaskStatus := mkStatus {
  StatusTaskId : string;
  StatusState : TaskState;
  StatusSlaveId : option string;
}.

(** [status.SlaveId.GetValue()]. *)
Definition GetSlaveIdValue (st : TaskStatus) : string := default "" (StatusSlaveId st).

(** ** Master information *)

Record Address := mkAddress {
  AddrHostname : option string;
  AddrIp : option string;
  AddrPort : option Z;
}.

Record MasterInfo := mkMasterInfo {
  MIId : option string;
  MIIp : option Z;
  MIPort : option Z;
  MIHostname : option string;
  MIAddress : option Address;
  MIPid : option string;
  MIVersion : option string;
}.

Definition NewMasterInfo (id : string) (ip port : Z) : MasterInfo :=
  mkMasterInfo (Some id) (Some ip) (Some port) None None None None.

(** ** Task description *)

Record CommandInfo := mkCommand {
  CmdValue : string;
  CmdShell : bool;
  CmdUris : list string;
  CmdArguments : list string;
}.

Record ExecutorInfo := mkExecutorInfo {
  ExecutorId : string;
  ExecFrameworkId : option string;
  ExecName : string;
  ExecSource : string;
  ExecCommand : CommandInfo;
  ExecResources : list Resource;
}.

Record Port := mkPort { PortNumber : Z; PortProtocol : string }.

Inductive Visibility := FRAMEWORK | CLUSTER | EXTERNAL.

Record DiscoveryInfo := mkDiscovery {
  DiscVisibility : Visibility;
  DiscName : string;
  DiscPorts : list Port;
}.

Record TaskInfo := mkTaskInfo {
  TaskData : string;
  TaskName : string;
  TaskTaskId : string;
  TaskSlaveId : string;
  TaskExecutor : ExecutorInfo;
  TaskResources : list Resource;
  TaskDiscovery : DiscoveryInfo;
}.

(** ** The messages of the drivers *)

Inductive DriverStatus :=
  | DRIVER_NOT_STARTED | DRIVER_RUNNING | DRIVER_ABORTED | DRIVER_STOPPED.

#[export] Instance DriverStatus_eq_dec : EqDecision DriverStatus.
Proof. solve_decision. Defined.

Record FrameworkInfo := mkFrameworkInfo {
  FIUser : string;
  FIName : string;
  FIId : option string;
  FIFailoverTimeout : option float;
  FICheckpoint : bool;
  FIHostname : string;
  FIPrincipal : option string;
  FIWebuiUrl : string;
}.

(** [GetId().GetValue()]. *)
Definition GetFrameworkId (fw : FrameworkInfo) : string := default "" (FIId fw).

(** A status update on its way; the time stamps are left out, an absent [uuid] is
    the empty one. *)
Record TaskUpdate := mkUpdate {
  UpdFrameworkId : option string;
  UpdExecutorId : string;
  UpdSlaveId : string;
  UpdStatus : TaskStatus;
  UpdMessage : string;
  UpdUuid : string;
}.

(** An operation on accepted offers; of a resource to reserve or a volume to
    create the driver reads also whether it has a reservation and a disk. *)
Record ReservedResource := mkReserved {
  rr_resource : Resource;
  rr_reservation : bool;
  rr_disk : bool;
}.

Inductive Offer_Operation :=
  | OpLaunch (tasks : list TaskInfo)
  | OpReserve (resources : list ReservedResource)
  | OpUnreserve (resources : list ReservedResource)
  | OpCreate (volumes : list ReservedResource)
  | OpDestroy (volumes : list ReservedResource).

(** What the drivers send: to the master, to a slave. *)
Inductive Message :=
  | RegisterFrameworkMessage (framework : FrameworkInfo)
  | ReregisterFrameworkMessage (framework : FrameworkInfo) (failover : bool)
  | UnregisterFrameworkMessage (frameworkId : option string)
  | StatusUpdateAcknowledgementMessage (slaveId : string) (frameworkId : option string) (taskId uuid : string)
  | LaunchTasksMessage (frameworkId : option string) (offerIds : list string) (tasks : list TaskInfo)
      (refuseSeconds : float)
  | AcceptCall (frameworkId : option string) (offerIds : list string) (operations : list Offer_Operation)
      (refuseSeconds : float)
  | KillTaskMessage (frameworkId : option string) (taskId : string)
  | ReconcileTasksMessage (frameworkId : option string) (statuses : list TaskStatus)
  | ResourceRequestMessage (frameworkId : option string) (requests : list (list Resource))
  | ReviveOffersMessage (frameworkId : option string)
  | FrameworkToExecutorMessage (slaveId : string) (frameworkId : option string) (executorId data : string)
  | RegisterExecutorMessage (frameworkId executorId : string)
  | ReregisterExecutorMessage (executorId frameworkId : string) (updates : list TaskUpdate) (tasks : list TaskInfo)
  | StatusUpdateMessage (update : TaskUpdate) (pid : string)
  | ExecutorToFrameworkMessage (slaveId frameworkId executorId data : string).

(** The callbacks of the scheduler that its driver invokes. *)
Inductive SchedCall :=
  | ScRegistered (frameworkId : string) (master : MasterInfo)
  | ScReregistered (master : MasterInfo)
  | ScDisconnected
  | ScResourceOffers (offers : list Offer)
  | ScOfferRescinded (offerId : string)
  | ScStatusUpdate (status : TaskStatus) (uuid : string)
  | ScFrameworkMessage (executorId slaveId data : string)
  | ScSlaveLost (slaveId : string)
  | ScExecutorLost (executorId slaveId : string) (status : Z)
  | ScError (message : string)
  | ScNoop.

(** The callbacks of the executor that its driver invokes. *)
Inductive ExecCall :=
  | EcRegistered
  | EcReregistered
  | EcDisconnected
  | EcLaunchTask (task : TaskInfo)
  | EcKillTask (taskId : string)
  | EcFrameworkMessage (data : string)
  | EcShutdown
  | EcError (message : string).
