(* ===== verification/OfferStore.v ===== *)
(** * The interface between the scheduler and the offer cache

    What the scheduler relies on: a bounded set of live offers.  The laws speak
    of the set alone; how the store orders the offers and when it forgets
    rescinded ones is its own affair.  [os_inv t seen] says that [t] is well
    formed and holds traces only of offers whose identifiers are in [seen], so
    that an identifier outside [seen] is new to the store.  A pop is a receive, which
    waits for an offer without a lock, and a locked lookup of what was received. *)

From stdpp Require Import base strings list gmap.
From S2P Require Import Prelude GoStd Mesos.

(** There is room, and with one instance per slave no live offer comes from the
    same slave. *)
Definition can_accept (set : gmap string Offer) (max : nat) (single : bool) (o : Offer) : Prop :=
  size set < max ∧
  ¬ (single = true ∧ ∃ k o', set !! k = Some o' ∧ OfferSlaveId o' = OfferSlaveId o).

#[export] Instance can_accept_dec set max single o : Decision (can_accept set max single o).
Proof.
  unfold can_accept. apply and_dec; [apply _|]. apply not_dec. apply and_dec; [apply _|].
  refine (@map_Exists_dec string (gmap string) _ _ _ _ _ _ _ _ _ _ (λ _ o', OfferSlaveId o' = OfferSlaveId o) _ set).
  intros i x. apply _.
Defined.

Class OfferStore (T : Type) := {
  os_new : nat → bool → T;
  os_push : Offer → T → bool * T;
  os_rescind : string → T → bool * T;
  os_recv : T → option (Offer * T);
  os_take : Offer → T → bool * T;
  os_len : T → nat;
  os_set : T → gmap string Offer;
  os_queue : T → list Offer;
  os_max : T → nat;
  os_single : T → bool;
  os_inv : T → gset string → Prop;
}.

(** Same bound and same policy. *)
Definition same_params `{OfferStore T} (t t' : T) : Prop :=
  os_max t' = os_max t ∧ os_single t' = os_single t.

Class OfferStoreLaws (T : Type) `{OfferStore T} : Prop := {
  os_new_inv n s : os_inv (os_new n s) ∅;
  os_new_set n s : os_set (os_new n s) = ∅;
  os_new_queue n s : os_queue (os_new n s) = [];
  os_new_max n s : os_max (os_new n s) = n;
  os_new_single n s : os_single (os_new n s) = s;
  os_inv_mono t X Y : X ⊆ Y → os_inv t X → os_inv t Y;
  os_inv_seen t X k o : os_inv t X → os_set t !! k = Some o → OfferId o = k ∧ k ∈ X;
  os_push_accept t X o :
    os_inv t X → OfferId o ∉ X → can_accept (os_set t) (os_max t) (os_single t) o →
    ∃ t', os_push o t = (true, t') ∧ os_set t' = <[OfferId o := o]> (os_set t) ∧
      (∀ x, x ∈ os_queue t' → x = o ∨ x ∈ os_queue t) ∧
      same_params t t' ∧ os_inv t' ({[OfferId o]} ∪ X);
  os_push_reject t o :
    ¬ can_accept (os_set t) (os_max t) (os_single t) o → os_push o t = (false, t);
  os_rescind_spec t X k :
    os_inv t X →
    ∃ t', os_rescind k t = (bool_decide (is_Some (os_set t !! k)), t') ∧
      os_set t' = delete k (os_set t) ∧ os_queue t' = os_queue t ∧ same_params t t' ∧ os_inv t' X;
  os_recv_spec t X o t' :
    os_inv t X → os_recv t = Some (o, t') →
    o ∈ os_queue t ∧ (∀ x, x ∈ os_queue t' → x ∈ os_queue t) ∧ os_set t' = os_set t ∧
    same_params t t' ∧ os_inv t' X;
  os_take_spec t X o :
    os_inv t X →
    ∃ t', os_take o t = (bool_decide (is_Some (os_set t !! OfferId o)), t') ∧
      os_set t' = delete (OfferId o) (os_set t) ∧ os_queue t' = os_queue t ∧ same_params t t' ∧ os_inv t' X;
  os_len_spec t : os_len t = size (os_set t);
}.
