(* ===== verification/OfferCache.v ===== *)
(** * The offer cache (src/offercache/offercache.go)

    A bounded set of live offers with a channel that fixes the order in which
    they are handed out.  Rescinding removes an offer from the set only; the
    queue keeps a stale entry that [BlockingPop] and [gc] drop later.

    The channel is the list of its buffered offers, of capacity [maxOffers].
    [maxOffers] is a [nat]: [make(chan, n)] panics for a negative [n], so no
    cache with a negative bound exists.  [BlockingPop] receives from the channel
    before it takes the lock; the two halves are [pop_recv] and [pop_take], and
    an offer received but not yet looked up is [inflight]. *)

From stdpp Require Import base strings list gmap.
From S2P Require Import Prelude GoStd Mesos OfferStore.

Record OfferCache := mkOC {
  offerSet : gmap string Offer;
  offerQueue : list Offer;
  maxOffers : nat;
  oc_singleInstancePerSlave : bool;
}.

Definition New (maxOffers : nat) (singleInstancePerSlave : bool) : OfferCache :=
  mkOC ∅ [] maxOffers singleInstancePerSlave.

(** Whether the set holds an offer of this identifier. *)
Definition live (set : gmap string Offer) (o : Offer) : Prop := is_Some (set !! OfferId o).

#[export] Instance live_dec set o : Decision (live set o).
Proof. unfold live. apply _. Defined.

(** [gc]: at most [len(offerSet)+1] entries are received from the queue, and
    requeued when still live. *)
Fixpoint gc_loop (n : nat) (set : gmap string Offer) (queue : list Offer) : list Offer :=
  match n with
  | O => queue
  | S n =>
      match queue with
      | [] => []
      | offer :: queue' =>
          if decide (live set offer) then gc_loop n set (queue' ++ [offer])
          else gc_loop n set queue'
      end
  end.

Definition gc (oc : OfferCache) : OfferCache :=
  mkOC (offerSet oc) (gc_loop (size (offerSet oc) + 1) (offerSet oc) (offerQueue oc))
    (maxOffers oc) (oc_singleInstancePerSlave oc).

(** The [for i := 0; i < 2; i++] loop of [Push]: a non-blocking send, with a
    garbage collection when the channel is full. *)
Fixpoint push_loop (n : nat) (newOffer : Offer) (oc : OfferCache) : bool * OfferCache :=
  match n with
  | O => (false, oc)
  | S n =>
      if decide (length (offerQueue oc) < maxOffers oc) then
        (true, mkOC (offerSet oc) (offerQueue oc ++ [newOffer]) (maxOffers oc)
                 (oc_singleInstancePerSlave oc))
      else push_loop n newOffer (gc oc)
  end.

(** Whether a cached offer comes from the slave. *)
Definition slave_cached (set : gmap string Offer) (slave : string) : bool :=
  existsb (λ p, bool_decide (OfferSlaveId p.2 = slave)) (map_to_list set).

Definition Push (newOffer : Offer) (oc : OfferCache) : bool * OfferCache :=
  if decide (size (offerSet oc) < maxOffers oc) then
    if slave_cached (offerSet oc) (OfferSlaveId newOffer) && oc_singleInstancePerSlave oc
    then (false, oc)
    else push_loop 2 newOffer
           (mkOC (<[OfferId newOffer := newOffer]> (offerSet oc)) (offerQueue oc)
              (maxOffers oc) (oc_singleInstancePerSlave oc))
  else (false, oc).

Definition Rescind (offerId : string) (oc : OfferCache) : bool * OfferCache :=
  (bool_decide (is_Some (offerSet oc !! offerId)),
   mkOC (delete offerId (offerSet oc)) (offerQueue oc) (maxOffers oc)
     (oc_singleInstancePerSlave oc)).

(** The receive of [BlockingPop], [None] when it blocks. *)
Definition pop_recv (oc : OfferCache) : option (Offer * OfferCache) :=
  match offerQueue oc with
  | [] => None
  | offer :: queue =>
      Some (offer, mkOC (offerSet oc) queue (maxOffers oc) (oc_singleInstancePerSlave oc))
  end.

(** The locked lookup and removal of [BlockingPop]. *)
Definition pop_take (offer : Offer) (oc : OfferCache) : bool * OfferCache :=
  if decide (live (offerSet oc) offer) then
    (true, mkOC (delete (OfferId offer) (offerSet oc)) (offerQueue oc) (maxOffers oc)
             (oc_singleInstancePerSlave oc))
  else (false, oc).

(** [BlockingPop] run without interruption; [None] when it blocks on an empty
    channel (the channel is never closed).  The queue bounds the iterations. *)
Fixpoint pop_loop (fuel : nat) (oc : OfferCache) : option Offer * OfferCache :=
  match fuel with
  | O => (None, oc)
  | S fuel =>
      match pop_recv oc with
      | None => (None, oc)
      | Some (offer, oc1) =>
          let '(ok, oc2) := pop_take offer oc1 in
          if ok then (Some offer, oc2) else pop_loop fuel oc2
      end
  end.

Definition BlockingPop (oc : OfferCache) : option Offer * OfferCache :=
  pop_loop (S (length (offerQueue oc))) oc.

Definition Len (oc : OfferCache) : nat := size (offerSet oc).

(** ** Representation invariant

    [fl] lists the offers received from the channel whose lookup is still to
    come.  Every live offer is in the queue or in flight, once, under its own
    identifier; queue and set respect the bound; with one instance per slave
    no two live offers share a slave. *)

Definition ids (os : list Offer) : list string := OfferId <$> os.

Record wf (oc : OfferCache) (fl : list Offer) : Prop := {
  wf_nodup : NoDup (ids (fl ++ offerQueue oc));
  wf_sub k o : offerSet oc !! k = Some o → OfferId o = k ∧ o ∈ fl ++ offerQueue oc;
  wf_queue : length (offerQueue oc) ≤ maxOffers oc;
  wf_size : size (offerSet oc) ≤ maxOffers oc;
  wf_slaves k1 k2 o1 o2 : oc_singleInstancePerSlave oc = true →
    offerSet oc !! k1 = Some o1 → offerSet oc !! k2 = Some o2 →
    OfferSlaveId o1 = OfferSlaveId o2 → k1 = k2;
}.

(** What the cache promises, on the set of live offers alone. *)
Definition accepts (oc : OfferCache) (o : Offer) : Prop :=
  can_accept (offerSet oc) (maxOffers oc) (oc_singleInstancePerSlave oc) o.

Lemma slave_cached_true set slave :
  slave_cached set slave = true ↔ ∃ k o, set !! k = Some o ∧ OfferSlaveId o = slave.
Proof.
  unfold slave_cached. rewrite existsb_exists. split.
  - intros ([k o] & Hin & Hs). apply bool_decide_eq_true in Hs.
    apply list_elem_of_In, elem_of_map_to_list in Hin. eauto.
  - intros (k & o & Hk & Hs). exists (k, o). split; [|by apply bool_decide_eq_true].
    by apply list_elem_of_In, elem_of_map_to_list.
Qed.

Lemma accepts_alt oc o :
  accepts oc o ↔ size (offerSet oc) < maxOffers oc ∧
    slave_cached (offerSet oc) (OfferSlaveId o) && oc_singleInstancePerSlave oc = false.
Proof.
  unfold accepts, can_accept. rewrite andb_false_iff, <- !not_true_iff_false, slave_cached_true.
  destruct (decide (oc_singleInstancePerSlave oc = true)); naive_solver.
Qed.

(** ** Garbage collection *)

Section Gc.
Context (set : gmap string Offer).

(** As long as [n] entries are available, [n] rounds move the live ones among
    them to the back and drop the others. *)
Lemma gc_loop_take n queue :
  n ≤ length queue →
  gc_loop n set queue = drop n queue ++ filter (live set) (take n queue).
Proof.
  assert (H : ∀ n q done, n ≤ length q →
    gc_loop n set (q ++ done) = drop n q ++ done ++ filter (live set) (take n q)).
  { clear. induction n as [|n IH]; intros q done Hn; simpl.
    - by rewrite app_nil_r.
    - destruct q as [|o q]; simpl in *; [lia|].
      rewrite filter_cons. case_decide.
      + rewrite <- app_assoc, IH by lia. by rewrite <- app_assoc.
      + by rewrite IH by lia. }
  intros Hn. specialize (H n queue [] Hn). by rewrite app_nil_r in H.
Qed.

(** Entries of the result come from the queue, live ones stay. *)
Lemma gc_loop_elem n queue o :
  o ∈ gc_loop n set queue → o ∈ queue.
Proof.
  revert queue. induction n as [|n IH]; intros queue; simpl; [done|].
  destruct queue as [|o' queue]; [done|]. case_decide; intros Hin%IH; set_solver.
Qed.

Lemma gc_loop_live n queue o :
  o ∈ queue → live set o → o ∈ gc_loop n set queue.
Proof.
  revert queue. induction n as [|n IH]; intros queue; simpl; [done|].
  destruct queue as [|o' queue]; [done|]. intros Hin Hl.
  case_decide; apply IH; auto; set_solver.
Qed.

Lemma gc_loop_NoDup {B} (f : Offer → B) (l : list Offer) n queue :
  NoDup (f <$> l ++ queue) → NoDup (f <$> l ++ gc_loop n set queue).
Proof.
  revert queue. induction n as [|n IH]; intros queue; simpl; [done|].
  destruct queue as [|o queue]; [done|]. intros Hnd. case_decide.
  - apply IH. revert Hnd. rewrite !fmap_app, fmap_cons. simpl.
    rewrite (Permutation_app_comm (f <$> queue)). done.
  - apply IH. revert Hnd. rewrite !fmap_app, fmap_cons, !NoDup_app. simpl.
    rewrite NoDup_cons. intros (? & Hd & _ & ?). split; [done|]. split; [|done].
    intros x Hx Hx'. apply (Hd x Hx). by right.
Qed.

Lemma gc_loop_length n queue : length (gc_loop n set queue) ≤ length queue.
Proof.
  revert queue. induction n as [|n IH]; intros queue; simpl; [done|].
  destruct queue as [|o queue]; [done|].
  case_decide; etransitivity; [apply IH| |apply IH|]; rewrite ?length_app; simpl; lia.
Qed.

Lemma gc_loop_length_full n m queue :
  length (gc_loop (n + m) set queue) ≤ length (gc_loop n set queue).
Proof.
  revert queue. induction n as [|n IH]; intros queue; simpl; [apply gc_loop_length|].
  destruct queue as [|o queue]; [done|]. by case_decide.
Qed.
End Gc.

(** A list of distinct identifiers of live offers is no longer than the set. *)
Lemma live_length (set : gmap string Offer) (os : list Offer) :
  NoDup (ids os) → (∀ o, o ∈ os → live set o) → length os ≤ size set.
Proof.
  intros Hnd Hl. rewrite <- size_dom.
  rewrite <- (length_fmap OfferId os), <- (size_list_to_set (C:=gset string)) by done.
  apply subseteq_size. intros x Hx%elem_of_list_to_set.
  apply list_elem_of_fmap in Hx as (o & -> & Ho). apply elem_of_dom. by apply Hl.
Qed.

(** When the queue is full and the set holds an offer that is not in the queue,
    garbage collection frees an entry: among the first [size set] entries at
    most [size set - 1] are live. *)
Lemma gc_makes_room (set : gmap string Offer) (queue : list Offer) new :
  NoDup (ids queue) → is_Some (set !! new) → new ∉ ids queue → size set ≤ length queue →
  length (gc_loop (size set + 1) set queue) < length queue.
Proof.
  intros Hnd Hnew Hni Hsz.
  eapply Nat.le_lt_trans; [apply gc_loop_length_full|].
  rewrite gc_loop_take, length_app, length_drop by done.
  assert (length (filter (live set) (take (size set) queue)) ≤ size (delete new set)) as Hle.
  { apply live_length.
    - apply (sublist_NoDup _ _ Hnd), fmap_sublist.
      etrans; [apply sublist_filter|apply sublist_take].
    - intros o [Hl Ho%elem_of_take]%list_elem_of_filter.
      destruct Ho as (i & Hi & _). unfold live. rewrite lookup_delete_ne; [done|].
      intros ->. apply Hni, list_elem_of_fmap_2. by eapply list_elem_of_lookup_2. }
  rewrite (map_size_delete_Some new set) in Hle by done.
  assert (size set ≠ 0) by (destruct Hnew as [x Hx]; intros ->%map_size_empty_inv; done).
  lia.
Qed.

(** ** Each operation keeps the invariant and does what it promises *)

Lemma wf_New n single : wf (New n single) [].
Proof.
  split; simpl; [constructor| |lia|rewrite map_size_empty; lia|];
    intros; by rewrite lookup_empty in *.
Qed.

Lemma wf_fresh oc fl o :
  wf oc fl → OfferId o ∉ ids (fl ++ offerQueue oc) → offerSet oc !! OfferId o = None.
Proof.
  intros Hwf Hfr. destruct (offerSet oc !! OfferId o) as [o'|] eqn:E; [|done].
  destruct Hfr. apply (wf_sub _ _ Hwf) in E as [Hid Hin]. rewrite <- Hid.
  by apply list_elem_of_fmap_2.
Qed.

(** A live queued offer is the one the set holds. *)
Lemma wf_live_lookup oc fl o :
  wf oc fl → o ∈ fl ++ offerQueue oc → live (offerSet oc) o →
  offerSet oc !! OfferId o = Some o.
Proof.
  intros Hwf Hin [o' Ho']. rewrite Ho'. f_equal.
  destruct (wf_sub _ _ Hwf _ _ Ho') as [Hid Hin'].
  by apply (NoDup_fmap_elem_eq OfferId (fl ++ offerQueue oc)); [apply wf_nodup| | |].
Qed.

(** The state after an accepted push, for any queue that holds the same live
    offers and has room. *)
Lemma wf_enqueue oc fl o queue :
  wf oc fl → OfferId o ∉ ids (fl ++ offerQueue oc) → accepts oc o →
  NoDup (ids (fl ++ queue)) →
  (∀ x, x ∈ queue → x ∈ offerQueue oc) →
  (∀ x, x ∈ offerQueue oc → live (offerSet oc) x → x ∈ queue) →
  length queue < maxOffers oc →
  wf (mkOC (<[OfferId o := o]> (offerSet oc)) (queue ++ [o]) (maxOffers oc)
        (oc_singleInstancePerSlave oc)) fl.
Proof.
  intros Hwf Hfr [Hsz Hsl] Hnd Hsub Hlive Hroom.
  pose proof (wf_fresh _ _ _ Hwf Hfr) as Hnone.
  split; simpl.
  - unfold ids. rewrite app_assoc, fmap_app. apply NoDup_snoc; [done|].
    intros Hin. apply Hfr. apply list_elem_of_fmap in Hin as (x & Hx & Hin).
    rewrite Hx. apply list_elem_of_fmap_2. rewrite elem_of_app in Hin |- *.
    destruct Hin; auto.
  - intros k x [[<- <-]|[Hne Hk]]%lookup_insert_Some.
    + split; [done|]. rewrite !elem_of_app. right. right. by left.
    + destruct (wf_sub _ _ Hwf _ _ Hk) as [Hid Hin]. split; [done|].
      rewrite !elem_of_app in *. destruct Hin as [?|Hin]; [by left|].
      right. left. apply Hlive; [done|]. unfold live. rewrite Hid. eauto.
  - rewrite length_app. simpl. lia.
  - rewrite map_size_insert_None by done. lia.
  - intros k1 k2 o1 o2 Hs H1 H2 Heq.
    apply lookup_insert_Some in H1 as [[<- <-]|[Hk1 H1]];
      apply lookup_insert_Some in H2 as [[<- <-]|[Hk2 H2]]; try done.
    + destruct Hsl. eauto.
    + destruct Hsl. eauto.
    + by eapply (wf_slaves _ _ Hwf).
Qed.

Lemma Push_accepts oc fl o :
  wf oc fl → OfferId o ∉ ids (fl ++ offerQueue oc) → accepts oc o →
  ∃ queue, Push o oc = (true, mkOC (<[OfferId o := o]> (offerSet oc)) (queue ++ [o])
                           (maxOffers oc) (oc_singleInstancePerSlave oc)) ∧
    (∀ x, x ∈ queue → x ∈ offerQueue oc) ∧ wf (Push o oc).2 fl.
Proof.
  intros Hwf Hfr Hacc.
  pose proof (proj1 (accepts_alt _ _) Hacc) as [Hsz Hsl].
  unfold Push. rewrite decide_True by done. rewrite Hsl. cbn [push_loop offerQueue maxOffers].
  case_decide as Hroom.
  { exists (offerQueue oc); split; [done|]. split; [done|]. simpl. apply wf_enqueue; auto. by apply wf_nodup. }
  unfold gc. cbn [offerSet offerQueue maxOffers oc_singleInstancePerSlave].
  set (set' := <[OfferId o := o]> (offerSet oc)).
  pose proof (wf_fresh _ _ _ Hwf Hfr) as Hnone.
  assert (length (gc_loop (size set' + 1) set' (offerQueue oc)) < maxOffers oc) as Hgc.
  { eapply Nat.lt_le_trans; [|by eapply wf_queue].
    apply (gc_makes_room _ _ (OfferId o)).
    - pose proof (wf_nodup _ _ Hwf) as Hnd. unfold ids in Hnd.
      rewrite fmap_app, NoDup_app in Hnd. tauto.
    - unfold set'. rewrite lookup_insert_eq. eauto.
    - intros Hin. apply Hfr. unfold ids. rewrite fmap_app, elem_of_app. by right.
    - unfold set'. rewrite map_size_insert_None by done. lia. }
  rewrite decide_True by done. eexists; split; [done|]. split; [apply gc_loop_elem|]. simpl.
  apply wf_enqueue; auto.
  - apply gc_loop_NoDup. by apply wf_nodup.
  - apply gc_loop_elem.
  - intros x Hx Hl. apply gc_loop_live; [done|]. unfold live, set'.
    rewrite lookup_insert. case_decide; [by eauto|done].
Qed.

Lemma Push_rejects oc o : ¬ accepts oc o → Push o oc = (false, oc).
Proof.
  rewrite accepts_alt. intros Hacc. unfold Push. case_decide as Hsz; [|done].
  destruct (slave_cached _ _ && _) eqn:E; [done|]. tauto.
Qed.

#[export] Instance accepts_dec oc o : Decision (accepts oc o).
Proof.
  refine (cast_if (decide (size (offerSet oc) < maxOffers oc ∧
    slave_cached (offerSet oc) (OfferSlaveId o) && oc_singleInstancePerSlave oc = false)));
    by rewrite accepts_alt.
Defined.

Lemma wf_Rescind oc fl k : wf oc fl → wf (Rescind k oc).2 fl.
Proof.
  intros Hwf. split; simpl; try by apply Hwf.
  - intros k' o Hk. apply lookup_delete_Some in Hk as [_ Hk]. by eapply wf_sub.
  - etrans; [apply map_size_delete_le|by eapply wf_size].
  - intros k1 k2 o1 o2 Hs H1 H2. apply lookup_delete_Some in H1 as [_ H1], H2 as [_ H2].
    by eapply wf_slaves.
Qed.

Lemma wf_pop_recv oc fl o oc' : wf oc fl → pop_recv oc = Some (o, oc') → wf oc' (fl ++ [o]).
Proof.
  intros Hwf. unfold pop_recv. destruct (offerQueue oc) as [|o' q] eqn:Eq; [done|].
  intros [= -> <-]. destruct Hwf as [Hnd Hsub Hq Hsz Hsl]. rewrite Eq in *.
  split; simpl in *; rewrite <- ?app_assoc; simpl; auto. lia.
Qed.

Lemma wf_pop_take oc fl1 o fl2 :
  wf oc (fl1 ++ o :: fl2) → wf (pop_take o oc).2 (fl1 ++ fl2).
Proof.
  intros [Hnd Hsub Hq Hsz Hsl].
  assert (Hp : ∀ q, (fl1 ++ o :: fl2) ++ q ≡ₚ o :: (fl1 ++ fl2) ++ q).
  { intros q. by rewrite <- Permutation_middle. }
  assert (NoDup (ids ((fl1 ++ fl2) ++ offerQueue oc)) ∧ OfferId o ∉ ids ((fl1 ++ fl2) ++ offerQueue oc))
    as [Hnd' Hni].
  { unfold ids in *. rewrite Hp in Hnd. rewrite fmap_cons, NoDup_cons in Hnd. tauto. }
  assert (Hsub' : ∀ k x, offerSet oc !! k = Some x → k ≠ OfferId o →
    OfferId x = k ∧ x ∈ (fl1 ++ fl2) ++ offerQueue oc).
  { intros k x Hk Hne. destruct (Hsub _ _ Hk) as [Hid Hin]. split; [done|].
    rewrite Hp in Hin. apply elem_of_cons in Hin as [->|]; [congruence|done]. }
  unfold pop_take. case_decide as Hl; simpl.
  - split; simpl; auto.
    + intros k x [Hne Hk]%lookup_delete_Some. by apply Hsub'.
    + etrans; [apply map_size_delete_le|done].
    + intros k1 k2 o1 o2 Hs [_ H1]%lookup_delete_Some [_ H2]%lookup_delete_Some. eauto.
  - split; auto. intros k x Hk. apply Hsub'; [done|]. intros ->. apply Hl.
    unfold live. eauto.
Qed.

Lemma pop_take_queue o oc : offerQueue (pop_take o oc).2 = offerQueue oc.
Proof. unfold pop_take. by case_decide. Qed.

Lemma pop_loop_spec fuel oc :
  wf oc [] → length (offerQueue oc) < fuel →
  match pop_loop fuel oc with
  | (Some o, oc') =>
      offerSet oc !! OfferId o = Some o ∧ offerSet oc' = delete (OfferId o) (offerSet oc) ∧
      maxOffers oc' = maxOffers oc ∧
      oc_singleInstancePerSlave oc' = oc_singleInstancePerSlave oc ∧
      (∀ x, x ∈ offerQueue oc' → x ∈ offerQueue oc) ∧ wf oc' []
  | (None, oc') =>
      offerSet oc = ∅ ∧ offerSet oc' = ∅ ∧ offerQueue oc' = [] ∧
      maxOffers oc' = maxOffers oc ∧
      oc_singleInstancePerSlave oc' = oc_singleInstancePerSlave oc ∧ wf oc' []
  end.
Proof.
  revert oc. induction fuel as [|fuel IH]; intros oc Hwf Hlen; [lia|]. simpl.
  destruct (pop_recv oc) as [[o oc1]|] eqn:Er.
  - pose proof (wf_pop_recv _ _ _ _ Hwf Er) as Hwf1.
    pose proof (wf_pop_take _ [] o [] Hwf1) as Hwf2.
    unfold pop_recv in Er. destruct (offerQueue oc) as [|o' q] eqn:Eq; simplify_eq.
    unfold pop_take in *. simpl in *. case_decide as Hl; simpl in *.
    + split; [|split_and!; auto; intros x Hx; by right].
      eapply (wf_live_lookup oc []); [done| |done]. simpl. rewrite Eq. by left.
    + specialize (IH _ Hwf2 ltac:(simpl; lia)). simpl in IH.
      destruct (pop_loop fuel _) as [[x|] oc']; simpl in IH; [|naive_solver].
      destruct IH as (? & ? & ? & ? & Hq & ?). split_and!; auto. intros y Hy.
      right. auto.
  - unfold pop_recv in Er. destruct (offerQueue oc) as [|o' q] eqn:Eq; [|done].
    assert (offerSet oc = ∅) as He.
    { apply map_eq. intros k. rewrite lookup_empty.
      destruct (offerSet oc !! k) as [o|] eqn:Ek; [|done].
      apply (wf_sub _ _ Hwf) in Ek as [_ Hin]. rewrite Eq in Hin. by apply elem_of_nil in Hin. }
    done.
Qed.

(** ** Interleavings

    The cache is shared: callers push and rescind under the lock, and any number
    of poppers may sit between their receive and their locked lookup. *)

Inductive label :=
  | LPush (o : Offer) (ok : bool)
  | LRescind (id : string) (ok : bool)
  | LRecv (o : Offer)
  | LTake (o : Offer) (ok : bool).

Inductive step : OfferCache → list Offer → label → OfferCache → list Offer → Prop :=
  | step_push oc fl o : step oc fl (LPush o (Push o oc).1) (Push o oc).2 fl
  | step_rescind oc fl k : step oc fl (LRescind k (Rescind k oc).1) (Rescind k oc).2 fl
  | step_recv oc fl o oc' : pop_recv oc = Some (o, oc') → step oc fl (LRecv o) oc' (fl ++ [o])
  | step_take oc fl1 o fl2 :
      step oc (fl1 ++ o :: fl2) (LTake o (pop_take o oc).1) (pop_take o oc).2 (fl1 ++ fl2).

Inductive run (n : nat) (single : bool) : list label → OfferCache → list Offer → Prop :=
  | run_nil : run n single [] (New n single) []
  | run_snoc ls oc fl l oc' fl' :
      run n single ls oc fl → step oc fl l oc' fl' → run n single (ls ++ [l]) oc' fl'.

(** Identifiers offered to the cache, accepted by it, and given back by it: to a
    popper, or to a caller whose [Rescind] answered true. *)
Definition pushed1 (l : label) : list string :=
  match l with LPush o _ => [OfferId o] | _ => [] end.
Definition accepted1 (l : label) : list string :=
  match l with LPush o true => [OfferId o] | _ => [] end.
Definition released1 (l : label) : list string :=
  match l with LRescind k true => [k] | LTake o true => [OfferId o] | _ => [] end.

Definition pushed (ls : list label) : list string := ls ≫= pushed1.
Definition accepted (ls : list label) : list string := ls ≫= accepted1.
Definition released (ls : list label) : list string := ls ≫= released1.

Definition live_ids (oc : OfferCache) : list string := (map_to_list (offerSet oc)).*1.

Lemma accepted_pushed ls : accepted ls `sublist_of` pushed ls.
Proof.
  induction ls as [|l ls IH]; [done|]. unfold accepted, pushed in *.
  rewrite !bind_cons. apply sublist_app; [|done].
  by destruct l as [? []| | |]; simpl; repeat constructor.
Qed.

(** One step of the accounting: live identifiers move to the released ones. *)
Lemma live_ids_delete oc k o q m b :
  offerSet oc !! k = Some o →
  live_ids oc ≡ₚ k :: live_ids (mkOC (delete k (offerSet oc)) q m b).
Proof. intros Hk. unfold live_ids. simpl. by rewrite <- (map_to_list_delete _ _ _ Hk). Qed.

Lemma live_ids_insert oc k o q m b :
  offerSet oc !! k = None →
  live_ids (mkOC (<[k:=o]> (offerSet oc)) q m b) ≡ₚ k :: live_ids oc.
Proof. intros Hk. unfold live_ids. simpl. by rewrite map_to_list_insert. Qed.

(** The queue holds no offer that was not pushed, and the accepted offers are
    exactly those given back and those still live. *)
Lemma run_accounting n single ls oc fl :
  run n single ls oc fl → NoDup (pushed ls) →
  wf oc fl ∧ (∀ k, k ∈ ids (fl ++ offerQueue oc) → k ∈ pushed ls) ∧
  accepted ls ≡ₚ released ls ++ live_ids oc.
Proof.
  induction 1 as [|ls oc fl l oc' fl' Hrun IH Hstep]; intros Hnd.
  { split; [apply wf_New|]. split; [intros k []%elem_of_nil|].
    unfold live_ids. simpl. by rewrite map_to_list_empty. }
  unfold pushed, accepted, released in *. rewrite !bind_app in *. simpl in *.
  rewrite !app_nil_r in *.
  apply NoDup_app in Hnd as (Hnd & Hdisj & _). destruct (IH Hnd) as (Hwf & Hq & Hacc).
  destruct Hstep as [oc fl o|oc fl k|oc fl o oc' Hr|oc fl1 o fl2]; simpl in *.
  - assert (Hfr : OfferId o ∉ ids (fl ++ offerQueue oc)).
    { intros Hin%Hq. by eapply Hdisj; [done|left]. }
    destruct (decide (accepts oc o)) as [Ha|Ha].
    + destruct (Push_accepts _ _ _ Hwf Hfr Ha) as (q & Heq & Hsub & Hwf').
      pose proof (wf_fresh _ _ _ Hwf Hfr). split; [done|]. rewrite Heq. split; simpl.
      * intros k. unfold ids. rewrite !fmap_app, !elem_of_app. simpl.
        rewrite !list_elem_of_singleton.
        intros [Hk|[Hk| ->]]; [left| |by right].
        { apply Hq. unfold ids. rewrite fmap_app, elem_of_app. by left. }
        left. apply Hq. unfold ids. rewrite fmap_app, elem_of_app. right.
        apply list_elem_of_fmap in Hk as (x & -> & Hx). by apply list_elem_of_fmap_2, Hsub.
      * rewrite live_ids_insert by done. rewrite Hacc, app_nil_r.
        rewrite <- app_assoc. by rewrite (Permutation_app_comm (live_ids oc)).
    + rewrite (Push_rejects _ _ Ha). simpl. rewrite !app_nil_r. split_and!; auto.
      intros k Hk. apply elem_of_app. auto.
  - split; [by apply wf_Rescind|]. rewrite !app_nil_r. split; [done|].
    case_bool_decide as Hs; simpl.
    + destruct Hs as [o Ho]. rewrite Hacc, (live_ids_delete _ _ _ (offerQueue oc)
        (maxOffers oc) (oc_singleInstancePerSlave oc) Ho). by rewrite <- app_assoc.
    + rewrite app_nil_r, Hacc. unfold live_ids. simpl. rewrite delete_id; [done|].
      by apply eq_None_not_Some.
  - split; [by eapply wf_pop_recv|]. rewrite !app_nil_r. unfold pop_recv in Hr.
    destruct (offerQueue oc) as [|o' q] eqn:Eq; simplify_eq; simpl. split; [|done].
    intros k. rewrite <- app_assoc. apply Hq.
  - pose proof (wf_pop_take _ _ _ _ Hwf) as Hwf'. split; [done|]. rewrite !app_nil_r.
    split.
    + intros k Hk. apply Hq. rewrite pop_take_queue in Hk. unfold ids in *.
      rewrite <- app_assoc in *. simpl. rewrite <- Permutation_middle. by right.
    + unfold pop_take. case_decide as Hl; simpl; [|by rewrite app_nil_r].
      destruct Hl as [x Hx]. rewrite Hacc, (live_ids_delete _ _ _ (offerQueue oc)
        (maxOffers oc) (oc_singleInstancePerSlave oc) Hx). by rewrite <- app_assoc.
Qed.

(** ** The cache implements the interface *)

#[export] Instance OfferCache_store : OfferStore OfferCache := {
  os_new := New;
  os_push := Push;
  os_rescind := Rescind;
  os_recv := pop_recv;
  os_take := pop_take;
  os_len := Len;
  os_set := offerSet;
  os_queue := offerQueue;
  os_max := maxOffers;
  os_single := oc_singleInstancePerSlave;
  os_inv oc X := ∃ fl, wf oc fl ∧ ∀ k, k ∈ ids (fl ++ offerQueue oc) → k ∈ X;
}.

(** A lookup removes what it finds, like a rescind. *)
Lemma pop_take_rescind o oc : pop_take o oc = Rescind (OfferId o) oc.
Proof.
  unfold pop_take, Rescind, live. case_decide as Hl.
  - by rewrite bool_decide_eq_true_2.
  - rewrite bool_decide_eq_false_2 by done. rewrite delete_id by (by apply eq_None_not_Some). by destruct oc.
Qed.

#[export] Instance OfferCache_laws : OfferStoreLaws OfferCache.
Proof.
  split; simpl; try done.
  - intros n s. exists []. split; [apply wf_New|]. intros k []%elem_of_nil.
  - intros t X Y HXY (fl & Hwf & Hq). exists fl. split; [done|]. set_solver.
  - intros t X k o (fl & Hwf & Hq) Hk. destruct (wf_sub _ _ Hwf _ _ Hk) as [Hid Hin].
    split; [done|]. apply Hq. rewrite <- Hid. by apply list_elem_of_fmap_2.
  - intros t X o (fl & Hwf & Hq) Hfr Ha.
    assert (Hfr' : OfferId o ∉ ids (fl ++ offerQueue t)) by (intros Hin%Hq; done).
    destruct (Push_accepts _ _ _ Hwf Hfr' Ha) as (q & Heq & Hsub & Hwf').
    rewrite Heq in *. eexists. split; [done|]. split; [done|]. simpl. split; [set_solver|]. split; [done|].
    exists fl. split; [done|]. simpl. intros k Hk. apply elem_of_union.
    apply list_elem_of_fmap in Hk as (x & -> & [Hx|[Hx|Hx]%elem_of_app]%elem_of_app).
    + right. apply Hq, list_elem_of_fmap_2, elem_of_app. by left.
    + right. apply Hq, list_elem_of_fmap_2, elem_of_app. right. by apply Hsub.
    + left. apply list_elem_of_singleton in Hx as ->. by apply elem_of_singleton.
  - intros t o Ha. by apply Push_rejects.
  - intros t X k (fl & Hwf & Hq). eexists. do 4 (split; [done|]). exists fl. split; [by apply (wf_Rescind _ fl k)|done].
  - intros t X o t' (fl & Hwf & Hq) Hr. pose proof (wf_pop_recv _ _ _ _ Hwf Hr) as Hwf'.
    unfold pop_recv in Hr. destruct (offerQueue t) as [|o' q] eqn:Eq; simplify_eq. simpl in *.
    split; [by left|]. split; [by right|]. split; [done|]. split; [done|].
    exists (fl ++ [o]). split; [done|]. simpl. by rewrite <- app_assoc.
  - intros t X o (fl & Hwf & Hq). rewrite pop_take_rescind. eexists. do 4 (split; [done|]).
    exists fl. split; [by apply (wf_Rescind _ fl)|done].
Qed.

(** ** Theorems *)

(** C11: On a well-formed cache, pushing an offer with a new identifier succeeds
    exactly when there is room and (with one instance per slave) no live offer
    comes from its slave; it then adds exactly that offer to the live set,
    whatever stale entries fill the queue, and otherwise changes nothing. *)
Theorem Push_refines_set oc fl o :
  wf oc fl → OfferId o ∉ ids (fl ++ offerQueue oc) →
  wf (Push o oc).2 fl ∧
  ((Push o oc).1 = true ↔
     can_accept (offerSet oc) (maxOffers oc) (oc_singleInstancePerSlave oc) o) ∧
  offerSet (Push o oc).2 =
    (if (Push o oc).1 then <[OfferId o := o]> (offerSet oc) else offerSet oc).
Proof.
  intros Hwf Hfr. destruct (decide (accepts oc o)) as [Ha|Ha].
  - destruct (Push_accepts _ _ _ Hwf Hfr Ha) as (q & -> & _ & Hwf'). by split_and!.
  - rewrite (Push_rejects _ _ Ha). by split_and!.
Qed.

Definition demo_offer (id slave : string) : Offer := mkOffer id slave "host" [].

(** The queue is full of rescinded offers and collected to make room. *)
Definition demo_cache : OfferCache :=
  let push id := λ oc, (Push (demo_offer id id) oc).2 in
  let rescind id := λ oc, (Rescind id oc).2 in
  rescind "b" (rescind "a" (push "b" (push "a" (New 2 true)))).

Lemma demo_cache_wf : wf demo_cache [].
Proof.
  replace demo_cache with (mkOC ∅ [demo_offer "a" "a"; demo_offer "b" "b"] 2 true)
    by reflexivity.
  split; simpl; [by apply (bool_decide_unpack _); vm_compute|
    intros ? ?; by rewrite lookup_empty|lia|rewrite map_size_empty; lia|
    intros ????; by rewrite lookup_empty].
Qed.

Lemma Push_refines_set_witness :
  (Push (demo_offer "c" "c") demo_cache).1 = true ∧
  offerSet (Push (demo_offer "c" "c") demo_cache).2 = {[ "c" := demo_offer "c" "c" ]}.
Proof.
  destruct (Push_refines_set demo_cache [] (demo_offer "c" "c")) as (_ & Hacc & Hset).
  - apply demo_cache_wf.
  - by apply (bool_decide_unpack _); vm_compute.
  - assert (Hok : (Push (demo_offer "c" "c") demo_cache).1 = true) by reflexivity.
    rewrite Hok in Hset. split; [done|]. rewrite Hset. reflexivity.
Defined.

(** C12: [BlockingPop] on a well-formed cache hands out an offer of the live set,
    the very one the set holds, and removes it from the set; it blocks only
    when no offer is live, however many stale entries the queue holds. *)
Theorem BlockingPop_refines_set oc :
  wf oc [] →
  wf (BlockingPop oc).2 [] ∧
  match (BlockingPop oc).1 with
  | Some o => offerSet oc !! OfferId o = Some o ∧
              offerSet (BlockingPop oc).2 = delete (OfferId o) (offerSet oc)
  | None => offerSet oc = ∅
  end.
Proof.
  intros Hwf. unfold BlockingPop.
  pose proof (pop_loop_spec _ oc Hwf (Nat.lt_succ_diag_r _)) as Hp.
  destruct (pop_loop _ oc) as [[o|] oc']; simpl; tauto.
Qed.

Lemma BlockingPop_refines_set_witness :
  (BlockingPop demo_cache).1 = None ∧ offerSet demo_cache = ∅.
Proof.
  split; [reflexivity|].
  exact (proj2 (BlockingPop_refines_set demo_cache demo_cache_wf)).
Defined.

(** C6: In every interleaving of pushes, rescinds, receives and locked lookups
    in which Mesos does not reuse offer identifiers, an accepted offer is given
    back at most once, either to a popper or to a caller whose [Rescind]
    answered true, never both; and the accepted offers are, as a multiset,
    those given back and those still live: none is lost. *)
Theorem offers_released_once n single ls oc fl :
  run n single ls oc fl → NoDup (pushed ls) →
  NoDup (released ls) ∧ accepted ls ≡ₚ released ls ++ live_ids oc.
Proof.
  intros Hrun Hnd. destruct (run_accounting _ _ _ _ _ Hrun Hnd) as (_ & _ & Hacc).
  split; [|done].
  pose proof (sublist_NoDup _ _ Hnd (accepted_pushed ls)) as Ha.
  rewrite Hacc, NoDup_app in Ha. tauto.
Qed.

(** A popper receives the offer, then the expiry timer rescinds it, then the
    popper looks it up. *)
Definition demo_trace : list label :=
  [LPush (demo_offer "a" "a") true; LRecv (demo_offer "a" "a"); LRescind "a" true;
   LTake (demo_offer "a" "a") false].

Lemma offers_released_once_witness :
  released demo_trace = ["a"] ∧ NoDup (released demo_trace).
Proof.
  split; [reflexivity|].
  apply (offers_released_once 1 true demo_trace (mkOC ∅ [] 1 true) []).
  - unfold demo_trace.
    apply (run_snoc 1 true [LPush (demo_offer "a" "a") true; LRecv (demo_offer "a" "a");
      LRescind "a" true] (mkOC ∅ [] 1 true) ([] ++ demo_offer "a" "a" :: [])).
    2: exact (step_take (mkOC ∅ [] 1 true) [] (demo_offer "a" "a") []).
    apply (run_snoc 1 true [LPush (demo_offer "a" "a") true; LRecv (demo_offer "a" "a")]
      (mkOC {["a" := demo_offer "a" "a"]} [] 1 true) [demo_offer "a" "a"]).
    2: exact (step_rescind (mkOC {["a" := demo_offer "a" "a"]} [] 1 true) [demo_offer "a" "a"] "a").
    apply (run_snoc 1 true [LPush (demo_offer "a" "a") true]
      (mkOC {["a" := demo_offer "a" "a"]} [demo_offer "a" "a"] 1 true) []).
    2: by apply (step_recv _ []).
    apply (run_snoc 1 true [] (New 1 true) []); [constructor|].
    exact (step_push (New 1 true) [] (demo_offer "a" "a")).
  - by apply (bool_decide_unpack _); vm_compute.
Defined.
