(* ===== verification/World.v ===== *)
(** * Effects

    The sources talk to etcd over HTTP, to ZooKeeper, to the Mesos driver and to
    the clock.  An effectful function is an [IO A]: given an environment and the
    history of events so far, it returns its result and the events it adds.  The
    environment answers each request as it likes, as a function of the history,
    so a statement that holds for every [Env] holds for every behaviour of the
    outside world.  Go iterates over a map in an unspecified order: [env_range]
    picks the order, and all that is known of it is that it is a permutation. *)

From stdpp Require Import base strings list gmap.
From S2P Require Import Prelude GoStd Errors Upid Mesos.

(** ** Events *)

Inductive Method := GET | POST | PUT | DELETE.

Record Request := mkRequest {
  ReqMethod : Method;
  ReqUrl : string;
  ReqBody : string;
}.

(** [client.Do]: a transport error, or a status and what reading the body gives. *)
Inductive HttpResult :=
  | HttpFail (e : error)
  | HttpResp (status : Z) (body : result string).

(** The Raft term and index headers of an etcd answer ([etcd.Response]). *)
Record EtcdResponse := mkEtcdResponse { RaftTerm : Z; RaftIndex : Z }.

Inductive Event :=
  | EvHttp (r : Request)
  | EvSleep (d : Z)
  | EvEtcdSync (endpoint : string)
  | EvEtcdGet (endpoint key : string)
  | EvZkConnect (servers : list string)
  | EvZkCreate (path data : string)
  | EvZkSet (path data : string)
  | EvZkGet (path : string)
  | EvZkDelete (path : string)
  | EvZkChildren (path : string)
  | EvDecline (offer : string)
  | EvLaunch (offers : list string) (tasks : list TaskInfo)
  | EvKill (task : string)
  | EvReconcile (statuses : list TaskStatus)
  | EvAbort
  | EvShutdown
  | EvStatus (task : string) (state : TaskState)
  | EvExec (cmd : string)
  | EvFs (op : string)
  | EvMessengerStart
  | EvMessengerStop
  | EvSend (to : option UPID) (m : Message)
  | EvDetect
  | EvDetectCancel
  | EvMaster (listener : string) (mi : option MasterInfo)
  | EvMasters (listener : string) (mis : list MasterInfo)
  | EvSched (cb : SchedCall)
  | EvExecutor (cb : ExecCall).

(** ** The environment *)

(** The libprocess messenger, the resolver and the authentication provider that
    the Mesos drivers use. *)
Inductive AuthOutcome := AuthSuccess | AuthRefused | AuthIncomplete.

Record Net := mkNet {
  net_start : list Event → result UPID;
  net_stop : list Event → option error;
  net_send : list Event → option UPID → Message → option error;
  net_resolve : string → option error;
  net_uuid : list Event → string;
  net_auth : list Event → UPID → AuthOutcome;
}.

Record Env := mkEnv {
  env_http : list Event → Request → HttpResult;
  env_etcd_sync : list Event → string → bool;
  env_etcd_get : list Event → string → string → result EtcdResponse;
  env_zk_connect : list Event → list string → option error;
  env_zk_create : list Event → string → string → option error;
  env_zk_set : list Event → string → string → option error;
  env_zk_get : list Event → string → result string;
  env_zk_delete : list Event → string → option error;
  env_zk_children : list Event → string → result (list string);
  env_reconcile : list Event → list TaskStatus → option error;
  env_status : list Event → string → TaskState → option error;
  env_exec : list Event → string → option error;
  env_fs : list Event → string → option error;
  env_clock : list Event → Z;
  env_net : Net;
  env_range : ∀ A, list Event → list A → list A;
  env_range_perm : ∀ A h (l : list A), env_range A h l ≡ₚ l;
}.

(** ** The monad *)

Definition IO (A : Type) : Type := Env → list Event → A * list Event.

#[export] Instance IO_ret : MRet IO := λ A a env h, (a, []).

#[export] Instance IO_bind : MBind IO := λ A B f m env h,
  let r := m env h in
  let r' := f r.1 env (h ++ r.2) in
  (r'.1, r.2 ++ r'.2).

(** Perform an event; the answer depends on the history before it. *)
Definition act {A} (e : Event) (answer : Env → list Event → A) : IO A :=
  λ env h, (answer env h, [e]).

(** Ask without an observable event. *)
Definition ask {A} (answer : Env → list Event → A) : IO A := λ env h, (answer env h, []).

(** Durations and the clock are in nanoseconds, as in package [time]. *)
Definition second : Z := 1000000000.

Definition Sleep (d : Z) : IO unit := act (EvSleep d) (λ _ _, tt).
Definition Now : IO Z := ask env_clock.
Definition http_do (r : Request) : IO HttpResult := act (EvHttp r) (λ env h, env_http env h r).
Definition http_get (url : string) : IO HttpResult := http_do (mkRequest GET url "").
(** Calls of an etcd client, which is named by the endpoint it was made for; after a
    synchronisation its reads may go to any member. *)
Definition SyncCluster (endpoint : string) : IO bool :=
  act (EvEtcdSync endpoint) (λ env h, env_etcd_sync env h endpoint).
Definition EtcdGet (endpoint key : string) : IO (result EtcdResponse) :=
  act (EvEtcdGet endpoint key) (λ env h, env_etcd_get env h endpoint key).

(** [for k, v := range m]: the entries in the order the runtime picks. *)
Definition range {A} (m : gmap string A) : IO (list (string * A)) :=
  ask (λ env h, env_range env _ h (map_to_list m)).

(** Truncated exponential backoff: [backoff = int(math.Min(float64(backoff<<1), 8))]. *)
Definition next_backoff (backoff : Z) : Z := Z.min (Z.shiftl backoff 1) 8.

(** ** Loops *)

(** [for _, x := range xs { ... }]: the body returns from the function ([inl])
    or continues with the updated local variables ([inr]). *)
Fixpoint for_each {X S R} (xs : list X) (body : X → S → IO (R + S)) (st : S) : IO (R + S) :=
  match xs with
  | [] => mret (inr st)
  | x :: xs =>
      r ← body x st;
      match r with
      | inl ret => mret (inl ret)
      | inr st => for_each xs body st
      end
  end.

(** [for retries := 0; retries < n; retries++ { ...; sleep; double the backoff }]. *)
Fixpoint retry {S R} (n : nat) (backoff : Z) (body : S → IO (R + S)) (st : S) : IO (R + S) :=
  match n with
  | O => mret (inr st)
  | S n =>
      r ← body st;
      match r with
      | inl ret => mret (inl ret)
      | inr st => _ ← Sleep (backoff * second); retry n (next_backoff backoff) body st
      end
  end.

(** ** Reasoning about runs *)

Lemma bind_run {A B} (m : IO A) (f : A → IO B) env h :
  (m ≫= f) env h =
  ((f (m env h).1 env (h ++ (m env h).2)).1,
   (m env h).2 ++ (f (m env h).1 env (h ++ (m env h).2)).2).
Proof. done. Qed.

(** Run the first of two programs. *)
Ltac run_bind := rewrite bind_run; cbn [fst snd].

(** A postcondition of a program over its result and the events it emits, in a
    given environment and after a given history. *)
Definition ensures {A} (env : Env) (h : list Event) (m : IO A) (Q : A → list Event → Prop) : Prop :=
  Q (m env h).1 (m env h).2.

(** The invariant of a loop, over the local variables and the events emitted so
    far, and the postcondition of its early returns. *)
Definition loop_post {S R} (I : S → list Event → Prop) (Q : R → list Event → Prop)
    (w : list Event) (r : R + S) (w' : list Event) : Prop :=
  match r with inl a => Q a (w ++ w') | inr s => I s (w ++ w') end.

Section Ensures.
Context (env : Env).

Lemma ensures_ret {A} h (a : A) (Q : A → list Event → Prop) : Q a [] → ensures env h (mret a) Q.
Proof. done. Qed.

Lemma ensures_act {A} h e (f : Env → list Event → A) (Q : A → list Event → Prop) :
  Q (f env h) [e] → ensures env h (act e f) Q.
Proof. done. Qed.

Lemma ensures_bind {A B} h (m : IO A) (f : A → IO B) (Q : B → list Event → Prop)
    (R : A → list Event → Prop) :
  ensures env h m R →
  (∀ a w, R a w → ensures env (h ++ w) (f a) (λ b w', Q b (w ++ w'))) →
  ensures env h (m ≫= f) Q.
Proof. intros Hm Hf. unfold ensures. rewrite bind_run. simpl. apply (Hf _ _ Hm). Qed.

(** The first part's outcome is known. *)
Lemma ensures_bind_run {A B} h (m : IO A) (f : A → IO B) (Q : B → list Event → Prop) a w :
  m env h = (a, w) → ensures env (h ++ w) (f a) (λ b w', Q b (w ++ w')) → ensures env h (m ≫= f) Q.
Proof. unfold ensures. intros Hm. rewrite bind_run, Hm. done. Qed.

Lemma ensures_bind_act {A B} h e (g : Env → list Event → A) (f : A → IO B)
    (Q : B → list Event → Prop) :
  ensures env (h ++ [e]) (f (g env h)) (λ b w', Q b (e :: w')) →
  ensures env h (act e g ≫= f) Q.
Proof. done. Qed.

Lemma ensures_bind_ask {A B} h (g : Env → list Event → A) (f : A → IO B)
    (Q : B → list Event → Prop) :
  ensures env h (f (g env h)) Q → ensures env h (ask g ≫= f) Q.
Proof.
  unfold ensures. rewrite bind_run. simpl. by rewrite app_nil_r.
Qed.

Lemma ensures_mono {A} h (m : IO A) (Q Q' : A → list Event → Prop) :
  ensures env h m Q → (∀ a w, Q a w → Q' a w) → ensures env h m Q'.
Proof. intros Hm HQ. apply HQ, Hm. Qed.

(** The order of a map iteration is a permutation of its entries. *)
Lemma ensures_range {V B} h (m : gmap string V) (f : list (string * V) → IO B)
    (Q : B → list Event → Prop) :
  (∀ order, order ≡ₚ map_to_list m → ensures env h (f order) Q) →
  ensures env h (range m ≫= f) Q.
Proof. intros HQ. apply ensures_bind_ask. apply HQ, env_range_perm. Qed.

Lemma ensures_for_each {X S R} h (xs : list X) (body : X → S → IO (R + S))
    (I : S → list Event → Prop) (Q : R → list Event → Prop) st w :
  (∀ x st w, x ∈ xs → I st w → ensures env (h ++ w) (body x st) (loop_post I Q w)) →
  I st w →
  ensures env (h ++ w) (for_each xs body st) (loop_post I Q w).
Proof.
  revert st w. induction xs as [|x xs IH]; intros st w Hb HI; simpl.
  { apply ensures_ret. simpl. by rewrite app_nil_r. }
  eapply ensures_bind; [apply Hb; [by left|done]|]. intros [a|s] w' Hr; simpl in Hr.
  - apply ensures_ret. simpl. by rewrite app_nil_r.
  - rewrite <- app_assoc. eapply ensures_mono.
    + apply (IH s (w ++ w')); [|done]. intros y st' w'' Hy. apply Hb. by right.
    + unfold loop_post. by intros [a|s'] w''; rewrite <- app_assoc.
Qed.

Lemma ensures_retry {S R} h n backoff (body : S → IO (R + S))
    (I : S → list Event → Prop) (Q : R → list Event → Prop) st w :
  (∀ st w, I st w → ensures env (h ++ w) (body st) (loop_post I Q w)) →
  (∀ st w d, I st w → I st (w ++ [EvSleep d])) →
  I st w →
  ensures env (h ++ w) (retry n backoff body st) (loop_post I Q w).
Proof.
  intros Hb Hs. revert backoff st w. induction n as [|n IH]; intros backoff st w HI; simpl.
  { apply ensures_ret. simpl. by rewrite app_nil_r. }
  eapply ensures_bind; [by apply Hb|]. intros [a|s] w' Hr; simpl in Hr.
  - apply ensures_ret. simpl. by rewrite app_nil_r.
  - apply ensures_bind_act. rewrite <- !app_assoc. eapply ensures_mono.
    + apply (IH _ s (w ++ w' ++ [EvSleep (backoff * second)])).
      rewrite app_assoc. by apply Hs.
    + unfold loop_post. intros [a|s'] w''; by rewrite <- !app_assoc.
Qed.

(** At least one attempt: the invariant need only hold after the first one. *)
Lemma ensures_retry_S {S R} h n backoff (body : S → IO (R + S))
    (I : S → list Event → Prop) (Q : R → list Event → Prop) st w :
  ensures env (h ++ w) (body st) (loop_post I Q w) →
  (∀ st w, I st w → ensures env (h ++ w) (body st) (loop_post I Q w)) →
  (∀ st w d, I st w → I st (w ++ [EvSleep d])) →
  ensures env (h ++ w) (retry (Datatypes.S n) backoff body st) (loop_post I Q w).
Proof.
  intros H1 Hb Hs. cbn [retry]. eapply ensures_bind; [exact H1|].
  intros [a|s] w' Hr; simpl in Hr.
  - apply ensures_ret. simpl. by rewrite app_nil_r.
  - apply ensures_bind_act. rewrite <- !app_assoc. eapply ensures_mono.
    + apply (ensures_retry h n _ body I Q s (w ++ w' ++ [EvSleep (backoff * second)])); [done..|].
      rewrite app_assoc. by apply Hs.
    + unfold loop_post. intros [a|s'] w''; by rewrite <- !app_assoc.
Qed.
End Ensures.

(** ** Concrete environments *)

(** Messages are sent, every name resolves, every authentication succeeds. *)
Definition quiet_net : Net := {|
  net_start _ := Ok (mkUPID "driver(1)" "127.0.0.1" "9000");
  net_stop _ := None;
  net_send _ _ _ := None;
  net_resolve _ := None;
  net_uuid h := FormatInt (Z.of_nat (length h));
  net_auth _ _ := AuthSuccess;
|}.

(** A world in which nothing answers and a map is iterated in its own order. *)
Definition quiet_env : Env := {|
  env_http _ _ := HttpFail (ErrHttp "unreachable");
  env_etcd_sync _ _ := false;
  env_etcd_get _ _ _ := Err (ErrHttp "unreachable");
  env_zk_connect _ _ := Some (ErrZk "unreachable");
  env_zk_create _ _ _ := Some (ErrZk "unreachable");
  env_zk_set _ _ _ := Some (ErrZk "unreachable");
  env_zk_get _ _ := Err (ErrZk "unreachable");
  env_zk_delete _ _ := Some (ErrZk "unreachable");
  env_zk_children _ _ := Err (ErrZk "unreachable");
  env_reconcile _ _ := None;
  env_status _ _ _ := None;
  env_exec _ _ := None;
  env_fs _ _ := None;
  env_clock h := Z.of_nat (length h);
  env_net := quiet_net;
  env_range _ _ l := l;
  env_range_perm _ _ _ := reflexivity _;
|}.

(** The same world with an answer to HTTP requests and to the etcd client. *)
Definition etcd_env (http : list Event → Request → HttpResult)
    (get : list Event → string → string → result EtcdResponse) : Env := {|
  env_http := http;
  env_etcd_sync _ _ := true;
  env_etcd_get := get;
  env_zk_connect := env_zk_connect quiet_env;
  env_zk_create := env_zk_create quiet_env;
  env_zk_set := env_zk_set quiet_env;
  env_zk_get := env_zk_get quiet_env;
  env_zk_delete := env_zk_delete quiet_env;
  env_zk_children := env_zk_children quiet_env;
  env_reconcile := env_reconcile quiet_env;
  env_status := env_status quiet_env;
  env_exec := env_exec quiet_env;
  env_fs := env_fs quiet_env;
  env_clock := env_clock quiet_env;
  env_net := env_net quiet_env;
  env_range := env_range quiet_env;
  env_range_perm := env_range_perm quiet_env;
|}.

(** The same world with a ZooKeeper: the data a node holds is the last one
    written, every operation succeeds, and [children] are listed anywhere. *)
Fixpoint last_write (path : string) (rh : list Event) : result string :=
  match rh with
  | [] => Err ErrZkNoNode
  | EvZkSet p d :: rh | EvZkCreate p d :: rh =>
      if bool_decide (p = path) then Ok d else last_write path rh
  | EvZkDelete p :: rh => if bool_decide (p = path) then Err ErrZkNoNode else last_write path rh
  | _ :: rh => last_write path rh
  end.

Definition zk_env (http : list Event → Request → HttpResult) (children : list string) : Env := {|
  env_http := http;
  env_etcd_sync := env_etcd_sync quiet_env;
  env_etcd_get := env_etcd_get quiet_env;
  env_zk_connect _ _ := None;
  env_zk_create _ _ _ := None;
  env_zk_set h path _ :=
    match last_write path (reverse h) with Ok _ => None | Err e => Some e end;
  env_zk_get h path := last_write path (reverse h);
  env_zk_delete _ _ := None;
  env_zk_children _ _ := Ok children;
  env_reconcile := env_reconcile quiet_env;
  env_status := env_status quiet_env;
  env_exec := env_exec quiet_env;
  env_fs := env_fs quiet_env;
  env_clock := env_clock quiet_env;
  env_net := env_net quiet_env;
  env_range := env_range quiet_env;
  env_range_perm := env_range_perm quiet_env;
|}.
