(* ===== verification/Rpc.v ===== *)
(** * Calls to etcd (src/rpc)

    constants.go, healthcheck.go, membership.go and reseed.go, each function as an
    [IO] program with the loops, early returns and error values of the source.
    The go-etcd client's [SyncCluster] and [Get] and Go's HTTP client are answered
    by the environment. *)

From Stdlib Require Import Ascii.
From stdpp Require Import base strings list gmap sorting.
From S2P Require Import Prelude GoStd Errors Json Config Codec Mesos World.

(** src/rpc/constants.go. *)
Definition RPC_RETRIES : nat := 5.
Definition RPC_TIMEOUT : Z := 5 * second.

(** [fmt.Sprintf("http://%s:%d", host, port)]. *)
Definition http_url (host : string) (port : Z) : string :=
  "http://" +:+ host +:+ ":" +:+ FormatUint port.

Definition dq : string := String dquote "".

(** The request body [{"peerURLs": ["http://host:port"]}]. *)
Definition peer_urls_body (host : string) (port : Z) : string :=
  "{" +:+ dq +:+ "peerURLs" +:+ dq +:+ ": [" +:+ dq +:+ http_url host port +:+ dq +:+ "]}".

(** ** Health check *)

(** The loop over the running nodes: the first one that answers with leader
    statistics is the valid endpoint. *)
Definition leader_query (entry : string * Node) (_ : unit) : IO (string + unit) :=
  let args := entry.2 in
  let url := http_url (Host args) (ClientPort args) in
  resp ← http_get (url +:+ "/v2/stats/leader");
  match resp with
  | HttpFail _ => mret (inr tt)
  | HttpResp _ (Err _) => mret (inr tt)
  | HttpResp _ (Ok body) =>
      match Unmarshal_leader body with
      | None => mret (inr tt)
      | Some _ => mret (inl url)
      end
  end.

(** The endpoint in [SyncCluster] and [EtcdGet] names the client that was made for it, not the
    machine that answers: after the synchronisation the client reads from any member, and the
    two reads may be answered by different ones.  EtcdRpc.v has the same function
    over the client's HTTP requests. *)
Definition HealthCheck (running : gmap string Node) : IO (option error) :=
  if bool_decide (size running = 0) then mret None else
  order ← range running;
  found ← for_each order leader_query tt;
  match found with
  | inr _ => mret (Some ErrNoLeader)
  | inl validEndpoint =>
      ok ← SyncCluster validEndpoint;
      if negb ok then mret (Some ErrEtcdConnection) else
      r1 ← EtcdGet validEndpoint "/";
      match r1 with
      | Err _ => mret (Some ErrEtcdEndpoint)
      | Ok resp1 =>
          _ ← Sleep second;
          r2 ← EtcdGet validEndpoint "/";
          match r2 with
          | Err _ => mret (Some ErrEtcdEndpoint)
          | Ok resp2 =>
              if negb (bool_decide (RaftTerm resp1 = RaftTerm resp2))
              then mret (Some ErrEtcdRaftTermInstability)
              else if bool_decide (RaftIndex resp1 = RaftIndex resp2)
              then mret (Some ErrEtcdRaftStall)
              else mret None
          end
      end
  end.

(** ** Membership *)

(** The body of the loop over the running nodes: every branch returns. *)
Definition configure_via (newInstance : Node) (entry : string * Node) (_ : unit)
    : IO (option error + unit) :=
  let args := entry.2 in
  let url := http_url (Host args) (ClientPort args) +:+ "/v2/members" in
  let data := peer_urls_body (Host newInstance) (RPCPort newInstance) in
  resp ← http_do (mkRequest POST url data);
  match resp with
  | HttpFail e => mret (inl (Some e))
  | HttpResp _ (Err e) => mret (inl (Some e))
  | HttpResp _ (Ok body) =>
      match Unmarshal_members body with
      | None => mret (inl (Some ErrJson))
      | Some _ => mret (inl None)
      end
  end.

Definition ConfigureInstance (running : gmap string Node) (newInstance : Node) : IO (option error) :=
  if bool_decide (size running = 0) then mret None else
  err ← HealthCheck running;
  match err with
  | Some e => mret (Some e)
  | None =>
      r ← retry RPC_RETRIES 1
            (λ _, order ← range running; for_each order (configure_via newInstance) tt) tt;
      match r with
      | inl e => mret e
      | inr _ => mret (Some (ErrNew "Failed to configure cluster: no nodes reachable."))
      end
  end.

(** [nameToIdent[m.Name] = m.ID] over the answered members. *)
Definition add_members (ms : list Member) (m : gmap string string) : gmap string string :=
  foldl (λ acc mem, <[MemberName mem := MemberID mem]> acc) m ms.

(** The body of [MemberList]'s loop.  The [err] assigned here is the one the
    body declares with [:=]; the named result [err] is out of its reach. *)
Definition list_via (entry : string * Node) (nameToIdent : gmap string string)
    : IO ((gmap string string * option error) + gmap string string) :=
  let args := entry.2 in
  resp ← http_get (http_url (Host args) (ClientPort args) +:+ "/v2/members");
  match resp with
  | HttpFail _ => mret (inr nameToIdent)
  | HttpResp _ (Err _) => mret (inr nameToIdent)
  | HttpResp _ (Ok body) =>
      match Unmarshal_members body with
      | None => mret (inr nameToIdent)
      | Some memberList =>
          if bool_decide (length (Members memberList) = 0) then mret (inr nameToIdent)
          else mret (inl (add_members (Members memberList) nameToIdent, None))
      end
  end.

(** The value and the error of the Go function; [err], the named result, starts
    as nil. *)
Definition MemberList (running : gmap string Node) : IO (gmap string string * option error) :=
  let err : option error := None in
  if bool_decide (size running = 0) then mret (∅, err) else
  r ← retry RPC_RETRIES 1 (λ acc, order ← range running; for_each order list_via acc) ∅;
  match r with
  | inl ret => mret ret
  | inr nameToIdent => mret (nameToIdent, err)
  end.

Definition remove_via (task ident : string) (entry : string * Node) (outerErr : option error)
    : IO (unit + option error) :=
  let '(id, args) := entry in
  if bool_decide (id = task) then mret (inr outerErr) else
  let url := http_url (Host args) (ClientPort args) +:+ "/v2/members/" +:+ ident in
  resp ← http_do (mkRequest DELETE url "");
  match resp with
  | HttpFail e => mret (inr (Some e))
  | HttpResp _ (Err e) => mret (inr (Some e))
  | HttpResp _ (Ok body) =>
      if HasPrefix body "Method Not Allowed" then
        mret (inr (Some (ErrNew ("Received error response while trying to remove " +:+
                                 "node from cluster configuration."))))
      else match Unmarshal_message body with
           | None => mret (inr (Some ErrJson))
           | Some message =>
               if HasPrefix message "Member permanently removed" then mret (inl tt)
               else mret (inr outerErr)
           end
  end.

Definition RemoveInstance (running : gmap string Node) (task : string) : IO (option error) :=
  res ← MemberList running;
  match res.2 with
  | Some e => mret (Some e)
  | None =>
      if bool_decide (size running = 0) then
        mret (Some (ErrNew "No running instances to deconfigure!"))
      else
        let ident := default "" (res.1 !! task) in
        r ← retry RPC_RETRIES 1
              (λ outerErr, order ← range running; for_each order (remove_via task ident) outerErr)
              None;
        match r with
        | inl _ => mret None
        | inr outerErr => mret outerErr
        end
  end.

(** One attempt of [FixInstancePeers]: [true] when the peer URLs were set. *)
Definition fix_attempt (node : Node) : IO bool :=
  let running := {["" := node]} : gmap string Node in
  herr ← HealthCheck running;
  match herr with
  | Some _ => mret false
  | None =>
      res ← MemberList running;
      match res.2 with
      | Some _ => mret false
      | None =>
          match res.1 !! Name node with
          | None => mret false
          | Some ident =>
              resp ← http_do (mkRequest PUT
                       (http_url (Host node) (ClientPort node) +:+ "/v2/members/" +:+ ident)
                       (peer_urls_body (Host node) (RPCPort node)));
              match resp with
              | HttpFail _ => mret false
              | HttpResp status _ => mret (bool_decide (status = 204%Z))
              end
          end
      end
  end.

Fixpoint fix_loop (retries : nat) (backoff : Z) (node : Node) : IO bool :=
  match retries with
  | O => mret false
  | S retries =>
      _ ← Sleep (backoff * second);
      let backoff := Z.max (Z.min (Z.shiftl backoff 1) 8) 1 in
      ok ← fix_attempt node;
      if (ok : bool) then mret true else fix_loop retries backoff node
  end.

Definition FixInstancePeers (node : Node) : IO (option error) :=
  ok ← fix_loop RPC_RETRIES 0 node;
  if (ok : bool) then mret None
  else mret (Some (ErrNew "Failed to configure cluster: no nodes reachable.")).

(** ** Reseeding *)

Record nodeIndex := mkNodeIndex { NIRaftIndex : Z; NINode : string }.

(** [Less] orders by decreasing Raft index; [sort.Sort] only needs it reflexive. *)
Definition ni_le (a b : nodeIndex) : Prop := (NIRaftIndex b ≤ NIRaftIndex a)%Z.

#[export] Instance ni_le_dec : RelDecision ni_le.
Proof. intros a b. unfold ni_le. apply _. Defined.

(** The query of one node: appended to the candidates when it answers. *)
Definition rank_query (entry : string * Node) (acc : list nodeIndex)
    : IO (Empty_set + list nodeIndex) :=
  let '(id, args) := entry in
  let url := http_url (Host args) (ClientPort args) in
  ok ← SyncCluster url;
  if negb ok then mret (inr acc) else
  r ← EtcdGet url "/";
  match r with
  | Err _ => mret (inr acc)
  | Ok resp => mret (inr (acc ++ [mkNodeIndex (RaftIndex resp) id]))
  end.

(** [sort.Sort] gives some ordering of equal elements; as the input order is the
    arbitrary one of the map, a stable sort of it reaches all of them. *)
Definition RankReseedCandidates (running : gmap string Node) : IO (list nodeIndex) :=
  order ← range running;
  r ← (for_each order rank_query [] : IO (Empty_set + list nodeIndex));
  match (r : Empty_set + list nodeIndex) with
  | inl e => match e with end
  | inr indices => mret (merge_sort ni_le indices)
  end.

Definition TriggerReseed (node : Node) : IO (option error) :=
  let url := http_url (Host node) (ReseedPort node) in
  resp ← http_get (url +:+ "/reseed");
  match resp with
  | HttpFail e => mret (Some e)
  | HttpResp _ (Err e) => mret (Some e)
  | HttpResp _ (Ok body) =>
      if negb (bool_decide (body = "ok")) then
        mret (Some (ErrNew ("Could not trigger reseed on " +:+ url +:+ ": <nil>")))
      else mret None
  end.

(** ** Properties *)

Definition member_url (n : Node) : string := http_url (Host n) (ClientPort n).

(** Whether an event is a request with the given method. *)
Definition sends (m : Method) (e : Event) : bool :=
  match e with
  | EvHttp r => match m, ReqMethod r with
                | GET, GET | POST, POST | PUT, PUT | DELETE, DELETE => true
                | _, _ => false
                end
  | _ => false
  end.

Definition requests (m : Method) (w : list Event) : list Event := filter (λ e, sends m e = true) w.

Lemma requests_app m w w' : requests m (w ++ w') = requests m w ++ requests m w'.
Proof. apply filter_app. Qed.

Lemma in_order {A} (m : gmap string A) order id n :
  order ≡ₚ map_to_list m → (id, n) ∈ order → m !! id = Some n.
Proof. intros Hp Hin. rewrite Hp in Hin. by apply elem_of_map_to_list. Qed.

#[export] Hint Resolve in_order : etcd.

(** *** The health check *)

(** An answer of node [n], at some history, whose body decodes. *)
Definition leader_answer (env : Env) (n : Node) : Prop :=
  ∃ h status body leader,
    env_http env h (mkRequest GET (member_url n +:+ "/v2/stats/leader") "") = HttpResp status (Ok body) ∧
    Unmarshal_leader body = Some leader.

Lemma leader_loop env h running order :
  order ≡ₚ map_to_list running →
  ensures env h (for_each order leader_query tt) (λ r w,
    requests POST w = [] ∧ requests PUT w = [] ∧ requests DELETE w = [] ∧
    ∀ url, r = inl url →
      ∃ id n, running !! id = Some n ∧ url = member_url n ∧ leader_answer env n).
Proof.
  intros Hp. set (Quiet := λ w, requests POST w = [] ∧ requests PUT w = [] ∧ requests DELETE w = []).
  rewrite <- (app_nil_r h). eapply ensures_mono.
  - apply (ensures_for_each env h order _ (λ _ w, Quiet w)
      (λ url w, Quiet w ∧ ∃ id n, running !! id = Some n ∧ url = member_url n ∧ leader_answer env n)
      tt []); [|done].
    intros [id n] [] w Hin (HP & HU & HD). unfold leader_query, http_get, http_do.
    apply ensures_bind_act.
    assert (Hw : Quiet (w ++ [EvHttp (mkRequest GET (member_url n +:+ "/v2/stats/leader") "")])).
    { unfold Quiet. by rewrite !requests_app, HP, HU, HD. }
    destruct (env_http _ _ _) as [e|st [body|e]] eqn:Ha; try by apply ensures_ret.
    destruct (Unmarshal_leader body) as [l|] eqn:Hu; apply ensures_ret; [|done].
    simpl. split; [done|]. exists id, n. split_and!; [by eauto with etcd|done|].
    by exists (h ++ w), st, body, l.
  - intros [url|[]] w; simpl; [intros [(?&?&?) Hx]|intros (?&?&?)]; split_and!; try done.
    by intros ? [= <-].
Qed.

(** The observation behind a nil health check: a running member answered with leader
    statistics, and the client made for its endpoint was synchronised and read twice, one
    second apart, with the same Raft term and different Raft indices. *)
Definition progress (env : Env) (h : list Event) (running : gmap string Node) (w : list Event) : Prop :=
  ∃ id n w0 resp1 resp2,
    let url := member_url n in
    running !! id = Some n ∧ leader_answer env n ∧
    w = w0 ++ [EvEtcdSync url; EvEtcdGet url "/"; EvSleep second; EvEtcdGet url "/"] ∧
    env_etcd_sync env (h ++ w0) url = true ∧
    env_etcd_get env (h ++ w0 ++ [EvEtcdSync url]) url "/" = Ok resp1 ∧
    env_etcd_get env (h ++ w0 ++ [EvEtcdSync url; EvEtcdGet url "/"; EvSleep second]) url "/" = Ok resp2 ∧
    RaftTerm resp1 = RaftTerm resp2 ∧ RaftIndex resp1 ≠ RaftIndex resp2.

Lemma HealthCheck_ensures env h running :
  ensures env h (HealthCheck running) (λ r w,
    (requests POST w = [] ∧ requests PUT w = [] ∧ requests DELETE w = []) ∧
    (running ≠ ∅ → r = None → progress env h running w)).
Proof.
  unfold HealthCheck. case_bool_decide as Hsz.
  { apply ensures_ret. split; [done|]. intros []. by apply map_size_empty_inv. }
  apply ensures_range. intros order Hp.
  eapply ensures_bind; [by apply leader_loop|]. intros r w (HP & HU & HD & Hr).
  assert (Hq : ∀ w', requests POST w' = [] ∧ requests PUT w' = [] ∧ requests DELETE w' = [] →
            requests POST (w ++ w') = [] ∧ requests PUT (w ++ w') = [] ∧ requests DELETE (w ++ w') = []).
  { intros w' (HP' & HU' & HD'). by rewrite !requests_app, HP, HP', HU, HU', HD, HD'. }
  destruct r as [url|[]]; [|by apply ensures_ret; split; [apply Hq|]].
  destruct (Hr url eq_refl) as (id & n & Hid & -> & Hl).
  apply ensures_bind_act. destruct (env_etcd_sync _ _ _) eqn:Hs; simpl; [|by apply ensures_ret; split; [apply Hq|]].
  apply ensures_bind_act.
  destruct (env_etcd_get _ _ _ _) as [resp1|] eqn:H1; [|by apply ensures_ret; split; [apply Hq|]].
  do 2 apply ensures_bind_act.
  destruct (env_etcd_get _ (((_ ++ _) ++ _) ++ _) _ _) as [resp2|] eqn:H2; [|by apply ensures_ret; split; [apply Hq|]].
  case_bool_decide as Ht; simpl; [|by apply ensures_ret; split; [apply Hq|]].
  case_bool_decide as Hi; apply ensures_ret; (split; [by apply Hq|]); [done|]. intros _ _.
  exists id, n, w, resp1, resp2. rewrite <- !app_assoc in *. done.
Qed.

(** *** Membership *)

(** No request that changes the cluster's configuration. *)
Definition no_writes (w : list Event) : Prop :=
  requests POST w = [] ∧ requests PUT w = [] ∧ requests DELETE w = [].

Lemma no_writes_app w w' : no_writes w → no_writes w' → no_writes (w ++ w').
Proof.
  intros (HP & HU & HD) (HP' & HU' & HD'). unfold no_writes.
  by rewrite !requests_app, HP, HP', HU, HU', HD, HD'.
Qed.

(** The map is the answer of a running member, at some point of the run. *)
Definition members_answer (env : Env) (running : gmap string Node) (m : gmap string string) : Prop :=
  ∃ id n h status body ml,
    running !! id = Some n ∧
    env_http env h (mkRequest GET (member_url n +:+ "/v2/members") "") = HttpResp status (Ok body) ∧
    Unmarshal_members body = Some ml ∧ Members ml ≠ [] ∧ m = add_members (Members ml) ∅.

Lemma MemberList_ensures env h running :
  ensures env h (MemberList running) (λ r w,
    no_writes w ∧ r.2 = None ∧ (r.1 = ∅ ∨ members_answer env running r.1)).
Proof.
  unfold MemberList. case_bool_decide; [by apply ensures_ret; split_and!; [..|left]|].
  rewrite <- (app_nil_r h). eapply ensures_bind.
  - apply (ensures_retry env h RPC_RETRIES 1 _ (λ acc w, acc = ∅ ∧ no_writes w)
      (λ r w, no_writes w ∧ r.2 = None ∧ members_answer env running r.1) ∅ []); [| |done].
    + intros acc w [-> Hw]. apply ensures_range. intros order Hp.
      apply ensures_for_each; [|done]. clear w Hw. intros [id n] acc w Hin [-> Hw].
      apply ensures_bind_act.
      assert (Hw' : no_writes (w ++ [EvHttp (mkRequest GET (member_url n +:+ "/v2/members") "")]))
        by by apply no_writes_app.
      destruct (env_http _ _ _) as [e|st [body|e]] eqn:Ha; try by apply ensures_ret.
      destruct (Unmarshal_members body) as [ml|] eqn:Hu; [|by apply ensures_ret].
      case_bool_decide as Hl; apply ensures_ret; [done|]. simpl. split_and!; try done.
      exists id, n, (h ++ w), st, body, ml. split_and!; try done; [by eauto with etcd|].
      by intros Hn; rewrite Hn in Hl.
    + intros acc w d [-> Hw]. split; [done|]. by apply no_writes_app.
  - intros [r|acc] w Hr; apply ensures_ret; simpl in *; rewrite !app_nil_r.
    + destruct Hr as (?&?&?). by auto.
    + destruct Hr as (->&?). by auto.
Qed.

(** [MemberList] cannot report a failure: whatever the members answer, its
    error is nil (the [err] of the loop shadows the named result), and the map
    it returns is either empty or decoded from the non-empty member list a
    running node answered with, the last entry winning for a repeated name. *)
Theorem MemberList_sound env h running :
  let r := (MemberList running env h).1 in
  r.2 = None ∧ (r.1 = ∅ ∨ members_answer env running r.1).
Proof. apply (MemberList_ensures env h running). Qed.

(** No running member answers on its client port. *)
Definition unreachable (env : Env) (running : gmap string Node) : Prop :=
  ∀ h id n m path body, running !! id = Some n →
    ∃ e, env_http env h (mkRequest m (member_url n +:+ path) body) = HttpFail e.

(** The pauses of the five attempts of a retry loop. *)
Definition backoffs : list Event :=
  [EvSleep (1 * second); EvSleep (2 * second); EvSleep (4 * second);
   EvSleep (8 * second); EvSleep (8 * second)].

Definition is_sleep (e : Event) : bool := match e with EvSleep _ => true | _ => false end.

(** An attempt that finds nothing: it keeps the local variables and never sleeps. *)
Definition idle {S R} (env : Env) (body : S → IO (R + S)) (st : S) : Prop :=
  ∀ h, (body st env h).1 = inr st ∧ filter (λ e, is_sleep e = true) (body st env h).2 = [].

Lemma for_each_idle {X S R} env (xs : list X) (body : X → S → IO (R + S)) st :
  (∀ x, x ∈ xs → idle env (body x) st) → idle env (for_each xs body) st.
Proof.
  induction xs as [|x xs IH]; intros Hb h; [done|]. cbn [for_each]. rewrite bind_run.
  destruct (Hb x (list_elem_of_here _ _) h) as [-> Hw]. cbn [fst snd].
  destruct (IH (λ y Hy, Hb y (list_elem_of_further _ _ _ Hy)) (h ++ (body x st env h).2)) as [-> Hw'].
  split; [done|]. by rewrite filter_app, Hw, Hw'.
Qed.

Lemma retry_idle {S R} env (body : S → IO (R + S)) st h :
  idle env body st →
  (retry RPC_RETRIES 1 body st env h).1 = inr st ∧
  filter (λ e, is_sleep e = true) (retry RPC_RETRIES 1 body st env h).2 = backoffs.
Proof.
  intros Hb.
  assert (Hstep : ∀ n b h, (retry (Datatypes.S n) b body st env h).1 =
                    (retry n (next_backoff b) body st env
                       ((h ++ (body st env h).2) ++ [EvSleep (b * second)])).1 ∧
     filter (λ e, is_sleep e = true) (retry (Datatypes.S n) b body st env h).2 =
       EvSleep (b * second) :: filter (λ e, is_sleep e = true)
         (retry n (next_backoff b) body st env ((h ++ (body st env h).2) ++ [EvSleep (b * second)])).2).
  { intros n b h'. cbn [retry]. rewrite bind_run. destruct (Hb h') as [-> Hw]. cbn [fst snd].
    rewrite bind_run. cbn [fst snd Sleep act]. split; [done|].
    by rewrite filter_app, Hw, filter_app. }
  unfold RPC_RETRIES. do 5 (edestruct Hstep as [-> ->]). done.
Qed.

Lemma range_idle {V S R} env (m : gmap string V) (body : string * V → S → IO (R + S)) st :
  (∀ id n, m !! id = Some n → idle env (body (id, n)) st) →
  idle env (λ st, order ← range m; for_each order body st) st.
Proof.
  intros Hb h. rewrite bind_run. cbn [range ask fst snd]. rewrite app_nil_r. simpl app.
  apply for_each_idle. intros [id n] Hin. apply Hb. eapply in_order; [|done]. apply env_range_perm.
Qed.

(** An unreachable cluster looks like an empty one.  When no running member
    answers, [MemberList] makes its [RPC_RETRIES] attempts with pauses of 1, 2,
    4, 8 and 8 seconds and then returns the empty map with a nil error, which its
    callers cannot tell from a cluster without members. *)
Theorem MemberList_unreachable env h running :
  running ≠ ∅ → unreachable env running →
  (MemberList running env h).1 = (∅, None) ∧
  filter (λ e, is_sleep e = true) (MemberList running env h).2 = backoffs.
Proof.
  intros Hne Hun. unfold MemberList. rewrite bool_decide_eq_false_2 by by rewrite map_size_empty_iff.
  rewrite bind_run. edestruct (retry_idle env
    (λ acc, order ← range running; for_each order list_via acc) (∅ : gmap string string) h) as [-> Hw].
  - apply range_idle. intros id n Hn h'. unfold list_via. rewrite bind_run.
    cbn [http_get http_do act fst snd]. destruct (Hun h' id n GET "/v2/members" "" Hn) as [e He].
    unfold member_url in He. by rewrite He.
  - split; [done|]. cbn [snd fst]. by rewrite app_nil_r.
Qed.

(** The request that adds a member, sent to [n]. *)
Definition add_request (n new : Node) : Request :=
  mkRequest POST (member_url n +:+ "/v2/members") (peer_urls_body (Host new) (RPCPort new)).

Lemma configure_loop env h running order new :
  running ≠ ∅ → order ≡ₚ map_to_list running →
  ensures env h (for_each order (configure_via new) tt) (λ r w,
    ∃ id n, running !! id = Some n ∧ w = [EvHttp (add_request n new)] ∧
      ∃ res, r = inl res ∧
      (res = None → ∃ status body ml, env_http env h (add_request n new) = HttpResp status (Ok body) ∧
                    Unmarshal_members body = Some ml)).
Proof.
  intros Hne Hp. destruct order as [|[id n] order].
  { destruct Hne. apply map_to_list_empty_iff. by apply Permutation_nil. }
  cbn [for_each].
  assert (Hin : running !! id = Some n) by (eapply in_order; [done|by left]).
  eapply (ensures_bind env h _ _ _ (λ r w, w = [EvHttp (add_request n new)] ∧ ∃ res, r = inl res ∧
    (res = None → ∃ status body ml, env_http env h (add_request n new) = HttpResp status (Ok body) ∧
                    Unmarshal_members body = Some ml))).
  - apply ensures_bind_act. cbn [snd]. change (mkRequest POST _ _) with (add_request n new).
    destruct (env_http env h (add_request n new)) as [e|st [body|e]] eqn:Ha;
      [by apply ensures_ret; split; [|eexists; split]| |by apply ensures_ret; split; [|eexists; split]].
    destruct (Unmarshal_members body) as [ml|] eqn:Hu; apply ensures_ret;
      (split; [done|]); (eexists; split; [done|]); [|done].
    intros _. by exists st, body, ml.
  - intros r w (-> & res & -> & Hres). apply ensures_ret. exists id, n. eauto.
Qed.

(** Joining is attempted exactly once.  [ConfigureInstance] on a non-empty
    cluster either stops at a failed health check, having sent nothing that
    changes the cluster, or its last event is the one POST of the new member's
    peer URL to one running node; nil means that this node's answer decoded.  No
    failure is retried: every branch of the loop's body returns. *)
Theorem ConfigureInstance_posts_once env h running new :
  running ≠ ∅ →
  ensures env h (ConfigureInstance running new) (λ r w,
    (r ≠ None ∧ no_writes w) ∨
    (∃ id n w0, running !! id = Some n ∧ no_writes w0 ∧ progress env h running w0 ∧
       w = w0 ++ [EvHttp (add_request n new)] ∧
       (r = None → ∃ status body ml,
          env_http env (h ++ w0) (add_request n new) = HttpResp status (Ok body) ∧
          Unmarshal_members body = Some ml))).
Proof.
  intros Hne. unfold ConfigureInstance.
  rewrite bool_decide_eq_false_2 by by rewrite map_size_empty_iff.
  eapply ensures_bind; [apply HealthCheck_ensures|]. intros [e|] w [Hq Hprog].
  { apply ensures_ret. left. by rewrite app_nil_r. }
  unfold RPC_RETRIES. cbn [retry].
  eapply ensures_bind.
  - eapply ensures_bind; [apply ensures_range; intros order Hp; by apply configure_loop|].
    intros r w' (id & n & Hn & -> & res & -> & Hres). apply ensures_ret.
    instantiate (1 := λ r w', ∃ id n res, running !! id = Some n ∧ w' = [EvHttp (add_request n new)] ∧
      r = inl res ∧ (res = None → ∃ status body ml,
          env_http env (h ++ w) (add_request n new) = HttpResp status (Ok body) ∧
          Unmarshal_members body = Some ml)).
    by exists id, n, res.
  - intros r w' (id & n & res & Hn & -> & -> & Hres). apply ensures_ret. right.
    rewrite app_nil_r. exists id, n, w. auto 10.
Qed.

(** The request that removes the member [ident], sent to [n]. *)
Definition remove_request (n : Node) (ident : string) : Request :=
  mkRequest DELETE (member_url n +:+ "/v2/members/" +:+ ident) "".

(** The deletions of a run, all sent to running members other than [task]. *)
Definition removed_via_others (running : gmap string Node) (task ident : string) (w : list Event) : Prop :=
  Forall (λ e, ∃ id n, running !! id = Some n ∧ id ≠ task ∧ e = EvHttp (remove_request n ident))
    (requests DELETE w).

(** A member is never asked to remove itself.  Every DELETE that
    [RemoveInstance] sends goes to a running member other than the removed task
    and names the identifier the member list gives for it (or the empty one when
    the list has no such name), and with no running member it fails without
    sending anything. *)
Theorem RemoveInstance_via_others env h running task :
  ensures env h (RemoveInstance running task) (λ r w,
    (running = ∅ → r = Some (ErrNew "No running instances to deconfigure!") ∧ w = []) ∧
    ∃ members, (members = ∅ ∨ members_answer env running members) ∧
      removed_via_others running task (default "" (members !! task)) w).
Proof.
  unfold RemoveInstance. destruct (decide (running = ∅)) as [->|Hne].
  { split; [done|]. exists ∅. split; [by left|]. constructor. }
  eapply ensures_bind; [apply MemberList_ensures|]. intros [m er] w ((_ & _ & HD) & Her & Hm).
  simpl in Her, Hm. subst er. cbn [snd fst].
  rewrite bool_decide_eq_false_2 by by rewrite map_size_empty_iff.
  eapply ensures_mono with (Q := λ _ w', removed_via_others running task (default "" (m !! task)) w').
  - rewrite <- (app_nil_r (h ++ w)). eapply ensures_bind.
    + apply (ensures_retry env (h ++ w) RPC_RETRIES 1 _
        (λ _ w', removed_via_others running task (default "" (m !! task)) w')
        (λ _ w', removed_via_others running task (default "" (m !! task)) w') None []); [| |constructor].
      * intros outerErr w' Hw'. apply ensures_range. intros order Hp.
        apply ensures_for_each; [|done]. clear outerErr w' Hw'. intros [id n] outerErr w' Hin Hw'.
        unfold remove_via. case_bool_decide as Hid; [apply ensures_ret; simpl; by rewrite app_nil_r|].
        apply ensures_bind_act. change (mkRequest DELETE _ _) with (remove_request n (default "" (m !! task))).
        assert (Hx : removed_via_others running task (default "" (m !! task))
                  (w' ++ [EvHttp (remove_request n (default "" (m !! task)))])).
        { unfold removed_via_others. rewrite requests_app. apply Forall_app. split; [done|].
          constructor; [|constructor]. exists id, n. by eauto with etcd. }
        destruct (env_http _ _ _) as [e|st [body|e]]; try by apply ensures_ret.
        destruct (HasPrefix body _); [by apply ensures_ret|].
        destruct (Unmarshal_message body) as [msg|]; [|by apply ensures_ret].
        destruct (HasPrefix msg _); by apply ensures_ret.
      * intros outerErr w' d Hw'. unfold removed_via_others. rewrite requests_app, app_nil_r. exact Hw'.
    + intros [[]|o] w' Hw'; apply ensures_ret; by rewrite app_nil_r.
  - intros r w' Hw'. split; [done|]. exists m. split; [done|]. unfold removed_via_others.
    by rewrite requests_app, HD.
Qed.

(** Every other member answers the removal with a message that does not say that
    a member was removed. *)
Definition refuses_removal (env : Env) (running : gmap string Node) (task : string) : Prop :=
  ∀ h id n ident, running !! id = Some n → id ≠ task →
    ∃ status body msg,
      env_http env h (remove_request n ident) = HttpResp status (Ok body) ∧
      HasPrefix body "Method Not Allowed" = false ∧ Unmarshal_message body = Some msg ∧
      HasPrefix msg "Member permanently removed" = false.

(** [RemoveInstance] reports success for a member that is still configured.
    When every other running member answers the removal with some other message
    (or there is no other member to ask), the result after all
    attempts is nil, the same as for a confirmed removal. *)
Theorem RemoveInstance_unconfirmed env h running task :
  running ≠ ∅ → refuses_removal env running task →
  (RemoveInstance running task env h).1 = None.
Proof.
  intros Hne Hre. unfold RemoveInstance. run_bind.
  pose proof (MemberList_ensures env h running) as (_ & Her & _). rewrite Her.
  rewrite bool_decide_eq_false_2 by by rewrite map_size_empty_iff.
  set (ident := default "" _).
  assert (Hidle : idle env (λ o, order ← range running; for_each order (remove_via task ident) o) None);
    [|rewrite bind_run; cbn [fst]; by rewrite (proj1 (retry_idle env _ None _ Hidle))].
  apply range_idle. intros id n Hn h'. unfold remove_via. case_bool_decide as Hid; [done|]. rewrite bind_run.
  cbn [http_do act fst snd]. change (mkRequest DELETE _ _) with (remove_request n ident).
  edestruct (Hre h' id n ident) as (st & body & msg & -> & Hp & Hu & Hm); [done..|].
  by rewrite Hp, Hu, Hm.
Qed.

(** *** Ranking *)

(** What the client answered for [id] at some point of the run. *)
Definition index_answer (env : Env) (running : gmap string Node) (ni : nodeIndex) : Prop :=
  ∃ n h h' resp, running !! NINode ni = Some n ∧
    env_etcd_sync env h (member_url n) = true ∧
    env_etcd_get env h' (member_url n) "/" = Ok resp ∧ NIRaftIndex ni = RaftIndex resp.

#[export] Instance ni_le_total : Total ni_le.
Proof. intros a b. unfold ni_le. lia. Qed.

#[export] Instance ni_le_trans : Transitive ni_le.
Proof. intros a b c. unfold ni_le. lia. Qed.

Lemma rank_query_answers env h id n acc :
  ensures env h (rank_query (id, n) acc) (λ r _,
    r = inr acc ∨
    ∃ ni h1 h2 resp, r = inr (acc ++ [ni]) ∧ NINode ni = id ∧
      env_etcd_sync env h1 (member_url n) = true ∧
      env_etcd_get env h2 (member_url n) "/" = Ok resp ∧ NIRaftIndex ni = RaftIndex resp).
Proof.
  apply ensures_bind_act.
  destruct (env_etcd_sync _ _ _) eqn:Hs; [|by apply ensures_ret; left]. apply ensures_bind_act.
  destruct (env_etcd_get _ _ _ _) as [resp|] eqn:Hg; apply ensures_ret; [|by left].
  right. by eexists _, _, _, _.
Qed.

Lemma rank_loop env h running order acc :
  (∀ id n, (id, n) ∈ order → running !! id = Some n) →
  ensures env h (for_each order rank_query acc : IO (Empty_set + list nodeIndex)) (λ r _,
    ∃ out, r = inr (acc ++ out) ∧ (NINode <$> out) `sublist_of` order.*1 ∧
      Forall (index_answer env running) out).
Proof.
  revert h acc. induction order as [|[id n] order IH]; intros h acc Hin.
  { apply ensures_ret. exists []. by rewrite app_nil_r. }
  cbn [for_each]. eapply ensures_bind; [apply rank_query_answers|].
  assert (Hin' : ∀ id n, (id, n) ∈ order → running !! id = Some n) by (intros; apply Hin; by right).
  intros r w [->|(ni & h1 & h2 & resp & -> & <- & Hni)].
  - eapply ensures_mono; [by apply IH|]. intros r _ (out & -> & Hsub & Hout).
    exists out. split_and!; [done| |done]. by apply sublist_cons.
  - eapply ensures_mono; [by apply IH|]. intros r _ (out & -> & Hsub & Hout).
    exists (ni :: out). rewrite <- app_assoc. split_and!; [done| |].
    + by apply sublist_skip.
    + constructor; [|done]. exists n, h1, h2, resp. split; [apply Hin; by left|done].
Qed.

Lemma RankReseedCandidates_ensures env h running :
  ensures env h (RankReseedCandidates running) (λ r _,
    StronglySorted ni_le r ∧ NoDup (NINode <$> r) ∧ Forall (index_answer env running) r).
Proof.
  unfold RankReseedCandidates. apply ensures_range. intros order Hp.
  eapply ensures_bind; [apply (rank_loop env h running); by eauto with etcd|].
  intros r w (out & -> & Hsub & Hout). apply ensures_ret. simpl in *. split_and!.
  - apply Sorted_StronglySorted; [apply _|]. by apply (Sorted_merge_sort ni_le).
  - rewrite merge_sort_Permutation. eapply sublist_NoDup; [|exact Hsub].
    rewrite Hp. apply NoDup_fst_map_to_list.
  - by rewrite merge_sort_Permutation.
Qed.

(** The reseed candidates are ranked.  [RankReseedCandidates] lists each
    running member at most once, only members whose endpoint answered, with the
    Raft index of the answer, in decreasing order of that index: the first
    candidate has an index no other candidate exceeds. *)
Theorem RankReseedCandidates_ranked env h running :
  ensures env h (RankReseedCandidates running) (λ r _,
    StronglySorted ni_le r ∧ NoDup (NINode <$> r) ∧ Forall (index_answer env running) r).
Proof. apply RankReseedCandidates_ensures. Qed.

(** *** Repairing the peer URLs of a node *)

Definition fix_request (node : Node) (ident : string) : Request :=
  mkRequest PUT (member_url node +:+ "/v2/members/" +:+ ident)
    (peer_urls_body (Host node) (RPCPort node)).

(** [w] ends with the node's own peer URL set under the identifier that the node
    itself lists for its name, answered with 204. *)
Definition peers_fixed (env : Env) (h : list Event) (node : Node) (w : list Event) : Prop :=
  ∃ w0 members ident body,
    members_answer env {["" := node]} members ∧ members !! Name node = Some ident ∧
    w = w0 ++ [EvHttp (fix_request node ident)] ∧
    env_http env (h ++ w0) (fix_request node ident) = HttpResp 204 body.

Lemma fix_attempt_fixes env h node :
  ensures env h (fix_attempt node) (λ ok w,
    length (requests PUT w) ≤ 1 ∧ (ok = true → peers_fixed env h node w)).
Proof.
  unfold fix_attempt. eapply ensures_bind; [apply HealthCheck_ensures|].
  intros [e|] w [(_ & HU & _) _].
  { apply ensures_ret. rewrite app_nil_r, HU. simpl. split; [lia|done]. }
  eapply ensures_bind; [apply MemberList_ensures|].
  intros [m er] w' ((_ & HU' & _) & Her & Hm). simpl in Her, Hm. subst er. cbn [fst snd].
  destruct (m !! Name node) as [ident|] eqn:Hid.
  - apply ensures_bind_act. change (mkRequest PUT _ _) with (fix_request node ident).
    destruct (env_http _ _ _) as [e|st body] eqn:Ha; apply ensures_ret.
    + rewrite !requests_app, HU, HU'. split; [simpl; lia|done].
    + rewrite !requests_app, HU, HU'. split; [simpl; lia|]. intros ->%bool_decide_eq_true.
      exists (w ++ w'), m, ident, body. destruct Hm as [->|Hm]; [by rewrite lookup_empty in Hid|].
      rewrite <- !app_assoc in *. done.
  - apply ensures_ret. rewrite app_nil_r, requests_app, HU, HU'. split; [simpl; lia|done].
Qed.

Lemma fix_loop_fixes env h retries backoff node :
  ensures env h (fix_loop retries backoff node) (λ ok w,
    length (requests PUT w) ≤ retries ∧
    (ok = true → ∃ w0 w1, w = w0 ++ w1 ∧ peers_fixed env (h ++ w0) node w1)).
Proof.
  revert h backoff. induction retries as [|n IH]; intros h backoff; cbn [fix_loop].
  { by apply ensures_ret. }
  apply ensures_bind_act. eapply ensures_bind; [apply fix_attempt_fixes|].
  intros [|] w [Hl Hok].
  - apply ensures_ret. rewrite app_nil_r. split.
    + change (requests PUT (?e :: w)) with (requests PUT ([e] ++ w)). rewrite requests_app. simpl. lia.
    + intros _. exists [EvSleep (backoff * second)], w. auto.
  - eapply ensures_mono; [apply IH|]. intros ok w' [Hl' Hok']. split.
    + change (requests PUT (?e :: w ++ w')) with (requests PUT ([e] ++ w ++ w')).
      rewrite !requests_app, !length_app. simpl. lia.
    + intros (w0 & w1 & -> & Hf)%Hok'. exists (EvSleep (backoff * second) :: w ++ w0), w1.
      rewrite <- app_assoc in Hf. rewrite <- app_assoc in Hf. by rewrite app_comm_cons, app_assoc.
Qed.

(** [FixInstancePeers] returns nil only after its last request, the PUT of
    the node's own peer URL under the identifier the node's member list gives for
    its name, was answered with 204; it sends at most [RPC_RETRIES] such
    requests. *)
Theorem FixInstancePeers_confirmed env h node :
  ensures env h (FixInstancePeers node) (λ r w,
    length (requests PUT w) ≤ RPC_RETRIES ∧
    (r = None → ∃ w0 w1, w = w0 ++ w1 ∧ peers_fixed env (h ++ w0) node w1)).
Proof.
  unfold FixInstancePeers. eapply ensures_bind; [apply fix_loop_fixes|].
  intros [|] w [Hl Hok]; apply ensures_ret; rewrite app_nil_r; by split; [|eauto].
Qed.

(** *** Concrete runs *)

Definition node1 : Node := mkNode "etcd-1" "host1" 2380 2379 2381 "" "slave1".
Definition running1 : gmap string Node := {["etcd-1" := node1]}.

(** Every request is answered with the empty object, and the Raft index grows
    with the history. *)
Definition healthy_env : Env :=
  etcd_env (λ _ _, HttpResp 200 (Ok "{}"))
    (λ h _ _, Ok (mkEtcdResponse 7 (Z.of_nat (length h)))).

Lemma MemberList_unreachable_witness :
  (MemberList running1 quiet_env []).1 = (∅, None) ∧
  filter (λ e, is_sleep e = true) (MemberList running1 quiet_env []).2 = backoffs.
Proof. apply MemberList_unreachable; [done|]. intros h id n m path body _. by eexists. Defined.

Lemma ConfigureInstance_posts_once_witness :
  ∃ w0, (ConfigureInstance running1 node1 healthy_env []).2 = w0 ++ [EvHttp (add_request node1 node1)] ∧
        progress healthy_env [] running1 w0.
Proof.
  destruct (ConfigureInstance_posts_once healthy_env [] running1 node1) as
    [[Hr _]|(id & n & w0 & Hn & _ & Hp & Hw & _)]; [done| |].
  - destruct Hr. by_compute.
  - exists w0. split; [|done]. rewrite Hw. unfold running1 in Hn.
    apply lookup_singleton_Some in Hn as [_ <-]. done.
Defined.

Lemma RemoveInstance_unconfirmed_witness : (RemoveInstance running1 "etcd-0" healthy_env []).1 = None.
Proof.
  apply RemoveInstance_unconfirmed; [done|]. intros h id n ident _ _.
  exists 200%Z, "{}", "". done.
Defined.
