(* ===== verification/State.v ===== *)
(** * The Mesos master's state document (src/rpc/state.go)

    [GetState] decodes every answer into the same [masterState], so the decoder
    here fills a value that may already hold data: a type error keeps what was
    decoded before and after it, and the array behind a slice keeps the elements
    past its length, which the next decoding fills again without clearing them. *)

From Stdlib Require Import Ascii.
From stdpp Require Import base strings list gmap.
From S2P Require Import Prelude GoStd Errors Json Config Codec Mesos World Rpc.

(** ** Decoding in place *)

(** A slice: its elements and those its array holds past its length. *)
Record slice (A : Type) := mkSlice { elems : list A; spare : list A }.
Arguments mkSlice {A}.
Arguments elems {A}.
Arguments spare {A}.

Definition nil_slice {A} : slice A := mkSlice [] [].

(** The new value and whether no error was recorded. *)
Definition into (A : Type) : Type := A → json → A * bool.

Definition into_string : into string := λ old v,
  match v with JStr s => (s, true) | JNull => (old, true) | _ => (old, false) end.

(** The numbers of the document are not read by the system: what is kept of such
    a field is whether decoding it records an error. *)
Definition into_float : into unit := λ _ v,
  (tt, match dec_float v with Some _ => true | None => false end).

Fixpoint into_elems {A} (zero : A) (dec : into A) (old : list A) (vs : list json)
    : list A * bool * list A :=
  match vs with
  | [] => ([], true, old)
  | v :: vs =>
      let '(x, ok) := dec (default zero (head old)) v in
      let '(xs, oks, rest) := into_elems zero dec (tail old) vs in
      (x :: xs, ok && oks, rest)
  end.

Definition into_slice {A} (zero : A) (dec : into A) : into (slice A) := λ old v,
  match v with
  | JArr [] | JNull => (nil_slice, true)
  | JArr vs =>
      let '(xs, ok, rest) := into_elems zero dec (elems old ++ spare old) vs in
      (mkSlice xs rest, ok)
  | _ => (old, false)
  end.

Definition into_struct {A} (set : A → string → json → A * bool) : into A := λ old v,
  match v with
  | JObj kvs =>
      foldl (λ acc kv, let '(a, ok) := set acc.1 (fold_key kv.1) kv.2 in (a, acc.2 && ok))
            (old, true) kvs
  | JNull => (old, true)
  | _ => (old, false)
  end.

(** ** The document *)

Record Status := mkStatusJson { StState : string }.

Record Task := mkTask {
  ExecutorID : string;
  FrameworkID : string;
  TaskID : string;
  TaskName_ : string;
  Ports : string;
  TaskSlaveID : string;
  TaskState_ : string;
  Statuses : slice Status;
}.

Record Framework := mkFramework {
  FwID : string;
  FwName : string;
  FwTasks : slice Task;
}.

Record MasterState := mkMasterState { Frameworks : slice Framework }.

Definition set_status (s : Status) (k : string) (v : json) : Status * bool :=
  if bool_decide (k = "state") then let '(x, ok) := into_string (StState s) v in (mkStatusJson x, ok)
  else if bool_decide (k = "timestamp") then (s, (into_float tt v).2)
  else (s, true).

Definition set_resources (ports : string) (k : string) (v : json) : string * bool :=
  if bool_decide (k = "ports") then into_string ports v
  else if bool_decide (k ∈ ["cpus"; "disk"; "mem"]) then (ports, (into_float tt v).2)
  else (ports, true).

Definition set_task (t : Task) (k : string) (v : json) : Task * bool :=
  let 'mkTask ex fw id name ports slave state sts := t in
  if bool_decide (k = "executor_id") then
    let '(x, ok) := into_string ex v in (mkTask x fw id name ports slave state sts, ok)
  else if bool_decide (k = "framework_id") then
    let '(x, ok) := into_string fw v in (mkTask ex x id name ports slave state sts, ok)
  else if bool_decide (k = "id") then
    let '(x, ok) := into_string id v in (mkTask ex fw x name ports slave state sts, ok)
  else if bool_decide (k = "name") then
    let '(x, ok) := into_string name v in (mkTask ex fw id x ports slave state sts, ok)
  else if bool_decide (k = "resources") then
    let '(x, ok) := into_struct set_resources ports v in (mkTask ex fw id name x slave state sts, ok)
  else if bool_decide (k = "slave_id") then
    let '(x, ok) := into_string slave v in (mkTask ex fw id name ports x state sts, ok)
  else if bool_decide (k = "state") then
    let '(x, ok) := into_string state v in (mkTask ex fw id name ports slave x sts, ok)
  else if bool_decide (k = "statuses") then
    let '(x, ok) := into_slice (mkStatusJson "") (into_struct set_status) sts v in
    (mkTask ex fw id name ports slave state x, ok)
  else (t, true).

Definition task_zero : Task := mkTask "" "" "" "" "" "" "" nil_slice.

Definition set_framework (f : Framework) (k : string) (v : json) : Framework * bool :=
  let 'mkFramework id name tasks := f in
  if bool_decide (k = "id") then
    let '(x, ok) := into_string id v in (mkFramework x name tasks, ok)
  else if bool_decide (k = "name") then
    let '(x, ok) := into_string name v in (mkFramework id x tasks, ok)
  else if bool_decide (k = "tasks") then
    let '(x, ok) := into_slice task_zero (into_struct set_task) tasks v in
    (mkFramework id name x, ok)
  else (f, true).

Definition set_master_state (s : MasterState) (k : string) (v : json) : MasterState * bool :=
  if bool_decide (k = "frameworks") then
    let '(x, ok) := into_slice (mkFramework "" "" nil_slice) (into_struct set_framework)
                      (Frameworks s) v in
    (mkMasterState x, ok)
  else (s, true).

Definition master_state_zero : MasterState := mkMasterState nil_slice.

(** [json.Unmarshal(blob, masterState)]: a syntax error touches nothing. *)
Definition Unmarshal_master_state (s : MasterState) (blob : string) : MasterState * bool :=
  match parse blob with
  | None => (s, false)
  | Some v => into_struct set_master_state s v
  end.

(** ** GetState *)

(** The closure [get]: body, status code and error. *)
Definition get_blob (uri : string) : IO (string * Z * option error) :=
  resp ← http_get uri;
  mret match resp with
       | HttpFail e => ("", 0%Z, Some e)
       | HttpResp code (Ok blob) => (blob, code, None)
       | HttpResp code (Err e) => ("", code, Some e)
       end.

(** How the inner [for] ends: a decoded document, an error to back off on, or
    not within the fuel. *)
Inductive attempt :=
  | Decoded (s : MasterState)
  | Failed (e : error) (s : MasterState)
  | StillLooping.

(** Lines 90-108, up to the document of one round of the inner loop. *)
Definition fetch (master : string) : IO (result string) :=
  r ← get_blob (master +:+ "/state");
  match r with
  | (_, _, Some e) => mret (Err e)
  | (blob, code, None) =>
      if bool_decide (code = 404%Z) then
        r' ← get_blob (master +:+ "/state.json");
        match r' with
        | (_, _, Some e) => mret (Err e)
        | (blob', _, None) => mret (Ok blob')
        end
      else mret (Ok blob)
  end.

(** The inner [for] loop: a document that does not decode is fetched again at
    once, without leaving the loop. *)
Fixpoint inner_loop (fuel : nat) (master : string) (s : MasterState) : IO attempt :=
  match fuel with
  | O => mret StillLooping
  | S fuel =>
      r ← fetch master;
      match r with
      | Err e => mret (Failed e s)
      | Ok blob =>
          match Unmarshal_master_state s blob with
          | (s', true) => mret (Decoded s')
          | (s', false) => inner_loop fuel master s'
          end
      end
  end.

Inductive state_result :=
  | GotState (s : MasterState)
  | StateError (e : option error)
  | OutOfFuel.

(** The outer loop carries [masterState] and [outerErr]. *)
Definition get_state_round (fuel : nat) (master : string) (st : MasterState * option error)
    : IO (state_result + (MasterState * option error)) :=
  r ← inner_loop fuel master st.1;
  match r with
  | Decoded s => mret (inl (GotState s))
  | Failed e s => mret (inr (s, Some e))
  | StillLooping => mret (inl OutOfFuel)
  end.

Definition GetState (fuel : nat) (master : string) : IO state_result :=
  r ← retry RPC_RETRIES 1 (get_state_round fuel master) (master_state_zero, None);
  match r with
  | inl res => mret res
  | inr (_, outerErr) => mret (StateError outerErr)
  end.

(** ** GetPeersFromState *)

(** [fmt.Sprintf("%s=http://%s:%d", node.Name, node.Host, node.RPCPort)]. *)
Definition peer_entry (n : Node) : string :=
  Name n +:+ "=" +:+ http_url (Host n) (RPCPort n).

(** The loop over the tasks, from the peers found so far. *)
Fixpoint collect_peers (ts : list Task) (peers : list string) : result (list string) :=
  match ts with
  | [] => Ok peers
  | t :: ts =>
      if bool_decide (TaskState_ t = "TASK_RUNNING") then
        match Parse (TaskID t) with
        | Err e => Err e
        | Ok node => collect_peers ts (peers ++ [peer_entry node])
        end
      else collect_peers ts peers
  end.

(** The text of the error quotes the name with [%q]; here it stands between
    plain quotes. *)
Definition GetPeersFromState (state : MasterState) (frameworkName : string) : result (list string) :=
  match list_find (λ f, FwName f = frameworkName) (elems (Frameworks state)) with
  | None => Err (ErrNew ("Could not find framework " +:+ dq +:+ frameworkName +:+ dq +:+
                         " in the mesos master's state"))
  | Some (_, framework) => collect_peers (elems (FwTasks framework)) []
  end.

(** ** Properties *)

(** An environment whose master always answers [body] with [status]. *)
Definition serves (env : Env) (master : string) (status : Z) (body : string) : Prop :=
  ∀ h, env_http env h (mkRequest GET (master +:+ "/state") "") = HttpResp status (Ok body).

Lemma inner_loop_spins env master status body fuel s h :
  serves env master status body → status ≠ 404%Z → parse body = None →
  inner_loop fuel master s env h =
    (StillLooping, replicate fuel (EvHttp (mkRequest GET (master +:+ "/state") ""))).
Proof.
  intros Henv Hst Hbody. revert s h. induction fuel as [|fuel IH]; intros s h; [done|].
  assert (Hf : ∀ h, fetch master env h = (Ok body, [EvHttp (mkRequest GET (master +:+ "/state") "")])).
  { intros h'. unfold fetch, get_blob, http_get, http_do, act. rewrite !bind_run. simpl.
    rewrite Henv. simpl. by rewrite bool_decide_eq_false_2. }
  cbn [inner_loop]. rewrite bind_run, Hf. unfold Unmarshal_master_state. cbn [fst snd].
  rewrite Hbody. by rewrite IH.
Qed.

(** A master that keeps answering with a document that is not JSON keeps
    [GetState] in its inner loop for ever: no amount of fuel lets it return, it
    sends one request per round and never sleeps between them, so the bound of
    [RPC_RETRIES] attempts and the back-off do not apply. *)
Theorem GetState_spins env master status body fuel h :
  serves env master status body → status ≠ 404%Z → parse body = None →
  GetState fuel master env h =
    (OutOfFuel, replicate fuel (EvHttp (mkRequest GET (master +:+ "/state") ""))).
Proof.
  intros Henv Hst Hbody. unfold GetState, RPC_RETRIES. cbn [retry]. unfold get_state_round.
  rewrite !bind_run. cbn [fst snd]. erewrite inner_loop_spins by done.
  cbn -[replicate]. by rewrite !app_nil_r.
Qed.

(** Every document the master may answer with decodes. *)
Definition well_behaved (env : Env) (master : string) : Prop :=
  ∀ h blob, (fetch master env h).1 = Ok blob →
    (Unmarshal_master_state master_state_zero blob).2 = true.

(** A result of [GetState] that is the decoding of one of the master's documents. *)
Definition fetched_state (env : Env) (master : string) (r : state_result) : Prop :=
  ∃ blob h, (fetch master env h).1 = Ok blob ∧
            r = GotState (Unmarshal_master_state master_state_zero blob).1.

Lemma get_state_round_returns env master fuel h o :
  well_behaved env master →
  ensures env h (get_state_round (S fuel) master (master_state_zero, o))
    (loop_post (λ st _, ∃ e, st = (master_state_zero, Some e))
               (λ r _, fetched_state env master r) []).
Proof.
  intros Hwb. unfold get_state_round. cbn [fst inner_loop].
  eapply (ensures_bind env h _ _ _ (λ r _,
    (∃ e, r = Failed e master_state_zero) ∨
    (∃ blob, (fetch master env h).1 = Ok blob ∧
             r = Decoded (Unmarshal_master_state master_state_zero blob).1))).
  - eapply (ensures_bind env h _ _ _ (λ r _, r = (fetch master env h).1)); [done|].
    intros r w ->. destruct ((fetch master env h).1) as [blob|e] eqn:Hf.
    + specialize (Hwb h blob Hf).
      destruct (Unmarshal_master_state master_state_zero blob) as [s' ok] eqn:Hu.
      simpl in Hwb. subst ok. apply ensures_ret. right. exists blob. by rewrite Hu.
    + apply ensures_ret. left. by exists e.
  - intros r w [[e ->]|(blob & Hf & ->)]; apply ensures_ret; simpl; [by eauto|].
    by exists blob, h.
Qed.

(** When every document the master answers with decodes, one round of the
    inner loop is enough: [GetState] returns either the state decoded from an
    answer of the master or the error of the last of its [RPC_RETRIES]
    attempts, never a nil state with a nil error. *)
Theorem GetState_returns env master fuel h :
  well_behaved env master →
  ensures env h (GetState (S fuel) master) (λ r _,
    fetched_state env master r ∨ ∃ e, r = StateError (Some e)).
Proof.
  intros Hwb. unfold GetState, RPC_RETRIES. rewrite <- (app_nil_r h).
  eapply ensures_bind.
  - apply (ensures_retry_S env h 4 1 _ (λ st _, ∃ e, st = (master_state_zero, Some e))
             (λ r _, fetched_state env master r) _ []).
    + by apply get_state_round_returns.
    + intros st w [e ->]. by apply get_state_round_returns.
    + done.
  - intros [r|st] w Hr; [apply ensures_ret; by left|].
    destruct Hr as [e ->]. apply ensures_ret. right. by exists e.
Qed.

(** The nodes of the running tasks of a list whose identifiers are printed nodes. *)
Definition named_by (t : Task) (n : Node) : Prop := wf_node n ∧ TaskID t = NodeString n.

Definition running_nodes (ts : list Task) (ns : list Node) : list Node :=
  snd <$> filter (λ tn, TaskState_ tn.1 = "TASK_RUNNING") (zip ts ns).

Lemma collect_peers_named ts ns acc :
  Forall2 named_by ts ns →
  collect_peers ts acc = Ok (acc ++ (peer_entry <$> running_nodes ts ns)).
Proof.
  intros HF. revert acc. unfold running_nodes.
  induction HF as [|t n ts ns [Hwf Hid] HF IH]; intros acc; simpl; [by rewrite app_nil_r|].
  rewrite filter_cons. simpl. case_bool_decide; [rewrite decide_True by done|by rewrite decide_False].
  rewrite Hid, Parse_NodeString by done. rewrite IH. simpl. by rewrite <- app_assoc.
Qed.

(** The peer list the proxy starts from is exactly the running tasks of the
    framework: when the task identifiers are the ones the scheduler gives (the
    printed node), [GetPeersFromState] answers one [name=http://host:port]
    entry per task in state [TASK_RUNNING], in the master's order, of the first
    framework with the asked name. *)
Theorem GetPeersFromState_running fs1 f fs2 spare_fs name ns :
  Forall (λ g, FwName g ≠ name) fs1 → FwName f = name →
  Forall2 named_by (elems (FwTasks f)) ns →
  GetPeersFromState (mkMasterState (mkSlice (fs1 ++ f :: fs2) spare_fs)) name
  = Ok (peer_entry <$> running_nodes (elems (FwTasks f)) ns).
Proof.
  intros Hfs Hf Hns. unfold GetPeersFromState. cbn [elems Frameworks].
  rewrite list_find_app_r.
  - cbn [list_find]. rewrite decide_True by done. simpl. by rewrite (collect_peers_named _ ns).
  - apply list_find_None. done.
Qed.

(** ** Concrete runs *)

Definition html_env : Env := etcd_env (λ _ _, HttpResp 200 (Ok "<html>")) (λ _ _ _, Err ErrJson).

Lemma GetState_spins_witness :
  GetState 3 "http://m:5050" html_env [] =
    (OutOfFuel, replicate 3 (EvHttp (mkRequest GET "http://m:5050/state" ""))).
Proof. apply (GetState_spins html_env "http://m:5050" 200 "<html>"); done. Defined.

Lemma GetState_returns_witness :
  ensures healthy_env [] (GetState 1 "http://m:5050") (λ r _,
    fetched_state healthy_env "http://m:5050" r ∨ ∃ e, r = StateError (Some e)).
Proof. apply GetState_returns. intros h blob [= <-]. done. Defined.

Definition etcd_framework : Framework := mkFramework "fw1" "etcd" (mkSlice
  [mkTask "" "" "etcd-1 host1 2380 2379 2381" "" "" "" "TASK_RUNNING" nil_slice;
   mkTask "" "" "etcd-2 host2 2380 2379 2381" "" "" "" "TASK_LOST" nil_slice] []).

Lemma GetPeersFromState_running_witness :
  GetPeersFromState (mkMasterState (mkSlice
    [mkFramework "fw0" "marathon" nil_slice; etcd_framework] [])) "etcd"
  = Ok ["etcd-1=http://host1:2380"].
Proof.
  pose proof (GetPeersFromState_running [mkFramework "fw0" "marathon" nil_slice] etcd_framework [] []
    "etcd" [node1; mkNode "etcd-2" "host2" 2380 2379 2381 "" ""]) as H.
  apply H; [by repeat constructor|done|]. repeat constructor; by vm_compute.
Defined.
