(* ===== verification/Zk.v ===== *)
(** * ZooKeeper (src/rpc/zk.go)

    The framework identifier and the reconciliation map kept in ZooKeeper, and
    the discovery of the leading Mesos master from the nodes the masters register
    there.  The client's answers come from the environment; closing a connection
    is not an event. *)

From Stdlib Require Import Ascii.
From stdpp Require Import base strings list gmap sorting.
From S2P Require Import Prelude GoStd Errors Json Config Codec Mesos World Rpc.

(** ** The client *)

Definition zk_connect (servers : list string) : IO (option error) :=
  act (EvZkConnect servers) (λ env h, env_zk_connect env h servers).
Definition zk_create (path data : string) : IO (option error) :=
  act (EvZkCreate path data) (λ env h, env_zk_create env h path data).
Definition zk_set (path data : string) : IO (option error) :=
  act (EvZkSet path data) (λ env h, env_zk_set env h path data).
Definition zk_get (path : string) : IO (result string) :=
  act (EvZkGet path) (λ env h, env_zk_get env h path).
Definition zk_delete (path : string) : IO (option error) :=
  act (EvZkDelete path) (λ env h, env_zk_delete env h path).
Definition zk_children (path : string) : IO (result (list string)) :=
  act (EvZkChildren path) (λ env h, env_zk_children env h path).

(** ** The ZooKeeper URI *)

Definition zk_form_error : error :=
  ErrNew "ZK URI must be of the form zk://$host1:$port1,$host2:$port2/path/to/zk/chroot".
Definition zk_root_error : error :=
  ErrNew ("ZK chroot must not be the root path " +:+ dq +:+ "/" +:+ dq +:+ "!").

(** The check of the loop over the servers. *)
Definition server_ok (zk : string) : bool := bool_decide (length (Split zk ":") = 2).

Definition ParseZKURI (zkURI : string) : result (list string * string) :=
  let strippedZKConnect := TrimPrefix zkURI "zk://" in
  match Split strippedZKConnect "/" with
  | [p0; p1] =>
      if bool_decide (p1 = "") then Err zk_root_error else
      let servers := Split p0 "," in
      if forallb server_ok servers then Ok (servers, "/" +:+ p1) else Err zk_form_error
  | [p0] =>
      let servers := Split p0 "," in
      if forallb server_ok servers then Ok (servers, "") else Err zk_form_error
  | _ => Err zk_form_error
  end.

(** ** Persisted state *)

Definition framework_id_path (zkChroot frameworkName : string) : string :=
  zkChroot +:+ "/" +:+ frameworkName +:+ "_framework_id".
Definition reconciliation_path (zkChroot frameworkName : string) : string :=
  zkChroot +:+ "/" +:+ frameworkName +:+ "_reconciliation".

Definition PersistFrameworkID (fwid : string) (zkServers : list string)
    (zkChroot frameworkName : string) : IO (option error) :=
  err ← zk_connect zkServers;
  match err with
  | Some e => mret (Some e)
  | None =>
      err ← zk_create zkChroot "";
      match err with
      | Some e =>
          if bool_decide (e = ErrZkNodeExists)
          then zk_create (framework_id_path zkChroot frameworkName) fwid
          else mret (Some e)
      | None => zk_create (framework_id_path zkChroot frameworkName) fwid
      end
  end.

(** The closure [request] of [UpdateReconciliationInfo]. *)
Definition update_request (data : string) (zkServers : list string) (path : string) : IO (option error) :=
  err ← zk_connect zkServers;
  match err with
  | Some e => mret (Some e)
  | None =>
      err ← zk_set path data;
      if negb (bool_decide (err = Some ErrZkNoNode)) then mret err
      else zk_create path data
  end.

Definition UpdateReconciliationInfo (reconciliationInfo : gmap string string)
    (zkServers : list string) (zkChroot frameworkName : string) : IO (option error) :=
  let data := Marshal_map reconciliationInfo in
  r ← retry (RPC_RETRIES * 2) 1
        (λ _, err ← update_request data zkServers (reconciliation_path zkChroot frameworkName);
              match err with None => mret (inl tt) | Some e => mret (inr (Some e)) end) None;
  match r with inl _ => mret None | inr outerErr => mret outerErr end.

Definition GetPreviousFrameworkID (zkServers : list string) (zkChroot frameworkName : string)
    : IO (string * option error) :=
  r ← retry RPC_RETRIES 1
        (λ _, err ← zk_connect zkServers;
              match err with
              | Some e => mret (inr (Some e))
              | None =>
                  d ← zk_get (framework_id_path zkChroot frameworkName);
                  match d with
                  | Err e => mret (inr (Some e))
                  | Ok rawData => mret (inl rawData)
                  end
              end) None;
  match r with inl fwid => mret (fwid, None) | inr err => mret ("", err) end.

(** The closure [request] of [GetPreviousReconciliationInfo].  With a decoding
    error the source also hands back what was decoded up to it. *)
Definition reconciliation_request (zkServers : list string) (path : string)
    : IO (result (gomap string)) :=
  err ← zk_connect zkServers;
  match err with
  | Some e => mret (Err e)
  | None =>
      d ← zk_get path;
      match d with
      | Err e => if bool_decide (e = ErrZkNoNode) then mret (Ok (Some ∅)) else mret (Err e)
      | Ok rawData => match Unmarshal_map rawData with
                      | Some m => mret (Ok m)
                      | None => mret (Err ErrJson)
                      end
      end
  end.

Definition GetPreviousReconciliationInfo (zkServers : list string) (zkChroot frameworkName : string)
    : IO (gomap string * option error) :=
  r ← retry RPC_RETRIES 1
        (λ _, r ← reconciliation_request zkServers (reconciliation_path zkChroot frameworkName);
              match r with Ok recon => mret (inl recon) | Err e => mret (inr (Some e)) end) None;
  match r with inl recon => mret (recon, None) | inr err => mret (Some ∅, err) end.

Definition ClearZKState (zkServers : list string) (zkChroot frameworkName : string) : IO (option error) :=
  err ← zk_connect zkServers;
  match err with
  | Some e => mret (Some e)
  | None =>
      err1 ← zk_delete (framework_id_path zkChroot frameworkName);
      err2 ← zk_delete (reconciliation_path zkChroot frameworkName);
      mret match err1 with Some e => Some e | None => err2 end
  end.

(** ** The leading master *)

(** Decoders of a master's registration; the caller looks at the decoded value
    only when there is no error. *)
Definition decoder : Type := string → result MasterInfo.

Definition u32_of (v : json) : option (option Z) :=
  match v with
  | JNum l => n ← ParseUint l; if bool_decide (n < 2 ^ 32)%Z then Some (Some n) else None
  | JNull => Some None
  | _ => None
  end.

Definition i32_of (v : json) : option (option Z) :=
  match v with
  | JNum l => n ← ParseInt l; if bool_decide (- 2 ^ 31 ≤ n < 2 ^ 31)%Z then Some (Some n) else None
  | JNull => Some None
  | _ => None
  end.

Definition string_of (v : json) : option (option string) :=
  match v with JStr s => Some (Some s) | JNull => Some None | _ => None end.

Definition set_address (a : Address) (k : string) (v : json) : option Address :=
  let 'mkAddress host ip port := a in
  if bool_decide (k = "hostname") then x ← string_of v; Some (mkAddress x ip port)
  else if bool_decide (k = "ip") then x ← string_of v; Some (mkAddress host x port)
  else if bool_decide (k = "port") then x ← i32_of v; Some (mkAddress host ip x)
  else Some a.

Definition set_master_info (m : MasterInfo) (k : string) (v : json) : option MasterInfo :=
  let 'mkMasterInfo id ip port host addr pid ver := m in
  if bool_decide (k = "id") then x ← string_of v; Some (mkMasterInfo x ip port host addr pid ver)
  else if bool_decide (k = "ip") then x ← u32_of v; Some (mkMasterInfo id x port host addr pid ver)
  else if bool_decide (k = "port") then x ← u32_of v; Some (mkMasterInfo id ip x host addr pid ver)
  else if bool_decide (k = "hostname") then x ← string_of v; Some (mkMasterInfo id ip port x addr pid ver)
  else if bool_decide (k = "pid") then x ← string_of v; Some (mkMasterInfo id ip port host addr x ver)
  else if bool_decide (k = "version") then x ← string_of v; Some (mkMasterInfo id ip port host addr pid x)
  else if bool_decide (k = "address") then
    match v with
    | JNull => Some (mkMasterInfo id ip port host None pid ver)
    | _ => x ← dec_struct set_address (default (mkAddress None None None) addr) v;
           Some (mkMasterInfo id ip port host (Some x) pid ver)
    end
  else Some m.

Definition master_info_zero : MasterInfo := mkMasterInfo None None None None None None None.

Definition json_master_info : decoder := λ b,
  match v ← parse b; dec_struct set_master_info master_info_zero v with
  | Some info => Ok info
  | None => Err ErrJson
  end.

(** [infoCodecs]; the protocol buffer decoder is a parameter. *)
Definition infoCodecs (proto_unmarshal : decoder) : list (string * decoder) :=
  [("info_", proto_unmarshal); ("json.info_", json_master_info)].

(** The codec whose prefix [child] has. *)
Definition child_codec (codecs : list (string * decoder)) (child : string) : option (string * decoder) :=
  snd <$> list_find (λ c, HasPrefix child c.1 = true) codecs.

(** [childloop]: the children it leaves behind and the map it builds. *)
Fixpoint childloop (codecs : list (string * decoder)) (children : list string)
    (mapped : gmap string (string * decoder)) : list string * gmap string (string * decoder) :=
  match children with
  | [] => ([], mapped)
  | child :: rest =>
      match child_codec codecs child with
      | None => let r := childloop codecs rest mapped in (child :: r.1, r.2)
      | Some (p, dec) =>
          let key := drop_bytes (String.length p) child in
          match mapped !! key with
          | Some _ => let r := childloop codecs rest mapped in (child :: r.1, r.2)
          | None => let r := childloop codecs rest (<[key := (child, dec)]> mapped) in (key :: r.1, r.2)
          end
      end
  end.

Definition string_ge (s t : string) : Prop := String.le t s.

#[export] Instance string_ge_dec : RelDecision string_ge.
Proof. intros s t. unfold string_ge. apply _. Defined.

(** The information, the raw data it came from, or an error.  A child that no
    codec claims and that sorts first has the zero entry: its node is "" and
    calling its decoder is a nil call. *)
Definition masterInfoFromZKNodes (children : list string) (ng : string → IO (result string))
    (codecs : list (string * decoder)) : IO (go (result (MasterInfo * string))) :=
  let '(children, mapped) := childloop codecs (merge_sort string_ge children) ∅ in
  if bool_decide (size mapped = 0) then
    mret (Returns (Err (ErrNew "Could not find current mesos master in zk")))
  else
    let lowest := default "" (head (merge_sort String.le children)) in
    let entry := mapped !! lowest in
    raw ← ng (default "" (fst <$> entry));
    match raw with
    | Err e => mret (Returns (Err e))
    | Ok rawData =>
        match snd <$> entry with
        | None => mret Panics
        | Some dec => match dec rawData with
                      | Err e => mret (Returns (Err e))
                      | Ok info => mret (Returns (Ok (info, rawData)))
                      end
        end
    end.

(** [net.JoinHostPort] and [strconv.Itoa]. *)
Definition JoinHostPort (host : string) (port : Z) : string :=
  if negb (has_no ":" host) || negb (has_no "%" host)
  then "[" +:+ host +:+ "]:" +:+ FormatInt port
  else host +:+ ":" +:+ FormatInt port.

(** The dotted form of the four bytes [byteOrder.PutUint32] writes. *)
Definition ip_string (little_endian : bool) (ip : Z) : string :=
  let b i := FormatUint (Z.land (Z.shiftr ip (8 * i)) 255) in
  if little_endian then b 0%Z +:+ "." +:+ b 1%Z +:+ "." +:+ b 2%Z +:+ "." +:+ b 3%Z
  else b 3%Z +:+ "." +:+ b 2%Z +:+ "." +:+ b 1%Z +:+ "." +:+ b 0%Z.

Definition addressFrom (little_endian : bool) (info : MasterInfo) : string :=
  let '(host, port) :=
    match MIAddress info with
    | Some addr =>
        let host := default "" (AddrHostname addr) in
        (if bool_decide (host = "") then default "" (AddrIp addr) else host, default 0%Z (AddrPort addr))
    | None => ("", 0%Z)
    end in
  let '(host, port) :=
    if bool_decide (host = "") then
      let host := default "" (MIHostname info) in
      let ipAsInt := default 0%Z (MIIp info) in
      (if bool_decide (host = "") && negb (bool_decide (ipAsInt = 0%Z))
       then ip_string little_endian ipAsInt else host,
       default 5050%Z (MIPort info))
    else (host, port) in
  if bool_decide (host = "") then "" else JoinHostPort host port.

(** [fmt.Sscanf(s, "%d", &port)]: blanks, a sign and the digits that follow; a
    newline before the number is an error. *)
Fixpoint skip_blanks (skip : nat) (s : string) : option string :=
  match skip, s with
  | S skip, String _ s' => skip_blanks skip s'
  | O, String a s' =>
      if bool_decide (byte a = 10%N) then None
      else if bool_decide (byte a = 13%N) && HasPrefix s' (String (chr 10) "") then None
      else match space_width s with
           | O => Some s
           | S w => skip_blanks w s'
           end
  | _, "" => Some ""
  end.

Fixpoint span_digits (s : string) : string :=
  match s with
  | String a s' => if is_digit a then String a (span_digits s') else ""
  | "" => ""
  end.

Definition sscan_int (s : string) : option Z :=
  s ← skip_blanks 0 s;
  match s with
  | String "-" r => ParseInt (String "-" (span_digits r))
  | String "+" r => ParseInt (String "+" (span_digits r))
  | _ => ParseInt (span_digits s)
  end.

Definition addressFromRaw (rawData : string) : go (result string) :=
  match Split rawData "@" with
  | _ :: mraw :: _ =>
      match Split mraw ":" with
      | host :: p :: _ =>
          match sscan_int p with
          | None => Returns (Err (ErrNew "expected integer"))
          | Some port => Returns (Ok (JoinHostPort host port))
          end
      | _ => Panics
      end
  | _ => Panics
  end.

(** The error of [ParseZKURI] is overwritten before it is looked at. *)
Definition GetMasterFromZK (little_endian : bool) (proto_unmarshal : decoder) (zkURI : string)
    : IO (go (result string)) :=
  let '(servers, chroot) := match ParseZKURI zkURI with Ok r => r | Err _ => ([], "") end in
  err ← zk_connect servers;
  match err with
  | Some e => mret (Returns (Err e))
  | None =>
      ch ← zk_children chroot;
      match ch with
      | Err e => mret (Returns (Err e))
      | Ok children =>
          r ← masterInfoFromZKNodes children (λ node, zk_get (chroot +:+ "/" +:+ node))
                (infoCodecs proto_unmarshal);
          match r with
          | Panics => mret Panics
          | Returns (Err e) => mret (Returns (Err e))
          | Returns (Ok (info, rawData)) =>
              let addr := addressFrom little_endian info in
              if bool_decide (addr = "") then mret (addressFromRaw rawData)
              else mret (Returns (Ok addr))
          end
      end
  end.

(** ** Properties *)

(** *** The URI *)

(** A server as the URI lists it: a host and a port without separators. *)
Definition wf_server (s : string) : Prop :=
  has_no "/" s = true ∧ has_no "," s = true ∧
  ∃ host port, s = host +:+ ":" +:+ port ∧ has_no ":" host = true ∧ has_no ":" port = true.

Lemma wf_server_ok s : wf_server s → server_ok s = true.
Proof.
  intros (_ & _ & host & port & -> & Hh & Hp). unfold server_ok.
  change (":" +:+ port) with (String ":" "" +:+ port). rewrite sapp_cons, sapp_nil_l.
  rewrite Split_app by done. by rewrite Split_no.
Qed.

Lemma wf_servers_ok ss : Forall wf_server ss → forallb server_ok ss = true.
Proof. induction 1 as [|s ss Hs _ IH]; [done|]. simpl. by rewrite wf_server_ok. Qed.

Lemma Join_has_no c ss sep :
  Forall (λ s, has_no c s = true) ss → has_no c sep = true → has_no c (Join ss sep) = true.
Proof.
  intros Hss Hsep. induction Hss as [|s ss Hs Hss IH]; [done|]. destruct ss as [|s' ss]; [done|].
  change (Join (s :: s' :: ss) sep) with (s +:+ sep +:+ Join (s' :: ss) sep).
  unfold has_no in *. rewrite !all_bytes_app. by rewrite Hs, Hsep, IH.
Qed.

Lemma servers_no_slash ss : Forall wf_server ss → has_no "/" (Join ss ",") = true.
Proof.
  intros Hss. apply Join_has_no; [|done]. eapply Forall_impl; [exact Hss|]. by intros s [? _].
Qed.

Lemma Split_servers ss : ss ≠ [] → Forall wf_server ss → Split (Join ss ",") "," = ss.
Proof.
  intros Hne Hss. change "," with (String "," ""). apply (Split_Join ss ","); [done|].
  eapply Forall_impl; [exact Hss|]. by intros s (_ & ? & _).
Qed.

(** [ParseZKURI] recovers what a ZooKeeper URI is built from: the servers in
    order and the chroot with its leading slash, or no chroot when the URI ends
    after the servers.  A URI with the bare root as chroot is refused, and so is
    every chroot of more than one segment. *)
Theorem ParseZKURI_round_trip ss c d :
  ss ≠ [] → Forall wf_server ss → has_no "/" c = true → c ≠ "" →
  let base := "zk://" +:+ Join ss "," in
  ParseZKURI (base +:+ "/" +:+ c) = Ok (ss, "/" +:+ c) ∧
  ParseZKURI base = Ok (ss, "") ∧
  ParseZKURI (base +:+ "/") = Err zk_root_error ∧
  ParseZKURI (base +:+ "/" +:+ c +:+ "/" +:+ d) = Err zk_form_error.
Proof.
  intros Hne Hss Hc Hc0 base. subst base. pose proof (servers_no_slash ss Hss) as Hs.
  pose proof (Split_servers ss Hne Hss) as HS. pose proof (wf_servers_ok ss Hss) as Hok.
  assert (HP : ∀ p rest, ParseZKURI ("zk://" +:+ p +:+ rest) =
     match Split (p +:+ rest) "/" with
     | [p0; p1] => if bool_decide (p1 = "") then Err zk_root_error else
         if forallb server_ok (Split p0 ",") then Ok (Split p0 ",", "/" +:+ p1) else Err zk_form_error
     | [p0] => if forallb server_ok (Split p0 ",") then Ok (Split p0 ",", "") else Err zk_form_error
     | _ => Err zk_form_error end).
  { intros p rest. unfold ParseZKURI. by rewrite TrimPrefix_app. }
  rewrite !string_app_assoc. rewrite <- (string_app_nil (Join ss ",")) at 2. rewrite !HP.
  split_and!.
  - rewrite !sapp_cons, !sapp_nil_l. rewrite (Split_app _ c), (Split_no c), HS, Hok by done. rewrite bool_decide_eq_false_2 by done.
    by rewrite sapp_cons, sapp_nil_l.
  - by rewrite string_app_nil, Split_no, HS, Hok.
  - by rewrite (Split_app _ "").
  - rewrite !sapp_cons, !sapp_nil_l. rewrite (Split_app _ (c +:+ _)), (Split_app c d) by done.
    pose proof (Split_nonempty d "/"). by destruct (Split d "/").
Qed.

(** *** The reconciliation map *)

Definition zk_writes (path : string) (e : Event) : bool :=
  match e with
  | EvZkSet p _ | EvZkCreate p _ | EvZkDelete p => bool_decide (p = path)
  | _ => false
  end.

(** What the system relies on ZooKeeper for: a node that was written and not
    written since is there, so a read gives the data or some failure other than
    the absence of the node. *)
Record zk_store (env : Env) : Prop := {
  zk_read_set h path data w :
    env_zk_set env h path data = None → Forall (λ e, zk_writes path e = false) w →
    env_zk_get env (h ++ [EvZkSet path data] ++ w) path = Ok data ∨
    ∃ e, env_zk_get env (h ++ [EvZkSet path data] ++ w) path = Err e ∧ e ≠ ErrZkNoNode;
  zk_read_create h path data w :
    env_zk_create env h path data = None → Forall (λ e, zk_writes path e = false) w →
    env_zk_get env (h ++ [EvZkCreate path data] ++ w) path = Ok data ∨
    ∃ e, env_zk_get env (h ++ [EvZkCreate path data] ++ w) path = Err e ∧ e ≠ ErrZkNoNode;
}.

(** From history [h] on, reads of [path] give [data] as long as it is not written. *)
Definition holds_data (env : Env) (h : list Event) (path data : string) : Prop :=
  ∀ w, Forall (λ e, zk_writes path e = false) w →
    env_zk_get env (h ++ w) path = Ok data ∨
    ∃ e, env_zk_get env (h ++ w) path = Err e ∧ e ≠ ErrZkNoNode.

Lemma holds_data_app env h path data w :
  holds_data env h path data → Forall (λ e, zk_writes path e = false) w →
  holds_data env (h ++ w) path data.
Proof. intros Hd Hw w' Hw'. rewrite <- app_assoc. apply Hd, Forall_app. done. Qed.

Lemma update_request_holds env h data servers path :
  zk_store env →
  ensures env h (update_request data servers path) (λ r w,
    r = None → holds_data env (h ++ w) path data).
Proof.
  intros [Hset Hcreate]. apply ensures_bind_act.
  destruct (env_zk_connect _ _ _); [by apply ensures_ret|]. apply ensures_bind_act.
  case_bool_decide as Hs; cbn [negb].
  - apply ensures_act. intros Hc w Hw. specialize (Hcreate _ _ _ w Hc Hw).
    by rewrite <- !app_assoc in *.
  - apply ensures_ret. intros Hn w Hw. specialize (Hset _ _ _ w Hn Hw).
    by rewrite <- !app_assoc in *.
Qed.

Lemma UpdateReconciliationInfo_holds env h m servers chroot name :
  zk_store env →
  ensures env h (UpdateReconciliationInfo m servers chroot name) (λ r w,
    r = None → holds_data env (h ++ w) (reconciliation_path chroot name) (Marshal_map m)).
Proof.
  intros Hz. unfold UpdateReconciliationInfo, RPC_RETRIES. change (5 * 2) with 10.
  set (Done := λ w, holds_data env (h ++ w) (reconciliation_path chroot name) (Marshal_map m)).
  rewrite <- (app_nil_r h). eapply ensures_bind.
  - apply (ensures_retry_S env h 9 1 _ (λ o _, o ≠ None) (λ _ w, Done w) None []).
    + eapply ensures_bind; [by apply update_request_holds|].
      intros [e|] w Hw; apply ensures_ret; [done|]. simpl. rewrite app_nil_r. unfold Done.
      rewrite app_nil_r in Hw. by apply Hw.
    + intros o w _. eapply ensures_bind; [by apply update_request_holds|].
      intros [e|] w' Hw; apply ensures_ret; [done|]. simpl. rewrite app_nil_r. unfold Done.
      rewrite app_assoc. by apply Hw.
    + done.
  - intros [[]|o] w Hr; apply ensures_ret; simpl in *; rewrite app_nil_r; [|done].
    by rewrite app_nil_r.
Qed.

Lemma reconciliation_request_reads env h servers path m :
  holds_data env h path (Marshal_map m) → ascii_map m →
  ensures env h (reconciliation_request servers path) (λ r w,
    Forall (λ e, zk_writes path e = false) w ∧ (∀ m', r = Ok m' → m' = Some m)).
Proof.
  intros Hd Hm. apply ensures_bind_act.
  destruct (env_zk_connect _ _ _); [by apply ensures_ret; repeat constructor|]. apply ensures_bind_act.
  destruct (Hd [EvZkConnect servers]) as [Hg|(e & Hg & Hne)]; [by repeat constructor| |]; rewrite Hg.
  - rewrite Unmarshal_Marshal_map by done. apply ensures_ret. split; [by repeat constructor|].
    by intros m' [= <-].
  - rewrite bool_decide_eq_false_2 by done. apply ensures_ret. by split; [repeat constructor|].
Qed.

(** C21: The scheduler finds its reconciliation map again.  After
    [UpdateReconciliationInfo] returned nil, and with no other write to the
    node, a [GetPreviousReconciliationInfo] that returns no error, through the same
    or another connection, gives exactly the map that was stored. *)
Theorem reconciliation_round_trip env h servers servers' chroot name m w :
  zk_store env → ascii_map m →
  (UpdateReconciliationInfo m servers chroot name env h).1 = None →
  Forall (λ e, zk_writes (reconciliation_path chroot name) e = false) w →
  let h' := (h ++ (UpdateReconciliationInfo m servers chroot name env h).2) ++ w in
  (GetPreviousReconciliationInfo servers' chroot name env h').1.2 = None →
  (GetPreviousReconciliationInfo servers' chroot name env h').1.1 = Some m.
Proof.
  intros Hz Hm Hu Hw h'. apply (UpdateReconciliationInfo_holds env h) in Hu; [|done].
  pose proof (holds_data_app _ _ _ _ _ Hu Hw : holds_data env h' _ _) as Hd. clearbody h'.
  cut (ensures env h' (GetPreviousReconciliationInfo servers' chroot name)
         (λ r _, r.2 = None → r.1 = Some m)); [done|].
  set (path := reconciliation_path chroot name) in *.
  unfold GetPreviousReconciliationInfo, RPC_RETRIES. rewrite <- (app_nil_r h'). eapply ensures_bind.
  - apply (ensures_retry_S env h' 4 1 _
      (λ o w, o ≠ None ∧ Forall (λ e, zk_writes path e = false) w) (λ r _, r = Some m) None []).
    + eapply ensures_bind; [apply (reconciliation_request_reads _ _ _ _ m); [|done]; by rewrite app_nil_r|].
      intros [m'|e] w' [Hq Hr]; apply ensures_ret; simpl; [by apply Hr|]. by rewrite app_nil_r.
    + intros o w' [_ Hw']. eapply ensures_bind;
        [apply (reconciliation_request_reads _ _ _ _ m); [|done]; by apply holds_data_app|].
      intros [m'|e] w'' [Hq Hr]; apply ensures_ret; simpl; [by apply Hr|].
      rewrite app_nil_r. split; [done|]. by apply Forall_app.
    + intros o w' d [? Hw']. split; [done|]. apply Forall_app. by repeat constructor.
  - intros [r|o] w' Hr; apply ensures_ret; [done|]. by destruct Hr.
Qed.

(** The map is nil, without an error, only when the node holds the text [null]. *)
Lemma GetPreviousReconciliationInfo_nil env h servers chroot name :
  (GetPreviousReconciliationInfo servers chroot name env h).1 = (None, None) →
  ∃ h' raw, env_zk_get env h' (reconciliation_path chroot name) = Ok raw ∧ parse raw = Some JNull.
Proof.
  set (path := reconciliation_path chroot name).
  set (Q := λ (r : gomap string) (w : list Event),
    r = None → ∃ h' raw, env_zk_get env h' path = Ok raw ∧ parse raw = Some JNull).
  assert (Hreq : ∀ h, ensures env h (reconciliation_request servers path) (λ r _, ∀ m, r = Ok m → Q m [])).
  { intros h0. apply ensures_bind_act. destruct (env_zk_connect _ _ _); [by apply ensures_ret|].
    apply ensures_bind_act. destruct (env_zk_get _ _ _) as [raw|e] eqn:Hg.
    - unfold Unmarshal_map. destruct (parse raw) as [v|] eqn:Hp; [|by apply ensures_ret].
      cbn [mbind option_bind]. unfold Q. destruct v; cbn [dec_map]; try by apply ensures_ret.
      + apply ensures_ret. intros m _ _. by exists (h0 ++ [EvZkConnect servers]), raw.
      + destruct (foldl _ _ _); apply ensures_ret; [|done]. by intros m [= <-].
    - case_bool_decide; apply ensures_ret; [|done]. by intros m [= <-]. }
  cut (ensures env h (GetPreviousReconciliationInfo servers chroot name) (λ r _, r = (None, None) → Q None [])).
  { intros H E. by apply (H E). }
  unfold GetPreviousReconciliationInfo. rewrite <- (app_nil_r h). eapply ensures_bind.
  - apply (ensures_retry env h _ 1 _ (λ _ _, True) Q None []); [|done..].
    intros o w _. eapply ensures_bind; [apply Hreq|].
    intros [m|e] w' Hm; apply ensures_ret; simpl; [|done]. by apply Hm.
  - intros [r|o] w Hr; apply ensures_ret; [intros [= ->]; exact Hr|done].
Qed.

(** *** The choice of the master's node *)

(** The key under which [childloop] files a child. *)
Definition claims (codecs : list (string * decoder)) (child key : string) (dec : decoder) : Prop :=
  ∃ p, child_codec codecs child = Some (p, dec) ∧ key = drop_bytes (String.length p) child.

Lemma childloop_mono codecs cs m key e :
  m !! key = Some e → (childloop codecs cs m).2 !! key = Some e.
Proof.
  revert m. induction cs as [|c cs IH]; intros m Hm; [done|]. simpl.
  destruct (child_codec codecs c) as [[p dec]|]; [|by apply IH].
  destruct (m !! drop_bytes (String.length p) c) as [e'|] eqn:He; [by apply IH|]. simpl.
  apply IH. rewrite lookup_insert_ne; [done|]. intros <-. congruence.
Qed.

(** What the loop files under a key is the first child that claims it. *)
Lemma childloop_first codecs cs m key e :
  m !! key = None → (childloop codecs cs m).2 !! key = Some e →
  key ∈ (childloop codecs cs m).1 ∧
  ∃ cs1 cs2, cs = cs1 ++ e.1 :: cs2 ∧ claims codecs e.1 key e.2 ∧
    ∀ c dec, c ∈ cs1 → ¬ claims codecs c key dec.
Proof.
  revert m. induction cs as [|c cs IH]; intros m Hm; simpl; [by rewrite Hm|].
  destruct (child_codec codecs c) as [[p dec]|] eqn:Hc.
  - destruct (m !! drop_bytes (String.length p) c) as [e'|] eqn:He; simpl.
    + intros H. destruct (IH _ Hm H) as (Hin & cs1 & cs2 & -> & Hcl & Hno). split; [by right|].
      exists (c :: cs1), cs2. split_and!; [done..|]. intros c' dec' [->|Hc']%elem_of_cons; [|by eauto].
      intros (p' & Hp' & ->). simplify_eq.
    + destruct (decide (key = drop_bytes (String.length p) c)) as [->|Hne].
      * intros H. rewrite (childloop_mono _ _ _ _ (c, dec)) in H by by rewrite lookup_insert_eq.
        simplify_eq. split; [by left|]. exists [], cs. split_and!; [done| |].
        -- by exists p.
        -- intros c' dec' Hc'. by apply not_elem_of_nil in Hc'.
      * intros H. destruct (IH _ ltac:(by rewrite lookup_insert_ne) H) as (Hin & cs1 & cs2 & -> & Hcl & Hno).
        split; [by right|]. exists (c :: cs1), cs2. split_and!; [done..|].
        intros c' dec' [->|Hc']%elem_of_cons; [|by eauto]. intros (p' & Hp' & ->). simplify_eq.
  - intros H. destruct (IH _ Hm H) as (Hin & cs1 & cs2 & -> & Hcl & Hno). split; [by right|].
    exists (c :: cs1), cs2. split_and!; [done..|]. intros c' dec' [->|Hc']%elem_of_cons; [|by eauto].
    intros (p' & Hp' & ->). simplify_eq.
Qed.

(** Every claimed key is filed. *)
Lemma childloop_files codecs cs m c key dec :
  c ∈ cs → claims codecs c key dec → is_Some ((childloop codecs cs m).2 !! key).
Proof.
  revert m. induction cs as [|c' cs IH]; intros m Hin Hcl; [by apply not_elem_of_nil in Hin|].
  apply elem_of_cons in Hin as [<-|Hin].
  - destruct Hcl as (p & Hp & ->). simpl. rewrite Hp.
    destruct (m !! drop_bytes (String.length p) c) as [e|] eqn:He; simpl; eexists; apply childloop_mono;
      [done|by rewrite lookup_insert_eq].
  - simpl. destruct (child_codec codecs c') as [[p dec']|]; [|by apply IH].
    destruct (m !! _) as [e|]; by apply IH.
Qed.

(** A child the loop leaves behind is a filed key or one of the children. *)
Lemma childloop_out codecs cs m o :
  o ∈ (childloop codecs cs m).1 → o ∈ cs ∨ is_Some ((childloop codecs cs m).2 !! o).
Proof.
  revert m. induction cs as [|c cs IH]; intros m; simpl; [by intros Hn%not_elem_of_nil|].
  destruct (child_codec codecs c) as [[p dec]|]; [destruct (m !! _) as [e|] eqn:He|]; simpl;
    intros [->|Hin]%elem_of_cons; try (by left; left);
    try (destruct (IH _ Hin); [by left; right|by right]).
  right. eexists. apply childloop_mono. by rewrite lookup_insert_eq.
Qed.

#[export] Instance string_ge_total : Total string_ge.
Proof. intros s t. unfold string_ge. destruct (total String.le s t); auto. Qed.

#[export] Instance string_ge_trans : Transitive string_ge.
Proof. intros s t u Hst Htu. unfold string_ge in *. by transitivity t. Qed.

(** The head of a sorted list, given its least element. *)
Lemma sorted_head_least l k :
  k ∈ l → (∀ o, o ∈ l → String.le k o) → head (merge_sort String.le l) = Some k.
Proof.
  intros Hin Hle. pose proof (Sorted_merge_sort String.le l) as Hs.
  apply Sorted_StronglySorted in Hs; [|apply _].
  pose proof (merge_sort_Permutation String.le l) as Hp.
  destruct (merge_sort String.le l) as [|x xs] eqn:E.
  - apply Permutation_nil in Hp. subst. by apply not_elem_of_nil in Hin.
  - simpl. f_equal. apply (anti_symm String.le).
    + rewrite <- Hp in Hin. apply elem_of_cons in Hin as [->|Hin]; [done|].
      apply StronglySorted_inv in Hs as [_ Hall]. rewrite Forall_forall in Hall.
      by apply Hall.
    + apply Hle. rewrite <- Hp. by left.
Qed.

Definition is_key (k : string) : Prop := all_bytes is_digit k = true.
Definition proto_node (k : string) : string := "info_" +:+ k.
Definition json_node (k : string) : string := "json.info_" +:+ k.

(** Children of the masters' directory: registrations, and other nodes, whose
    names start with a byte above the digits ([log_replicas]). *)
Definition wf_child (c : string) : Prop :=
  (∃ k, is_key k ∧ (c = proto_node k ∨ c = json_node k)) ∨
  (HasPrefix c "info_" = false ∧ HasPrefix c "json.info_" = false ∧
   ∃ a s, c = String a s ∧ (57 < byte a)%N).

Definition registered (cs : list string) (k : string) : Prop := proto_node k ∈ cs ∨ json_node k ∈ cs.

(** The leader is the registration with the lowest sequence number. *)
Definition leads (cs : list string) (k : string) : Prop :=
  is_key k ∧ registered cs k ∧ ∀ k', registered cs k' → String.le k k'.

Section Leader.
Context (proto_unmarshal : decoder).

Definition leader_entry (cs : list string) (k : string) : string * decoder :=
  if bool_decide (json_node k ∈ cs) then (json_node k, json_master_info)
  else (proto_node k, proto_unmarshal).

(** Read a node and decode it. *)
Definition read_entry (ng : string → IO (result string)) (e : string * decoder)
    : IO (go (result (MasterInfo * string))) :=
  raw ← ng e.1;
  match raw with
  | Err er => mret (Returns (Err er))
  | Ok rawData => match e.2 rawData with
                  | Err er => mret (Returns (Err er))
                  | Ok info => mret (Returns (Ok (info, rawData)))
                  end
  end.

Lemma claims_iff c key dec :
  claims (infoCodecs proto_unmarshal) c key dec ↔
  (c = proto_node key ∧ dec = proto_unmarshal) ∨ (c = json_node key ∧ dec = json_master_info).
Proof.
  split.
  - intros (p & Hp & ->). unfold child_codec, infoCodecs in Hp.
    apply fmap_Some in Hp as ([i x] & (Hl & Hpre & _)%list_find_Some & Heq).
    cbn [snd] in Heq. subst x. cbn [fst] in Hpre. apply HasPrefix_true in Hpre.
    destruct i as [|[|i]]; [injection Hl as <- <-; by left|injection Hl as <- <-; by right|done].
  - intros [[-> ->]|[-> ->]].
    + exists "info_". split; [|symmetry; apply drop_bytes_app]. unfold child_codec, infoCodecs.
      cbn [list_find]. rewrite decide_True; [done|]. apply HasPrefix_app.
    + exists "json.info_". split; [|symmetry; apply drop_bytes_app]. unfold child_codec, infoCodecs.
      cbn [list_find]. rewrite decide_False by done. rewrite decide_True; [done|]. apply HasPrefix_app.
Qed.

Lemma key_below k a s : is_key k → (57 < byte a)%N → String.le k (String a s).
Proof.
  intros Hk Ha. destruct k as [|b k]; [done|]. unfold is_key in Hk. simpl in Hk.
  apply andb_true_iff in Hk as [Hb _]. unfold is_digit in Hb. apply andb_true_iff in Hb as [_ Hb].
  apply N.leb_le in Hb. unfold String.le, String.leb. simpl.
  unfold Ascii.compare, byte in *. destruct (N.compare_spec (N_of_ascii b) (N_of_ascii a)); [lia|done|lia].
Qed.

(** For the children that masters create, beside other nodes named above the
    digits, exactly the leader's node is read, with the decoder of its format. *)
Lemma masterInfo_leader cs k ng :
  Forall wf_child cs → leads cs k →
  masterInfoFromZKNodes cs ng (infoCodecs proto_unmarshal) = read_entry ng (leader_entry cs k).
Proof.
  intros Hwf (Hk & Hreg & Hmin). unfold masterInfoFromZKNodes.
  set (scs := merge_sort string_ge cs).
  assert (Hp : scs ≡ₚ cs) by apply merge_sort_Permutation.
  assert (Hcl : ∃ c dec, c ∈ scs ∧ claims (infoCodecs proto_unmarshal) c k dec).
  { destruct Hreg as [H|H]; rewrite <- Hp in H; [exists (proto_node k), proto_unmarshal|
      exists (json_node k), json_master_info]; rewrite claims_iff; auto. }
  destruct Hcl as (c & dec & Hc & Hcl).
  destruct (childloop_files (infoCodecs proto_unmarshal) scs ∅ c k dec Hc Hcl) as [e He].
  pose proof (childloop_out (infoCodecs proto_unmarshal) scs ∅) as Hout.
  destruct (childloop_first (infoCodecs proto_unmarshal) scs ∅ k e (lookup_empty _) He) as (Hkin & Hfirst).
  destruct (childloop (infoCodecs proto_unmarshal) scs ∅) as [out m] eqn:Hloop. cbn [fst snd] in *.
  rewrite bool_decide_eq_false_2 by by eapply map_size_ne_0_lookup_2.
  assert (Hhead : head (merge_sort String.le out) = Some k).
  { apply sorted_head_least; [done|]. intros o [Hoc|[e' He']]%Hout.
    - rewrite Hp in Hoc. apply (Forall_forall wf_child cs) in Hoc; [|done].
      destruct Hoc as [(k' & _ & [->| ->])|(_ & _ & a & s & -> & Ha)]; by apply key_below.
    - pose proof (childloop_first (infoCodecs proto_unmarshal) scs ∅ o e' (lookup_empty _)) as Hf. rewrite Hloop in Hf.
      destruct (Hf He') as (_ & cs1 & cs2 & Heq & Hcl' & _). apply Hmin.
      assert (Hin : e'.1 ∈ cs) by (rewrite <- Hp, Heq; set_solver).
      apply claims_iff in Hcl' as [[Hx _]|[Hx _]]; rewrite Hx in Hin; [by left|by right]. }
  rewrite Hhead. change (default "" (Some k)) with k. replace (m !! k) with (Some e) by (symmetry; exact He).
  assert (He' : e = leader_entry cs k); [|by rewrite He'].
  destruct Hfirst as (cs1 & cs2 & Heq & Hcl1 & Hno). unfold leader_entry.
  apply claims_iff in Hcl1. destruct e as [n d]. simpl in *. case_bool_decide as Hj.
  - destruct Hcl1 as [[-> ->]|[-> ->]]; [|done]. exfalso.
    rewrite <- Hp, Heq in Hj. apply elem_of_app in Hj as [Hj|[Hj|Hj]%elem_of_cons]; [|done|].
    + eapply (Hno _ json_master_info Hj), claims_iff. auto.
    + assert (Hge : string_ge (proto_node k) (json_node k)); [|done].
      apply (sorted_after string_ge cs1 _ cs2); [|done]. rewrite <- Heq.
      apply Sorted_StronglySorted; [apply _|]. apply (Sorted_merge_sort string_ge).
  - destruct Hcl1 as [[-> ->]|[-> ->]]; [done|]. destruct Hj. rewrite <- Hp, Heq. set_solver.
Qed.

(** ZooKeeper answers, lists [cs] under the chroot and serves [raw] at [node]. *)
Definition zk_serves (env : Env) (servers : list string) (chroot : string) (cs : list string)
    (node raw : string) : Prop :=
  ∀ h, env_zk_connect env h servers = None ∧ env_zk_children env h chroot = Ok cs ∧
       env_zk_get env h (chroot +:+ "/" +:+ node) = Ok raw.

Lemma GetMasterFromZK_reads env h le uri servers chroot cs k raw info :
  ParseZKURI uri = Ok (servers, chroot) → Forall wf_child cs → leads cs k →
  zk_serves env servers chroot cs (leader_entry cs k).1 raw →
  (leader_entry cs k).2 raw = Ok info →
  (GetMasterFromZK le proto_unmarshal uri env h).1 =
    if bool_decide (addressFrom le info = "") then addressFromRaw raw
    else Returns (Ok (addressFrom le info)).
Proof.
  intros Huri Hwf Hk Hzk Hdec. unfold GetMasterFromZK. rewrite Huri. rewrite bind_run.
  cbn [zk_connect act fst snd]. rewrite (proj1 (Hzk _)). rewrite bind_run.
  cbn [zk_children act fst snd]. rewrite (proj1 (proj2 (Hzk _))). rewrite bind_run.
  rewrite (masterInfo_leader cs k) by done. unfold read_entry. rewrite bind_run.
  cbn [zk_get act fst snd]. rewrite (proj2 (proj2 (Hzk _))), Hdec. cbn [mret IO_ret fst].
  by case_bool_decide.
Qed.

(** The address of the leading master.  When ZooKeeper serves the masters'
    directory, [GetMasterFromZK] reads the registration with the lowest sequence
    number, preferring the JSON one to the protocol buffer one when both exist,
    and answers with the address that registration decodes to. *)
Theorem GetMasterFromZK_leader env h le uri servers chroot cs k raw info :
  ParseZKURI uri = Ok (servers, chroot) → Forall wf_child cs → leads cs k →
  zk_serves env servers chroot cs (leader_entry cs k).1 raw →
  (leader_entry cs k).2 raw = Ok info → addressFrom le info ≠ "" →
  (GetMasterFromZK le proto_unmarshal uri env h).1 = Returns (Ok (addressFrom le info)).
Proof. intros. erewrite GetMasterFromZK_reads by done. by rewrite bool_decide_eq_false_2. Qed.

(** A registration without an address crashes the caller.  When the leader's
    registration decodes but names no host, and its raw data has no [@] to
    scrape a process identifier from, [GetMasterFromZK] panics with an index out
    of range instead of returning an error. *)
Theorem GetMasterFromZK_panics env h le uri servers chroot cs k raw info :
  ParseZKURI uri = Ok (servers, chroot) → Forall wf_child cs → leads cs k →
  zk_serves env servers chroot cs (leader_entry cs k).1 raw →
  (leader_entry cs k).2 raw = Ok info → addressFrom le info = "" → has_no "@" raw = true →
  (GetMasterFromZK le proto_unmarshal uri env h).1 = Panics.
Proof.
  intros ? ? ? ? ? Ha Hraw. erewrite GetMasterFromZK_reads by done. rewrite bool_decide_eq_true_2 by done.
  unfold addressFromRaw. by rewrite Split_no.
Qed.
End Leader.

(** *** Addresses *)

Lemma Split_head_app d r c :
  has_no c d = true → ∃ w ws, Split r c = w :: ws ∧ Split (d +:+ r) c = (d +:+ w) :: ws.
Proof.
  intros Hd. pose proof (Split_nonempty r c) as Hne. destruct (Split r c) as [|w ws] eqn:Hr; [done|].
  exists w, ws. split; [done|]. induction d as [|a d IH]; [by rewrite !sapp_nil_l|].
  unfold has_no in *. simpl in Hd. apply andb_true_iff in Hd as [Ha Hd]. rewrite sapp_cons. simpl.
  rewrite bool_decide_eq_false_2 by (by intros ->; rewrite bool_decide_eq_true_2 in Ha).
  by rewrite IH.
Qed.

Definition no_digit_first (s : string) : Prop :=
  match s with String a _ => is_digit a = false | "" => True end.

Lemma span_digits_app d s :
  all_bytes is_digit d = true → no_digit_first s → span_digits (d +:+ s) = d.
Proof.
  intros Hd Hs. induction d as [|a d IH].
  - rewrite sapp_nil_l. destruct s as [|a s]; [done|]. simpl in *. by rewrite Hs.
  - rewrite sapp_cons. simpl in *. apply andb_true_iff in Hd as [Ha Hd]. by rewrite Ha, IH.
Qed.

Lemma Split_no_digit_first r w ws : Split r ":" = w :: ws → no_digit_first r → no_digit_first w.
Proof.
  destruct r as [|a r]; simpl; [by intros [= <-]|]. case_bool_decide; [by intros [= <-]|].
  destruct (Split r ":"); by intros [= <-].
Qed.

Lemma digit_scan a s : is_digit a = true → sscan_int (String a s) = ParseInt (span_digits (String a s)).
Proof.
  unfold sscan_int, is_digit. intros Ha. apply andb_true_iff in Ha as [H1 H2].
  apply N.leb_le in H1, H2. simpl.
  assert (Hsp : space_width (String a s) = 0).
  { destruct a as [[] [] [] [] [] [] [] []]; try done; vm_compute in H1, H2; by (destruct H1 || destruct H2). }
  destruct a as [[] [] [] [] [] [] [] []]; try (vm_compute in H1, H2; by (destruct H1 || destruct H2)); done.
Qed.

(** A master that registers only its process identifier is still found.  For
    raw data that contains [name@host:port], whatever precedes it and
    follows the port, [addressFromRaw] answers [host:port] (brackets are added
    for a host with a percent sign). *)
Theorem addressFromRaw_pid pre host port rest :
  has_no "@" pre = true → has_no "@" host = true → has_no ":" host = true →
  has_no "@" rest = true → no_digit_first rest → (0 ≤ port < 2 ^ 63)%Z →
  addressFromRaw (pre +:+ "@" +:+ host +:+ ":" +:+ FormatUint port +:+ rest)
  = Returns (Ok (JoinHostPort host port)).
Proof.
  intros Hpre Hha Hhc Hra Hrd Hport. unfold addressFromRaw.
  assert (Hdig : ∀ c, is_digit c = false → has_no c (FormatUint port) = true).
  { intros c Hc. eapply all_bytes_impl; [|apply FormatUint_digits]. intros a Ha.
    apply negb_true_iff, bool_decide_eq_false. intros ->. congruence. }
  rewrite (sapp_cons "@" ""), (sapp_cons ":" ""), !sapp_nil_l, Split_app by done.
  rewrite (Split_no (host +:+ _)).
  2:{ unfold has_no in *. rewrite all_bytes_app, Hha. simpl. rewrite all_bytes_app, Hra.
      by rewrite (Hdig "@"%char eq_refl). }
  rewrite Split_app by done.
  destruct (Split_head_app (FormatUint port) rest ":") as (w & ws & Hr & ->); [by apply Hdig|].
  assert (Hs : sscan_int (FormatUint port +:+ w) = Some port); [|by rewrite Hs].
  pose proof (FormatUint_digits port) as Hd. pose proof (FormatUint_nonempty port) as Hne.
  destruct (FormatUint port) as [|a d] eqn:Hf; [done|]. rewrite sapp_cons, digit_scan.
  - rewrite <- sapp_cons, span_digits_app; [|done|by eapply Split_no_digit_first]. rewrite <- Hf.
    transitivity (ParseInt (FormatInt port)); [|apply ParseInt_FormatInt; unfold is_i64; lia].
    unfold FormatInt. by rewrite bool_decide_eq_false_2 by lia.
  - simpl in Hd. by apply andb_true_iff in Hd as [? _].
Qed.

(** ** Concrete runs *)

Lemma ParseZKURI_round_trip_witness :
  ParseZKURI "zk://h1:2181,h2:2181/etcd" = Ok (["h1:2181"; "h2:2181"], "/etcd") ∧
  ParseZKURI "zk://h1:2181,h2:2181/etcd/a" = Err zk_form_error.
Proof.
  destruct (ParseZKURI_round_trip ["h1:2181"; "h2:2181"] "etcd" "a") as (H1 & _ & _ & H2); try done.
  repeat constructor; eexists _, "2181"; [instantiate (1 := "h1")|instantiate (1 := "h2")]; done.
Defined.

Lemma last_write_skip path w rh :
  Forall (λ e, zk_writes path e = false) w → last_write path (reverse w ++ rh) = last_write path rh.
Proof.
  induction w as [|e w IH] using rev_ind; [done|]. intros [Hw He]%Forall_app.
  rewrite reverse_snoc. apply Forall_inv in He. cbn [app]. rewrite <- IH by done.
  destruct e; cbn [last_write zk_writes] in *; try done; apply bool_decide_eq_false in He;
    by rewrite bool_decide_eq_false_2.
Qed.

Lemma zk_env_store http children : zk_store (zk_env http children).
Proof.
  split; intros h path data w _ Hw; left; cbn [env_zk_get zk_env];
    rewrite !reverse_app, <- app_assoc, last_write_skip by done; simpl;
    by rewrite bool_decide_eq_true_2.
Qed.

Definition zk0 : Env := zk_env (env_http quiet_env) ["info_0000000001"; "log_replicas"; "json.info_0000000001"].

Lemma reconciliation_round_trip_witness :
  let m : gmap string string := {["etcd-1" := "slave1"]} in
  (GetPreviousReconciliationInfo ["h:2181"] "/etcd" "etcd" zk0
     (([] ++ (UpdateReconciliationInfo m ["h:2181"] "/etcd" "etcd" zk0 []).2) ++ [])).1.1 = Some m.
Proof.
  intros m. apply (reconciliation_round_trip zk0 [] ["h:2181"] ["h:2181"] "/etcd" "etcd" m []).
  - apply zk_env_store.
  - intros k v [<- <-]%lookup_singleton_Some. done.
  - by_compute.
  - constructor.
  - by_compute.
Defined.

(** A ZooKeeper in which every node holds the document [raw]. *)
Definition leader_env (raw : string) : Env := {|
  env_http := env_http quiet_env;
  env_etcd_sync := env_etcd_sync quiet_env;
  env_etcd_get := env_etcd_get quiet_env;
  env_zk_connect _ _ := None;
  env_zk_create := env_zk_create quiet_env;
  env_zk_set := env_zk_set quiet_env;
  env_zk_get _ _ := Ok raw;
  env_zk_delete := env_zk_delete quiet_env;
  env_zk_children _ _ := Ok ["info_01"; "log_replicas"; "json.info_01"];
  env_reconcile := env_reconcile quiet_env;
  env_status := env_status quiet_env;
  env_exec := env_exec quiet_env;
  env_fs := env_fs quiet_env;
  env_clock := env_clock quiet_env;
  env_net := env_net quiet_env;
  env_range := env_range quiet_env;
  env_range_perm := env_range_perm quiet_env;
|}.

Lemma leader_children : Forall wf_child ["info_01"; "log_replicas"; "json.info_01"] ∧
  leads ["info_01"; "log_replicas"; "json.info_01"] "01".
Proof.
  split.
  - constructor; [left; exists "01"; by split; [|left]|]. constructor; [right|].
    + split_and!; [done..|]. by exists "l"%char, "og_replicas".
    + constructor; [left; exists "01"; by split; [|right]|constructor].
  - split_and!; [done|by left; left|]. intros k' [H|H]; unfold proto_node, json_node in H;
      rewrite !sapp_cons, sapp_nil_l in H;
      repeat (apply elem_of_cons in H as [H|H]; [first [discriminate H|by injection H as ->]|]); by apply not_elem_of_nil in H.
Qed.

Lemma GetMasterFromZK_leader_witness :
  (GetMasterFromZK true (λ _, Err ErrProto) "zk://h:2181/mesos"
     (leader_env (print (JObj [("hostname", JStr "m1"); ("port", JNum "5051")]))) []).1
  = Returns (Ok "m1:5051").
Proof.
  eapply (GetMasterFromZK_leader _ _ [] true _ ["h:2181"] "/mesos" _ "01" _
    (mkMasterInfo None None (Some 5051%Z) (Some "m1") None None None)); [done|apply leader_children..| | |done].
  - intros h. split_and!; reflexivity.
  - by_compute.
Defined.

Lemma GetMasterFromZK_panics_witness :
  (GetMasterFromZK true (λ _, Err ErrProto) "zk://h:2181/mesos" (leader_env "{}") []).1 = Panics.
Proof.
  eapply (GetMasterFromZK_panics _ _ [] true _ ["h:2181"] "/mesos" _ "01" _ master_info_zero);
    [done|apply leader_children..| | |done|].
  - intros h. split_and!; reflexivity.
  - by_compute.
  - done.
Defined.

Lemma addressFromRaw_pid_witness :
  addressFromRaw "xmaster@10.0.0.1:5050*" = Returns (Ok "10.0.0.1:5050").
Proof. apply (addressFromRaw_pid "xmaster" "10.0.0.1" 5050 "*"); by vm_compute. Defined.
