(* ===== verification/ZooDetector.v ===== *)
(** * The ZooKeeper master detector (mesos-go/detector/zoo, vendored)

    detect.go, client2.go and plugin.go: the detector of the leading Mesos master
    that the scheduler driver runs.  The masters register sequential nodes below
    one path; the detector watches the children of that path, and tells its
    listeners when the leading node changes.  A [detect] goroutine is a state
    machine ([pc], [detect_step]) driven by what its channels deliver
    ([signal]); the ZooKeeper client's answers come from the environment, the
    protocol buffer decoder and [url.Parse] are parameters.  Several [detect]
    goroutines share one [MasterDetector]. *)

From Stdlib Require Import Ascii.
From stdpp Require Import base strings list gmap sorting.
From S2P Require Import Prelude GoStd Errors Upid Json Config Codec Mesos World Rpc Zk.

(** ** Data *)

Definition nodePrefix : string := "info_".
Definition nodeJSONPrefix : string := "json.info_".
Definition defaultMinDetectorCyclePeriod : Z := 1 * second.
Definition CurrentPath : string := ".".

(** A change listener: whether it also implements [AllMasters], and on which
    notifications its callbacks panic. *)
Record Listener := mkListener {
  l_id : string;
  l_all : bool;
  l_panics : option MasterInfo → bool;
  l_all_panics : list MasterInfo → bool;
}.

Definition ignoreChanged : Listener := mkListener "ignore" false (λ _, false) (λ _, false).

(** The [client] field: unset, the nil [*client2] that a failed [connect2] leaves
    in the interface value (which differs from nil), or a client. *)
Record client2 := mkClient2 { c2_path : string; c2_stopped : bool }.

Inductive Client := NoClient | NilClient | HasClient (c : client2).

(** [md_cancel] is whether [cancel] stops the client; [md_done] whether [done] is
    closed. *)
Record MasterDetector := mkMD {
  md_hosts : list string;
  md_path : string;
  md_cancel : bool;
  md_client : Client;
  md_done : bool;
  md_ignoreInstalled : bool;
  md_leaderNode : string;
  md_minDetectorCyclePeriod : Z;
}.

Definition with_leaderNode (n : string) (md : MasterDetector) : MasterDetector :=
  mkMD (md_hosts md) (md_path md) (md_cancel md) (md_client md) (md_done md) (md_ignoreInstalled md) n
    (md_minDetectorCyclePeriod md).
Definition with_client (c : Client) (cancel : bool) (md : MasterDetector) : MasterDetector :=
  mkMD (md_hosts md) (md_path md) cancel c (md_done md) (md_ignoreInstalled md) (md_leaderNode md)
    (md_minDetectorCyclePeriod md).
Definition with_done (md : MasterDetector) : MasterDetector :=
  mkMD (md_hosts md) (md_path md) (md_cancel md) (md_client md) true (md_ignoreInstalled md) (md_leaderNode md)
    (md_minDetectorCyclePeriod md).
Definition with_ignoreInstalled (md : MasterDetector) : MasterDetector :=
  mkMD (md_hosts md) (md_path md) (md_cancel md) (md_client md) (md_done md) true (md_leaderNode md)
    (md_minDetectorCyclePeriod md).
Definition MinCyclePeriod (d : Z) (md : MasterDetector) : MasterDetector :=
  mkMD (md_hosts md) (md_path md) (md_cancel md) (md_client md) (md_done md) (md_ignoreInstalled md)
    (md_leaderNode md) d.

(** ** Construction *)

(** The parts of a [url.URL] that are used. *)
Record URL := mkURL { urlScheme : string; urlHost : string; urlPath : string }.

Definition parseZk (url_Parse : string → result URL) (zkurls : string) : result (list string * string) :=
  match url_Parse zkurls with
  | Err e => Err e
  | Ok u =>
      if negb (bool_decide (urlScheme u = "zk"))
      then Err (ErrNew ("invalid url scheme for zk url: '" +:+ urlScheme u +:+ "'"))
      else Ok (Split (urlHost u) ",", urlPath u)
  end.

(** [NewMasterDetector]; the options run last.  A URL that does not parse ends the
    process ([log.Fatalln], here [Panics]). *)
Definition NewMasterDetector (url_Parse : string → result URL) (zkurls : string)
    (options : list (MasterDetector → MasterDetector)) : go MasterDetector :=
  match parseZk url_Parse zkurls with
  | Err _ => Panics
  | Ok (zkHosts, zkPath) =>
      Returns (foldl (λ md opt, opt md)
        (mkMD zkHosts zkPath false NoClient false false "" defaultMinDetectorCyclePeriod) options)
  end.

(** ** The leading node *)

Inductive infoCodec := JsonCodec | ProtoCodec.

Fixpoint top_loop (list_ : list string) (pre : string) (leaderSeq : Z) (node : string) : string :=
  match list_ with
  | [] => node
  | v :: rest =>
      if negb (HasPrefix v pre) then top_loop rest pre leaderSeq node else
      match ParseUint (TrimPrefix v pre) with
      | None => top_loop rest pre leaderSeq node
      | Some seq =>
          if bool_decide (seq < leaderSeq)%Z then top_loop rest pre seq v
          else top_loop rest pre leaderSeq node
      end
  end.

Definition MaxUint64 : Z := 2 ^ 64 - 1.

Definition selectTopNodePrefix (list_ : list string) (pre : string) : string :=
  top_loop list_ pre MaxUint64 "".

Definition selectTopNode (list_ : list string) : string * infoCodec :=
  let topNode := selectTopNodePrefix list_ nodeJSONPrefix in
  if bool_decide (topNode = "") then (selectTopNodePrefix list_ nodePrefix, ProtoCodec)
  else (topNode, JsonCodec).

(** ** Notifications *)

Section Zoo.
Context (proto_unmarshal : decoder).

Definition pull (unmarshal : decoder) (what path node : string) : IO (result MasterInfo) :=
  d ← zk_get (path +:+ "/" +:+ node);
  match d with
  | Err _ => mret (Err (ErrNew "failed to retrieve leader data"))
  | Ok data =>
      match unmarshal data with
      | Err _ => mret (Err (ErrNew ("failed to unmarshal " +:+ what +:+ " MasterInfo data from zookeeper")))
      | Ok masterInfo => mret (Ok masterInfo)
      end
  end.

Definition pullMasterInfo : string → string → IO (result MasterInfo) := pull proto_unmarshal "protobuf".
Definition pullMasterJsonInfo : string → string → IO (result MasterInfo) := pull json_master_info "json".

Definition codec_of (c : infoCodec) : string → string → IO (result MasterInfo) :=
  match c with JsonCodec => pullMasterJsonInfo | ProtoCodec => pullMasterInfo end.

(** The callbacks of a listener. *)
Definition OnMasterChanged (obs : Listener) (mi : option MasterInfo) : IO (go unit) :=
  act (EvMaster (l_id obs) mi) (λ _ _, if l_panics obs mi then Panics else Returns tt).
Definition UpdatedMasters (obs : Listener) (mis : list MasterInfo) : IO (go unit) :=
  act (EvMasters (l_id obs) mis) (λ _ _, if l_all_panics obs mis then Panics else Returns tt).

Definition logPanic (f : IO (go unit)) : IO unit := _ ← f; mret tt.

(** What is read of the leader: nothing when there is none or on an error. *)
Definition leader_info (path topNode : string) (codec : infoCodec) : IO (option MasterInfo) :=
  if bool_decide (topNode = "") then mret None
  else r ← codec_of codec path topNode;
       mret match r with Ok mi => Some mi | Err _ => None end.

Definition notifyMasterChanged (path : string) (list_ : list string) (obs : Listener) (md : MasterDetector)
    : IO MasterDetector :=
  let '(topNode, codec) := selectTopNode list_ in
  if bool_decide (md_leaderNode md = topNode) then mret md else
  let md := with_leaderNode topNode md in
  masterInfo ← leader_info path topNode codec;
  _ ← logPanic (OnMasterChanged obs masterInfo);
  mret md.

(** [tryStore], with [masters] as its result. *)
Definition tryStore (path node : string) (codec : infoCodec) (masters : gmap string MasterInfo)
    : IO (gmap string MasterInfo) :=
  r ← codec_of codec path node;
  mret match r with
       | Err _ => masters
       | Ok info => <[default "" (MIId info) := info]> masters
       end.

Fixpoint store_all (path : string) (list_ : list string) (masters : gmap string MasterInfo)
    : IO (gmap string MasterInfo) :=
  match list_ with
  | [] => mret masters
  | node :: rest =>
      masters ← (if HasPrefix node nodePrefix then tryStore path node ProtoCodec masters
                 else if HasPrefix node nodeJSONPrefix then tryStore path node JsonCodec masters
                 else mret masters);
      store_all path rest masters
  end.

Definition notifyAllMasters (path : string) (list_ : list string) (obs : Listener) : IO unit :=
  if negb (l_all obs) then mret tt else
  masters ← store_all path list_ ∅;
  order ← range masters;
  logPanic (UpdatedMasters obs (snd <$> order)).

Definition childrenChanged (path : string) (list_ : list string) (obs : Listener) (md : MasterDetector)
    : IO MasterDetector :=
  md ← notifyMasterChanged path list_ obs md;
  _ ← notifyAllMasters path list_ obs;
  mret md.

(** ** Detect *)

Definition connect2 (hosts : list string) (path : string) : IO (Client * option error) :=
  err ← zk_connect hosts;
  match err with
  | Some e => mret (NilClient, Some e)
  | None => mret (HasClient (mkClient2 path false), None)
  end.

(** The default [bootstrapFunc]. *)
Definition bootstrapFunc (md : MasterDetector) : IO (Client * option error) :=
  match md_client md with
  | NoClient => connect2 (md_hosts md) (md_path md)
  | c => mret (c, None)
  end.

(** The goroutine that closes [done] when the client has stopped is the step
    [ZClosed] of the system below. *)
Definition callBootstrap (md : MasterDetector) : IO (MasterDetector * option error) :=
  r ← bootstrapFunc md;
  let clientConfigured := match md_client md with NoClient => false | _ => true end in
  let cancel :=
    match r with
    | (NoClient, _) | (_, Some _) => md_cancel md
    | (_, None) => if clientConfigured then md_cancel md else true
    end in
  mret (with_client r.1 cancel md, r.2).

(** [Detect]: the detector, the listener of the goroutine to start, the error. *)
Definition Detect (f : option Listener) (md : MasterDetector)
    : IO (MasterDetector * option Listener * option error) :=
  r ← callBootstrap md;
  let '(md, err) := r in
  match err with
  | Some e => mret (md, None, Some e)
  | None =>
      match f with
      | Some l => mret (md, Some l, None)
      | None =>
          if md_ignoreInstalled md then mret (md, None, None)
          else mret (with_ignoreInstalled md, Some ignoreChanged, None)
      end
  end.

(** [Stop] of the client; the vendored connection closes its event channel, and so
    [done], only after it. *)
Definition Stop (c : client2) : client2 := mkClient2 (c2_path c) true.

Definition Cancel (md : MasterDetector) : MasterDetector :=
  if md_cancel md then
    match md_client md with
    | HasClient c => with_client (HasClient (Stop c)) (md_cancel md) md
    | _ => md
    end
  else md.

(** The path that [WatchChildren] watches. *)
Definition watchPath (c : client2) (path : string) : string :=
  if negb (bool_decide (path = "")) && negb (bool_decide (path = CurrentPath))
  then c2_path c +:+ path else c2_path c.

(** Where a [detect] goroutine is: before the check of [done], in the [select] on
    the channels of a watch, in the rest that follows an event, returned, or dead of
    a panic that nothing recovers. *)
Inductive pc :=
  | AtTop
  | Watching (path : string)
  | Resting (path : string) (rewatch : bool)
  | Returned
  | Died.

(** What lets it go on: nothing else, the children of the path, the end of the
    watch (with the children that were waiting too, if any), the end of the rest,
    or the closed [done]. *)
Inductive signal :=
  | Proceed
  | Children (cs : list string)
  | WatchEnds (tie : option (list string))
  | Timer
  | Closed.

(** The goroutine of [WatchChildren]: in each round the answer of [ChildrenW],
    whether the connection ends before the children are taken, and the error of the
    event that follows.  What it delivers, over both channels. *)
Record watch_round := mkRound {
  wr_children : result (list string);
  wr_done : bool;
  wr_event : option error;
}.

Fixpoint WatchChildren (rounds : list watch_round) : list signal :=
  match rounds with
  | [] => []
  | r :: rounds =>
      match wr_children r with
      | Err _ => [WatchEnds None]
      | Ok children =>
          if wr_done r then [WatchEnds None] else
          Children children ::
          match wr_event r with Some _ => [WatchEnds None] | None => WatchChildren rounds end
      end
  end.

(** A step of the loop; [None] when the goroutine does not wait for the signal.
    When no time has elapsed the source skips the rest, which is a rest that ends
    at once. *)
Definition detect_step (f : Listener) (s : signal) (md : MasterDetector) (p : pc)
    : option (IO (MasterDetector * pc)) :=
  match p, s with
  | AtTop, Proceed =>
      Some (if md_done md then mret (md, Returned) else
            match md_client md with
            | HasClient c => mret (md, Watching (watchPath c CurrentPath))
            | _ => mret (md, Died)
            end)
  | Watching path, Children cs =>
      Some (md ← childrenChanged path cs f md; mret (md, Resting path false))
  | Watching path, WatchEnds tie =>
      Some (md ← match tie with Some cs => childrenChanged path cs f md | None => mret md end;
            if md_done md then mret (md, Returned) else
            if bool_decide (md_leaderNode md = "") then mret (md, Resting path true) else
            let md := with_leaderNode "" md in
            r ← OnMasterChanged f None;
            mret (md, match r with Returns _ => Resting path true | Panics => Died end))
  | Resting path rewatch, Timer => Some (mret (md, if (rewatch : bool) then AtTop else Watching path))
  | Resting path rewatch, Closed => if md_done md then Some (mret (md, Returned)) else None
  | _, _ => None
  end.

(** ** The detector and its goroutines *)

Record ZSystem := mkZSystem {
  zs_md : MasterDetector;
  zs_threads : list (Listener * pc);
  zs_hist : list Event;
}.

Inductive zmove :=
  | ZDetect (f : option Listener)
  | ZCancel
  | ZThread (i : nat) (s : signal)
  | ZClosed.

(** A call of [Detect] or [Cancel], a step of a goroutine, or the end of a stopped
    connection, which closes [done]. *)
Definition z_move (env : Env) (m : zmove) (sys : ZSystem) : option ZSystem :=
  let '(mkZSystem md ts h) := sys in
  match m with
  | ZDetect f =>
      let '(md', l, _, w) := Detect f md env h in
      Some (mkZSystem md' (ts ++ match l with Some l => [(l, AtTop)] | None => [] end) (h ++ w))
  | ZThread i s =>
      t ← ts !! i;
      step ← detect_step t.1 s md t.2;
      let '(md', p', w) := step env h in
      Some (mkZSystem md' (<[i := (t.1, p')]> ts) (h ++ w))
  | ZCancel => Some (mkZSystem (Cancel md) ts h)
  | ZClosed =>
      match md_client md with
      | HasClient c => if c2_stopped c then Some (mkZSystem (with_done md) ts h) else None
      | _ => None
      end
  end.

Fixpoint z_moves (env : Env) (ms : list zmove) (sys : ZSystem) : option ZSystem :=
  match ms with
  | [] => Some sys
  | m :: ms => sys ← z_move env m sys; z_moves env ms sys
  end.

(** One goroutine alone, over the signals it gets. *)
Fixpoint detect_run (f : Listener) (ss : list signal) (md : MasterDetector) (p : pc) (env : Env) (h : list Event)
    : option (MasterDetector * pc * list Event) :=
  match ss with
  | [] => Some (md, p, [])
  | s :: ss =>
      step ← detect_step f s md p;
      let '(md1, p1, w) := step env h in
      r ← detect_run f ss md1 p1 env (h ++ w);
      let '(md2, p2, w') := r in Some (md2, p2, w ++ w')
  end.

(** ** What the listeners hear *)

(** The reference: the nodes that lead after each signal. *)
Definition leading (s : signal) : list string :=
  match s with
  | Children cs => [(selectTopNode cs).1]
  | WatchEnds (Some cs) => [(selectTopNode cs).1; ""]
  | WatchEnds None => [""]
  | _ => []
  end.


Definition told (w : list Event) : list (option MasterInfo) :=
  omap (λ e, match e with EvMaster _ mi => Some mi | _ => None end) w.

Definition node_codec (n : string) : infoCodec := if HasPrefix n nodeJSONPrefix then JsonCodec else ProtoCodec.

End Zoo.

(** *** The leading node *)

(** [v] is a node of the given format with sequence number [q]. *)
Definition seq_of (pre v : string) (q : Z) : Prop :=
  HasPrefix v pre = true ∧ ParseUint (TrimPrefix v pre) = Some q.

Definition no_lower (l : list string) (pre : string) (s : Z) : Prop := ∀ v q, v ∈ l → seq_of pre v q → (s ≤ q)%Z.

Definition top_ok (l : list string) (pre : string) (s : Z) (n r : string) : Prop :=
  (r = n ∧ no_lower l pre s) ∨ (∃ q, r ∈ l ∧ seq_of pre r q ∧ (q < s)%Z ∧ no_lower l pre q).

Lemma no_lower_cons l pre s v :
  (∀ q, seq_of pre v q → (s ≤ q)%Z) → no_lower l pre s → no_lower (v :: l) pre s.
Proof. intros Hv Hl v' q [->|Hin]%elem_of_cons Hs; eauto. Qed.

Lemma top_ok_skip l pre s n r v :
  (∀ q, seq_of pre v q → (s ≤ q)%Z) → top_ok l pre s n r → top_ok (v :: l) pre s n r.
Proof.
  intros Hv [[-> Hl]|(q & Hin & Hq & Hlt & Hl)]; [left; split; [done|by apply no_lower_cons]|].
  right. exists q. split_and!; [by right|done..|]. apply no_lower_cons; [|done].
  intros q' Hq'. specialize (Hv _ Hq'). lia.
Qed.

(** The loop selects a node of the lowest sequence number below the start value. *)
Lemma top_loop_spec l pre s n : top_ok l pre s n (top_loop l pre s n).
Proof.
  revert s n. induction l as [|v l IH]; intros s n; cbn [top_loop].
  { left. split; [done|]. intros v q []%not_elem_of_nil. }
  destruct (HasPrefix v pre) eqn:Hp; cbn [negb].
  2:{ apply top_ok_skip; [|apply IH]. intros q [Hp' _]. congruence. }
  destruct (ParseUint (TrimPrefix v pre)) as [q|] eqn:Hq.
  2:{ apply top_ok_skip; [|apply IH]. intros q [_ Hq']. congruence. }
  assert (Hv : ∀ q', seq_of pre v q' → q' = q) by (intros q' [_ Hq']; congruence).
  case_bool_decide as Hlt; [|apply top_ok_skip; [intros q' ->%Hv; lia|apply IH]].
  right. destruct (IH q v) as [[-> Hl]|(q' & Hin & Hq' & Hlt' & Hl)].
  - exists q. split_and!; [by left|by split|done|]. apply no_lower_cons; [|done]. intros q' ->%Hv. lia.
  - exists q'. split_and!; [by right|done|lia|]. apply no_lower_cons; [|done]. intros q0 ->%Hv. lia.
Qed.

Lemma selectTopNodePrefix_spec l pre : top_ok l pre MaxUint64 "" (selectTopNodePrefix l pre).
Proof. apply top_loop_spec. Qed.

(** A node that a decoder's prefix selects is read with that decoder. *)
Lemma selectTopNode_codec l :
  (selectTopNode l).1 ≠ "" → (selectTopNode l).2 = node_codec (selectTopNode l).1.
Proof.
  unfold selectTopNode, node_codec. case_bool_decide as Hj; cbn [fst snd]; intros Hne.
  - destruct (selectTopNodePrefix_spec l nodePrefix) as [[? _]|(q & _ & [Hp _] & _)]; [done|].
    by rewrite (HasPrefix_true _ _ Hp).
  - destruct (selectTopNodePrefix_spec l nodeJSONPrefix) as [[? _]|(q & _ & [Hp _] & _)]; [done|].
    by rewrite Hp.
Qed.

(** *** Notifications *)

Section Announcements.
Context (proto_unmarshal : decoder) (env : Env).

Lemma told_app w w' : told (w ++ w') = told w ++ told w'.
Proof. apply omap_app. Qed.

Lemma pull_silent dec what path node h : told (pull dec what path node env h).2 = [].
Proof.
  unfold pull. rewrite bind_run. cbn [zk_get act fst snd]. destruct (env_zk_get _ _ _) as [d|e]; [|done].
  by destruct (dec d).
Qed.

Lemma codec_silent c path node h : told (codec_of proto_unmarshal c path node env h).2 = [].
Proof. destruct c; apply pull_silent. Qed.

Lemma leader_info_silent path n c h : told (leader_info proto_unmarshal path n c env h).2 = [].
Proof.
  unfold leader_info. case_bool_decide; [done|]. rewrite bind_run. cbn [snd].
  rewrite told_app, codec_silent. by destruct (_ : result _).
Qed.

Lemma store_all_silent path l m h : told (store_all proto_unmarshal path l m env h).2 = [].
Proof.
  revert m h. induction l as [|n l IH]; intros m h; [done|]. cbn [store_all]. rewrite bind_run. cbn [snd].
  rewrite told_app, IH, app_nil_r.
  repeat case_match; try done; unfold tryStore; rewrite bind_run; cbn [snd];
    rewrite told_app, codec_silent; by destruct (_ : result _).
Qed.

Lemma notifyAllMasters_silent path l obs h : told (notifyAllMasters proto_unmarshal path l obs env h).2 = [].
Proof.
  unfold notifyAllMasters. destruct (negb (l_all obs)); [done|]. rewrite bind_run. cbn [snd].
  by rewrite told_app, store_all_silent.
Qed.

(** What is told, one notification for each node of a list: right before it the node is
    read, with the history up to that time, and what the read gives is told: the decoded
    registration, or nothing when there is no leader or its node cannot be read or
    decoded. *)
Inductive announced (path id : string) : list Event → list string → list Event → Prop :=
  | announced_none h w : told w = [] → announced path id h [] w
  | announced_one h n ns wa wr mi wb :
      told wa = [] → leader_info proto_unmarshal path n (node_codec n) env (h ++ wa) = (mi, wr) →
      announced path id (h ++ wa ++ wr ++ [EvMaster id mi]) ns wb →
      announced path id h (n :: ns) (wa ++ wr ++ EvMaster id mi :: wb).

Lemma announced_app path id h ns ns' w w' :
  announced path id h ns w → announced path id (h ++ w) ns' w' → announced path id h (ns ++ ns') (w ++ w').
Proof.
  induction 1 as [h w Hw|h n ns wa wr mi wb Hwa Hr Hb IH]; intros H'.
  - cbn. inversion H' as [? ? Hw'|? n ns1 wa wr mi wb Hwa Hr Hb]; subst.
    + constructor. by rewrite told_app, Hw.
    + rewrite app_assoc. apply announced_one; [by rewrite told_app, Hw| |].
      * by rewrite app_assoc.
      * by rewrite <- !app_assoc in *.
  - cbn [app]. replace ((wa ++ wr ++ EvMaster id mi :: wb) ++ w') with (wa ++ wr ++ EvMaster id mi :: (wb ++ w'))
      by (by rewrite <- !app_assoc).
    apply announced_one; [done..|]. apply IH. rewrite <- !app_assoc in *. exact H'.
Qed.

(** As many notifications as nodes. *)
Lemma announced_length path id h ns w : announced path id h ns w → length (told w) = length ns.
Proof.
  induction 1 as [h w ->|h n ns wa wr mi wb Hwa Hr Hb IH]; [done|].
  rewrite !told_app, Hwa. assert (told wr = []) as ->; [|exact (f_equal S IH)].
  pose proof (leader_info_silent path n (node_codec n) (h ++ wa)) as Hs. by rewrite Hr in Hs.
Qed.

(** Each of them is the result of a read. *)
Lemma announced_read path id h ns w :
  announced path id h ns w →
  Forall (λ mi, ∃ n h', mi = (leader_info proto_unmarshal path n (node_codec n) env h').1) (told w).
Proof.
  induction 1 as [h w ->|h n ns wa wr mi wb Hwa Hr Hb IH]; [constructor|].
  rewrite !told_app, Hwa. assert (told wr = []) as ->.
  { pose proof (leader_info_silent path n (node_codec n) (h ++ wa)) as Hs. by rewrite Hr in Hs. }
  constructor; [|done]. exists n, (h ++ wa). by rewrite Hr.
Qed.

(** The next leading nodes and what is told about them. *)
Definition announces (path id : string) (h : list Event) (cur : string) (nodes : list string) (w : list Event) : Prop :=
  announced path id h (changes cur nodes) w.

Lemma notifyMasterChanged_told path l obs md h :
  let r := notifyMasterChanged proto_unmarshal path l obs md env h in
  r.1 = with_leaderNode (selectTopNode l).1 md ∧
  announces path (l_id obs) h (md_leaderNode md) [(selectTopNode l).1] r.2.
Proof.
  unfold notifyMasterChanged, announces. pose proof (selectTopNode_codec l) as Hc.
  destruct (selectTopNode l) as [n c]. cbn [fst snd changes] in *. case_bool_decide as He; cbn zeta.
  { rewrite decide_True by done. split; [by destruct md; simpl in *; subst|by constructor]. }
  rewrite decide_False by done. rewrite !bind_run. cbn [fst snd]. split; [done|].
  unfold logPanic. rewrite !bind_run. cbn [OnMasterChanged act fst snd mret IO_ret app].
  assert (E : leader_info proto_unmarshal path n c env h = leader_info proto_unmarshal path n (node_codec n) env h).
  { unfold leader_info. case_bool_decide; [done|]. by rewrite Hc. }
  rewrite E. apply (announced_one path (l_id obs) h n [] []); [done| |by constructor].
  rewrite app_nil_r. by destruct (leader_info _ path n (node_codec n) env h).
Qed.

Lemma childrenChanged_told path l obs md h :
  let r := childrenChanged proto_unmarshal path l obs md env h in
  r.1 = with_leaderNode (selectTopNode l).1 md ∧
  announces path (l_id obs) h (md_leaderNode md) [(selectTopNode l).1] r.2.
Proof.
  destruct (notifyMasterChanged_told path l obs md h) as [H1 H2]. cbn zeta.
  unfold childrenChanged. rewrite !bind_run. cbn [fst snd]. split; [done|].
  unfold announces in *. rewrite <- (app_nil_r (changes _ _)). apply announced_app; [done|]. constructor.
  by rewrite told_app, notifyAllMasters_silent.
Qed.

(** *** A goroutine *)

Lemma announces_app path id h cur a b w w' :
  announces path id h cur a w → announces path id (h ++ w) (final cur a) b w' →
  announces path id h cur (a ++ b) (w ++ w').
Proof. unfold announces. intros H1 H2. rewrite changes_app. by apply announced_app. Qed.

(** The goroutine is in the loop, with the watch on the path of its client. *)
Definition in_loop (md : MasterDetector) (p : pc) : Prop :=
  md_done md = false ∧ ∃ c, md_client md = HasClient c ∧
  match p with
  | AtTop => True
  | Watching path | Resting path _ => path = c2_path c
  | Returned | Died => False
  end.

(** Where a signal takes it. *)
Definition step_to (c : client2) (s : signal) (p : pc) : pc :=
  match s, p with
  | Proceed, AtTop => Watching (c2_path c)
  | Children _, Watching path => Resting path false
  | WatchEnds _, Watching path => Resting path true
  | Timer, Resting path rewatch => if rewatch then AtTop else Watching path
  | _, _ => p
  end.

Definition same_client (md md' : MasterDetector) : Prop :=
  md_done md' = md_done md ∧ md_client md' = md_client md.

#[local] Instance same_client_preorder : PreOrder same_client.
Proof. split; [done|]. intros a b c [? ?] [? ?]. split; congruence. Qed.

(** What a step, and then a run, has done. *)
Definition has_told (id : string) (h : list Event) (md : MasterDetector) (c : client2) (nodes : list string)
    (md' : MasterDetector) (w : list Event) : Prop :=
  md_leaderNode md' = final (md_leaderNode md) nodes ∧
  announces (c2_path c) id h (md_leaderNode md) nodes w ∧ same_client md md'.

Lemma has_told_app id h md c a md1 w1 b md2 w2 :
  has_told id h md c a md1 w1 → has_told id (h ++ w1) md1 c b md2 w2 → has_told id h md c (a ++ b) md2 (w1 ++ w2).
Proof.
  intros (H1 & H2 & H3) (H4 & H5 & H6). split_and!; [by rewrite final_app, <- H1| |by trans md1].
  apply announces_app; [done|]. by rewrite <- H1.
Qed.

Lemma children_told c l obs md h :
  let r := childrenChanged proto_unmarshal (c2_path c) l obs md env h in
  has_told (l_id obs) h md c [(selectTopNode l).1] r.1 r.2.
Proof. cbn zeta. destruct (childrenChanged_told (c2_path c) l obs md h) as [-> Ha]. by split_and!. Qed.

Lemma lost_told f md c h :
  l_panics f None = false → md_done md = false →
  ∃ md' w, (if md_done md then mret (md, Returned) else
            if bool_decide (md_leaderNode md = "") then mret (md, Resting (c2_path c) true) else
            r ← OnMasterChanged f None;
            mret (with_leaderNode "" md, match r with Returns _ => Resting (c2_path c) true | Panics => Died end))
           env h = (md', Resting (c2_path c) true, w) ∧ has_told (l_id f) h md c [""] md' w.
Proof.
  intros Hp Hd. rewrite Hd. case_bool_decide as Hl.
  - eexists _, _. split; [done|]. split_and!; [done| |done]. unfold announces. cbn [changes].
    rewrite decide_True by done. by constructor.
  - rewrite bind_run. cbn [OnMasterChanged act fst snd]. rewrite Hp. eexists _, _. split; [done|].
    split_and!; [done| |done]. unfold announces. cbn [changes]. rewrite decide_False by done.
    by apply (announced_one (c2_path c) (l_id f) h "" [] [] []); [..|constructor].
Qed.

Lemma detect_step_told f s md p step h c :
  detect_step proto_unmarshal f s md p = Some step → in_loop md p → l_panics f None = false →
  md_client md = HasClient c →
  ∃ md' w, step env h = (md', step_to c s p, w) ∧ in_loop md' (step_to c s p) ∧ has_told (l_id f) h md c (leading s) md' w.
Proof.
  intros Hs (Hd & c' & Hc' & Hp) Hf Hc. rewrite Hc in Hc'. injection Hc' as <-.
  assert (Hkeep : has_told (l_id f) h md c [] md []) by (split_and!; [done|by constructor|done]).
  destruct p as [|path|path rewatch| |], s as [|cs|[cs|]| |]; cbn in Hs; simplify_eq; try done; cbn [step_to].
  - rewrite Hd, Hc. eexists _, _. split; [done|]. split; [|done]. split; [done|]. by exists c.
  - rewrite bind_run. pose proof (children_told c cs f md h) as Ht. cbn zeta in Ht.
    eexists _, _. split; [done|]. cbn [fst snd mret IO_ret]. rewrite app_nil_r. split; [|exact Ht].
    destruct Ht as (_ & _ & Hd' & Hc'). split; [congruence|]. exists c. by rewrite Hc'.
  - rewrite bind_run. pose proof (children_told c cs f md h) as Ht. cbn zeta in Ht. revert Ht.
    generalize (childrenChanged proto_unmarshal (c2_path c) cs f md env h). intros [md1 w1] Ht. cbn [fst snd] in *.
    destruct (lost_told f md1 c (h ++ w1)) as (md2 & w2 & Hr & Ht2); [done|destruct Ht as (_ & _ & ? & _); congruence|].
    rewrite Hr. cbn [fst snd]. eexists _, _. split; [done|].
    pose proof (has_told_app _ _ _ _ _ _ _ _ _ _ Ht Ht2) as Ht3. split; [|exact Ht3].
    destruct Ht3 as (_ & _ & Hd' & Hc'). split; [congruence|]. exists c. by rewrite Hc'.
  - destruct (lost_told f md c h) as (md2 & w2 & Hr & Ht2); [done..|].
    rewrite bind_run. cbn [fst snd mret IO_ret app]. rewrite app_nil_r, Hr. cbn [fst snd].
    eexists _, _. split; [done|]. split; [|exact Ht2].
    destruct Ht2 as (_ & _ & Hd' & Hc'). split; [congruence|]. exists c. by rewrite Hc'.
  - eexists _, _. split; [done|]. split; [|done]. split; [done|]. exists c. by destruct rewatch.
  - by rewrite Hd in Hs.
Qed.

Lemma detect_run_told f ss md p h c md' p' w :
  detect_run proto_unmarshal f ss md p env h = Some (md', p', w) → in_loop md p → l_panics f None = false →
  md_client md = HasClient c →
  p' = foldl (λ p s, step_to c s p) p ss ∧ in_loop md' p' ∧ has_told (l_id f) h md c (ss ≫= leading) md' w.
Proof.
  revert md p h w. induction ss as [|s ss IH]; intros md p h w; cbn [detect_run foldl].
  { intros [= -> -> <-] ? ? ?. split; [done|]. split; [done|]. split; [done|]. split; [by constructor|done]. }
  intros (step & Hs & Hr)%bind_Some Hin Hf Hc.
  destruct (detect_step_told f s md p step h c Hs Hin Hf Hc) as (md1 & w1 & Hst & Hin1 & Ht1).
  rewrite Hst in Hr. apply bind_Some in Hr as ([[md2 p2] w2] & Hr & [= -> -> <-]).
  apply IH in Hr as (-> & Hin2 & Ht2); [|done..|destruct Ht1 as (_ & _ & _ & ?); congruence].
  split; [done|]. split; [done|]. by eapply has_told_app.
Qed.

(** A signal is one the goroutine waits for. *)
Definition awaits (p : pc) (s : signal) : bool :=
  match p, s with
  | AtTop, Proceed | Watching _, Children _ | Watching _, WatchEnds _ | Resting _ _, Timer => true
  | _, _ => false
  end.

Fixpoint follows (c : client2) (p : pc) (ss : list signal) : bool :=
  match ss with
  | [] => true
  | s :: ss => awaits p s && follows c (step_to c s p) ss
  end.

Lemma detect_run_goes f ss md p h c :
  follows c p ss = true → in_loop md p → l_panics f None = false → md_client md = HasClient c →
  ∃ md' p' w, detect_run proto_unmarshal f ss md p env h = Some (md', p', w).
Proof.
  revert md p h. induction ss as [|s ss IH]; intros md p h Haw Hin Hf Hc; [by eexists _, _, _|].
  cbn [follows] in Haw. apply andb_true_iff in Haw as [Haw Hfo].
  assert (Hs : ∃ step, detect_step proto_unmarshal f s md p = Some step) by (destruct p, s; try done; by eexists).
  destruct Hs as [step Hs]. destruct (detect_step_told f s md p step h c Hs Hin Hf Hc) as (md1 & w1 & Hst & Hin1 & Ht1).
  destruct (IH md1 (step_to c s p) (h ++ w1) Hfo Hin1 Hf) as (md2 & p2 & w2 & Hr);
    [destruct Ht1 as (_ & _ & _ & ?); congruence|].
  cbn [detect_run]. rewrite Hs. cbn. rewrite Hst, Hr. by eexists _, _, _.
Qed.

(** One watch: each event is followed by a rest. *)
Definition session (rounds : list watch_round) : list signal :=
  Proceed :: (WatchChildren rounds ≫= λ s, [s; Timer]).

Definition ended (rounds : list watch_round) : Prop := last (WatchChildren rounds) = Some (WatchEnds None).

Lemma watch_follows c rounds rest :
  (ended rounds → follows c AtTop rest = true) → (¬ ended rounds → rest = []) →
  follows c (Watching (c2_path c)) ((WatchChildren rounds ≫= λ s, [s; Timer]) ++ rest) = true.
Proof.
  unfold ended. induction rounds as [|r rounds IH]; intros Hend Hnot; [by rewrite Hnot|]. cbn [WatchChildren] in *.
  destruct (wr_children r) as [cs|e]; [|by cbn; apply Hend]. destruct (wr_done r); [by cbn; apply Hend|].
  destruct (wr_event r); [by cbn; apply Hend|]. cbn [mbind list_bind app follows awaits step_to andb].
  rewrite last_cons in Hend, Hnot. apply IH.
  - intros He. apply Hend. by rewrite He.
  - intros Hne. apply Hnot. intros Hl. destruct (last (WatchChildren rounds)); [by subst|done].
Qed.

Lemma sessions_follow c (ended_ones : list (list watch_round)) rounds :
  Forall ended ended_ones → follows c AtTop ((ended_ones ≫= session) ++ session rounds) = true.
Proof.
  induction 1 as [|rs ones Hrs _ IH]; cbn [mbind list_bind app].
  - unfold session. cbn [follows awaits step_to andb]. rewrite <- (app_nil_r (_ ≫= _)). apply watch_follows; done.
  - unfold session at 1. rewrite <- !app_assoc. cbn [app follows awaits step_to andb]. by apply watch_follows.
Qed.

(** C23: The detector announces exactly the changes of leadership.  Whatever the
    watches deliver (children, errors, a lost session, any number of watches one
    after the other), the [detect] goroutine of a running detector whose listener
    does not panic runs through all of it; the listener is told once for each
    change of the leading node, in order, and not otherwise.  Right before it is told the
    new leader's node is read, and it is told what that read gave: the decoded
    registration, and of no master when there is no leader or its node could not be read or
    decoded.  The node on record is the one that leads at the end. *)
Theorem detector_announces_changes f md c h watches rounds :
  md_client md = HasClient c → md_done md = false → l_panics f None = false → Forall ended watches →
  let signals := (watches ≫= session) ++ session rounds in
  ∃ md' p' w, detect_run proto_unmarshal f signals md AtTop env h = Some (md', p', w) ∧
    announced (c2_path c) (l_id f) h (changes (md_leaderNode md) (signals ≫= leading)) w ∧
    md_leaderNode md' = final (md_leaderNode md) (signals ≫= leading) ∧ p' ≠ Returned ∧ p' ≠ Died.
Proof.
  intros Hc Hd Hf Hw signals. assert (Hin : in_loop md AtTop) by (split; [done|by exists c]).
  destruct (detect_run_goes f signals md AtTop h c) as (md' & p' & w & Hr); [by apply sessions_follow|done..|].
  exists md', p', w. destruct (detect_run_told f signals md AtTop h c md' p' w Hr Hin Hf Hc) as (_ & (_ & c' & _ & Hp) & Hl & Ha & _).
  split_and!; [done..| |]; by intros ->.
Qed.
End Announcements.

(** ** The proxy and the driver *)

(** The masters' directory as ZooKeeper keeps it: sequence numbers have ten
    digits. *)
Definition sequenced (cs : list string) : Prop :=
  Forall wf_child cs ∧ ∀ k, registered cs k → is_key k ∧ String.length k = 10.

(** Among the nodes of one format, the one with the lowest sequence number is
    selected. *)
Lemma selectTopNodePrefix_lowest cs pre k :
  (∀ k', pre +:+ k' ∈ cs → is_key k' ∧ String.length k' = 10 ∧ String.le k k') →
  pre +:+ k ∈ cs → selectTopNodePrefix cs pre = pre +:+ k.
Proof.
  intros Hall Hin. destruct (Hall _ Hin) as (Hk & Hlen & _).
  assert (Hseq : ∀ k', is_key k' → String.length k' = 10 →
    seq_of pre (pre +:+ k') (Z.of_N (digits_val 0 k')) ∧ (Z.of_N (digits_val 0 k') < 10 ^ 19)%Z).
  { intros k' Hk' Hl'. destruct (ParseUint_digits k' Hk') as [Hp Hb]; [by intros ->|lia|].
    split; [|done]. split; [apply HasPrefix_app|]. by rewrite TrimPrefix_app. }
  destruct (Hseq k Hk Hlen) as [Hs Hb].
  destruct (selectTopNodePrefix_spec cs pre) as [[_ Hno]|(q & Hr & Hq & _ & Hno)].
  - specialize (Hno _ _ Hin Hs). unfold MaxUint64 in Hno. change (10 ^ 19)%Z with 10000000000000000000%Z in Hb.
    change (2 ^ 64 - 1)%Z with 18446744073709551615%Z in Hno. lia.
  - specialize (Hno _ _ Hin Hs). destruct Hq as [Hp Hq]. pose proof (HasPrefix_true _ _ Hp) as Heq.
    set (k' := drop_bytes _ _) in Heq. rewrite Heq in Hr, Hq. rewrite Heq.
    destruct (Hall _ Hr) as (Hk' & Hlen' & Hle). f_equal.
    rewrite TrimPrefix_app in Hq. destruct (ParseUint_digits k' Hk') as [Hp' _]; [by intros E; rewrite E in Hlen'|lia|].
    rewrite Hq in Hp'. injection Hp' as ->.
    pose proof (digits_val_le 0 k k' Hk Hk' ltac:(lia) Hle) as Hle'.
    apply (digits_val_inj 0 0 k' k); [done..|lia|lia].
Qed.

Lemma selectTopNodePrefix_none cs pre :
  (∀ k', pre +:+ k' ∉ cs) → selectTopNodePrefix cs pre = "".
Proof.
  intros Hno. destruct (selectTopNodePrefix_spec cs pre) as [[-> _]|(q & Hr & [Hp _] & _)]; [done|].
  rewrite (HasPrefix_true _ _ Hp) in Hr. by apply Hno in Hr.
Qed.

(** The masters agree on the format: the leader registers in JSON, or none does. *)
Definition same_format (cs : list string) (k : string) : Prop :=
  json_node k ∈ cs ∨ ∀ k', json_node k' ∉ cs.

Lemma selectTopNode_leads cs k :
  sequenced cs → leads cs k → same_format cs k →
  selectTopNode cs = if bool_decide (json_node k ∈ cs) then (json_node k, JsonCodec) else (proto_node k, ProtoCodec).
Proof.
  intros [_ Hseq] (_ & Hreg & Hmin) Hfmt. unfold selectTopNode.
  assert (Hall : ∀ pre, (pre = nodePrefix ∨ pre = nodeJSONPrefix) → ∀ k', pre +:+ k' ∈ cs →
    is_key k' ∧ String.length k' = 10 ∧ String.le k k').
  { intros pre Hpre k' Hin. assert (Hr : registered cs k') by (destruct Hpre as [->| ->]; [by left|by right]).
    destruct (Hseq _ Hr). split_and!; [done..|by apply Hmin]. }
  case_bool_decide as Ht; case_bool_decide as Hj.
  - rewrite (selectTopNodePrefix_lowest cs nodeJSONPrefix k) in Ht; [done|by apply Hall; right|done].
  - destruct Hreg as [Hreg|Hreg]; [|done].
    by rewrite (selectTopNodePrefix_lowest cs nodePrefix k) by (done || (apply Hall; by left)).
  - by rewrite (selectTopNodePrefix_lowest cs nodeJSONPrefix k) by (done || (apply Hall; by right)).
  - destruct Hfmt as [Hfmt|Hfmt]; [done|]. by rewrite (selectTopNodePrefix_none cs nodeJSONPrefix) in Ht.
Qed.

Section Agreement.
Context (proto_unmarshal : decoder) (env : Env).

Lemma leader_info_reads chroot cs k servers raw info h :
  sequenced cs → leads cs k → same_format cs k →
  zk_serves env servers chroot cs (leader_entry proto_unmarshal cs k).1 raw →
  (leader_entry proto_unmarshal cs k).2 raw = Ok info →
  (leader_info proto_unmarshal chroot (selectTopNode cs).1 (selectTopNode cs).2 env h).1 = Some info ∧
  (selectTopNode cs).1 = (leader_entry proto_unmarshal cs k).1.
Proof.
  intros Hs Hk Hf Hzk Hdec. rewrite (selectTopNode_leads cs k) by done. unfold leader_entry in *.
  case_bool_decide; cbn [fst snd] in *; (split; [|done]); unfold leader_info; rewrite bool_decide_eq_false_2 by done;
    cbn [codec_of]; unfold pullMasterInfo, pullMasterJsonInfo, pull; rewrite !bind_run; cbn [zk_get act fst snd];
    rewrite (proj2 (proj2 (Hzk _))), Hdec; done.
Qed.

(** C24: The proxy and the scheduler driver follow the same master.  For the
    directory that ZooKeeper serves, with sequence numbers of ten digits and masters that
    register in one format (JSON, alone or beside the protocol buffer form, or none
    in JSON), the address that [GetMasterFromZK] answers is that of the
    master the driver's detector tells its listener of, and of no other: both read
    the registration with the lowest sequence number. *)
Theorem detector_agrees_with_proxy h h' le uri servers chroot cs k raw info obs md :
  ParseZKURI uri = Ok (servers, chroot) → sequenced cs → leads cs k → same_format cs k →
  zk_serves env servers chroot cs (leader_entry proto_unmarshal cs k).1 raw →
  (leader_entry proto_unmarshal cs k).2 raw = Ok info → addressFrom le info ≠ "" →
  md_leaderNode md ≠ (leader_entry proto_unmarshal cs k).1 →
  let r := childrenChanged proto_unmarshal chroot cs obs md env h' in
  (GetMasterFromZK le proto_unmarshal uri env h).1 = Returns (Ok (addressFrom le info)) ∧
  told r.2 = [Some info] ∧ md_leaderNode r.1 = (leader_entry proto_unmarshal cs k).1.
Proof.
  intros Huri Hs Hk Hf Hzk Hdec Ha Hl. cbn zeta.
  destruct (leader_info_reads chroot cs k servers raw info h' Hs Hk Hf Hzk Hdec) as [Hi Ht].
  split; [rewrite (GetMasterFromZK_reads proto_unmarshal env h le uri servers chroot cs k raw info) by (done || apply Hs);
    by rewrite bool_decide_eq_false_2|].
  destruct (childrenChanged_told proto_unmarshal env chroot cs obs md h') as [-> _]. split; [|done].
  unfold childrenChanged, notifyMasterChanged. destruct (selectTopNode cs) as [n c]. cbn [fst snd] in *. subst n.
  rewrite bool_decide_eq_false_2 by done. rewrite !bind_run. cbn [fst snd].
  rewrite !told_app, notifyAllMasters_silent, leader_info_silent. rewrite Hi. done.
Qed.

(** During an upgrade they do not agree.  When the leader registers only in the
    protocol buffer form and another master registers in JSON, the detector
    takes a master that does not lead. *)
Lemma detector_prefers_json cs k k' :
  sequenced cs → leads cs k → json_node k ∉ cs → json_node k' ∈ cs →
  (selectTopNode cs).1 ≠ (leader_entry proto_unmarshal cs k).1 ∧
  ∃ k'', json_node k'' ∈ cs ∧ (selectTopNode cs).1 = json_node k''.
Proof.
  intros [_ Hseq] _ Hno Hin.
  assert (Hj : ∃ k'', json_node k'' ∈ cs ∧ selectTopNodePrefix cs nodeJSONPrefix = json_node k'').
  { destruct (selectTopNodePrefix_spec cs nodeJSONPrefix) as [[_ Hlow]|(q & Hr & [Hp _] & _)].
    - destruct (Hseq k' (or_intror Hin)) as [Hk' Hl'].
      destruct (ParseUint_digits k' Hk') as [Hp Hb]; [by intros ->|lia|].
      specialize (Hlow _ (Z.of_N (digits_val 0 k')) Hin).
      assert (MaxUint64 ≤ Z.of_N (digits_val 0 k'))%Z; [|exfalso].
      { apply Hlow. split; [apply HasPrefix_app|]. unfold json_node. by rewrite TrimPrefix_app. }
      unfold MaxUint64 in *. change (10 ^ 19)%Z with 10000000000000000000%Z in Hb.
      change (2 ^ 64 - 1)%Z with 18446744073709551615%Z in *. lia.
    - rewrite (HasPrefix_true _ _ Hp) in Hr |- *. by eexists. }
  destruct Hj as (k'' & Hk'' & Ht). unfold selectTopNode. rewrite Ht. rewrite bool_decide_eq_false_2 by done.
  cbn [fst]. split; [|by exists k'']. unfold leader_entry. by rewrite bool_decide_eq_false_2.
Qed.
End Agreement.

(** ** Several listeners, failed reads, failed starts *)

Section Sharing.
Context (proto_unmarshal : decoder) (env : Env).

(** The goroutines of two listeners share the node on record: what one of them
    has been told, the other never hears. *)
Lemma second_listener_not_told path cs f g md h h' :
  let r := childrenChanged proto_unmarshal path cs f md env h in
  told (childrenChanged proto_unmarshal path cs g r.1 env h').2 = [].
Proof.
  cbn zeta. destruct (childrenChanged_told proto_unmarshal env path cs f md h) as [-> _].
  destruct (childrenChanged_told proto_unmarshal env path cs g (with_leaderNode (selectTopNode cs).1 md) h') as [_ Ha].
  apply announced_length in Ha. cbn [changes md_leaderNode with_leaderNode] in Ha. rewrite decide_True in Ha by done.
  by apply nil_length_inv in Ha.
Qed.

(** A leader that could not be read is not read again.  When the node of a new
    leader cannot be read or decoded, the listener is told that there is no
    master; the node is on record all the same, so that however often the
    children change afterwards, as long as that node leads, nothing is read and
    nothing is told, also when its data has become readable. *)
Theorem unread_leader_not_retried path cs f md h :
  (selectTopNode cs).1 ≠ "" → md_leaderNode md ≠ (selectTopNode cs).1 →
  (leader_info proto_unmarshal path (selectTopNode cs).1 (selectTopNode cs).2 env h).1 = None →
  let r := notifyMasterChanged proto_unmarshal path cs f md env h in
  told r.2 = [None] ∧
  ∀ env' h' path' cs', (selectTopNode cs').1 = (selectTopNode cs).1 →
    notifyMasterChanged proto_unmarshal path' cs' f r.1 env' h' = (r.1, []).
Proof.
  intros Hne Hl Hi. cbn zeta.
  destruct (notifyMasterChanged_told proto_unmarshal env path cs f md h) as [-> _]. split.
  - unfold notifyMasterChanged. destruct (selectTopNode cs) as [n c]. cbn [fst snd] in *.
    rewrite bool_decide_eq_false_2 by done. rewrite !bind_run. cbn [fst snd].
    rewrite !told_app, leader_info_silent, Hi. done.
  - intros env' h' path' cs' Ht. unfold notifyMasterChanged. destruct (selectTopNode cs') as [n c]. cbn [fst] in Ht. subst n.
    cbn [md_leaderNode with_leaderNode]. by rewrite bool_decide_eq_true_2.
Qed.

(** A failed start leaves a nil client behind, which the next [Detect] takes for a
    client: its goroutine dies in the first watch. *)
Lemma failed_start_poisons f g md e h h' :
  md_client md = NoClient → md_done md = false → env_zk_connect env h (md_hosts md) = Some e →
  ∃ md1, (Detect (Some f) md env h).1 = (md1, None, Some e) ∧
    (Detect (Some g) md1 env h').1 = (md1, Some g, None) ∧
    ∃ step, detect_step proto_unmarshal g Proceed md1 AtTop = Some step ∧ (step env h').1 = (md1, Died).
Proof.
  intros Hc Hd He. exists (with_client NilClient (md_cancel md) md). destruct md as [hosts path cancel client done_ ign node per].
  cbn in *. subst. unfold Detect, callBootstrap, bootstrapFunc, connect2, zk_connect, act.
  unfold mbind, IO_bind. cbn. rewrite He. cbn.
  split; [done|]. split; [done|]. eexists. split; [done|]. done.
Qed.
End Sharing.

(** ** Concrete runs *)

(** A ZooKeeper with the given children, all of which hold [raw]. *)
Definition zk_directory (children : list string) (raw : string) : Env := {|
  env_http := env_http quiet_env;
  env_etcd_sync := env_etcd_sync quiet_env;
  env_etcd_get := env_etcd_get quiet_env;
  env_zk_connect _ _ := None;
  env_zk_create := env_zk_create quiet_env;
  env_zk_set := env_zk_set quiet_env;
  env_zk_get _ _ := Ok raw;
  env_zk_delete := env_zk_delete quiet_env;
  env_zk_children _ _ := Ok children;
  env_reconcile := env_reconcile quiet_env;
  env_status := env_status quiet_env;
  env_exec := env_exec quiet_env;
  env_fs := env_fs quiet_env;
  env_clock := env_clock quiet_env;
  env_net := env_net quiet_env;
  env_range := env_range quiet_env;
  env_range_perm := env_range_perm quiet_env;
|}.

Definition client0 : client2 := mkClient2 "/mesos" false.
Definition detector0 : MasterDetector :=
  mkMD ["h:2181"] "/mesos" true (HasClient client0) false false "" defaultMinDetectorCyclePeriod.
Definition listener0 : Listener := mkListener "l" false (λ _, false) (λ _, false).

Lemma detector_announces_changes_witness :
  let rounds := [mkRound (Ok ["json.info_0000000001"]) false None; mkRound (Ok ["json.info_0000000001"; "x"]) false (Some (ErrZk "expired"))] in
  ∃ md' p' w, detect_run (λ _, Err ErrProto) listener0 (session rounds ++ session []) detector0 AtTop (leader_env "{}") [] = Some (md', p', w) ∧
    length (told w) = 2 ∧ md_leaderNode md' = "".
Proof.
  intros rounds.
  destruct (detector_announces_changes (λ _, Err ErrProto) (leader_env "{}") listener0 detector0 client0 [] [rounds] [])
    as (md' & p' & w & Hr & Ha & Hl & _); [done..|by repeat constructor|].
  exists md', p', w. split; [exact Hr|]. split; [|exact Hl]. exact (announced_length _ _ _ _ _ _ _ Ha).
Defined.

Definition registrations : list string := ["info_0000000007"; "log_replicas"; "json.info_0000000007"; "json.info_0000000009"].

Lemma registrations_ok : sequenced registrations ∧ leads registrations "0000000007" ∧ same_format registrations "0000000007".
Proof.
  assert (Hreg : ∀ k, registered registrations k → k = "0000000007" ∨ k = "0000000009").
  { intros k [H|H]; unfold registrations, proto_node, json_node in H; rewrite !sapp_cons, sapp_nil_l in H;
      repeat (apply elem_of_cons in H as [H|H]; [first [discriminate H|by injection H as ->; auto]|]); by apply not_elem_of_nil in H. }
  split; [split|split].
  - constructor; [left; exists "0000000007"; by split; [|left]|]. constructor; [right|].
    + split_and!; [done..|]. by exists "l"%char, "og_replicas".
    + constructor; [left; exists "0000000007"; by split; [|right]|].
      constructor; [left; exists "0000000009"; by split; [|right]|constructor].
  - by intros k [->| ->]%Hreg.
  - split_and!; [done|by left; left|]. by intros k [->| ->]%Hreg.
  - left. right. right. by left.
Qed.

Lemma detector_agrees_with_proxy_witness :
  let doc := print (JObj [("hostname", JStr "m1"); ("port", JNum "5051")]) in
  let env := zk_directory registrations doc in
  (GetMasterFromZK true (λ _, Err ErrProto) "zk://h:2181/mesos" env []).1 = Returns (Ok "m1:5051") ∧
  told (childrenChanged (λ _, Err ErrProto) "/mesos" registrations listener0 detector0 env []).2 =
    [Some (mkMasterInfo None None (Some 5051%Z) (Some "m1") None None None)].
Proof.
  intros doc env. destruct registrations_ok as (Hs & Hk & Hf).
  destruct (detector_agrees_with_proxy (λ _, Err ErrProto) env [] [] true "zk://h:2181/mesos" ["h:2181"] "/mesos"
    registrations "0000000007" doc (mkMasterInfo None None (Some 5051%Z) (Some "m1") None None None) listener0 detector0)
    as (H1 & H2 & _); [done|exact Hs|exact Hk|exact Hf|intros h; split_and!; reflexivity|by_compute|done|done|].
  split; [exact H1|exact H2].
Defined.

Lemma unread_leader_not_retried_witness :
  let env := zk_directory registrations "not json" in
  let r := notifyMasterChanged (λ _, Err ErrProto) "/mesos" registrations listener0 detector0 env [] in
  told r.2 = [None] ∧
  notifyMasterChanged (λ _, Err ErrProto) "/mesos" registrations listener0 r.1 (leader_env "{}") [] = (r.1, []).
Proof.
  intros env r. destruct (unread_leader_not_retried (λ _, Err ErrProto) env "/mesos" registrations listener0 detector0 [])
    as [H1 H2]; [by vm_compute..|by_compute|]. split; [exact H1|]. by apply (H2 (leader_env "{}") [] "/mesos" registrations).
Defined.
