(* ===== verification/Detector.v ===== *)
(** * Master detectors (mesos-go/detector/factory.go, standalone.go, vendored)

    The choice of a detector from a master specification, the master information
    built from a process identifier, and the standalone detector, which polls one
    master over HTTP.  Its poller and its listeners are goroutines that
    meet on an unbuffered channel: a system of steps ([s_move]), with listeners
    that do not panic.  [net.ParseIP] is
    written out as in package [net]; the resolver and the file system are
    parameters. *)

From Stdlib Require Import Ascii.
From stdpp Require Import base strings list gmap.
From S2P Require Import Prelude GoStd Errors Upid Json Config Codec Mesos World Rpc Zk ZooDetector.

(** ** Package [net] *)

(** An address as its bytes, 4 or 16 of them. *)
Definition IP : Type := list Z.

Definition decimal_byte (s : string) : option Z :=
  if all_bytes is_digit s then
    n ← ParseUint s; if bool_decide (n ≤ 255)%Z then Some n else None
  else None.

(** The four bytes of a dotted address. *)
Definition dotted (s : string) : option IP :=
  match Split s "." with
  | [a; b; c; d] => a ← decimal_byte a; b ← decimal_byte b; c ← decimal_byte c; d ← decimal_byte d; Some [a; b; c; d]
  | _ => None
  end.

(** [parseIPv4] answers the 16-byte form. *)
Definition v4InV6Prefix : IP := [0; 0; 0; 0; 0; 0; 0; 0; 0; 0; 255; 255]%Z.
Definition parseIPv4 (s : string) : option IP := ip ← dotted s; Some (v4InV6Prefix ++ ip).

Definition hex_digit (a : ascii) : option Z :=
  let n := byte a in
  if is_digit a then Some (Z.of_N n - 48)%Z
  else if ((97 <=? n) && (n <=? 102))%N then Some (Z.of_N n - 87)%Z
  else if ((65 <=? n) && (n <=? 70))%N then Some (Z.of_N n - 55)%Z
  else None.

(** [xtoi]: the value of the hexadecimal digits in front, how many there are and
    what follows; [None] from [0xFFFFFF] on. *)
Fixpoint xtoi (s : string) (n : Z) (count : nat) : option (Z * nat * string) :=
  match s with
  | String a s' =>
      match hex_digit a with
      | Some d => let n := (n * 16 + d)%Z in if bool_decide (16777215 ≤ n)%Z then None else xtoi s' n (S count)
      | None => Some (n, count, s)
      end
  | "" => Some (n, count, "")
  end.

(** The groups of [parseIPv6]: the bytes so far, where the ellipsis was.  Each round
    adds two bytes, so eight are enough. *)
Fixpoint ipv6_loop (fuel : nat) (s : string) (ip : IP) (ellipsis : option nat) : option (string * IP * option nat) :=
  match fuel with
  | O => Some (s, ip, ellipsis)
  | S fuel =>
      r ← xtoi s 0 0;
      let '(n, c, rest) := r in
      if bool_decide (c = 0) || bool_decide (65535 < n)%Z then None
      else if HasPrefix rest "." then
        if bool_decide (ellipsis = None) && negb (bool_decide (length ip = 12)) then None
        else if bool_decide (16 < length ip + 4) then None
        else v4 ← dotted s; Some ("", ip ++ v4, ellipsis)
      else
        let ip := ip ++ [Z.shiftr n 8; Z.land n 255] in
        match rest with
        | "" => Some ("", ip, ellipsis)
        | String ":" (String ":" s') =>
            match ellipsis with
            | Some _ => None
            | None => if bool_decide (s' = "") then Some ("", ip, Some (length ip))
                      else ipv6_loop fuel s' ip (Some (length ip))
            end
        | String ":" (String a s') => ipv6_loop fuel (String a s') ip ellipsis
        | _ => None
        end
  end.

Definition parseIPv6 (s : string) : option IP :=
  if HasPrefix s "::" && bool_decide (drop_bytes 2 s = "") then Some (replicate 16 0%Z) else
  r ← (if HasPrefix s "::" then ipv6_loop 8 (drop_bytes 2 s) [] (Some 0) else ipv6_loop 8 s [] None);
  let '(rest, ip, ellipsis) := r in
  if negb (bool_decide (rest = "")) then None
  else if bool_decide (length ip < 16) then
    e ← ellipsis; Some (take e ip ++ replicate (16 - length ip) 0%Z ++ drop e ip)
  else match ellipsis with Some _ => None | None => Some ip end.

(** The first dot or colon decides. *)
Fixpoint first_mark (s : string) : option ascii :=
  match s with
  | "" => None
  | String a s' => if bool_decide (a = "."%char) || bool_decide (a = ":"%char) then Some a else first_mark s'
  end.

Definition ParseIP (s : string) : option IP :=
  match first_mark s with
  | Some a => if bool_decide (a = "."%char) then parseIPv4 s else parseIPv6 s
  | None => None
  end.

Definition To4 (ip : IP) : option IP :=
  if bool_decide (length ip = 4) then Some ip
  else if bool_decide (length ip = 16) && bool_decide (take 12 ip = v4InV6Prefix) then Some (drop 12 ip)
  else None.

(** [binary.BigEndian.Uint32]: the first four bytes. *)
Definition BigEndian_Uint32 (b : IP) : Z :=
  let at_ i := default 0%Z (b !! i) in
  Z.lor (Z.lor (Z.lor (at_ 3) (Z.shiftl (at_ 2) 8)) (Z.shiftl (at_ 1) 16)) (Z.shiftl (at_ 0) 24).

(** ** Master information *)

(** The addresses that the resolver gives for a name. *)
Definition resolver : Type := string → result (list IP).

Definition resolve_host (LookupIP : resolver) (host : string) : option IP :=
  match ParseIP host with
  | Some ip => Some ip
  | None => match LookupIP host with
            | Ok addrs => head (omap To4 addrs)
            | Err _ => None
            end
  end.

Definition CreateMasterInfo (LookupIP : resolver) (pid : option UPID) : option MasterInfo :=
  pid ← pid;
  port ← ParseInt (PidPort pid);
  ipv4 ← resolve_host LookupIP (PidHost pid);
  let mi := NewMasterInfo (PidID pid) (BigEndian_Uint32 ipv4) (u32 port) in
  Some (mkMasterInfo (MIId mi) (MIIp mi) (MIPort mi)
          (if bool_decide (PidHost pid = "") then MIHostname mi else Some (PidHost pid))
          (MIAddress mi) (Some (PidString pid)) (MIVersion mi)).

(** ** The standalone detector *)

Definition defaultMesosHttpClientTimeout : Z := 10 * second.
Definition defaultMesosLeaderSyncInterval : Z := 30 * second.
Definition defaultMesosMasterPort : Z := 5050.

Record Standalone := mkStandalone {
  sa_initial : option MasterInfo;
  sa_done : bool;
  sa_leaderSyncInterval : Z;
  sa_httpClientTimeout : Z;
  sa_assumedMasterPort : Z;
  sa_polling : bool;
}.

Definition NewStandalone (mi : option MasterInfo) : Standalone :=
  mkStandalone mi false defaultMesosLeaderSyncInterval defaultMesosHttpClientTimeout defaultMesosMasterPort false.

Definition SaCancel (s : Standalone) : Standalone :=
  mkStandalone (sa_initial s) true (sa_leaderSyncInterval s) (sa_httpClientTimeout s) (sa_assumedMasterPort s)
    (sa_polling s).
Definition start_polling (s : Standalone) : Standalone :=
  mkStandalone (sa_initial s) (sa_done s) (sa_leaderSyncInterval s) (sa_httpClientTimeout s)
    (sa_assumedMasterPort s) true.

(** The address to poll; [None] aborts the poller. *)
Definition poll_address (s : Standalone) : option string :=
  initial ← sa_initial s;
  let host := default "" (MIHostname initial) in
  let ip := default 0%Z (MIIp initial) in
  addr ← (if bool_decide (host = "")
          then if bool_decide (ip = 0%Z) then None else Some (ip_string false ip)
          else Some host);
  let port := match MIPort initial with
              | Some p => if bool_decide (p = 0%Z) then u32 (sa_assumedMasterPort s) else p
              | None => u32 (sa_assumedMasterPort s)
              end in
  Some (JoinHostPort addr port).

(** *** One request *)

Inductive fetch :=
  | Fetched (pid : UPID)
  | FetchDeadline
  | FetchFails (e : error).

Definition set_leader (l : string) (k : string) (v : json) : option string :=
  if bool_decide (k = "leader") then dec_string l v else Some l.

(** The response handler of [_fetchPid]. *)
Definition read_leader (resolve : string → option error) (res : HttpResult) : fetch :=
  match res with
  | HttpFail e => FetchFails e
  | HttpResp code body =>
      if negb (bool_decide (code = 200%Z)) then FetchFails (ErrNew "HTTP request failed") else
      match body with
      | Err e => FetchFails e
      | Ok blob =>
          match v ← parse blob; dec_struct set_leader "" v with
          | None => FetchFails ErrJson
          | Some leader => match Upid.Parse resolve leader with
                           | Ok pid => Fetched pid
                           | Err e => FetchFails e
                           end
          end
      end
  end.

(** [httpDo] with a request that would take [latency]: the client gives up after
    its own timeout, the context ends after the interval. *)
Definition httpDo (s : Standalone) (latency : Z) (f : HttpResult → fetch) (req : Request) : IO fetch :=
  res ← http_do req;
  let timed_out := bool_decide (0 < sa_httpClientTimeout s ≤ latency)%Z in
  let took := if timed_out then sa_httpClientTimeout s else latency in
  if bool_decide (sa_leaderSyncInterval s ≤ took)%Z then mret FetchDeadline
  else mret (f (if timed_out then HttpFail (ErrHttp "request canceled") else res)).

Definition fetchPid (s : Standalone) (latency : Z) (address : string) : IO fetch :=
  resolve ← ask (λ env _, net_resolve (env_net env));
  httpDo s latency (read_leader resolve) (mkRequest GET ("http://" +:+ address +:+ "/state") "").

(** *** The poller and the listeners *)

(** Where the poller is: before a request, in the [select] that sends on the
    channel (with a timer, for a new master), in the rest of the interval, gone. *)
Inductive poller :=
  | Polling (lastpid : option UPID)
  | Sending (mi : option MasterInfo) (timed : bool) (lastpid : option UPID)
  | Sleeping (lastpid : option UPID)
  | PollerGone.

(** What the answer to a request leads to. *)
Definition poll (LookupIP : resolver) (s : Standalone) (lastpid : option UPID) (r : fetch) : poller :=
  match r with
  | Fetched pid =>
      if negb (Equal (Some pid) lastpid) then Sending (CreateMasterInfo LookupIP (Some pid)) true (Some pid)
      else Sleeping lastpid
  | FetchDeadline => if bool_decide (lastpid = None) then Polling lastpid else Sending None false None
  | FetchFails _ => if sa_done s then PollerGone else Sleeping lastpid
  end.

Record SSystem := mkSSystem {
  ss_sa : Standalone;
  ss_poller : option poller;
  ss_listeners : list (Listener * bool);
  ss_hist : list Event;
}.

(** Calls of [Detect] and [Cancel], an answer for the poller, a value that listener
    [j] takes from the channel, the timer of a send, the end of a rest, and the
    closed [done] seen by the poller or by a listener. *)
Inductive smove :=
  | SDetect (o : option Listener)
  | SCancel
  | SAnswer (r : fetch)
  | STake (j : nat)
  | STimeout
  | SWake
  | SPollerDone
  | SListenerDone (j : nat).

(** When the poller returns, its deferred function cancels the detector. *)
Definition poller_ends (sys : SSystem) (p : poller) : SSystem :=
  mkSSystem (match p with PollerGone => SaCancel (ss_sa sys) | _ => ss_sa sys end) (Some p)
    (ss_listeners sys) (ss_hist sys).

Definition SaDetect (o : option Listener) (sys : SSystem) : SSystem :=
  let sys := if sa_polling (ss_sa sys) then sys
             else let sa := start_polling (ss_sa sys) in
                  poller_ends (mkSSystem sa None (ss_listeners sys) (ss_hist sys))
                    (match poll_address sa with Some _ => Polling None | None => PollerGone end) in
  mkSSystem (ss_sa sys) (ss_poller sys)
    (ss_listeners sys ++ match o with Some l => [(l, true)] | None => [] end) (ss_hist sys).

Definition s_move (LookupIP : resolver) (m : smove) (sys : SSystem) : option SSystem :=
  let '(mkSSystem sa p ls h) := sys in
  match m, p with
  | SDetect o, _ => Some (SaDetect o sys)
  | SCancel, _ => Some (mkSSystem (SaCancel sa) p ls h)
  | SAnswer r, Some (Polling lastpid) => Some (poller_ends sys (poll LookupIP sa lastpid r))
  | STake j, Some (Sending mi timed lastpid) =>
      l ← ls !! j;
      if (l.2 : bool) then
        Some (mkSSystem sa (Some (if (timed : bool) then Sleeping lastpid else Polling lastpid)) ls
                (h ++ [EvMaster (l_id l.1) mi]))
      else None
  | STimeout, Some (Sending mi true lastpid) => Some (mkSSystem sa (Some (Polling lastpid)) ls h)
  | SWake, Some (Sleeping lastpid) => Some (mkSSystem sa (Some (Polling lastpid)) ls h)
  | SPollerDone, Some (Sending _ _ _) => if sa_done sa then Some (poller_ends sys PollerGone) else None
  | SListenerDone j, _ =>
      l ← ls !! j;
      if sa_done sa then Some (mkSSystem sa p (<[j := (l.1, false)]> ls) h) else None
  | _, _ => None
  end.

Fixpoint s_moves (LookupIP : resolver) (ms : list smove) (sys : SSystem) : option SSystem :=
  match ms with
  | [] => Some sys
  | m :: ms => sys ← s_move LookupIP m sys; s_moves LookupIP ms sys
  end.

(** ** Factories *)

Inductive Master := MStandalone (s : Standalone) | MZoo (md : MasterDetector).

(** [Panics] stands for [log.Fatal]. *)
Definition Option : Type := MasterDetector → MasterDetector.
Definition PluginFactory : Type := string → list Option → go (result Master).

Definition EmptySpecError : error := ErrNew "empty master specification".

Definition defaultFactory (LookupIP : resolver) (resolve : string → option error) : PluginFactory :=
  λ spec _,
  if bool_decide (spec = "") then Returns (Err EmptySpecError) else
  let spec := if has_no "@" spec then "master@" +:+ spec else spec in
  match Upid.Parse resolve spec with
  | Ok pid => Returns (Ok (MStandalone (NewStandalone (CreateMasterInfo LookupIP (Some pid)))))
  | Err e => Returns (Err e)
  end.

Abbreviation plugins := (gmap string PluginFactory).

Definition Register (prefix : string) (f : option PluginFactory) (ps : plugins) : plugins * option error :=
  if bool_decide (prefix = "") then (ps, Some (ErrNew "illegal prefix: ''")) else
  match f with
  | None => (ps, Some (ErrNew "nil plugin factories are not allowed"))
  | Some f =>
      match ps !! prefix with
      | Some _ => (ps, Some (ErrNew ("detection plugin already registered for prefix '" +:+ prefix +:+ "'")))
      | None => (<[prefix := f]> ps, None)
      end
  end.

(** The first match in the order in which the runtime ranges over the map. *)
Definition MatchingPlugin (ps : plugins) (spec : string) : IO (option PluginFactory) :=
  order ← range ps;
  mret (snd <$> (snd <$> list_find (λ pf, HasPrefix spec pf.1 = true) order)).

(** [New]; [None] when the files that refer to files do not end within the fuel. *)
Fixpoint New (fuel : nat) (ReadFile : string → result string) (LookupIP : resolver)
    (resolve : string → option error) (ps : plugins) (spec : string) (options : list Option)
    : IO (option (go (result Master))) :=
  match fuel with
  | O => mret None
  | S fuel =>
      if HasPrefix spec "file://" then
        match ReadFile (drop_bytes 7 spec) with
        | Err e => mret (Some (Returns (Err e)))
        | Ok body => New fuel ReadFile LookupIP resolve ps body options
        end
      else
        f ← MatchingPlugin ps spec;
        match f with
        | Some f => mret (Some (f spec options))
        | None => mret (Some (defaultFactory LookupIP resolve spec options))
        end
  end.

(** The plugin of package [zoo], and the map after its [init]. *)
Definition zoo_plugin (url_Parse : string → result URL) : PluginFactory :=
  λ spec options,
  match NewMasterDetector url_Parse spec options with
  | Panics => Panics
  | Returns md => Returns (Ok (MZoo md))
  end.

Definition init (url_Parse : string → result URL) (ps : plugins) : plugins :=
  (Register "zk://" (Some (zoo_plugin url_Parse)) ps).1.

(** ** Master information: properties *)

(** The information built from a process identifier names that process. *)
Lemma CreateMasterInfo_fields L u mi :
  CreateMasterInfo L (Some u) = Some mi →
  MIPid mi = Some (PidString u) ∧ MIId mi = Some (PidID u) ∧
  (PidHost u ≠ "" → MIHostname mi = Some (PidHost u)) ∧
  ∃ port ip, ParseInt (PidPort u) = Some port ∧ MIPort mi = Some (u32 port) ∧
    resolve_host L (PidHost u) = Some ip ∧ MIIp mi = Some (BigEndian_Uint32 ip).
Proof.
  unfold CreateMasterInfo. cbn. intros (port & Hp & (ip & Hip & [= <-])%bind_Some)%bind_Some. cbn.
  split_and!; [done..| |by exists port, ip]. intros Hh. by rewrite bool_decide_eq_false_2.
Qed.

Lemma byte_high x n : (0 ≤ x < 256)%Z → (8 ≤ n)%Z → Z.testbit x n = false.
Proof.
  intros Hx Hn. rewrite <- (Z.mod_small x (2 ^ 8)) by lia. by apply Z.mod_pow2_bits_high.
Qed.

(** Packing four bytes in network order, and taking them out again. *)
Lemma BigEndian_bytes a b c d :
  Forall (λ x, 0 ≤ x < 256)%Z [a; b; c; d] →
  ip_string false (BigEndian_Uint32 [a; b; c; d]) =
  FormatUint a +:+ "." +:+ FormatUint b +:+ "." +:+ FormatUint c +:+ "." +:+ FormatUint d.
Proof.
  intros H. repeat apply Forall_cons in H as [? H]. unfold ip_string, BigEndian_Uint32. cbn [lookup list_lookup default from_option]; unfold id; cbn beta zeta.
  assert (Hb : ∀ i x, (0 ≤ i)%Z → (0 ≤ x < 256)%Z →
    (∀ n, (0 ≤ n < 8)%Z → Z.testbit (Z.lor (Z.lor (Z.lor d (Z.shiftl c 8)) (Z.shiftl b 16)) (Z.shiftl a 24)) (n + 8 * i) = Z.testbit x n) →
    Z.land (Z.shiftr (Z.lor (Z.lor (Z.lor d (Z.shiftl c 8)) (Z.shiftl b 16)) (Z.shiftl a 24)) (8 * i)) 255 = x).
  { intros i x Hi Hx Hbits. apply Z.bits_inj'. intros n Hn. change 255%Z with (Z.ones 8).
    rewrite Z.land_spec, Z.shiftr_spec by lia. destruct (decide (n < 8)%Z).
    - rewrite Z.ones_spec_low, andb_true_r by lia. apply Hbits. lia.
    - rewrite Z.ones_spec_high, andb_false_r by lia. by rewrite byte_high by lia. }
  rewrite (Hb 0%Z d), (Hb 1%Z c), (Hb 2%Z b), (Hb 3%Z a); try done; try lia; intros n Hn;
    rewrite !Z.lor_spec, !Z.shiftl_spec by lia;
    repeat match goal with
    | |- context [Z.testbit ?x (?m - ?k)%Z] => first
        [rewrite (Z.testbit_neg_r x (m - k)%Z) by lia
        |rewrite (byte_high x (m - k)%Z) by lia
        |replace (m - k)%Z with n by lia]
    end; rewrite ?(byte_high d) by lia; rewrite ?orb_false_r, ?orb_false_l; try done; f_equal; lia.
Qed.

Lemma digits_no_mark s t : all_bytes is_digit s = true → first_mark (s +:+ "." +:+ t) = Some "."%char.
Proof.
  induction s as [|a s IH]; cbn [all_bytes]; [done|]. intros [Ha Hs]%andb_true_iff. rewrite sapp_cons. cbn [first_mark].
  rewrite !bool_decide_eq_false_2; [by apply IH|intros ->; discriminate Ha..].
Qed.

Lemma decimal_byte_digits s n : decimal_byte s = Some n → all_bytes is_digit s = true ∧ (0 ≤ n < 256)%Z.
Proof.
  unfold decimal_byte. destruct (all_bytes is_digit s); [|done]. intros (m & Hm & Hn)%bind_Some.
  case_bool_decide; simplify_eq. apply ParseUint_bounds in Hm. unfold is_u64 in Hm. split; [done|lia].
Qed.

(** A text is its parts with the separators between them. *)
Lemma Split_uncons s c a ws : Split s c = a :: ws →
  has_no c a = true ∧ match ws with [] => s = a | _ => ∃ t, s = a +:+ String c t ∧ Split t c = ws end.
Proof.
  revert a ws. induction s as [|x s IH]; intros a ws; cbn [Split]; [by intros [= <- <-]|].
  case_bool_decide as Hx.
  - intros [= <- <-]. split; [done|]. pose proof (Split_nonempty s c). destruct (Split s c) eqn:E; [done|].
    exists s. by subst x.
  - pose proof (Split_nonempty s c) as Hne. destruct (Split s c) as [|w ws'] eqn:E; [done|]. intros [= <- <-].
    destruct (IH w ws' eq_refl) as [Hw Hws]. split.
    + unfold has_no in *. cbn [all_bytes]. rewrite Hw, bool_decide_eq_false_2 by done. done.
    + destruct ws'; [by rewrite Hws|]. destruct Hws as (t & -> & Ht). exists t. by rewrite sapp_cons.
Qed.

Lemma dotted_ParseIP s ip : dotted s = Some ip → ParseIP s = Some (v4InV6Prefix ++ ip).
Proof.
  intros Hd. unfold ParseIP, parseIPv4. assert (Hm : first_mark s = Some "."%char); [|by rewrite Hm, Hd].
  unfold dotted in Hd. destruct (Split s ".") as [|a [|b ws]] eqn:E; [done..|].
  destruct (Split_uncons _ _ _ _ E) as (_ & t & -> & _).
  assert (Ha : all_bytes is_digit a = true).
  { destruct ws as [|c [|d [|]]]; try done. apply bind_Some in Hd as (n & Hn & _). by apply decimal_byte_digits in Hn as [? _]. }
  by apply digits_no_mark.
Qed.

(** The address in the master information.  When the host is a name, the packed
    address is the first IPv4 address it resolves to, in network order (printing
    it byte by byte gives that address); when the host is itself an IPv4
    address, the 16-byte form that [net.ParseIP] answers is read from its
    start, and the packed address is 0. *)
Theorem CreateMasterInfo_address L u port :
  ParseInt (PidPort u) = Some port →
  (∀ ip, dotted (PidHost u) = Some ip →
     ∃ mi, CreateMasterInfo L (Some u) = Some mi ∧ MIIp mi = Some 0%Z) ∧
  (∀ addrs a b c d, ParseIP (PidHost u) = None → L (PidHost u) = Ok addrs →
     head (omap To4 addrs) = Some [a; b; c; d] → Forall (λ x, 0 ≤ x < 256)%Z [a; b; c; d] →
     ∃ mi ip, CreateMasterInfo L (Some u) = Some mi ∧ MIIp mi = Some ip ∧
       ip_string false ip = FormatUint a +:+ "." +:+ FormatUint b +:+ "." +:+ FormatUint c +:+ "." +:+ FormatUint d).
Proof.
  intros Hp. split.
  - intros ip Hd. unfold CreateMasterInfo, resolve_host. cbn. rewrite Hp, (dotted_ParseIP _ _ Hd). cbn.
    by eexists.
  - intros addrs a b c d Hn HL Hh Hb. unfold CreateMasterInfo, resolve_host. cbn [mbind option_bind].
    rewrite Hp, Hn, HL. cbn [mbind option_bind]. unfold IP in *. rewrite Hh. cbn [mbind option_bind]. eexists _, _. split; [done|]. split; [done|]. by apply BigEndian_bytes.
Qed.

(** ** The standalone detector: properties *)

(** With the timeouts of [NewStandalone] a request never outlasts the interval: the
    HTTP client gives up first, and the branch that reports the master as lost is
    not reached. *)
Lemma default_never_deadline mi latency address env h :
  (fetchPid (NewStandalone mi) latency address env h).1 ≠ FetchDeadline.
Proof.
  unfold fetchPid, httpDo. rewrite !bind_run. cbn [ask http_do act fst snd].
  cbn [sa_httpClientTimeout sa_leaderSyncInterval NewStandalone].
  unfold defaultMesosHttpClientTimeout, defaultMesosLeaderSyncInterval, second.
  case_bool_decide as Ht; case_bool_decide as Hi; cbn [mret IO_ret fst]; try lia; try done.
  unfold read_leader. repeat case_match; done.
Qed.

(** The leaders that a sequence of answers shows. *)
Definition shown (r : fetch) : list (option UPID) :=
  match r with Fetched pid => [Some pid] | FetchDeadline => [None] | FetchFails _ => [] end.

(** A listener that takes every value at once: the moves for one answer. *)
Definition prompt (L : resolver) (j : nat) (s : Standalone) (lastpid : option UPID) (r : fetch) : list smove :=
  SAnswer r :: match poll L s lastpid r with
               | Sending _ true _ => [STake j; SWake]
               | Sending _ false _ => [STake j]
               | Sleeping _ => [SWake]
               | _ => []
               end.

Fixpoint prompts (L : resolver) (j : nat) (s : Standalone) (lastpid : option UPID) (rs : list fetch) : list smove :=
  match rs with
  | [] => []
  | r :: rs => prompt L j s lastpid r ++ prompts L j s (final lastpid (shown r)) rs
  end.

Lemma s_moves_app L ms ms' sys : s_moves L (ms ++ ms') sys = (s_moves L ms sys ≫= s_moves L ms').
Proof.
  revert sys. induction ms as [|m ms IH]; intros sys; [done|]. cbn. destruct (s_move L m sys); [apply IH|done].
Qed.

Lemma prompt_told L j s prev ls h l r :
  sa_done s = false → ls !! j = Some (l, true) →
  s_moves L (prompt L j s prev r) (mkSSystem s (Some (Polling prev)) ls h) =
  Some (mkSSystem s (Some (Polling (final prev (shown r)))) ls
          (h ++ (EvMaster (l_id l) <$> (CreateMasterInfo L <$> changes prev (shown r))))).
Proof.
  intros Hd Hl. unfold prompt. destruct r as [pid| |e]; cbn [poll shown changes final last default].
  - unfold Equal. case_decide as He; [rewrite bool_decide_eq_true_2 by done|rewrite bool_decide_eq_false_2 by done];
      cbn; unfold Equal; [rewrite bool_decide_eq_true_2 by done|rewrite bool_decide_eq_false_2 by done]; cbn.
    + by rewrite app_nil_r, <- He.
    + by rewrite Hl.
  - case_bool_decide as He.
    + subst prev. cbn. by rewrite app_nil_r.
    + cbn. rewrite bool_decide_eq_false_2 by done. cbn. rewrite Hl. cbn. by rewrite decide_False by congruence.
  - rewrite Hd. cbn. rewrite Hd. cbn. by rewrite app_nil_r.
Qed.

(** The standalone detector reports exactly the changes of the leader.  For every
    sequence of answers to its requests, with a listener that takes what is sent:
    the poller runs through all of them, and the listener is told once for each
    change, of the information built from the new leader's identifier, or of
    nothing when the master was lost; failed requests and repeated answers are silent. *)
Theorem poller_announces_changes L j s prev ls h l rs :
  sa_done s = false → ls !! j = Some (l, true) →
  s_moves L (prompts L j s prev rs) (mkSSystem s (Some (Polling prev)) ls h) =
  Some (mkSSystem s (Some (Polling (final prev (rs ≫= shown)))) ls
          (h ++ (EvMaster (l_id l) <$> (CreateMasterInfo L <$> changes prev (rs ≫= shown))))).
Proof.
  intros Hd Hl. revert prev h. induction rs as [|r rs IH]; intros prev h; [by cbn; rewrite app_nil_r|].
  cbn [prompts]. rewrite s_moves_app, (prompt_told L j s prev ls h l r Hd Hl). cbn [mbind option_bind].
  rewrite IH. cbn [mbind list_bind]. by rewrite final_app, changes_app, !fmap_app, app_assoc.
Qed.

(** A change that nobody takes within the interval is not sent again: the poller
    has recorded it, and further answers with the same leader are silent. *)
Lemma missed_change_not_resent L s prev ls h pid n :
  Some pid ≠ prev →
  s_moves L ([SAnswer (Fetched pid); STimeout] ++ concat (replicate n [SAnswer (Fetched pid); SWake]))
    (mkSSystem s (Some (Polling prev)) ls h) = Some (mkSSystem s (Some (Polling (Some pid))) ls h).
Proof.
  intros Hne. rewrite s_moves_app. cbn. unfold Equal. rewrite bool_decide_eq_false_2 by done. cbn.
  induction n as [|n IH]; [done|]. cbn. unfold Equal. rewrite bool_decide_eq_true_2 by done. cbn. exact IH.
Qed.

(** ** Choosing a detector: properties *)

Section Factory.
Context (url_Parse : string → result URL) (L : resolver) (resolve : string → option error)
  (ReadFile : string → result string).

(** A prefix is registered once: the factory of the first registration stays. *)
Lemma Register_once prefix f g ps :
  prefix ≠ "" → ps !! prefix = None →
  let '(ps1, err1) := Register prefix (Some f) ps in
  let '(ps2, err2) := Register prefix (Some g) ps1 in
  err1 = None ∧ ps2 !! prefix = Some f ∧ is_Some err2.
Proof.
  intros Hp Hn. unfold Register. rewrite bool_decide_eq_false_2 by done. rewrite Hn. cbn [fst snd].
  rewrite lookup_insert_eq. split; [done|]. split; [apply lookup_insert_eq|done].
Qed.

Lemma init_plugins : init url_Parse ∅ = {["zk://" := zoo_plugin url_Parse]}.
Proof. done. Qed.

Lemma MatchingPlugin_zoo spec env h :
  (MatchingPlugin (init url_Parse ∅) spec env h).1 =
  if HasPrefix spec "zk://" then Some (zoo_plugin url_Parse) else None.
Proof.
  rewrite init_plugins. unfold MatchingPlugin, range. rewrite bind_run. cbn [ask fst snd mret IO_ret].
  pose proof (env_range_perm env _ h (map_to_list ({["zk://" := zoo_plugin url_Parse]} : plugins))) as Hp.
  rewrite map_to_list_singleton in Hp. apply Permutation_singleton_r in Hp. rewrite map_to_list_singleton, Hp.
  cbn [list_find]. destruct (HasPrefix spec "zk://") eqn:E; [by rewrite decide_True|].
  rewrite decide_False; [done|]. cbn [fst]. congruence.
Qed.

(** The detector for a master specification.  With the plugin of package [zoo]
    registered: a specification that starts with [zk://] gets the ZooKeeper detector,
    every other one that is not a file reference gets a standalone detector
    for the process it names ([master@] is put in front of an address alone), or
    the error of parsing it; [file://] takes the specification from the file, and a
    file that cannot be read is an error. *)
Theorem New_chooses_detector fuel spec options env h :
  let run n s := (New n ReadFile L resolve (init url_Parse ∅) s options env h).1 in
  (HasPrefix spec "file://" = false →
     run (S fuel) spec = Some (if HasPrefix spec "zk://" then zoo_plugin url_Parse spec options
                               else defaultFactory L resolve spec options)) ∧
  run (S fuel) ("file://" +:+ spec) = match ReadFile spec with
                                      | Ok body => run fuel body
                                      | Err e => Some (Returns (Err e))
                                      end.
Proof.
  cbn zeta. split.
  - intros Hf. cbn [New]. rewrite Hf, bind_run. cbn [fst]. rewrite MatchingPlugin_zoo.
    by destruct (HasPrefix spec "zk://").
  - change (String.append "file://" spec) with ("file://" +:+ spec). cbn [New].
    change (HasPrefix ("file://" +:+ spec) "file://") with true.
    change (drop_bytes 7 ("file://" +:+ spec)) with spec. by destruct (ReadFile spec).
Qed.

(** A file that refers to itself has no detector: no depth is enough. *)
Lemma New_cyclic_file fuel path options env h :
  ReadFile path = Ok ("file://" +:+ path) →
  (New fuel ReadFile L resolve (init url_Parse ∅) ("file://" +:+ path) options env h).1 = None.
Proof.
  intros Hr. revert h. induction fuel as [|fuel IH]; intros h; [done|]. cbn [New].
  change (HasPrefix ("file://" +:+ path) "file://") with true.
  change (drop_bytes 7 ("file://" +:+ path)) with path. rewrite Hr. apply IH.
Qed.

(** An address alone, and a process, name the same standalone detector. *)
Lemma defaultFactory_address addr options :
  addr ≠ "" → has_no "@" addr = true →
  defaultFactory L resolve addr options = defaultFactory L resolve ("master@" +:+ addr) options.
Proof.
  intros Hne Hno. unfold defaultFactory. rewrite !bool_decide_eq_false_2, Hno by done.
  assert (Hc : has_no "@" ("master@" +:+ addr) = false) by by rewrite has_no_app. by rewrite Hc.
Qed.
End Factory.

(** ** Concrete runs *)

Definition pid1 : UPID := mkUPID "master" "10.0.0.1" "5050".
Definition pid2 : UPID := mkUPID "master" "m2" "5050".
Definition names : resolver := λ host,
  if bool_decide (host = "m2") then Ok [replicate 16 0%Z; [10; 0; 0; 2]%Z] else Err (ErrNew "no such host").

Example ParseIP_v4 : ParseIP "10.0.0.1" = Some (v4InV6Prefix ++ [10; 0; 0; 1]%Z).
Proof. by_compute. Qed.
Example ParseIP_v6 :
  ParseIP "fe80::1:a.b" = None ∧ ParseIP "::" = Some (replicate 16 0%Z) ∧ ParseIP "1:2:3:4:5:6:7" = None ∧
  ParseIP "fe80::a:1" = Some ([254; 128] ++ replicate 10 0 ++ [0; 10; 0; 1])%Z ∧
  ParseIP "::ffff:1.2.3.4" = ParseIP "1.2.3.4".
Proof. split_and!; by_compute. Qed.

Lemma CreateMasterInfo_address_witness :
  (∃ mi, CreateMasterInfo names (Some pid1) = Some mi ∧ MIIp mi = Some 0%Z) ∧
  (∃ mi ip, CreateMasterInfo names (Some pid2) = Some mi ∧ MIIp mi = Some ip ∧ ip_string false ip = "10.0.0.2").
Proof.
  split.
  - apply (proj1 (CreateMasterInfo_address names pid1 5050 eq_refl) [10; 0; 0; 1]%Z). by_compute.
  - apply (proj2 (CreateMasterInfo_address names pid2 5050 eq_refl) [replicate 16 0%Z; [10; 0; 0; 2]%Z] 10 0 0 2)%Z;
      [by_compute..|]. repeat constructor; lia.
Defined.

Lemma poller_announces_changes_witness :
  let s := start_polling (NewStandalone None) in
  s_moves names (prompts names 0 s None [Fetched pid1; FetchFails ErrJson; Fetched pid1; FetchDeadline; Fetched pid2])
    (mkSSystem s (Some (Polling None)) [(listener0, true)] []) =
  Some (mkSSystem s (Some (Polling (Some pid2))) [(listener0, true)]
          [EvMaster "l" (CreateMasterInfo names (Some pid1)); EvMaster "l" None; EvMaster "l" (CreateMasterInfo names (Some pid2))]).
Proof.
  intros s.
  exact (poller_announces_changes names 0 s None [(listener0, true)] [] listener0
    [Fetched pid1; FetchFails ErrJson; Fetched pid1; FetchDeadline; Fetched pid2] eq_refl eq_refl).
Defined.

Lemma New_chooses_detector_witness :
  (New 2 (λ _, Ok "10.0.0.1:5050") names (λ _, None) (init (λ _, Err ErrJson) ∅) "file:///etc/mesos" [] quiet_env []).1 =
  Some (Returns (Ok (MStandalone (NewStandalone (CreateMasterInfo names (Some pid1)))))).
Proof.
  destruct (New_chooses_detector (λ _, Err ErrJson) names (λ _, None) (λ _, Ok "10.0.0.1:5050") 1 "/etc/mesos" [] quiet_env []) as [_ H1].
  destruct (New_chooses_detector (λ _, Err ErrJson) names (λ _, None) (λ _, Ok "10.0.0.1:5050") 0 "10.0.0.1:5050" [] quiet_env []) as [H2 _].
  transitivity (New 1 (λ _, Ok "10.0.0.1:5050") names (λ _, None) (init (λ _, Err ErrJson) ∅) "10.0.0.1:5050" [] quiet_env []).1;
    [exact H1|]. exact (H2 eq_refl).
Defined.
