(* ===== verification/Goroutine.v ===== *)
(** * Goroutines that share a locked state

    A section of code that holds the scheduler's lock (or is a single atomic
    operation) is a [crit]: it sees the shared state and the history, and it
    blocks, crashes the process with a run-time panic, or is done with a result,
    a new state, the events it emitted and the goroutines it started.  A
    goroutine is a [proc]: a resumption that alternates such sections with
    points where any other goroutine may run.  [G] is the type of the
    goroutines that [go] statements start. *)

From stdpp Require Import base strings list gmap.
From S2P Require Import Prelude GoStd Errors Mesos World.

(** ** Critical sections *)

Inductive outcome (S G A : Type) :=
  | Blocked
  | Crashed
  | Done (a : A) (s : S) (w : list Event) (gs : list G).
Arguments Blocked {S G A}.
Arguments Crashed {S G A}.
Arguments Done {S G A}.

Definition crit (S G A : Type) : Type := Env → list Event → S → outcome S G A.

#[export] Instance crit_ret S G : MRet (crit S G) := λ A a env h s, Done a s [] [].

#[export] Instance crit_bind S G : MBind (crit S G) := λ A B f c env h s,
  match c env h s with
  | Blocked => Blocked
  | Crashed => Crashed
  | Done a s1 w1 g1 =>
      match f a env (h ++ w1) s1 with
      | Blocked => Blocked
      | Crashed => Crashed
      | Done b s2 w2 g2 => Done b s2 (w1 ++ w2) (g1 ++ g2)
      end
  end.

Section Crit.
Context {S G : Type}.

Definition get_state : crit S G S := λ env h s, Done s s [] [].
Definition modify (f : S → S) : crit S G unit := λ env h s, Done tt (f s) [] [].
Definition lift_io {A} (m : IO A) : crit S G A := λ env h s,
  let r := m env h in Done r.1 s r.2 [].
Definition emit_event (e : Event) : crit S G unit := λ env h s, Done tt s [e] [].
Definition spawn (g : G) : crit S G unit := λ env h s, Done tt s [] [g].
Definition crash {A} : crit S G A := λ env h s, Crashed.
Definition block {A} : crit S G A := λ env h s, Blocked.

Lemma crit_bind_run {A B} (c : crit S G A) (f : A → crit S G B) env h s :
  (c ≫= f) env h s =
  match c env h s with
  | Blocked => Blocked
  | Crashed => Crashed
  | Done a s1 w1 g1 =>
      match f a env (h ++ w1) s1 with
      | Blocked => Blocked
      | Crashed => Crashed
      | Done b s2 w2 g2 => Done b s2 (w1 ++ w2) (g1 ++ g2)
      end
  end.
Proof. done. Qed.

(** The section runs to its end, with a result that satisfies [Q]. *)
Definition total {A} (c : crit S G A) env h s (Q : A → S → list Event → list G → Prop) : Prop :=
  match c env h s with Done a s' w gs => Q a s' w gs | _ => False end.

Lemma total_bind {A B} (c : crit S G A) (f : A → crit S G B) env h s
    (R : A → S → list Event → list G → Prop) (Q : B → S → list Event → list G → Prop) :
  total c env h s R →
  (∀ a s1 w1 g1, R a s1 w1 g1 →
     total (f a) env (h ++ w1) s1 (λ b s2 w2 g2, Q b s2 (w1 ++ w2) (g1 ++ g2))) →
  total (c ≫= f) env h s Q.
Proof.
  unfold total. intros Hc Hf. rewrite crit_bind_run.
  destruct (c env h s) as [| |a s1 w1 g1]; [done..|]. specialize (Hf _ _ _ _ Hc).
  by destruct (f a env (h ++ w1) s1).
Qed.

Lemma total_mono {A} (c : crit S G A) env h s (Q Q' : A → S → list Event → list G → Prop) :
  total c env h s Q → (∀ a s w gs, Q a s w gs → Q' a s w gs) → total c env h s Q'.
Proof. unfold total. destruct (c env h s); auto. Qed.

(** Steps whose effect is known. *)
Lemma total_get_bind {B} (f : S → crit S G B) env h s Q :
  total (f s) env h s Q → total (get_state ≫= f) env h s Q.
Proof.
  unfold total. rewrite crit_bind_run. simpl. rewrite app_nil_r. by destruct (f s env h s).
Qed.

Lemma total_modify_bind {B} g (f : unit → crit S G B) env h s Q :
  total (f tt) env h (g s) Q → total (modify g ≫= f) env h s Q.
Proof.
  unfold total. rewrite crit_bind_run. simpl. rewrite app_nil_r. by destruct (f tt env h (g s)).
Qed.

Lemma total_lift_bind {A B} (m : IO A) (f : A → crit S G B) env h s Q :
  total (f (m env h).1) env (h ++ (m env h).2) s (λ b s2 w2 g2, Q b s2 ((m env h).2 ++ w2) g2) →
  total (lift_io m ≫= f) env h s Q.
Proof. unfold total. rewrite crit_bind_run. simpl. by destruct (f _ env _ s). Qed.
End Crit.

(** ** Goroutines *)

Inductive proc (S G A : Type) : Type :=
  | Ret (a : A)
  | Act (B : Type) (c : crit S G B) (k : B → proc S G A).
Arguments Ret {S G A} a.
Arguments Act {S G A} B c k.

#[export] Instance proc_ret S G : MRet (proc S G) := λ A a, Ret a.

Fixpoint proc_bind_go {S G A B} (f : A → proc S G B) (p : proc S G A) : proc S G B :=
  match p with
  | Ret a => f a
  | Act C c k => Act C c (λ x, proc_bind_go f (k x))
  end.

#[export] Instance proc_bind S G : MBind (proc S G) := λ A B f p, proc_bind_go f p.

(** A critical section as a step of a goroutine. *)
Definition atomic {S G A} (c : crit S G A) : proc S G A := Act A c Ret.

(** One step of a goroutine. *)
Definition proc_step {S G A} (env : Env) (h : list Event) (s : S) (p : proc S G A)
    : outcome S G (proc S G A) :=
  match p with
  | Ret a => Blocked
  | Act B c k =>
      match c env h s with
      | Blocked => Blocked
      | Crashed => Crashed
      | Done b s' w gs => Done (k b) s' w gs
      end
  end.

(** [for _, x := range xs { body }]. *)
Fixpoint proc_each {S G X} (xs : list X) (body : X → proc S G unit) : proc S G unit :=
  match xs with
  | [] => mret tt
  | x :: xs => _ ← body x; proc_each xs body
  end.

(** A goroutine that runs alone, for at most [fuel] steps: what is left of it. *)
Fixpoint run_alone {S G A} (fuel : nat) (env : Env) (h : list Event) (s : S) (p : proc S G A)
    : outcome S G (proc S G A) :=
  match fuel with
  | O => Done p s [] []
  | Datatypes.S fuel =>
      match p with
      | Ret a => Done (Ret a) s [] []
      | _ =>
          match proc_step env h s p with
          | Blocked => Blocked
          | Crashed => Crashed
          | Done p' s' w gs =>
              match run_alone fuel env (h ++ w) s' p' with
              | Blocked => Blocked
              | Crashed => Crashed
              | Done p'' s'' w' gs' => Done p'' s'' (w ++ w') (gs ++ gs')
              end
          end
      end
  end.
