(* ===== verification/HttpMux.v ===== *)
(** * Dispatch of HTTP requests

    [http.ServeMux] of the standard library, as the administration interface, the
    artifact server and the reseed listener use it: patterns are registered once, and
    a request goes to the longest pattern that matches its path.  A path has been
    cleaned before it is looked up. *)

From Stdlib Require Import Ascii.
From stdpp Require Import base strings list sets.
From S2P Require Import Prelude GoStd Errors.

Section Mux.
Context {H : Type}.

Definition mux : Type := list (string * H).

(** A pattern that ends in a slash stands for the tree below it. *)
Fixpoint ends_in_slash (s : string) : bool :=
  match s with
  | "" => false
  | String a "" => bool_decide (a = "/"%char)
  | String _ s => ends_in_slash s
  end.

Definition pathMatch (pattern path : string) : bool :=
  if ends_in_slash pattern then HasPrefix path pattern
  else bool_decide (pattern ≠ "") && bool_decide (pattern = path).

(** [Handle]: an empty pattern and a second registration panic. *)
Definition Handle (pattern : string) (h : H) (m : mux) : go mux :=
  if bool_decide (pattern = "") || bool_decide (pattern ∈ m.*1) then Panics
  else Returns (m ++ [(pattern, h)]).

(** The loop of [match], with the length of the pattern found last. *)
Fixpoint match_loop (m : mux) (path : string) (best : option (nat * H)) : option (nat * H) :=
  match m with
  | [] => best
  | (p, h) :: m =>
      let n := String.length p in
      match_loop m path
        (if pathMatch p path
         then match best with
              | Some (n', _) => if bool_decide (n' < n) then Some (n, h) else best
              | None => Some (n, h)
              end
         else best)
  end.

(** The handler of a path; [None] is [NotFound]. *)
Definition mux_match (m : mux) (path : string) : option H := snd <$> match_loop m path None.

(** ** The longest match *)

(** Both are prefixes of one path: of one length they are equal. *)
Lemma HasPrefix_length_inj s p q : HasPrefix s p = true → HasPrefix s q = true →
  String.length p = String.length q → p = q.
Proof.
  revert s q. induction p as [|a p IH]; intros s [|b q] Hp Hq; try done.
  destruct s as [|c s]; [done|]. simpl in *. apply andb_true_iff in Hp as [Ha Hp], Hq as [Hb Hq].
  apply bool_decide_eq_true in Ha, Hb. intros [= Hl]. subst. f_equal. by eapply IH.
Qed.

Lemma HasPrefix_refl s : HasPrefix s s = true.
Proof. induction s as [|a s IH]; [done|]. simpl. by rewrite bool_decide_eq_true_2. Qed.

Lemma pathMatch_prefix p path : pathMatch p path = true → HasPrefix path p = true.
Proof.
  unfold pathMatch. destruct (ends_in_slash p); [done|]. intros [_ ->%bool_decide_eq_true]%andb_true_iff. apply HasPrefix_refl.
Qed.

(** [best] is the longest match of the patterns seen. *)
Definition longest (m : mux) (path : string) (best : option (nat * H)) : Prop :=
  match best with
  | None => ∀ p h, (p, h) ∈ m → pathMatch p path = false
  | Some (n, h) => (∃ p, (p, h) ∈ m ∧ n = String.length p ∧ pathMatch p path = true) ∧
                   ∀ p' h', (p', h') ∈ m → pathMatch p' path = true → String.length p' ≤ n
  end.

Lemma match_loop_longest m m0 path best : longest m0 path best → longest (m0 ++ m) path (match_loop m path best).
Proof.
  revert m0 best. induction m as [|[p h] m IH]; intros m0 best Hb; [by rewrite app_nil_r|].
  cbn [match_loop]. rewrite (app_assoc m0 [(p, h)] m : m0 ++ (p, h) :: m = _). apply IH.
  destruct (pathMatch p path) eqn:Hp.
  - destruct best as [[n' h']|].
    + destruct Hb as [(q & Hq & -> & Hqm) Hmax]. case_bool_decide as Hlt; split.
      * exists p. set_solver.
      * intros p' h'' [Hin|Hin]%elem_of_app Hm; [apply Hmax in Hin; [lia|done]|].
        apply list_elem_of_singleton in Hin as [= -> ->]. done.
      * exists q. set_solver.
      * intros p' h'' [Hin|Hin]%elem_of_app Hm; [by eapply Hmax|].
        apply list_elem_of_singleton in Hin as [= -> ->]. lia.
    + split; [exists p; set_solver|]. intros p' h' [Hin|Hin]%elem_of_app Hm.
      * apply Hb in Hin. congruence.
      * apply list_elem_of_singleton in Hin as [= -> ->]. done.
  - destruct best as [[n' h']|].
    + destruct Hb as [(q & Hq & -> & Hqm) Hmax]. split; [exists q; set_solver|].
      intros p' h'' [Hin|Hin]%elem_of_app Hm; [by eapply Hmax|].
      apply list_elem_of_singleton in Hin as [= -> ->]. congruence.
    + intros p' h' [Hin|Hin]%elem_of_app; [by eapply Hb|]. by apply list_elem_of_singleton in Hin as [= -> ->].
Qed.

(** The patterns are distinct: what [Handle] keeps. *)
Definition wf_mux (m : mux) : Prop := NoDup m.*1.

Lemma Handle_wf p h m m' : wf_mux m → Handle p h m = Returns m' → wf_mux m' ∧ p ≠ "" ∧ m' = m ++ [(p, h)].
Proof.
  unfold Handle, wf_mux. intros Hm. do 2 case_bool_decide; try done. intros [= <-]. split; [|done].
  rewrite fmap_app. by apply NoDup_snoc.
Qed.

(** The handler of a path is that of the longest pattern, whatever the order of the registrations. *)
Lemma mux_match_iff m path h : wf_mux m →
  mux_match m path = Some h ↔
  ∃ p, (p, h) ∈ m ∧ pathMatch p path = true ∧ ∀ p' h', (p', h') ∈ m → pathMatch p' path = true → String.length p' ≤ String.length p.
Proof.
  intros Hwf. unfold mux_match. pose proof (match_loop_longest m [] path None) as Hl. cbn [app] in Hl.
  specialize (Hl ltac:(by intros p h' Hin%not_elem_of_nil)). destruct (match_loop m path None) as [[n h0]|].
  - destruct Hl as [(q & Hq & -> & Hqm) Hmax]. split; [intros [= <-]; exists q; eauto|].
    intros (p & Hp & Hpm & Hmax'). assert (p = q) as ->.
    { eapply HasPrefix_length_inj; [by apply pathMatch_prefix..|].
      pose proof (Hmax _ _ Hp Hpm). pose proof (Hmax' _ _ Hq Hqm). lia. }
    by pose proof (NoDup_fmap_elem_eq fst m _ _ Hwf Hp Hq eq_refl) as [= ->].
  - split; [done|]. intros (p & Hp & Hpm & _). apply Hl in Hp. congruence.
Qed.
End Mux.
Arguments mux H : clear implicits.
