(* ===== verification/Threads.v ===== *)
(** * Threads over a shared state

    A component whose calls, message handlers and goroutines share a state under
    a lock, as a transition system: anything may arrive at any time, and the threads run one
    section at a time in any order.  A [Contract] says what a section owes to the
    others; a thread that keeps it whatever the others do, at every one of its
    sections, is [tsafe], and a system whose threads are all safe keeps the
    contract's invariant in every run.  The Mesos drivers are instances. *)

From stdpp Require Import base strings list relations.
From S2P Require Import Prelude GoStd Errors Mesos World Goroutine.

(** ** Sections *)

Section Wp.
Context {S G : Type} (env : Env).

(** The weakest precondition of a section, where a panic is allowed under [K]. *)
Definition wp {A} (c : crit S G A) h s (K : Prop) (Q : A → S → list Event → list G → Prop) : Prop :=
  match c env h s with
  | Blocked => True
  | Crashed => K
  | Done a s' w gs => Q a s' w gs
  end.

Implicit Types (h : list Event) (s : S) (K : Prop).

Lemma wp_ret {A} (a : A) h s K Q : Q a s [] [] → wp (mret a) h s K Q.
Proof. done. Qed.

Lemma wp_bind {A B} (c : crit S G A) (f : A → crit S G B) h s K Q :
  wp c h s K (λ a s1 w1 g1, wp (f a) (h ++ w1) s1 K (λ b s2 w2 g2, Q b s2 (w1 ++ w2) (g1 ++ g2))) →
  wp (c ≫= f) h s K Q.
Proof.
  unfold wp. rewrite crit_bind_run. destruct (c env h s) as [| |a s1 w1 g1]; [done..|].
  by destruct (f a env (h ++ w1) s1).
Qed.

Lemma wp_mono {A} (c : crit S G A) h s K (Q Q' : A → S → list Event → list G → Prop) :
  wp c h s K Q → (∀ a s' w gs, Q a s' w gs → Q' a s' w gs) → wp c h s K Q'.
Proof. unfold wp. destruct (c env h s); auto. Qed.

Lemma wp_get_bind {B} (f : S → crit S G B) h s K Q : wp (f s) h s K Q → wp (get_state ≫= f) h s K Q.
Proof. intros H. apply wp_bind. cbn. by rewrite app_nil_r. Qed.

Lemma wp_modify_bind {B} g (f : unit → crit S G B) h s K Q :
  wp (f tt) h (g s) K Q → wp (modify g ≫= f) h s K Q.
Proof. intros H. apply wp_bind. cbn. by rewrite app_nil_r. Qed.

Lemma wp_modify g h s K (Q : unit → S → list Event → list G → Prop) :
  Q tt (g s) [] [] → wp (modify g) h s K Q.
Proof. done. Qed.

Lemma wp_lift {A} (m : IO A) h s K (Q : A → S → list Event → list G → Prop) :
  Q (m env h).1 s (m env h).2 [] → wp (lift_io m) h s K Q.
Proof. done. Qed.

Lemma wp_spawn g h s K (Q : unit → S → list Event → list G → Prop) :
  Q tt s [] [g] → wp (spawn g) h s K Q.
Proof. done. Qed.

Lemma wp_crash {A} h s K (Q : A → S → list Event → list G → Prop) : K → wp crash h s K Q.
Proof. done. Qed.

Lemma wp_emit e h s K (Q : unit → S → list Event → list G → Prop) :
  Q tt s [e] [] → wp (emit_event e) h s K Q.
Proof. done. Qed.
End Wp.

(** Symbolic execution of a section; a component adds the steps of its own. *)
Ltac wp_step :=
  lazymatch goal with
  | |- wp _ (get_state ≫= _) _ _ _ _ => apply wp_get_bind
  | |- wp _ (modify _ ≫= _) _ _ _ _ => apply wp_modify_bind
  | |- wp _ (mret _) _ _ _ _ => apply wp_ret
  | |- wp _ (modify _) _ _ _ _ => apply wp_modify
  | |- wp _ (lift_io _) _ _ _ _ => apply wp_lift
  | |- wp _ (spawn _) _ _ _ _ => apply wp_spawn
  | |- wp _ (emit_event _) _ _ _ _ => apply wp_emit
  | |- wp _ crash _ _ _ _ => apply wp_crash
  | |- wp _ (_ ≫= _) _ _ _ _ => apply wp_bind
  | |- wp _ (if ?b then _ else _) _ _ _ _ => destruct b eqn:?
  | |- wp _ (match ?x with _ => _ end) _ _ _ _ => destruct x eqn:?
  end.

(** ** Contracts *)

(** An invariant of the state, what never changes back, what the events of a
    section satisfy, where a panic is excused, and what a new goroutine needs. *)
Record Contract (S G : Type) := mkContract {
  c_inv : S → Prop;
  c_mono : S → S → Prop;
  c_events : S → list Event → Prop;
  c_crash : S → Prop;
  c_go : S → G → Prop;
}.
Arguments c_inv {S G}.
Arguments c_mono {S G}.
Arguments c_events {S G}.
Arguments c_crash {S G}.
Arguments c_go {S G}.

Class ContractLaws {S G} (C : Contract S G) := {
  c_mono_preorder :: PreOrder (c_mono C);
  c_events_nil s : c_events C s [];
  c_events_app s s' w w' :
    c_events C s w → c_mono C s s' → c_events C s' w' → c_events C s (w ++ w');
}.

Section Contracts.
Context {S G : Type} (C : Contract S G) `{HC : ContractLaws S G C} (env : Env).

(** What a section owes. *)
Definition owes {A} (s : S) (Q : A → S → Prop) (a : A) s' w gs : Prop :=
  c_inv C s' ∧ c_mono C s s' ∧ c_events C s w ∧ Forall (c_go C s') gs ∧ Q a s'.

Definition section_ok {A} (c : crit S G A) (P : S → Prop) (Q : A → S → Prop) : Prop :=
  ∀ h s, c_inv C s → P s → wp env c h s (c_crash C s) (owes s Q).

(** ** Threads *)

(** What is left of a thread keeps its promises after any interference. *)
Fixpoint tsafe {A} (p : proc S G A) (Q : A → S → Prop) (s : S) : Prop :=
  match p with
  | Ret a => Q a s
  | Act B c k => ∀ h s', c_mono C s s' → c_inv C s' →
      wp env c h s' (c_crash C s') (owes s' (λ b s'', tsafe (k b) Q s''))
  end.

Definition always {A} : A → S → Prop := λ _ _, True.

Lemma tsafe_mono_state {A} (p : proc S G A) s s' : tsafe p always s → c_mono C s s' → tsafe p always s'.
Proof using HC. destruct p as [a|B c k]; [done|]. intros Hp Hm h s'' Hm'. apply Hp. by trans s'. Qed.

Lemma tsafe_bind {A B} (p : proc S G A) (f : A → proc S G B) Q s :
  tsafe p (λ a s, tsafe (f a) Q s) s → tsafe (p ≫= f) Q s.
Proof.
  revert s. induction p as [a|D c k IH]; intros s; [done|]. intros Hp h s' Hm Hs.
  eapply wp_mono; [by apply Hp|]. intros b s'' w gs (? & ? & ? & ? & Hk). split_and!; try done.
  by apply IH.
Qed.

Lemma tsafe_weaken {A} (p : proc S G A) (Q Q' : A → S → Prop) s :
  tsafe p Q s → (∀ a s, Q a s → Q' a s) → tsafe p Q' s.
Proof.
  revert s. induction p as [a|D c k IH]; intros s Hp HQ; [by apply HQ|]. intros h s' Hm Hs.
  eapply wp_mono; [by apply Hp|]. intros b s'' w gs (? & ? & ? & ? & Hk). split_and!; try done.
  by apply IH.
Qed.

(** A section whose condition never becomes false again. *)
Lemma tsafe_atomic {A} (c : crit S G A) P (Q : A → S → Prop) s :
  section_ok c P Q → (∀ s', c_mono C s s' → P s') → tsafe (atomic c) Q s.
Proof. intros Hc HP h s' Hm Hs. apply Hc; [done|by apply HP]. Qed.

Lemma tsafe_section {A} (c : crit S G A) s : section_ok c (λ _, True) always → tsafe (atomic c) always s.
Proof. intros Hc. by eapply tsafe_atomic. Qed.

(** A section with a continuation that is always safe. *)
Lemma tsafe_then {A B} (c : crit S G A) (f : A → proc S G B) s :
  section_ok c (λ _, True) always → (∀ a s, tsafe (f a) always s) → tsafe (atomic c ≫= f) always s.
Proof.
  intros Hc Hf. apply tsafe_bind. eapply tsafe_weaken; [by apply tsafe_section|]. intros a s' _. apply Hf.
Qed.

(** The same under a condition that is never lost. *)
Lemma tsafe_stable (P : S → Prop) {A B} (c : crit S G A) (f : A → proc S G B) s :
  (∀ s s', P s → c_mono C s s' → P s') → section_ok c P always → P s →
  (∀ a s, P s → tsafe (f a) always s) → tsafe (atomic c ≫= f) always s.
Proof.
  intros HP Hc Hs Hf. apply tsafe_bind. intros h s' Hm Hd. assert (Hs' := HP _ _ Hs Hm).
  eapply wp_mono; [by apply Hc|]. intros a s'' w gs (? & Hm' & ? & ? & _). split_and!; try done.
  apply Hf. by eapply HP.
Qed.
End Contracts.

(** A call whose answer the caller does not use. *)
Definition ignore {S G A} (p : proc S G A) : proc S G unit := _ ← p; mret tt.

Lemma tsafe_ignore {S G} (C : Contract S G) env {A} (p : proc S G A) s :
  tsafe C env p always s → tsafe C env (ignore p) always s.
Proof. intros Hp. apply tsafe_bind. by eapply tsafe_weaken. Qed.

(** ** The system *)

Record TSystem (S G : Type) := mkTSystem {
  ts_state : S;
  ts_hist : list Event;
  ts_threads : list (proc S G unit);
}.
Arguments mkTSystem {S G}.
Arguments ts_state {S G}.
Arguments ts_hist {S G}.
Arguments ts_threads {S G}.

(** What can arrive, the thread it starts, and the threads of [go] statements. *)
Record Component (S G I : Type) := mkComponent {
  cp_input : I → proc S G unit;
  cp_legal : Env → I → bool;
  cp_go : nat → G → proc S G unit;
}.
Arguments mkComponent {S G I}.
Arguments cp_input {S G I}.
Arguments cp_legal {S G I}.
Arguments cp_go {S G I}.

Section System.
Context {S G I : Type} (M : Component S G I) (env : Env).

Inductive t_step : TSystem S G → TSystem S G → Prop :=
  | t_thread s h ts i p p' s' w gs fuel :
      ts !! i = Some p → proc_step env h s p = Done p' s' w gs →
      t_step (mkTSystem s h ts) (mkTSystem s' (h ++ w) (<[i := p']> ts ++ (cp_go M fuel <$> gs)))
  | t_input s h ts i :
      cp_legal M env i = true → t_step (mkTSystem s h ts) (mkTSystem s h (ts ++ [cp_input M i])).

Definition t_runs : TSystem S G → TSystem S G → Prop := rtc t_step.

(** *** Runs that can be computed *)

(** The next step of a thread, or something that arrives. *)
Inductive Move := MThread (i : nat) | MInput (i : I).

Definition t_move (fuel : nat) (m : Move) (sys : TSystem S G) : option (TSystem S G) :=
  match m with
  | MThread i =>
      match ts_threads sys !! i with
      | Some p =>
          match proc_step env (ts_hist sys) (ts_state sys) p with
          | Done p' s' w gs =>
              Some (mkTSystem s' (ts_hist sys ++ w) (<[i := p']> (ts_threads sys) ++ (cp_go M fuel <$> gs)))
          | _ => None
          end
      | None => None
      end
  | MInput i =>
      if cp_legal M env i then Some (mkTSystem (ts_state sys) (ts_hist sys) (ts_threads sys ++ [cp_input M i]))
      else None
  end.

Fixpoint t_moves (fuel : nat) (ms : list Move) (sys : TSystem S G) : option (TSystem S G) :=
  match ms with
  | [] => Some sys
  | m :: ms => sys' ← t_move fuel m sys; t_moves fuel ms sys'
  end.

Lemma t_move_step fuel m sys sys' : t_move fuel m sys = Some sys' → t_step sys sys'.
Proof.
  destruct m as [i|i], sys as [s h ts]; cbn.
  - destruct (ts !! i) as [p|] eqn:Hi; [|done]. destruct (proc_step env h s p) as [| |p' s' w gs] eqn:Hp; [done..|].
    intros [= <-]. by econstructor.
  - destruct (cp_legal M env i) eqn:Hl; [|done]. intros [= <-]. by constructor.
Qed.

Lemma t_moves_runs fuel ms sys sys' : t_moves fuel ms sys = Some sys' → t_runs sys sys'.
Proof.
  revert sys. induction ms as [|m ms IH]; intros sys; cbn; [intros [= <-]; constructor|].
  destruct (t_move fuel m sys) as [sys1|] eqn:Hm; [|done]. cbn. intros Hr.
  eapply rtc_l; [by eapply t_move_step|by apply IH].
Qed.

(** What a computed run shows of the state it reaches. *)
Lemma t_moves_reach fuel ms start (P : TSystem S G → Prop) :
  match t_moves fuel ms start with Some sys => P sys | None => False end →
  ∃ sys, t_moves fuel ms start = Some sys ∧ t_runs start sys ∧ P sys.
Proof.
  destruct (t_moves fuel ms start) as [sys|] eqn:Hm; [|done]. intros HP. exists sys.
  split_and!; [done| |done]. by eapply t_moves_runs.
Qed.

(** Whether the next step of a thread panics. *)
Definition panics (i : nat) (sys : TSystem S G) : bool :=
  match ts_threads sys !! i with
  | Some p => match proc_step env (ts_hist sys) (ts_state sys) p with Crashed => true | _ => false end
  | None => false
  end.

Lemma panics_ok i sys : panics i sys = true →
  ∃ p, ts_threads sys !! i = Some p ∧ proc_step env (ts_hist sys) (ts_state sys) p = Crashed.
Proof.
  unfold panics. destruct (ts_threads sys !! i) as [p|]; [|done]. intros Hp. exists p. split; [done|].
  by destruct (proc_step env (ts_hist sys) (ts_state sys) p).
Qed.

(** *** The invariant *)

Context (C : Contract S G) `{HC : ContractLaws S G C}.
Context (Hgo : ∀ fuel g s, c_go C s g → tsafe C env (cp_go M fuel g) always s).
Context (Hinput : ∀ i s, cp_legal M env i = true → tsafe C env (cp_input M i) always s).

Record t_inv (sys : TSystem S G) : Prop := {
  ti_inv : c_inv C (ts_state sys);
  ti_safe : Forall (λ p, tsafe C env p always (ts_state sys)) (ts_threads sys);
}.

(** What a step, and then a run, does to the state and adds to the history. *)
Definition keeps_contract (sys sys' : TSystem S G) : Prop :=
  t_inv sys' ∧ c_mono C (ts_state sys) (ts_state sys') ∧
  ∃ w, ts_hist sys' = ts_hist sys ++ w ∧ c_events C (ts_state sys) w.

Lemma t_step_inv sys sys' : t_inv sys → t_step sys sys' → keeps_contract sys sys'.
Proof using HC Hgo Hinput.
  intros [Hd Hts] Hstep. inversion Hstep as [s h ts i p p' s' w gs fuel Hi Hp|s h ts i Hl]; subst; cbn in *.
  - assert (Hsafe := proj1 (Forall_lookup _ _) Hts i p Hi).
    destruct p as [a|B c k]; [done|]. specialize (Hsafe h s (reflexivity s) Hd).
    unfold wp in Hsafe. cbn in Hp. destruct (c env h s) as [| |b s1 w1 g1]; simplify_eq.
    destruct Hsafe as (Hd' & Hm & Hq & Hg & Hk). split_and!; [split; cbn; [done|]|done|by exists w].
    apply Forall_app. split.
    + apply Forall_insert; [|done]. eapply Forall_impl; [exact Hts|]. intros q Hqs.
      exact (tsafe_mono_state C env _ _ _ Hqs Hm).
    + apply Forall_fmap. eapply Forall_impl; [exact Hg|]. intros g. apply Hgo.
  - split_and!; [split; cbn; [done|]|done|exists []; by rewrite app_nil_r; split; [|apply c_events_nil]].
    apply Forall_app. split; [done|]. apply Forall_singleton. by apply Hinput.
Qed.

Lemma t_runs_inv sys sys' : t_inv sys → t_runs sys sys' → keeps_contract sys sys'.
Proof using HC Hgo Hinput.
  intros Hi Hr. revert Hi. induction Hr as [sys|s1 s2 s3 H12 H23 IH]; intros Hi.
  { split_and!; [done|done|]. exists []. rewrite app_nil_r. split; [done|apply c_events_nil]. }
  destruct (t_step_inv _ _ Hi H12) as (Hi2 & Hm & w & Hw & Hc), (IH Hi2) as (Hi3 & Hm' & w' & Hw' & Hc').
  split_and!; [done|by trans (ts_state s2)|]. exists (w ++ w'). split; [by rewrite Hw', Hw, app_assoc|].
  by eapply c_events_app.
Qed.

(** A thread panics only where the contract excuses it. *)
Lemma t_inv_crash sys i p :
  t_inv sys → ts_threads sys !! i = Some p →
  proc_step env (ts_hist sys) (ts_state sys) p = Crashed → c_crash C (ts_state sys).
Proof using HC.
  intros [Hd Hts] Hi Hc. assert (Hp := proj1 (Forall_lookup _ _) Hts i p Hi). destruct p as [a|B c k]; [done|].
  specialize (Hp (ts_hist sys) _ (reflexivity _) Hd). unfold wp in Hp. cbn in Hc.
  by destruct (c env (ts_hist sys) (ts_state sys)).
Qed.
End System.
Arguments Move : clear implicits.
Arguments MThread {I}.
Arguments MInput {I}.
