(* ===== verification/SchedDriver.v ===== *)
(** * The Mesos scheduler driver (mesos-go/scheduler, vendored)

    scheduler.go and schedcache.go: the driver that stands between the master and
    the scheduler.  A handler or a call that holds [eventLock] throughout is one
    section ([crit]); [withScheduler] releases the lock while it waits to hand a
    callback over, so a handler with a callback is two sections with a point
    between them where anything else may run.  The messenger runs the handler of
    a message it routes to itself in a goroutine of its own (messenger.go:241),
    so every handler is a thread. *)

From Stdlib Require Import Ascii Floats.
From stdpp Require Import base strings list gmap.
From S2P Require Import Prelude GoStd Errors Upid Mesos World Goroutine.

(** ** schedcache.go *)

Record cachedOffer := mkCachedOffer { co_offer : Offer; co_slavePid : UPID }.

Record schedCache := mkCache {
  savedOffers : gmap string cachedOffer;
  savedSlavePids : gmap string UPID;
}.

Definition newSchedCache : schedCache := mkCache ∅ ∅.
Definition putOffer (offer : Offer) (pid : UPID) (c : schedCache) : schedCache :=
  mkCache (<[OfferId offer := mkCachedOffer offer pid]> (savedOffers c)) (savedSlavePids c).
Definition getOffer (offerId : string) (c : schedCache) : option cachedOffer := savedOffers c !! offerId.
Definition containsOffer (offerId : string) (c : schedCache) : bool :=
  bool_decide (is_Some (savedOffers c !! offerId)).
Definition removeOffer (offerId : string) (c : schedCache) : schedCache :=
  mkCache (delete offerId (savedOffers c)) (savedSlavePids c).
Definition putSlavePid (slaveId : string) (pid : UPID) (c : schedCache) : schedCache :=
  mkCache (savedOffers c) (<[slaveId := pid]> (savedSlavePids c)).
Definition getSlavePid (slaveId : string) (c : schedCache) : option UPID := savedSlavePids c !! slaveId.
Definition containsSlavePid (slaveId : string) (c : schedCache) : bool :=
  bool_decide (is_Some (savedSlavePids c !! slaveId)).
Definition removeSlavePid (slaveId : string) (c : schedCache) : schedCache :=
  mkCache (savedOffers c) (delete slaveId (savedSlavePids c)).

(** ** scheduler.go: data *)

Definition defaultAuthenticationTimeout : Z := 30 * second.
Definition registrationRetryIntervalMax : float := 60000000000%float.
Definition registrationBackoffFactor : float := 2000000000%float.

Definition ErrDisconnected : error := ErrDriver "disconnected from mesos master".

(** [err.Error()] for the errors that are only a text, the ones that reach the driver. *)
Definition error_text (e : error) : string :=
  match e with
  | ErrNew s | ErrDriver s | ErrHttp s | ErrOs s | ErrRead s | ErrZk s => s
  | _ => ""
  end.

(** [ErrDriverAborted.Error()]. *)
Definition aborted_text (reason : string) : string :=
  if bool_decide (reason = "") then "driver-aborted" else reason.

(** What a caller of the driver provides. *)
Record DriverConfig := mkDriverConfig {
  dc_scheduler : bool;
  dc_framework : option FrameworkInfo;
  dc_master : string;
  dc_credential : bool;
  dc_withAuthContext : bool;
  dc_hostnameOverride : string;
}.

(** The driver's state.  A signal channel is whether it is closed.  An
    authentication attempt is a number; [sd_done] are the ones whose channel is
    closed and [sd_attempts] counts them.  [sd_queueClosed] is the flag [abort] of
    [makeWithScheduler], set when the queue of callbacks is closed. *)
Record Driver := mkDriver {
  sd_masterPid : option UPID;
  sd_frameworkInfo : FrameworkInfo;
  sd_self : option UPID;
  sd_stopCh : bool;
  sd_status : DriverStatus;
  sd_connected : bool;
  sd_connection : string;
  sd_failoverTimeout : float;
  sd_failover : bool;
  sd_cache : schedCache;
  sd_credential : bool;
  sd_authenticated : bool;
  sd_authenticating : option nat;
  sd_done : gset nat;
  sd_attempts : nat;
  sd_reauthenticate : bool;
  sd_started : bool;
  sd_queueClosed : bool;
}.

Definition with_masterPid (v : option UPID) (d : Driver) : Driver :=
  let 'mkDriver _ fi se st stt co cn ft fo ca cr au ag dn ats re sta qc := d in
  mkDriver v fi se st stt co cn ft fo ca cr au ag dn ats re sta qc.
Definition with_frameworkId (v : string) (d : Driver) : Driver :=
  let 'mkDriver mp fi se st stt co cn ft fo ca cr au ag dn ats re sta qc := d in
  mkDriver mp (mkFrameworkInfo (FIUser fi) (FIName fi) (Some v) (FIFailoverTimeout fi) (FICheckpoint fi)
                 (FIHostname fi) (FIPrincipal fi) (FIWebuiUrl fi))
    se st stt co cn ft fo ca cr au ag dn ats re sta qc.
Definition with_self (v : option UPID) (d : Driver) : Driver :=
  let 'mkDriver mp fi _ st stt co cn ft fo ca cr au ag dn ats re sta qc := d in
  mkDriver mp fi v st stt co cn ft fo ca cr au ag dn ats re sta qc.
Definition with_stopCh (v : bool) (d : Driver) : Driver :=
  let 'mkDriver mp fi se _ stt co cn ft fo ca cr au ag dn ats re sta qc := d in
  mkDriver mp fi se v stt co cn ft fo ca cr au ag dn ats re sta qc.
Definition with_status (v : DriverStatus) (d : Driver) : Driver :=
  let 'mkDriver mp fi se st _ co cn ft fo ca cr au ag dn ats re sta qc := d in
  mkDriver mp fi se st v co cn ft fo ca cr au ag dn ats re sta qc.
Definition with_connected (v : bool) (d : Driver) : Driver :=
  let 'mkDriver mp fi se st stt _ cn ft fo ca cr au ag dn ats re sta qc := d in
  mkDriver mp fi se st stt v cn ft fo ca cr au ag dn ats re sta qc.
Definition with_connection (v : string) (d : Driver) : Driver :=
  let 'mkDriver mp fi se st stt co _ ft fo ca cr au ag dn ats re sta qc := d in
  mkDriver mp fi se st stt co v ft fo ca cr au ag dn ats re sta qc.
Definition with_failover (v : bool) (d : Driver) : Driver :=
  let 'mkDriver mp fi se st stt co cn ft _ ca cr au ag dn ats re sta qc := d in
  mkDriver mp fi se st stt co cn ft v ca cr au ag dn ats re sta qc.
Definition with_cache (v : schedCache) (d : Driver) : Driver :=
  let 'mkDriver mp fi se st stt co cn ft fo _ cr au ag dn ats re sta qc := d in
  mkDriver mp fi se st stt co cn ft fo v cr au ag dn ats re sta qc.
Definition with_authenticated (v : bool) (d : Driver) : Driver :=
  let 'mkDriver mp fi se st stt co cn ft fo ca cr _ ag dn ats re sta qc := d in
  mkDriver mp fi se st stt co cn ft fo ca cr v ag dn ats re sta qc.
Definition with_attempt (n : nat) (d : Driver) : Driver :=
  let 'mkDriver mp fi se st stt co cn ft fo ca cr au _ dn _ re sta qc := d in
  mkDriver mp fi se st stt co cn ft fo ca cr au (Some n) dn (S n) re sta qc.
Definition with_done (v : gset nat) (d : Driver) : Driver :=
  let 'mkDriver mp fi se st stt co cn ft fo ca cr au ag _ ats re sta qc := d in
  mkDriver mp fi se st stt co cn ft fo ca cr au ag v ats re sta qc.
Definition with_reauthenticate (v : bool) (d : Driver) : Driver :=
  let 'mkDriver mp fi se st stt co cn ft fo ca cr au ag dn ats _ sta qc := d in
  mkDriver mp fi se st stt co cn ft fo ca cr au ag dn ats v sta qc.
Definition with_started (v : bool) (d : Driver) : Driver :=
  let 'mkDriver mp fi se st stt co cn ft fo ca cr au ag dn ats re _ qc := d in
  mkDriver mp fi se st stt co cn ft fo ca cr au ag dn ats re v qc.
Definition with_queueClosed (v : bool) (d : Driver) : Driver :=
  let 'mkDriver mp fi se st stt co cn ft fo ca cr au ag dn ats re sta _ := d in
  mkDriver mp fi se st stt co cn ft fo ca cr au ag dn ats re sta v.

(** The goroutines the driver starts: an authentication attempt against a master,
    the handler of its result, the registration loop, the processing of lost tasks, the last callback. *)
Inductive DriverGo :=
  | GoAuthenticate (attempt : nat) (master : UPID)
  | GoAuthResult (completed success : bool) (pid : string)
  | GoRegister
  | GoLostTasks (tasks : list TaskInfo) (why : string)
  | GoLastCallback (cause : option string).

Abbreviation DC := (crit Driver DriverGo).
Abbreviation DP := (proc Driver DriverGo).

(** ** Construction *)

(** [NewMesosSchedulerDriver], given the current user (empty when it cannot be
    found), the name of the host, and the errors of the detector and the messenger. *)
Definition NewMesosSchedulerDriver (config : DriverConfig) (user hostname : string)
    (newDetector newMessenger : option error) : result Driver :=
  if negb (dc_scheduler config) then Err (ErrNew "Scheduler callbacks required.")
  else if bool_decide (dc_master config = "") then Err (ErrNew "Missing master location URL.")
  else match dc_framework config with
  | None => Err (ErrNew "FrameworkInfo must be provided.")
  | Some fw =>
      if dc_credential config && negb (dc_withAuthContext config)
      then Err (ErrNew "WithAuthContext must be provided when Credential != nil")
      else
        let framework := mkFrameworkInfo
          (if bool_decide (FIUser fw = "") then user else FIUser fw) (FIName fw) (FIId fw)
          (FIFailoverTimeout fw) (FICheckpoint fw)
          (if bool_decide (FIHostname fw = "") then hostname else FIHostname fw)
          (FIPrincipal fw) (FIWebuiUrl fw) in
        let timeout := match FIFailoverTimeout fw with
                       | Some t => if (0 <? t)%float then (t * 1000000000)%float else 0%float
                       | None => 0%float
                       end in
        match newDetector, newMessenger with
        | Some e, _ => Err e
        | None, Some e => Err e
        | None, None =>
            Ok (mkDriver None framework None false DRIVER_NOT_STARTED false "" timeout
                  (negb (bool_decide (GetFrameworkId framework = ""))) newSchedCache
                  (dc_credential config) false None ∅ 0 false false false)
        end
  end.

(** ** Sections *)

(** [driver.send]: the messenger panics on a nil process identifier. *)
Definition send (to : option UPID) (m : Message) : DC (option error) :=
  match to with
  | None => crash
  | Some _ => lift_io (act (EvSend to m) (λ env h, net_send (env_net env) h to m))
  end.

(** [withScheduler]: while the driver is not stopping the callback is handed over,
    however long that takes.  The first call that finds [stopCh] closed closes the
    queue; its two [select]s hand the callback over twice, once or not at all.
    After that callbacks are dropped. *)
Definition withScheduler (cb : SchedCall) : DC unit := λ env h d,
  if sd_queueClosed d then Done tt d [] []
  else if sd_stopCh d then
    let copies := default 0 (head (env_range env nat h [0; 1; 2])) in
    Done tt (with_queueClosed true d) (replicate copies (EvSched cb)) []
  else Done tt d [EvSched cb] [].

(** A handler that ends with a callback, if any. *)
Definition handler (c : DC (option SchedCall)) : DP unit :=
  cb ← atomic c;
  match cb with Some cb => atomic (withScheduler cb) | None => mret tt end.

Definition new_uuid : DC string := lift_io (ask (λ env h, net_uuid (env_net env) h)).
Definition resolver : DC (string → option error) := lift_io (ask (λ env _, net_resolve (env_net env))).

Definition stopped (d : Driver) : bool := negb (bool_decide (sd_status d = DRIVER_RUNNING)).
Definition aborted (d : Driver) : bool := bool_decide (sd_status d = DRIVER_ABORTED).

(** ** Authentication *)

(** [authenticationAttempt.inProgress] and [cancel], on a pointer that may be nil. *)
Definition inProgress (a : option nat) (d : Driver) : bool :=
  match a with Some n => negb (bool_decide (n ∈ sd_done d)) | None => false end.
Definition cancel (a : option nat) (d : Driver) : Driver :=
  with_done (match a with Some n => {[n]} ∪ sd_done d | None => sd_done d end) d.

Definition tryAuthentication : DC unit :=
  d ← get_state;
  if sd_authenticated d then crash else
  match sd_masterPid d with
  | None => mret tt
  | Some masterPid =>
      if inProgress (sd_authenticating d) d then
        modify (λ d, with_reauthenticate true (cancel (sd_authenticating d) d))
      else if sd_credential d then
        let n := sd_attempts d in
        _ ← spawn (GoAuthenticate n masterPid);
        modify (with_attempt n)
      else
        _ ← modify (with_authenticated true);
        spawn GoRegister
  end.

Definition handleAuthenticationResult (from : UPID) (completed success : bool) (pid : string) : DC unit :=
  d ← get_state;
  if stopped d then mret tt
  else if negb (Equal (Some from) (sd_self d)) then mret tt
  else if sd_authenticated d then crash
  else match sd_masterPid d with
  | None => modify (λ d, with_reauthenticate false (cancel (sd_authenticating d) d))
  | Some masterPid =>
      if sd_reauthenticate d || negb completed || negb (bool_decide (PidString masterPid = pid)) then
        _ ← modify (λ d, with_reauthenticate false (cancel (sd_authenticating d) d));
        tryAuthentication
      else if negb success then mret tt
      else
        _ ← modify (with_authenticated true);
        spawn GoRegister
  end.

(** ** Handlers for the connection *)

Definition handleNetworkError (from : UPID) (pid session : string) : DC (option SchedCall) :=
  d ← get_state;
  if aborted d then mret None
  else if negb (Equal (Some from) (sd_self d)) then mret None
  else if negb (sd_connected d) then mret None
  else match sd_masterPid d with
  | None => crash
  | Some masterPid =>
      if bool_decide (PidString masterPid = pid) && bool_decide (sd_connection d = session) then
        _ ← modify (λ d, with_authenticated false (with_connected false (with_masterPid None d)));
        mret (Some ScDisconnected)
      else mret None
  end.

(** The part before the callback; the answer says whether to alert the scheduler
    and whether to authenticate afterwards. *)
Definition master_changed (from : UPID) (master : option string) : DC (bool * bool) :=
  d ← get_state;
  if aborted d then mret (false, false)
  else if negb (Equal (Some from) (sd_self d)) then mret (false, false)
  else
    let wasConnected := sd_connected d in
    _ ← modify (λ d, with_authenticated false (with_connected false d));
    _ ← (if wasConnected then modify (with_masterPid None) else mret tt);
    match master with
    | None => mret (wasConnected, false)
    | Some pidText =>
        resolve ← resolver;
        match Parse resolve pidText with
        | Err _ => crash
        | Ok pid => _ ← modify (with_masterPid (Some pid)); mret (wasConnected, true)
        end
    end.

(** The deferred [tryAuthentication] runs in the same section when there is no
    callback, and after the callback was handed over otherwise. *)
Definition handleMasterChanged (from : UPID) (master : option string) : DP unit :=
  r ← atomic (r ← master_changed from master;
              if negb r.1 && r.2 then _ ← tryAuthentication; mret r else mret r);
  if negb r.1 then mret tt else
  _ ← atomic (withScheduler ScDisconnected);
  if (r.2 : bool) then atomic tryAuthentication else mret tt.

Definition frameworkRegistered (from : UPID) (frameworkId : string) (master : MasterInfo)
    : DC (option SchedCall) :=
  d ← get_state;
  if aborted d then mret None
  else if sd_connected d then mret None
  else if stopped d then mret None
  else if negb (Equal (sd_masterPid d) (Some from)) then mret None
  else
    uuid ← new_uuid;
    _ ← modify (λ d, with_connection uuid (with_failover false (with_connected true (with_frameworkId frameworkId d))));
    mret (Some (ScRegistered frameworkId master)).

Definition frameworkReregistered (from : UPID) (master : MasterInfo) : DC (option SchedCall) :=
  d ← get_state;
  if aborted d then mret None
  else if sd_connected d then mret None
  else if negb (Equal (sd_masterPid d) (Some from)) then mret None
  else
    uuid ← new_uuid;
    _ ← modify (λ d, with_connection uuid (with_failover false (with_connected true d)));
    mret (Some (ScReregistered master)).

(** ** Handlers for offers, updates and losses *)

(** The guard shared by the handlers that ask only for a connection. *)
Definition disconnected (d : Driver) : bool := aborted d || negb (sd_connected d).

(** The offers with a slave whose identifier parses are cached. *)
Fixpoint cache_offers (resolve : string → option error) (offers : list (Offer * string)) (c : schedCache)
    : schedCache :=
  match offers with
  | [] => c
  | (offer, pid) :: rest =>
      cache_offers resolve rest
        (match Parse resolve pid with Ok p => putOffer offer p c | Err _ => c end)
  end.

Definition resourcesOffered (offers : list Offer) (pids : list string) : DC (option SchedCall) :=
  d ← get_state;
  if disconnected d then mret None
  else if negb (bool_decide (length pids = length offers)) then mret None
  else
    resolve ← resolver;
    _ ← modify (λ d, with_cache (cache_offers resolve (zip offers pids) (sd_cache d)) d);
    mret (Some (ScResourceOffers offers)).

Definition resourceOfferRescinded (offerId : string) : DC (option SchedCall) :=
  d ← get_state;
  if disconnected d then mret None
  else
    _ ← modify (λ d, with_cache (removeOffer offerId (sd_cache d)) d);
    mret (Some (ScOfferRescinded offerId)).

Definition statusUpdated (from : UPID) (update : TaskUpdate) (pid : string) : DC (option SchedCall) :=
  d ← get_state;
  if stopped d then mret None
  else if negb (Equal (Some from) (sd_self d)) &&
          (negb (sd_connected d) || negb (Equal (sd_masterPid d) (Some from))) then mret None
  else
    match sd_self d with
    | None => crash
    | Some self =>
        let internal := bool_decide (UpdUuid update = "") || Equal (Some from) (sd_self d) ||
                        bool_decide (pid = PidString self) in
        let uuid := if internal then "" else UpdUuid update in
        _ ← (if internal then mret tt else
             _ ← send (sd_masterPid d) (StatusUpdateAcknowledgementMessage (UpdSlaveId update)
                   (FIId (sd_frameworkInfo d)) (StatusTaskId (UpdStatus update)) (UpdUuid update));
             mret tt);
        mret (Some (ScStatusUpdate (UpdStatus update) uuid))
    end.

Definition exitedExecutor (executorId slaveId : string) (status : Z) : DC (option SchedCall) :=
  d ← get_state;
  if disconnected d then mret None else mret (Some (ScExecutorLost executorId slaveId status)).

Definition slaveLost (slaveId : string) : DC (option SchedCall) :=
  d ← get_state;
  if disconnected d then mret None
  else
    _ ← modify (λ d, with_cache (removeSlavePid slaveId (sd_cache d)) d);
    mret (Some (ScSlaveLost slaveId)).

Definition frameworkMessageRcvd (executorId slaveId data : string) : DC (option SchedCall) :=
  d ← get_state;
  if aborted d then mret None else mret (Some (ScFrameworkMessage executorId slaveId data)).

(** ** Starting and stopping *)

Abbreviation answer := (DriverStatus * option error)%type.

Definition unable (d : Driver) : DC answer :=
  mret (sd_status d, Some (ErrDriver "unexpected driver status")).

(** The detector is registered last; its callback routes a master change. *)
Definition start : DC answer :=
  d ← get_state;
  if sd_started d then mret (sd_status d, Some (ErrNew "Unable to Start: driver has already been started once."))
  else if negb (bool_decide (sd_status d = DRIVER_NOT_STARTED)) then unable d
  else
    r ← lift_io (act EvMessengerStart (λ env h, net_start (env_net env) h));
    match r with
    | Err e => mret (sd_status d, Some e)
    | Ok pid =>
        _ ← modify (λ d, with_started true (with_status DRIVER_RUNNING (with_self (Some pid) d)));
        _ ← emit_event EvDetect;
        mret (DRIVER_RUNNING, None)
    end.

Definition Start : DC answer := start.

(** [_stop]: the deferred function closes [stopCh], once, and starts the goroutine
    that hands the last callback over. *)
Definition stop_with (cause : option string) (stopStatus : DriverStatus) : DC answer :=
  _ ← modify (λ d, with_connection "" (with_connected false (with_status stopStatus d)));
  err ← lift_io (act EvMessengerStop (λ env h, net_stop (env_net env) h));
  d ← get_state;
  _ ← (if sd_stopCh d then mret tt
       else _ ← modify (with_stopCh true); spawn (GoLastCallback cause));
  mret (stopStatus, err).

Definition stop (cause : option string) (failover : bool) : DC answer :=
  d ← get_state;
  if stopped d then unable d
  else if sd_connected d && negb failover then
    err ← send (sd_masterPid d) (UnregisterFrameworkMessage (FIId (sd_frameworkInfo d)));
    match err with
    | Some _ => stop_with (Some (default (aborted_text "") cause)) DRIVER_ABORTED
    | None => _ ← lift_io (Sleep (2 * second)); stop_with cause DRIVER_STOPPED
    end
  else stop_with cause DRIVER_STOPPED.

Definition Stop (failover : bool) : DC answer := stop None failover.

Definition abort (cause : option string) : DC answer :=
  d ← get_state;
  err ← (if sd_connected d then r ← stop cause true; mret r.2
         else _ ← stop_with cause DRIVER_ABORTED; mret None);
  _ ← modify (with_status DRIVER_ABORTED);
  _ ← emit_event EvDetectCancel;
  mret (DRIVER_ABORTED, err).

Definition Abort : DC answer := abort None.

Definition fatal (err : string) : DC unit :=
  d ← get_state;
  if aborted d then mret tt else _ ← abort (Some (aborted_text err)); mret tt.

Definition frameworkErrorRcvd (message : string) : DC unit := fatal message.

(** [join] waits until the callbacks are finished, with the lock released. *)
Definition wait_done : DC answer := λ env h d,
  if sd_queueClosed d then Done (sd_status d, None) d [] [] else Blocked.

Definition Join : DP answer :=
  r ← atomic (d ← get_state; if stopped d then a ← unable d; mret (Some a) else mret None);
  match r with Some a => mret a | None => atomic wait_done end.

(** [Run]: [start] and the check of [join] are one section. *)
Definition Run : DP answer :=
  r ← atomic (r ← start;
              match r.2 with
              | Some e => a ← stop (Some (error_text e)) false; mret (Some a)
              | None =>
                  d ← get_state;
                  if stopped d then a ← unable d; mret (Some a) else mret None
              end);
  match r with Some a => mret a | None => atomic wait_done end.

Definition Status (d : Driver) : DriverStatus := sd_status d.
Definition Running (d : Driver) : bool := bool_decide (sd_status d = DRIVER_RUNNING).
Definition Connected (d : Driver) : bool := sd_connected d.

(** ** Registration *)

(** [math.Min] on arguments that are numbers. *)
Definition float_min (x y : float) : float := if (x <? y)%float then x else y.

(** What [registerOnce] reads under the lock: nothing, or the failover flag, the
    master and the framework. *)
Definition registration : DC (option (bool * UPID * FrameworkInfo)) :=
  d ← get_state;
  match sd_masterPid d with
  | Some pid =>
      if stopped d || sd_connected d || (sd_credential d && negb (sd_authenticated d)) then mret None
      else mret (Some (sd_failover d, pid, sd_frameworkInfo d))
  | None => mret None
  end.

Definition registration_message (failover : bool) (info : FrameworkInfo) : Message :=
  if bool_decide (GetFrameworkId info = "") then RegisterFrameworkMessage info
  else ReregisterFrameworkMessage info failover.

(** [registerOnce]: whether to try again later; a message that cannot be sent stops
    the driver. *)
Definition registerOnce : DP bool :=
  r ← atomic registration;
  match r with
  | None => mret false
  | Some (failover, pid, info) =>
      err ← atomic (send (Some pid) (registration_message failover info));
      match err with
      | Some _ => _ ← atomic (Stop failover); mret true
      | None => mret true
      end
  end.

(** The bound of the next delay. *)
Definition next_max_backoff (failoverTimeout maxBackoff : float) : float :=
  let b := float_min maxBackoff registrationRetryIntervalMax in
  if (0 <? failoverTimeout)%float then float_min b (failoverTimeout / 10)%float else b.

(** [doReliableRegistration], for at most [fuel] attempts.  The delay, a random part
    of [maxBackoff], is left out: the next attempt may run at any time.  A
    driver that has stopped in the meantime ends the loop. *)
Fixpoint doReliableRegistration (fuel : nat) (maxBackoff : float) : DP unit :=
  match fuel with
  | O => mret tt
  | S fuel =>
      again ← registerOnce;
      if negb again then mret tt else
      d ← atomic get_state;
      if sd_stopCh d then mret tt
      else doReliableRegistration fuel (next_max_backoff (sd_failoverTimeout d) maxBackoff * 2)%float
  end.

(** ** Calls of the scheduler *)

Definition set_framework_id (fwid : option string) (task : TaskInfo) : TaskInfo :=
  let e := TaskExecutor task in
  match ExecFrameworkId e with
  | Some _ => task
  | None => mkTaskInfo (TaskData task) (TaskName task) (TaskTaskId task) (TaskSlaveId task)
      (mkExecutorInfo (ExecutorId e) fwid (ExecName e) (ExecSource e) (ExecCommand e) (ExecResources e))
      (TaskResources task) (TaskDiscovery task)
  end.

(** The slaves of the tasks, from the offers they run on. *)
Fixpoint note_slaves (offerId : string) (tasks : list TaskInfo) (c : schedCache) : schedCache :=
  match tasks with
  | [] => c
  | task :: rest =>
      note_slaves offerId rest
        (match getOffer offerId c with
         | Some o => if bool_decide (OfferSlaveId (co_offer o) = TaskSlaveId task)
                     then putSlavePid (TaskSlaveId task) (co_slavePid o) c else c
         | None => c
         end)
  end.

Fixpoint use_offers (offerIds : list string) (tasks : list TaskInfo) (c : schedCache) : schedCache :=
  match offerIds with
  | [] => c
  | o :: rest => use_offers rest tasks (removeOffer o (note_slaves o tasks c))
  end.

Definition LaunchTasks (offerIds : list string) (tasks : list TaskInfo) (refuse : float) : DC answer :=
  d ← get_state;
  if stopped d then unable d
  else if negb (sd_connected d) then
    _ ← spawn (GoLostTasks tasks "disconnected from mesos master");
    mret (sd_status d, Some ErrDisconnected)
  else
    let fwid := FIId (sd_frameworkInfo d) in
    let okTasks := set_framework_id fwid <$> tasks in
    _ ← modify (λ d, with_cache (use_offers offerIds okTasks (sd_cache d)) d);
    err ← send (sd_masterPid d) (LaunchTasksMessage fwid offerIds okTasks refuse);
    match err with
    | Some e => _ ← spawn (GoLostTasks okTasks ("Unable to launch tasks: " +:+ error_text e)); mret (sd_status d, Some e)
    | None => mret (sd_status d, None)
    end.

(** An empty list of tasks declines the offer. *)
Definition DeclineOffer (offerId : string) (refuse : float) : DC answer := LaunchTasks [offerId] [] refuse.

(** [AcceptOffers]: the operations as they are sent, with the framework's identifier in the
    executors of their tasks, and only resources that are reserved or volumes. *)
Definition fix_operation (fwid : option string) (op : Offer_Operation) : Offer_Operation :=
  let volume v := rr_reservation v && rr_disk v && bool_decide (RName (rr_resource v) = "disk") in
  match op with
  | OpLaunch tasks => OpLaunch (set_framework_id fwid <$> tasks)
  | OpReserve rs => OpReserve (FilterResources rs rr_reservation)
  | OpUnreserve rs => OpUnreserve (FilterResources rs rr_reservation)
  | OpCreate vs => OpCreate (FilterResources vs volume)
  | OpDestroy vs => OpDestroy (FilterResources vs volume)
  end.

Definition launched_tasks (op : Offer_Operation) : list TaskInfo :=
  match op with OpLaunch tasks => tasks | _ => [] end.

Fixpoint note_operations (offerId : string) (ops : list Offer_Operation) (c : schedCache) : schedCache :=
  match ops with
  | [] => c
  | op :: rest => note_operations offerId rest (note_slaves offerId (launched_tasks op) c)
  end.

(** The loop over the offers: an offer that is not cached is skipped; for any other one
    all the operations are appended.  The operations are shared, so
    those of the caller change too, the first time an offer is cached. *)
Fixpoint accept_loop (fwid : option string) (offerIds : list string)
    (st : schedCache * list Offer_Operation * list Offer_Operation)
    : schedCache * list Offer_Operation * list Offer_Operation :=
  match offerIds with
  | [] => st
  | o :: rest =>
      let '(c, operations, okOperations) := st in
      accept_loop fwid rest
        (if containsOffer o c then
           let fixed := fix_operation fwid <$> operations in
           (removeOffer o (note_operations o fixed c), fixed, okOperations ++ fixed)
         else (removeOffer o c, operations, okOperations))
  end.

(** One goroutine for each operation that launches. *)
Fixpoint lose_operations (operations : list Offer_Operation) (why : string) : DC unit :=
  match operations with
  | [] => mret tt
  | OpLaunch tasks :: rest => _ ← spawn (GoLostTasks tasks why); lose_operations rest why
  | _ :: rest => lose_operations rest why
  end.

Definition AcceptOffers (offerIds : list string) (operations : list Offer_Operation) (refuse : float) : DC answer :=
  d ← get_state;
  if stopped d then unable d
  else if negb (sd_connected d) then
    _ ← lose_operations operations "disconnected from mesos master";
    mret (sd_status d, Some ErrDisconnected)
  else
    let fwid := FIId (sd_frameworkInfo d) in
    let '(c, operations', okOperations) := accept_loop fwid offerIds (sd_cache d, operations, []) in
    _ ← modify (with_cache c);
    err ← send (sd_masterPid d) (AcceptCall fwid offerIds okOperations refuse);
    match err with
    | Some e => _ ← lose_operations operations' ("Unable to launch tasks: " +:+ error_text e); mret (sd_status d, Some e)
    | None => mret (sd_status d, None)
    end.

(** The calls that only send a message. *)
Definition send_call (m : option string → Message) : DC answer :=
  d ← get_state;
  if stopped d then unable d
  else if negb (sd_connected d) then mret (sd_status d, Some ErrDisconnected)
  else
    err ← send (sd_masterPid d) (m (FIId (sd_frameworkInfo d)));
    mret (sd_status d, err).

Definition KillTask (taskId : string) : DC answer :=
  send_call (λ fwid, KillTaskMessage fwid taskId).
Definition RequestResources (requests : list (list Resource)) : DC answer :=
  send_call (λ fwid, ResourceRequestMessage fwid requests).
Definition ReviveOffers : DC answer := send_call ReviveOffersMessage.
Definition ReconcileTasks (statuses : list TaskStatus) : DC answer :=
  send_call (λ fwid, ReconcileTasksMessage fwid statuses).

(** To the slave whose process is cached, otherwise to the master; a slave process
    that is the driver itself is skipped. *)
Definition SendFrameworkMessage (executorId slaveId data : string) : DC answer :=
  d ← get_state;
  if stopped d then unable d
  else if negb (sd_connected d) then mret (sd_status d, Some ErrDisconnected)
  else
    let m := FrameworkToExecutorMessage slaveId (FIId (sd_frameworkInfo d)) executorId data in
    match getSlavePid slaveId (sd_cache d) with
    | Some slavePid =>
        if Equal (Some slavePid) (sd_self d) then mret (sd_status d, None)
        else err ← send (Some slavePid) m; mret (sd_status d, err)
    | None => err ← send (sd_masterPid d) m; mret (sd_status d, err)
    end.

(** ** Goroutines *)

(** The update that [pushLostTask] makes up. *)
Definition lost_update (fwid : option string) (why : string) (task : TaskInfo) : TaskUpdate :=
  mkUpdate fwid (ExecutorId (TaskExecutor task)) (TaskSlaveId task)
    (mkStatus (TaskTaskId task) TASK_LOST None) why "".

Definition pushLostTask (task : TaskInfo) (why : string) : DP unit :=
  handler (d ← get_state;
           match sd_self d with
           | None => crash
           | Some self =>
               statusUpdated self (lost_update (FIId (sd_frameworkInfo d)) why task) (PidString self)
           end).

(** The result that an attempt routes to the driver itself; [authenticate] is
    answered by the environment. *)
Definition auth_result (o : AuthOutcome) : bool * bool :=
  match o with AuthSuccess => (true, true) | AuthRefused => (true, false) | AuthIncomplete => (false, false) end.

(** The messenger runs the handler of the routed result in a goroutine of its own;
    the attempt is over whether the handler has run or not. *)
Definition authenticate (attempt : nat) (master : UPID) : DP unit :=
  o ← atomic (lift_io (ask (λ env h, net_auth (env_net env) h master)));
  _ ← atomic (spawn (GoAuthResult (auth_result o).1 (auth_result o).2 (PidString master)));
  atomic (modify (cancel (Some attempt))).

Definition route_result (completed success : bool) (pid : string) : DC unit :=
  d ← get_state;
  match sd_self d with
  | None => crash
  | Some self => handleAuthenticationResult self completed success pid
  end.

Definition driver_go (fuel : nat) (g : DriverGo) : DP unit :=
  match g with
  | GoAuthenticate n master => authenticate n master
  | GoAuthResult completed success pid => atomic (route_result completed success pid)
  | GoRegister => doReliableRegistration fuel registrationBackoffFactor
  | GoLostTasks tasks why => proc_each tasks (λ t, pushLostTask t why)
  | GoLastCallback cause =>
      atomic (withScheduler (match cause with Some c => ScError c | None => ScNoop end))
  end.
