(* ===== verification/DriverSys.v ===== *)
(** * Every interleaving of the scheduler driver

    The driver as a transition system: the handlers of the messages that arrive,
    the calls of the scheduler and the goroutines the driver starts are threads
    that run one section at a time, in any order.  Each section is checked
    against an invariant of the driver's state and against what may change of it
    while a thread waits. *)

From Stdlib Require Import Ascii Floats.
From stdpp Require Import base strings list gmap.
From S2P Require Import Prelude GoStd Errors Upid Mesos World Goroutine Threads SchedDriver.

(** ** The system *)

(** What reaches the driver: messages, and calls of the scheduler or of [main].  An
    authentication result is routed by the driver's own attempt ([GoAuthResult]). *)
Inductive Input :=
  | InMasterChanged (from : UPID) (master : option string)
  | InNetworkError (from : UPID) (pid session : string)
  | InRegistered (from : UPID) (frameworkId : string) (master : MasterInfo)
  | InReregistered (from : UPID) (master : MasterInfo)
  | InOffers (offers : list Offer) (pids : list string)
  | InRescinded (offerId : string)
  | InStatus (from : UPID) (update : TaskUpdate) (pid : string)
  | InExited (executorId slaveId : string) (status : Z)
  | InSlaveLost (slaveId : string)
  | InMessage (executorId slaveId data : string)
  | InError (message : string)
  | CallStart | CallRun | CallJoin
  | CallStop (failover : bool)
  | CallAbort
  | CallLaunch (offerIds : list string) (tasks : list TaskInfo) (refuse : float)
  | CallAccept (offerIds : list string) (operations : list Offer_Operation) (refuse : float)
  | CallDecline (offerId : string) (refuse : float)
  | CallKill (taskId : string)
  | CallRequest (requests : list (list Resource))
  | CallRevive
  | CallReconcile (statuses : list TaskStatus)
  | CallMessage (executorId slaveId data : string).

Definition input (i : Input) : DP unit :=
  match i with
  | InMasterChanged from master => handleMasterChanged from master
  | InNetworkError from pid session => handler (handleNetworkError from pid session)
  | InRegistered from fwid mi => handler (frameworkRegistered from fwid mi)
  | InReregistered from mi => handler (frameworkReregistered from mi)
  | InOffers offers pids => handler (resourcesOffered offers pids)
  | InRescinded id => handler (resourceOfferRescinded id)
  | InStatus from update pid => handler (statusUpdated from update pid)
  | InExited e s st => handler (exitedExecutor e s st)
  | InSlaveLost s => handler (slaveLost s)
  | InMessage e s data => handler (frameworkMessageRcvd e s data)
  | InError m => atomic (frameworkErrorRcvd m)
  | CallStart => ignore (atomic Start)
  | CallRun => ignore Run
  | CallJoin => ignore Join
  | CallStop failover => ignore (atomic (Stop failover))
  | CallAbort => ignore (atomic Abort)
  | CallLaunch offers tasks refuse => ignore (atomic (LaunchTasks offers tasks refuse))
  | CallAccept offers ops refuse => ignore (atomic (AcceptOffers offers ops refuse))
  | CallDecline offer refuse => ignore (atomic (DeclineOffer offer refuse))
  | CallKill task => ignore (atomic (KillTask task))
  | CallRequest requests => ignore (atomic (RequestResources requests))
  | CallRevive => ignore (atomic ReviveOffers)
  | CallReconcile statuses => ignore (atomic (ReconcileTasks statuses))
  | CallMessage e s data => ignore (atomic (SendFrameworkMessage e s data))
  end.

(** The detector reports masters whose process identifier parses. *)
Definition legal (env : Env) (i : Input) : bool :=
  match i with
  | InMasterChanged _ (Some pid) =>
      match Parse (net_resolve (env_net env)) pid with Ok _ => true | Err _ => false end
  | _ => true
  end.

Definition scheduler_driver : Component Driver DriverGo Input := mkComponent input legal driver_go.

Abbreviation DSystem := (TSystem Driver DriverGo).
Abbreviation ds_runs := (t_runs scheduler_driver).

(** The states reached from a new driver. *)
Definition ds_reach (env : Env) (sys : DSystem) : Prop :=
  ∃ config user hostname d, NewMesosSchedulerDriver config user hostname None None = Ok d ∧
    ds_runs env (mkTSystem d [] []) sys.

(** ** The invariant *)

Definition cache_ok (c : schedCache) : Prop := ∀ k o, savedOffers c !! k = Some o → OfferId (co_offer o) = k.

Record dinv (d : Driver) : Prop := {
  di_connected : sd_connected d = true → sd_masterPid d ≠ None;
  di_master : sd_masterPid d ≠ None → sd_self d ≠ None;
  di_self : sd_self d ≠ None → sd_started d = true;
  di_started : sd_started d = true → sd_status d ≠ DRIVER_NOT_STARTED;
  di_running : sd_status d = DRIVER_RUNNING → sd_self d ≠ None;
  di_stop : sd_stopCh d = true → sd_status d = DRIVER_STOPPED ∨ sd_status d = DRIVER_ABORTED;
  di_stopped : sd_status d = DRIVER_STOPPED ∨ sd_status d = DRIVER_ABORTED → sd_stopCh d = true;
  di_queue : sd_queueClosed d = true → sd_stopCh d = true;
  di_cache : cache_ok (sd_cache d);
}.

Definition rank (s : DriverStatus) : nat :=
  match s with
  | DRIVER_NOT_STARTED => 0 | DRIVER_RUNNING => 1 | DRIVER_STOPPED => 2 | DRIVER_ABORTED => 3
  end.

(** What never changes back. *)
Record dmono (d d' : Driver) : Prop := {
  dm_self u : sd_self d = Some u → sd_self d' = Some u;
  dm_rank : rank (sd_status d) ≤ rank (sd_status d');
  dm_queue : sd_queueClosed d = true → sd_queueClosed d' = true;
}.

#[export] Instance dmono_preorder : PreOrder dmono.
Proof.
  split.
  - intros d. by split.
  - intros d1 d2 d3 [H1 H2 H3] [H4 H5 H6]. split; [auto|lia|auto].
Qed.

Definition is_callback (e : Event) : bool := match e with EvSched _ => true | _ => false end.
Definition callbacks (h : list Event) : list Event := filter (λ e, is_callback e = true) h.

Lemma callbacks_app h w : callbacks (h ++ w) = callbacks h ++ callbacks w.
Proof. apply filter_app. Qed.

(** The threads that need the driver's own process identifier. *)
Definition go_ok (d : Driver) (g : DriverGo) : Prop :=
  match g with GoRegister | GoLastCallback _ => True | _ => sd_self d ≠ None end.

(** What a section owes: the invariant, what never changes back, no callback when
    the queue is closed, and goroutines that can run; it panics only in a driver
    that is authenticated. *)
Definition driver_contract : Contract Driver DriverGo := {|
  c_inv := dinv;
  c_mono := dmono;
  c_events d w := sd_queueClosed d = true → callbacks w = [];
  c_crash d := sd_authenticated d = true;
  c_go := go_ok;
|}.

#[export] Instance driver_contract_laws : ContractLaws driver_contract.
Proof.
  split.
  - apply dmono_preorder.
  - done.
  - cbn. intros d d' w w' Hw Hm Hw' Hq. rewrite callbacks_app, Hw, Hw'; [done| |done]. by apply (dm_queue _ _ Hm).
Qed.

Section DriverSections.
Context (env : Env).
Abbreviation section_ok := (section_ok driver_contract env).
Abbreviation wp := (wp env).
Abbreviation anyd := always.
Abbreviation dsafe := (tsafe driver_contract env).

(** Sending to a process that is there. *)
Lemma wp_send to m h d (K : Prop) (Q : option error → Driver → list Event → list DriverGo → Prop) :
  to ≠ None → (∀ err, Q err d [EvSend to m] []) → wp (send to m) h d K Q.
Proof. destruct to; [|done]. intros _ HQ. apply HQ. Qed.

(** Symbolic execution of a section that may send. *)
Ltac dwp_step :=
  lazymatch goal with
  | |- Threads.wp _ (send _ _) _ _ _ _ => apply wp_send; [|intros]
  | _ => wp_step
  end.

(** The obligations of a section that has been executed. *)
Ltac owe d :=
  destruct d; unfold owes, driver_contract, go_ok, stopped, aborted, disconnected, Equal in *; cbn in *;
  repeat match goal with
  | H : bool_decide _ = true |- _ => apply bool_decide_eq_true in H
  | H : bool_decide _ = false |- _ => apply bool_decide_eq_false in H
  | H : negb _ = true |- _ => apply negb_true_iff in H
  | H : negb _ = false |- _ => apply negb_false_iff in H
  | H : _ || _ = false |- _ => apply orb_false_iff in H as [? ?]
  | H : _ && _ = true |- _ => apply andb_true_iff in H as [? ?]
  | H : _ && _ = false |- _ => apply andb_false_iff in H as [?|?]
  | H : _ || _ = true |- _ => apply orb_true_iff in H as [?|?]
  | H : dinv _ |- _ => destruct H; cbn in *
  end; simplify_eq/=.

Ltac owe_done :=
  repeat match goal with
  | |- _ ∧ _ => split
  | |- dinv _ => constructor; cbn
  | |- dmono _ _ => constructor; cbn
  | |- Forall _ [] => apply Forall_nil
  | |- Forall _ (_ :: _) => apply Forall_cons
  end; cbn; try done; try (intros; intuition (congruence || lia)).

Lemma withScheduler_ok cb : section_ok (withScheduler cb) (λ _, True) (λ _ _, True).
Proof.
  intros h d Hd _. unfold withScheduler, wp. destruct (sd_queueClosed d) eqn:Hq.
  - split_and!; done.
  - destruct (sd_stopCh d) eqn:Hs.
    + owe d. owe_done.
    + owe d. owe_done.
Qed.

(** A section by execution of its definition. *)
Ltac run_section d := repeat dwp_step; try done; owe d; owe_done.

Lemma tryAuthentication_ok : section_ok tryAuthentication (λ _, True) (λ _ _, True).
Proof. intros h d Hd _. unfold tryAuthentication. run_section d. Qed.

Lemma route_result_ok c s pid :
  section_ok (route_result c s pid) (λ d, sd_self d ≠ None) (λ _ _, True).
Proof.
  intros h d Hd Hs. unfold route_result, handleAuthenticationResult, tryAuthentication. run_section d.
Qed.

Lemma handleNetworkError_ok from pid session :
  section_ok (handleNetworkError from pid session) (λ _, True) (λ _ _, True).
Proof. intros h d Hd _. unfold handleNetworkError. run_section d. Qed.

(** The first section of a master change. *)
Lemma master_changed_ok from master :
  legal env (InMasterChanged from master) = true →
  section_ok (r ← master_changed from master;
              if negb r.1 && r.2 then _ ← tryAuthentication; mret r else mret r) (λ _, True) (λ _ _, True).
Proof.
  intros Hl h d Hd _. unfold master_changed, tryAuthentication, resolver.
  destruct master as [pid|]; cbn in Hl; [destruct (Parse _ pid) eqn:Hu; [|done]|]; run_section d.
Qed.

Lemma frameworkRegistered_ok from fwid mi :
  section_ok (frameworkRegistered from fwid mi) (λ _, True) (λ _ _, True).
Proof. intros h d Hd _. unfold frameworkRegistered, new_uuid. run_section d. Qed.

Lemma frameworkReregistered_ok from mi :
  section_ok (frameworkReregistered from mi) (λ _, True) (λ _ _, True).
Proof. intros h d Hd _. unfold frameworkReregistered, new_uuid. run_section d. Qed.

Lemma statusUpdated_ok from update pid :
  section_ok (statusUpdated from update pid) (λ _, True) (λ _ _, True).
Proof. intros h d Hd _. unfold statusUpdated. run_section d. Qed.

Lemma stop_ok cause failover : section_ok (stop cause failover) (λ _, True) (λ _ _, True).
Proof. intros h d Hd _. unfold stop, stop_with, unable. run_section d. Qed.

Lemma abort_ok cause : section_ok (abort cause) (λ _, True) (λ _ _, True).
Proof.
  intros h d Hd _. unfold abort, stop, stop_with, unable.
  run_section d; match goal with s : DriverStatus |- _ => destruct s end; cbn in *; intuition (congruence || lia).
Qed.

Lemma start_ok : section_ok start (λ _, True) (λ _ _, True).
Proof. intros h d Hd _. unfold start, unable. run_section d. Qed.

Lemma registration_ok : section_ok registration (λ _, True) (λ _ _, True).
Proof. intros h d Hd _. unfold registration. run_section d. Qed.

Lemma send_call_ok m : section_ok (send_call m) (λ _, True) (λ _ _, True).
Proof. intros h d Hd _. unfold send_call, unable. run_section d. Qed.

(** *** The cache *)

Lemma putOffer_ok o pid c : cache_ok c → cache_ok (putOffer o pid c).
Proof. intros Hc k co. cbn. rewrite lookup_insert_Some. intros [[<- <-]|[_ Hk]]; [done|by apply Hc]. Qed.

Lemma removeOffer_ok id c : cache_ok c → cache_ok (removeOffer id c).
Proof. intros Hc k co. cbn. intros [_ Hk]%lookup_delete_Some. by apply Hc. Qed.

Lemma cache_offers_ok resolve os c : cache_ok c → cache_ok (cache_offers resolve os c).
Proof.
  revert c. induction os as [|[o p] os IH]; intros c Hc; [done|]. cbn. apply IH.
  destruct (Parse resolve p); [by apply putOffer_ok|done].
Qed.

Lemma note_slaves_offers id ts c : savedOffers (note_slaves id ts c) = savedOffers c.
Proof.
  revert c. induction ts as [|t ts IH]; intros c; [done|]. cbn. rewrite IH.
  destruct (getOffer id c); [|done]. by case_bool_decide.
Qed.

Lemma use_offers_ok ids ts c : cache_ok c → cache_ok (use_offers ids ts c).
Proof.
  revert c. induction ids as [|id ids IH]; intros c Hc; [done|]. cbn. apply IH, removeOffer_ok.
  intros k o. rewrite note_slaves_offers. apply Hc.
Qed.

(** A section that changes only the cache. *)
Lemma dinv_cache c d : cache_ok c → dinv d → dinv (with_cache c d).
Proof. intros Hc Hd. destruct d, Hd. by constructor. Qed.

Lemma dmono_cache c d : dmono d (with_cache c d).
Proof. by destruct d. Qed.

Lemma resourcesOffered_ok offers pids : section_ok (resourcesOffered offers pids) (λ _, True) (λ _ _, True).
Proof.
  intros h d Hd _. unfold resourcesOffered, resolver. repeat dwp_step; cbn; try by split_and!.
  split_and!; try done; [|apply dmono_cache]. apply dinv_cache; [|done]. apply cache_offers_ok, Hd.
Qed.

Lemma resourceOfferRescinded_ok id : section_ok (resourceOfferRescinded id) (λ _, True) (λ _ _, True).
Proof.
  intros h d Hd _. unfold resourceOfferRescinded. repeat dwp_step; try by split_and!.
  split_and!; try done; [|apply dmono_cache]. apply dinv_cache; [|done]. apply removeOffer_ok, Hd.
Qed.

Lemma slaveLost_ok id : section_ok (slaveLost id) (λ _, True) (λ _ _, True).
Proof.
  intros h d Hd _. unfold slaveLost. repeat dwp_step; try by split_and!.
  split_and!; try done; [|apply dmono_cache]. apply dinv_cache; [|done]. apply Hd.
Qed.

Lemma LaunchTasks_ok ids ts refuse : section_ok (LaunchTasks ids ts refuse) (λ _, True) (λ _ _, True).
Proof.
  intros h d Hd _. unfold LaunchTasks, unable. repeat dwp_step; try by split_and!.
  - split_and!; try done. apply Forall_singleton. cbn. apply (di_running _ Hd).
    unfold stopped in *. apply negb_false_iff, bool_decide_eq_true in Heqb. done.
  - apply (di_connected _ Hd). by apply negb_false_iff.
  - split_and!; try done; [|apply dmono_cache|].
    + apply dinv_cache; [|done]. apply use_offers_ok, Hd.
    + apply Forall_singleton. cbn. destruct d; cbn in *. apply (di_running _ Hd).
      by apply negb_false_iff, bool_decide_eq_true in Heqb.
  - split_and!; try done; [|apply dmono_cache]. apply dinv_cache; [|done]. apply use_offers_ok, Hd.
Qed.

Lemma note_operations_offers id ops c : savedOffers (note_operations id ops c) = savedOffers c.
Proof.
  revert c. induction ops as [|op ops IH]; intros c; [done|]. cbn. by rewrite IH, note_slaves_offers.
Qed.

Lemma accept_loop_ok fwid ids st : cache_ok st.1.1 → cache_ok (accept_loop fwid ids st).1.1.
Proof.
  revert st. induction ids as [|id ids IH]; intros [[c ops] ok] Hc; [done|]. cbn [accept_loop]. apply IH.
  destruct (containsOffer id c); cbn [fst]; apply removeOffer_ok; [|done].
  intros k o. rewrite note_operations_offers. apply Hc.
Qed.

(** Lost tasks are left to other threads. *)
Lemma wp_lose_operations ops why h d K (Q : unit → Driver → list Event → list DriverGo → Prop) :
  (∀ gs, (sd_self d ≠ None → Forall (go_ok d) gs) → Q tt d [] gs) → wp (lose_operations ops why) h d K Q.
Proof.
  revert h Q. induction ops as [|op ops IH]; intros h Q HQ; [by apply HQ|]. destruct op; cbn [lose_operations];
    try by apply IH. apply wp_bind, wp_spawn, IH. intros gs Hgs. apply HQ. intros Hs.
  apply Forall_cons. split; [done|by apply Hgs].
Qed.

Lemma AcceptOffers_ok ids ops refuse : section_ok (AcceptOffers ids ops refuse) (λ _, True) (λ _ _, True).
Proof.
  intros h d Hd _. unfold AcceptOffers, unable. apply wp_get_bind.
  destruct (stopped d) eqn:Hs; [by split_and!|].
  apply negb_false_iff, bool_decide_eq_true in Hs. assert (Hself := di_running _ Hd Hs).
  destruct (sd_connected d) eqn:Hc; cbn [negb].
  - pose proof (accept_loop_ok (FIId (sd_frameworkInfo d)) ids (sd_cache d, ops, []) (di_cache _ Hd)) as Hca.
    destruct (accept_loop _ ids _) as [[c ops'] ok]. cbn [fst] in Hca. apply wp_modify_bind, wp_bind.
    apply wp_send; [by apply (di_connected _ Hd)|]. intros [e|].
    + apply wp_bind, wp_lose_operations. intros gs Hgs. split_and!; try done.
      * by apply dinv_cache.
      * apply dmono_cache.
      * rewrite app_nil_r. apply Hgs. by destruct d.
    + split_and!; try done; [by apply dinv_cache|apply dmono_cache].
  - apply wp_bind, wp_lose_operations. intros gs Hgs. split_and!; try done. rewrite app_nil_r. by apply Hgs.
Qed.

Lemma SendFrameworkMessage_ok e s data :
  section_ok (SendFrameworkMessage e s data) (λ _, True) (λ _ _, True).
Proof. intros h d Hd _. unfold SendFrameworkMessage, unable. run_section d. Qed.

Lemma wait_done_ok : section_ok wait_done (λ _, True) (λ _ _, True).
Proof. intros h d Hd _. unfold wp, wait_done. destruct (sd_queueClosed d); [by split_and!|done]. Qed.

(** Sections that change nothing. *)
Lemma exitedExecutor_ok e s st : section_ok (exitedExecutor e s st) (λ _, True) (λ _ _, True).
Proof. intros h d Hd _. unfold exitedExecutor. repeat dwp_step; by split_and!. Qed.

Lemma frameworkMessageRcvd_ok e s data : section_ok (frameworkMessageRcvd e s data) (λ _, True) (λ _ _, True).
Proof. intros h d Hd _. unfold frameworkMessageRcvd. repeat dwp_step; by split_and!. Qed.

Lemma fatal_ok m : section_ok (fatal m) (λ _, True) (λ _ _, True).
Proof.
  intros h d Hd _. unfold fatal, abort, stop, stop_with, unable.
  run_section d; match goal with s : DriverStatus |- _ => destruct s end; cbn in *; intuition (congruence || lia).
Qed.

(** The parts of [Join] and of [Run] before they wait. *)
Lemma Join_check_ok :
  section_ok (d ← get_state; if stopped d then a ← unable d; mret (Some a) else mret None)
    (λ _, True) (λ _ _, True).
Proof. intros h d Hd _. unfold unable. run_section d. Qed.

Lemma Run_start_ok :
  section_ok (r ← start;
              match r.2 with
              | Some e => a ← stop (Some (error_text e)) false; mret (Some a)
              | None =>
                  d ← get_state;
                  if stopped d then a ← unable d; mret (Some a) else mret None
              end) (λ _, True) (λ _ _, True).
Proof. intros h d Hd _. unfold start, stop, stop_with, unable. repeat (dwp_step; cbn [fst snd]); owe d; owe_done. Qed.

(** *** The sections of the goroutines *)

Lemma lift_ask_ok {A} (f : Env → list Event → A) : section_ok (lift_io (ask f)) (λ _, True) (λ _ _, True).
Proof. intros h d Hd _. by split_and!. Qed.

Lemma spawn_ok g : section_ok (spawn g) (λ d, go_ok d g) (λ _ _, True).
Proof. intros h d Hd Hg. split_and!; try done. by apply Forall_singleton. Qed.

Lemma cancel_ok a : section_ok (modify (cancel a)) (λ _, True) (λ _ _, True).
Proof. intros h d Hd _. unfold cancel. apply wp_modify. owe d. owe_done. Qed.

Lemma get_state_ok : section_ok get_state (λ _, True) (λ _ _, True).
Proof. intros h d Hd _. by split_and!. Qed.

Lemma send_ok to m : to ≠ None → section_ok (send to m) (λ _, True) (λ _ _, True).
Proof. intros Ht h d Hd _. apply wp_send; [done|]. intros. by split_and!. Qed.

Lemma lost_task_ok why task :
  section_ok (d ← get_state;
              match sd_self d with
              | None => crash
              | Some self =>
                  statusUpdated self (lost_update (FIId (sd_frameworkInfo d)) why task) (PidString self)
              end) (λ d, sd_self d ≠ None) (λ _ _, True).
Proof.
  intros h d Hd Hs. apply wp_get_bind. destruct (sd_self d); [|done]. by apply statusUpdated_ok.
Qed.

(** ** Threads *)

Lemma dsafe_handler c d : section_ok c (λ _, True) anyd → dsafe (handler c) anyd d.
Proof.
  intros Hc. apply tsafe_then; [done|]. intros [cb|] d'; [|done]. apply tsafe_section, withScheduler_ok.
Qed.

(** *** Every thread of the driver is safe *)

Lemma handleMasterChanged_safe from master d :
  legal env (InMasterChanged from master) = true → dsafe (handleMasterChanged from master) anyd d.
Proof.
  intros Hl. apply tsafe_then; [by apply master_changed_ok|]. intros [[] auth] d'; cbn [fst snd negb]; [|done].
  apply tsafe_then; [apply withScheduler_ok|]. intros _ d''.
  destruct auth; [|done]. apply tsafe_section, tryAuthentication_ok.
Qed.

Lemma Join_safe d : dsafe Join anyd d.
Proof.
  apply tsafe_then; [apply Join_check_ok|]. intros [a|] d'; [done|]. apply tsafe_section, wait_done_ok.
Qed.

Lemma Run_safe d : dsafe Run anyd d.
Proof.
  apply tsafe_then; [apply Run_start_ok|]. intros [a|] d'; [done|]. apply tsafe_section, wait_done_ok.
Qed.

Lemma registerOnce_safe d : dsafe registerOnce anyd d.
Proof.
  apply tsafe_then; [apply registration_ok|]. intros [[[failover pid] info]|] d'; [|done].
  apply tsafe_then; [by apply send_ok|]. intros [e|] d''; [|done].
  apply tsafe_then; [apply stop_ok|]. done.
Qed.

Lemma doReliableRegistration_safe fuel b d : dsafe (doReliableRegistration fuel b) anyd d.
Proof.
  revert b d. induction fuel as [|fuel IH]; intros b d; [done|]. apply tsafe_bind.
  eapply tsafe_weaken; [apply registerOnce_safe|]. intros again d' _. destruct again; cbn [negb]; [|done].
  apply (tsafe_then _ _ get_state); [apply get_state_ok|]. intros d2 d3.
  destruct (sd_stopCh d2); [done|apply IH].
Qed.

(** A condition on the driver's own identifier is never lost. *)
Lemma self_mono d d' : sd_self d ≠ None → dmono d d' → sd_self d' ≠ None.
Proof. intros Hs Hm. destruct (sd_self d) as [u|] eqn:Hu; [|done]. by rewrite (dm_self _ _ Hm u Hu). Qed.

Lemma section_self {A} (c : DC A) Q : section_ok c (λ _, True) Q → section_ok c (λ d, sd_self d ≠ None) Q.
Proof. intros Hc h d Hd _. by apply Hc. Qed.

Lemma lost_tasks_safe tasks why d :
  sd_self d ≠ None → dsafe (proc_each tasks (λ t, pushLostTask t why)) anyd d.
Proof.
  revert d. induction tasks as [|t tasks IH]; intros d Hs; [done|]. cbn [proc_each]. apply tsafe_bind.
  unfold pushLostTask, handler. apply tsafe_bind. intros h d' Hm Hd.
  assert (Hs' := self_mono _ _ Hs Hm). eapply wp_mono; [by apply lost_task_ok|].
  intros cb d'' w gs (? & Hm' & ? & ? & _). split_and!; try done. assert (Hs'' := self_mono _ _ Hs' Hm').
  destruct cb as [cb|]; [|by apply IH]. intros h2 d3 Hm3 Hd3.
  eapply wp_mono; [by apply withScheduler_ok|]. intros a d4 w4 gs4 (? & Hm4 & ? & ? & _).
  split_and!; try done. apply IH. eapply self_mono; [|done]. by eapply self_mono.
Qed.

Lemma authenticate_safe n master d : sd_self d ≠ None → dsafe (authenticate n master) anyd d.
Proof.
  intros Hs. apply (tsafe_stable _ _ (λ d, sd_self d ≠ None)); [apply self_mono| |done|].
  { apply section_self, lift_ask_ok. }
  intros o d' Hs'. apply (tsafe_stable _ _ (λ d, sd_self d ≠ None)); [apply self_mono|apply spawn_ok|done|].
  intros _ d'' _. apply tsafe_section, cancel_ok.
Qed.

Lemma driver_go_safe fuel g d : go_ok d g → dsafe (driver_go fuel g) anyd d.
Proof.
  destruct g; intros Hg; cbn [driver_go].
  - by apply authenticate_safe.
  - eapply tsafe_atomic; [apply route_result_ok|]. intros d' Hm. by eapply self_mono.
  - apply doReliableRegistration_safe.
  - by apply lost_tasks_safe.
  - apply tsafe_section, withScheduler_ok.
Qed.

Lemma input_safe i d : legal env i = true → dsafe (input i) anyd d.
Proof.
  intros Hl. destruct i; cbn [input];
    try (apply dsafe_handler; eauto using handleNetworkError_ok, frameworkRegistered_ok,
           frameworkReregistered_ok, resourcesOffered_ok, resourceOfferRescinded_ok, statusUpdated_ok,
           exitedExecutor_ok, slaveLost_ok, frameworkMessageRcvd_ok; fail);
    try (apply tsafe_ignore, tsafe_section;
         first [apply start_ok|apply stop_ok|apply abort_ok|apply LaunchTasks_ok|apply AcceptOffers_ok|apply send_call_ok
               |apply SendFrameworkMessage_ok]).
  - by apply handleMasterChanged_safe.
  - apply tsafe_section, fatal_ok.
  - apply tsafe_ignore, Run_safe.
  - apply tsafe_ignore, Join_safe.
Qed.

End DriverSections.

(** ** The system invariant *)

Abbreviation ds_inv env := (t_inv env driver_contract).

Lemma ds_runs_inv env sys sys' :
  ds_inv env sys → ds_runs env sys sys' → keeps_contract env driver_contract sys sys'.
Proof. apply (t_runs_inv scheduler_driver env driver_contract); [apply driver_go_safe|apply input_safe]. Qed.

Lemma new_driver_inv env config user hostname d :
  NewMesosSchedulerDriver config user hostname None None = Ok d → ds_inv env (mkTSystem d [] []).
Proof.
  unfold NewMesosSchedulerDriver. intros Hn. repeat case_match; simplify_eq/=;
    (split; [|done]); constructor; cbn; try done; by intros [|].
Qed.

Lemma ds_reach_inv env sys : ds_reach env sys → ds_inv env sys.
Proof.
  intros (config & user & hostname & d & Hn & Hr).
  by destruct (ds_runs_inv _ _ _ (new_driver_inv env _ _ _ _ Hn) Hr).
Qed.

(** ** Computed runs *)

Abbreviation ds_moves := (t_moves scheduler_driver).

(** A driver without credentials, and the processes of the examples. *)
Definition test_framework : FrameworkInfo := mkFrameworkInfo "root" "etcd" None None true "host" None "".
Definition test_config : DriverConfig := mkDriverConfig true (Some test_framework) "zk://m" false false "".
Definition test_self : UPID := mkUPID "driver(1)" "127.0.0.1" "9000".
Definition test_master : UPID := mkUPID "master" "10.0.0.1" "5050".
Definition test_info : MasterInfo := mkMasterInfo None None None None None None None.

Definition test_driver : Driver :=
  mkDriver None test_framework None false DRIVER_NOT_STARTED false "" 0 false newSchedCache
    false false None ∅ 0 false false false.
Definition new_system : DSystem := mkTSystem test_driver [] [].

Lemma new_system_reach env sys : ds_runs env new_system sys → ds_reach env sys.
Proof. intros Hr. by exists test_config, "root", "host", test_driver. Qed.

(** What a computed run of the new driver shows of the state it reaches. *)
Lemma moves_reach env fuel ms (P : DSystem → Prop) :
  match ds_moves env fuel ms new_system with Some sys => P sys | None => False end →
  ∃ sys, ds_moves env fuel ms new_system = Some sys ∧ ds_reach env sys ∧ P sys.
Proof.
  intros (sys & Hm & Hr & HP)%t_moves_reach. exists sys. split_and!; [done| |done]. by apply new_system_reach.
Qed.

(** Start, detect a master, register with it and hand the callback over. *)
Definition connect_moves : list (Move Input) :=
  [MInput CallStart; MThread 0; MInput (InMasterChanged test_self (Some "master@10.0.0.1:5050")); MThread 1;
   MThread 2; MThread 2; MInput (InRegistered test_master "fw-1" test_info); MThread 3; MThread 3].

Example connect_moves_ok :
  option_map (λ sys, (sd_connected (ts_state sys), ts_hist sys)) (ds_moves quiet_env 2 connect_moves new_system) =
  Some (true, [EvMessengerStart; EvDetect; EvSend (Some test_master) (RegisterFrameworkMessage test_framework);
               EvSched (ScRegistered "fw-1" test_info)]).
Proof. reflexivity. Qed.
