(* ===== verification/DriverProps.v ===== *)
(** * What the scheduler driver guarantees

    The theorems about every interleaving of the driver of SchedDriver.v, and the
    behaviour of its operations on every branch. *)

From Stdlib Require Import Ascii Floats.
From stdpp Require Import base strings list gmap.
From S2P Require Import Prelude GoStd Errors Upid Mesos World Goroutine Threads SchedDriver DriverSys.

(** ** Every interleaving *)

(** C13: In every state that a new driver can reach, whatever the messages, the
    calls and the order of the threads: a driver that is connected has a master, one that
    has a master has its own process identifier, one that has an identifier was
    started, the stop channel is closed exactly when the driver is stopped or
    aborted, the callback queue is closed only after it, and an offer is cached
    under its own identifier. *)
Theorem driver_invariant env sys : ds_reach env sys → dinv (ts_state sys).
Proof. intros Hr. apply (ds_reach_inv _ _ Hr). Qed.

(** The state in which the driver has registered. *)
Lemma connect_run :
  ∃ sys : DSystem, ds_moves quiet_env 2 connect_moves new_system = Some sys ∧ ds_reach quiet_env sys ∧
    sd_connected (ts_state sys) = true.
Proof. apply (moves_reach _ _ _ (λ sys, sd_connected (ts_state sys) = true)). vm_compute. reflexivity. Qed.

Lemma driver_invariant_witness : ∃ sys : DSystem, sd_connected (ts_state sys) = true ∧ dinv (ts_state sys).
Proof.
  destruct connect_run as (sys & _ & Hr & Hc). exists sys. split; [exact Hc|]. exact (driver_invariant quiet_env sys Hr).
Defined.

(** Along every run the status only moves forward, from not started to running
    to stopped to aborted; the process identifier of the driver never changes
    once it is known; and once the queue of callbacks is closed the scheduler is
    called no more, however long the run. *)
Theorem driver_lifecycle env sys sys' :
  ds_reach env sys → ds_runs env sys sys' →
  rank (sd_status (ts_state sys)) ≤ rank (sd_status (ts_state sys')) ∧
  (∀ u, sd_self (ts_state sys) = Some u → sd_self (ts_state sys') = Some u) ∧
  (sd_queueClosed (ts_state sys) = true →
     sd_queueClosed (ts_state sys') = true ∧ callbacks (ts_hist sys') = callbacks (ts_hist sys)).
Proof.
  intros Hr Hs.
  destruct (ds_runs_inv _ _ _ (ds_reach_inv _ _ Hr) Hs) as (_ & [Hself Hrank Hq] & w & -> & Hw).
  split_and!; [done..|]. intros Hc. split; [by apply Hq|]. rewrite callbacks_app, Hw by done. apply app_nil_r.
Qed.

(** Stop and hand the last callback over; a message arrives too late. *)
Definition stop_moves : list (Move Input) := connect_moves ++ [MInput (CallStop true); MThread 4; MThread 5].
Definition late_moves : list (Move Input) := [MInput (InMessage "e" "s" "late"); MThread 6; MThread 6].

Lemma late_run :
  ∃ sys : DSystem, ds_moves quiet_env 2 stop_moves new_system = Some sys ∧ ds_reach quiet_env sys ∧
    sd_queueClosed (ts_state sys) = true ∧ is_Some (ds_moves quiet_env 2 late_moves sys).
Proof.
  destruct (moves_reach quiet_env 2 stop_moves (λ sys, sd_queueClosed (ts_state sys) = true ∧
    match ds_moves quiet_env 2 late_moves sys with Some _ => true | None => false end = true))
    as (sys & Hm & Hr & Hq & Hl); [vm_compute; by split|].
  exists sys. repeat (split; [assumption|]). by destruct (ds_moves quiet_env 2 late_moves sys).
Qed.

Lemma driver_lifecycle_witness :
  ∃ (sys : DSystem) sys', ds_moves quiet_env 2 late_moves sys = Some sys' ∧
    rank (sd_status (ts_state sys)) ≤ rank (sd_status (ts_state sys')) ∧
    callbacks (ts_hist sys') = callbacks (ts_hist sys).
Proof.
  destruct late_run as (sys & _ & Hr & Hq & [sys' Hm]). exists sys, sys'. split; [exact Hm|].
  destruct (driver_lifecycle quiet_env sys sys' Hr (t_moves_runs _ _ _ _ _ _ Hm)) as (Hrank & _ & Hc).
  split; [exact Hrank|]. exact (proj2 (Hc Hq)).
Defined.





(** A world in which the two [select]s of a stopping driver both hand over. *)
Definition eager_env : Env := {|
  env_http := env_http quiet_env;
  env_etcd_sync := env_etcd_sync quiet_env;
  env_etcd_get := env_etcd_get quiet_env;
  env_zk_connect := env_zk_connect quiet_env;
  env_zk_create := env_zk_create quiet_env;
  env_zk_set := env_zk_set quiet_env;
  env_zk_get := env_zk_get quiet_env;
  env_zk_delete := env_zk_delete quiet_env;
  env_zk_children := env_zk_children quiet_env;
  env_reconcile := env_reconcile quiet_env;
  env_status := env_status quiet_env;
  env_exec := env_exec quiet_env;
  env_fs := env_fs quiet_env;
  env_clock := env_clock quiet_env;
  env_net := env_net quiet_env;
  env_range _ _ l := reverse l;
  env_range_perm _ _ l := reverse_Permutation l;
|}.

(** The driver is stopped while the handler of a status update waits to hand it over. *)
Definition twice_moves : list (Move Input) :=
  connect_moves ++
  [MInput (InStatus test_master
     (mkUpdate (Some "fw-1") "e" "s" (mkStatus "t" TASK_RUNNING None) "" "u-1") "slave(1)@h:1");
   MThread 4; MInput (CallStop true); MThread 5; MThread 4].

(** A status update that reaches the driver once can be handed to the scheduler
    twice while the driver stops. *)
Lemma driver_update_twice :
  ∃ sys : DSystem, ds_reach eager_env sys ∧
    callbacks (ts_hist sys) = [EvSched (ScRegistered "fw-1" test_info);
      EvSched (ScStatusUpdate (mkStatus "t" TASK_RUNNING None) "u-1");
      EvSched (ScStatusUpdate (mkStatus "t" TASK_RUNNING None) "u-1")].
Proof.
  destruct (moves_reach eager_env 2 twice_moves (λ sys, callbacks (ts_hist sys) =
    [EvSched (ScRegistered "fw-1" test_info);
     EvSched (ScStatusUpdate (mkStatus "t" TASK_RUNNING None) "u-1");
     EvSched (ScStatusUpdate (mkStatus "t" TASK_RUNNING None) "u-1")])) as (sys & _ & Hr & HP);
    [vm_compute; reflexivity|by exists sys].
Qed.

(** A stopped driver is connected again by a late re-registration, for which
    [frameworkReregistered] has no check as [frameworkRegistered] has. *)
Lemma stopped_driver_reconnects :
  option_map (λ sys : DSystem, (sd_status (ts_state sys), sd_connected (ts_state sys)))
    (ds_moves quiet_env 2
       (connect_moves ++ [MInput (CallStop true); MThread 4; MInput (InReregistered test_master test_info); MThread 6])
       new_system) = Some (DRIVER_STOPPED, true).
Proof. vm_compute. reflexivity. Qed.

(** ** The operations, on every branch *)

(** *** The cache and the offers of a launch *)

Lemma note_slaves_pid id ts c s :
  getSlavePid s (note_slaves id ts c) =
  match getOffer id c with
  | Some o => if bool_decide (OfferSlaveId (co_offer o) = s ∧ s ∈ (TaskSlaveId <$> ts))
              then Some (co_slavePid o) else getSlavePid s c
  | None => getSlavePid s c
  end.
Proof.
  revert c. induction ts as [|t ts IH]; intros c; cbn [note_slaves fmap list_fmap].
  - destruct (getOffer id c); [|done]. rewrite bool_decide_eq_false_2; [done|]. intros [_ []%elem_of_nil].
  - rewrite IH. destruct (getOffer id c) as [o|] eqn:Ho.
    + destruct (bool_decide (OfferSlaveId (co_offer o) = TaskSlaveId t)) eqn:Ht.
      * apply bool_decide_eq_true in Ht. change (getOffer id (putSlavePid (TaskSlaveId t) (co_slavePid o) c)) with (getOffer id c).
        rewrite Ho. unfold getSlavePid. cbn. destruct (decide (s = TaskSlaveId t)) as [->|Hs].
        -- rewrite lookup_insert_eq. repeat case_bool_decide; try done; set_solver.
        -- rewrite lookup_insert_ne by done. repeat case_bool_decide; try done; set_solver.
      * apply bool_decide_eq_false in Ht. rewrite Ho. repeat case_bool_decide; try done; set_solver.
    + by rewrite Ho.
Qed.

Lemma use_offers_get ids ts c id :
  getOffer id (use_offers ids ts c) = if bool_decide (id ∈ ids) then None else getOffer id c.
Proof.
  revert c. induction ids as [|i ids IH]; intros c; cbn [use_offers]; [done|]. rewrite IH.
  unfold getOffer, removeOffer. cbn. rewrite note_slaves_offers.
  destruct (decide (id = i)) as [->|Hi].
  - rewrite lookup_delete_eq. repeat case_bool_decide; try done; set_solver.
  - rewrite lookup_delete_ne by done. repeat case_bool_decide; try done; set_solver.
Qed.

(** The slave of a task that runs on one of the offers is known afterwards, by
    the process of one of those offers. *)
Lemma use_offers_slave (Φ : UPID → Prop) ids ts c s :
  s ∈ (TaskSlaveId <$> ts) →
  (∀ id o, id ∈ ids → getOffer id c = Some o → OfferSlaveId (co_offer o) = s → Φ (co_slavePid o)) →
  (∃ id o, id ∈ ids ∧ getOffer id c = Some o ∧ OfferSlaveId (co_offer o) = s) ∨
  (∃ pid, getSlavePid s c = Some pid ∧ Φ pid) →
  ∃ pid, getSlavePid s (use_offers ids ts c) = Some pid ∧ Φ pid.
Proof.
  intros Hts. revert c. induction ids as [|i ids IH]; intros c HΦ Hs; cbn [use_offers].
  { destruct Hs as [(id & o & []%elem_of_nil & _)|Hs]; done. }
  assert (Hget : ∀ id, getOffer id (removeOffer i (note_slaves i ts c)) =
                       if bool_decide (id = i) then None else getOffer id c).
  { intros id. unfold getOffer, removeOffer. cbn. rewrite note_slaves_offers.
    case_bool_decide; subst; by rewrite ?lookup_delete_eq, ?lookup_delete_ne. }
  assert (Hpid : getSlavePid s (removeOffer i (note_slaves i ts c)) = getSlavePid s (note_slaves i ts c)) by done.
  apply IH.
  - intros id o Hid. rewrite Hget. case_bool_decide; [done|]. intros Ho. apply (HΦ id o); [by right|done].
  - rewrite Hpid, note_slaves_pid. destruct (getOffer i c) as [o|] eqn:Ho.
    + case_bool_decide as Hos; [right; eexists; split; [done|]; by eapply HΦ; [left| |apply Hos]|].
      destruct Hs as [(id & o' & [->|Hid]%elem_of_cons & Ho' & Hs)|Hs]; [|left|by right].
      * simplify_eq. by destruct Hos.
      * exists id, o'. rewrite Hget. case_bool_decide; [|done]. simplify_eq. by destruct Hos.
    + destruct Hs as [(id & o' & [->|Hid]%elem_of_cons & Ho' & Hs)|Hs]; [congruence|left|by right].
      exists id, o'. rewrite Hget. case_bool_decide; [congruence|done].
Qed.

(** [LaunchTasks] on every branch.  A driver that does not run refuses, and
    changes and sends nothing.  One that is not connected answers with an error and
    reports every task as lost, for another thread.  Otherwise one message goes to the master,
    with the offers as given and the framework's identifier in each executor
    that has none; the offers are used up, the others stay cached, and the slave of
    each task that runs on a cached one is known by its process; if the
    message cannot be sent the tasks are reported as lost. *)
Theorem LaunchTasks_branches env h d offerIds tasks refuse :
  dinv d →
  (sd_status d ≠ DRIVER_RUNNING →
     ∃ e, LaunchTasks offerIds tasks refuse env h d = Done (sd_status d, Some e) d [] []) ∧
  (sd_status d = DRIVER_RUNNING → sd_connected d = false →
     ∃ why, LaunchTasks offerIds tasks refuse env h d =
       Done (DRIVER_RUNNING, Some ErrDisconnected) d [] [GoLostTasks tasks why]) ∧
  (sd_status d = DRIVER_RUNNING → sd_connected d = true →
     ∃ master err c' gs,
       let fwid := FIId (sd_frameworkInfo d) in
       let sent := set_framework_id fwid <$> tasks in
       sd_masterPid d = Some master ∧
       LaunchTasks offerIds tasks refuse env h d =
         Done (DRIVER_RUNNING, err) (with_cache c' d)
           [EvSend (Some master) (LaunchTasksMessage fwid offerIds sent refuse)] gs ∧
       (err = None ∧ gs = [] ∨ err ≠ None ∧ ∃ why, gs = [GoLostTasks sent why]) ∧
       (∀ id, getOffer id c' = if bool_decide (id ∈ offerIds) then None else getOffer id (sd_cache d)) ∧
       (∀ id o t, id ∈ offerIds → getOffer id (sd_cache d) = Some o → t ∈ tasks →
          OfferSlaveId (co_offer o) = TaskSlaveId t →
          ∃ pid, getSlavePid (TaskSlaveId t) c' = Some pid ∧
            ∃ id' o', id' ∈ offerIds ∧ getOffer id' (sd_cache d) = Some o' ∧ co_slavePid o' = pid)).
Proof.
  intros Hd. unfold LaunchTasks, stopped. split_and!.
  - intros Hs. eexists. rewrite crit_bind_run. cbn. by rewrite bool_decide_eq_false_2.
  - intros Hs Hc. eexists. rewrite crit_bind_run. cbn. rewrite Hs, Hc, bool_decide_eq_true_2 by done. done.
  - intros Hs Hc. destruct (sd_masterPid d) as [master|] eqn:Hm; [|by destruct (di_connected _ Hd Hc)].
    set (fwid := FIId (sd_frameworkInfo d)). set (sent := set_framework_id fwid <$> tasks).
    set (m := LaunchTasksMessage fwid offerIds sent refuse).
    exists master, (net_send (env_net env) h (Some master) m), (use_offers offerIds sent (sd_cache d)),
      (match net_send (env_net env) h (Some master) m with
       | Some e => [GoLostTasks sent ("Unable to launch tasks: " +:+ error_text e)] | None => [] end).
    split_and!; [done| | |apply use_offers_get|].
    + rewrite crit_bind_run. cbn. rewrite Hs, Hc, bool_decide_eq_true_2 by done. cbn.
      rewrite crit_bind_run. cbn. rewrite crit_bind_run. unfold send. rewrite Hm. cbn. rewrite !app_nil_r.
      fold fwid sent m. by destruct (net_send (env_net env) h (Some master) m).
    + destruct (net_send (env_net env) h (Some master) m); [right|left]; eauto.
    + intros id o t Hid Ho Ht Hst. apply (use_offers_slave (λ pid, ∃ id' o', id' ∈ offerIds ∧
        getOffer id' (sd_cache d) = Some o' ∧ co_slavePid o' = pid)); [|by eauto|by eauto 6].
      apply list_elem_of_fmap. exists (set_framework_id fwid t). split.
      * unfold set_framework_id. by destruct (ExecFrameworkId (TaskExecutor t)).
      * by apply list_elem_of_fmap_2.
Qed.

Lemma LaunchTasks_branches_witness :
  ∃ (sys : DSystem) master err c' gs, sd_masterPid (ts_state sys) = Some master ∧
    LaunchTasks ["o-1"] [] 5 quiet_env (ts_hist sys) (ts_state sys) =
      Done (DRIVER_RUNNING, err) (with_cache c' (ts_state sys))
        [EvSend (Some master) (LaunchTasksMessage (Some "fw-1") ["o-1"] [] 5)] gs.
Proof.
  destruct (moves_reach quiet_env 2 connect_moves (λ sys, sd_status (ts_state sys) = DRIVER_RUNNING ∧
    sd_connected (ts_state sys) = true ∧ FIId (sd_frameworkInfo (ts_state sys)) = Some "fw-1"))
    as (sys & _ & Hr & Hs & Hc & Hf); [vm_compute; by split|].
  destruct (LaunchTasks_branches quiet_env (ts_hist sys) (ts_state sys) ["o-1"] [] 5
    (ti_inv _ _ _ (ds_reach_inv _ _ Hr))) as (_ & _ & Hl).
  destruct (Hl Hs Hc) as (master & err & c' & gs & Hm & He & _). rewrite Hf in He.
  exists sys, master, err, c', gs. split; [exact Hm|exact He].
Defined.

(** the handler of a status update never panics, changes nothing, and
    either drops the update in silence, or hands it to the scheduler.  It
    acknowledges the update exactly when it gives the scheduler a non-empty
    [uuid], the update's own, and then to the master that sent the update, once, before the
    scheduler sees it; what the driver itself makes up is never acknowledged. *)
Theorem statusUpdated_acknowledgement env h d from update pid :
  dinv d →
  ∃ cb w, statusUpdated from update pid env h d = Done cb d w [] ∧
    (cb = None ∧ w = [] ∨
     ∃ uuid, cb = Some (ScStatusUpdate (UpdStatus update) uuid) ∧ sd_status d = DRIVER_RUNNING ∧
       (uuid = "" ∧ w = [] ∧ (UpdUuid update = "" ∨ Equal (Some from) (sd_self d) = true ∨
          ∃ self, sd_self d = Some self ∧ pid = PidString self) ∨
        uuid = UpdUuid update ∧ uuid ≠ "" ∧ Equal (Some from) (sd_self d) = false ∧
          sd_connected d = true ∧ Equal (sd_masterPid d) (Some from) = true ∧
          ∃ master, sd_masterPid d = Some master ∧
            w = [EvSend (Some master) (StatusUpdateAcknowledgementMessage (UpdSlaveId update)
                   (FIId (sd_frameworkInfo d)) (StatusTaskId (UpdStatus update)) (UpdUuid update))])).
Proof.
  intros Hd. unfold statusUpdated. rewrite crit_bind_run. cbn. rewrite app_nil_r.
  destruct (stopped d) eqn:Hst; [by exists None, []; eauto|].
  destruct (negb (Equal (Some from) (sd_self d)) &&
    (negb (sd_connected d) || negb (Equal (sd_masterPid d) (Some from)))) eqn:Hf;
    [by exists None, []; eauto|].
  apply negb_false_iff, bool_decide_eq_true in Hst.
  destruct (sd_self d) as [self|] eqn:Hself; [|by destruct (di_running _ Hd Hst)].
  destruct (bool_decide (UpdUuid update = "") || Equal (Some from) (Some self) ||
    bool_decide (pid = PidString self)) eqn:Hi.
  - eexists _, []. split; [done|]. right. exists "". split_and!; [done..|]. left. split_and!; [done..|].
    apply orb_true_iff in Hi as [[Hi%bool_decide_eq_true|Hi]%orb_true_iff|Hi%bool_decide_eq_true]; eauto.
  - apply orb_false_iff in Hi as [[Hu%bool_decide_eq_false Hs]%orb_false_iff _]. rewrite Hs in Hf.
    apply orb_false_iff in Hf as [Hc%negb_false_iff Hm%negb_false_iff].
    destruct (sd_masterPid d) as [master|] eqn:Hmp; [|by destruct (di_connected _ Hd Hc)].
    eexists _, _. split; [done|]. right. exists (UpdUuid update). split_and!; [done..|]. right. eauto 10.
Qed.

Lemma statusUpdated_acknowledgement_witness :
  ∃ (sys : DSystem) cb w, sd_connected (ts_state sys) = true ∧
    statusUpdated test_master (mkUpdate (Some "fw-1") "e" "s" (mkStatus "t" TASK_RUNNING None) "" "u-1") "slave(1)@h:1"
      quiet_env (ts_hist sys) (ts_state sys) = Done cb (ts_state sys) w [].
Proof.
  destruct connect_run as (sys & _ & Hr & Hc).
  destruct (statusUpdated_acknowledgement quiet_env (ts_hist sys) (ts_state sys) test_master
    (mkUpdate (Some "fw-1") "e" "s" (mkStatus "t" TASK_RUNNING None) "" "u-1") "slave(1)@h:1"
    (ti_inv _ _ _ (ds_reach_inv _ _ Hr))) as (cb & w & He & _).
  exists sys, cb, w. split; [exact Hc|exact He].
Defined.

(** *** Accepting offers *)

Lemma FilterResources_twice {R} (rs : list R) f : FilterResources (FilterResources rs f) f = FilterResources rs f.
Proof.
  induction rs as [|r rs IH]; [done|]. cbn. destruct (f r) eqn:Hr; cbn; [|done]. by rewrite Hr, IH.
Qed.

Lemma set_framework_id_twice fwid t : set_framework_id fwid (set_framework_id fwid t) = set_framework_id fwid t.
Proof.
  destruct t as [a b c e ex r di]; destruct ex as [ei ef en es ec er]; unfold set_framework_id; cbn.
  destruct ef; cbn; [done|]. by destruct fwid.
Qed.

Lemma fix_operation_twice fwid (ops : list Offer_Operation) :
  fix_operation fwid <$> (fix_operation fwid <$> ops) = fix_operation fwid <$> ops.
Proof.
  rewrite <- list_fmap_compose. apply list_fmap_ext. intros _ op _. destruct op; cbn; f_equal;
    try apply FilterResources_twice.
  rewrite <- list_fmap_compose. apply list_fmap_ext. intros _ t _. apply set_framework_id_twice.
Qed.

(** The offers of a call that are cached, each counted once. *)
Definition cached_offers (ids : list string) (c : schedCache) : gset string :=
  list_to_set ids ∩ dom (savedOffers c).

Lemma size_cons_inter (X D : gset string) x : x ∈ D → size (({[x]} ∪ X) ∩ D) = S (size (X ∩ (D ∖ {[x]}))).
Proof.
  intros Hx. replace (({[x]} ∪ X) ∩ D) with ({[x]} ∪ X ∩ (D ∖ {[x]})).
  - rewrite size_union by set_solver. by rewrite size_singleton.
  - apply set_eq. intros y. destruct (decide (y = x)); set_solver.
Qed.

Lemma accept_loop_operations fwid ids c ops ok ops0 :
  ops = ops0 ∨ ops = fix_operation fwid <$> ops0 →
  (accept_loop fwid ids (c, ops, ok)).2 =
  ok ++ concat (replicate (size (cached_offers ids c)) (fix_operation fwid <$> ops0)).
Proof.
  revert c ops ok. induction ids as [|id ids IH]; intros c ops ok Hops; cbn [accept_loop].
  { unfold cached_offers. cbn. rewrite intersection_empty_l_L, size_empty. cbn. by rewrite app_nil_r. }
  unfold containsOffer. case_bool_decide as Hid.
  - assert (Hfix : fix_operation fwid <$> ops = fix_operation fwid <$> ops0).
    { destruct Hops as [->| ->]; [done|apply fix_operation_twice]. }
    rewrite Hfix, IH by by right. rewrite <- app_assoc. f_equal.
    replace (size (cached_offers (id :: ids) c)) with
      (S (size (cached_offers ids (removeOffer id (note_operations id (fix_operation fwid <$> ops0) c))))); [done|].
    unfold cached_offers, removeOffer. cbn. rewrite note_operations_offers, dom_delete_L.
    apply elem_of_dom in Hid.
    symmetry. by apply size_cons_inter.
  - rewrite IH by done. do 4 f_equal. unfold cached_offers, removeOffer. cbn. rewrite dom_delete_L.
    rewrite <- elem_of_dom in Hid.
    apply set_eq. intros x. destruct (decide (x = id)); set_solver.
Qed.

(** The tasks of each launch are left to a thread of their own. *)
Lemma lose_operations_run ops why env h d :
  lose_operations ops why env h d =
  Done tt d [] (omap (λ op, match op with OpLaunch ts => Some (GoLostTasks ts why) | _ => None end) ops).
Proof.
  revert h. induction ops as [|op ops IH]; intros h; [done|].
  destruct op; cbn [lose_operations omap list_omap]; try apply IH. rewrite crit_bind_run. cbn. by rewrite IH.
Qed.

(** [AcceptOffers] of a connected driver sends one call, with the offers as
    given and every operation repeated once for each of the offers that is
    cached: a launch on two cached offers is sent twice. *)
Theorem AcceptOffers_repeats_operations env h d offerIds operations refuse :
  dinv d → sd_status d = DRIVER_RUNNING → sd_connected d = true →
  ∃ master a d' gs, sd_masterPid d = Some master ∧
    AcceptOffers offerIds operations refuse env h d =
      Done a d' [EvSend (Some master) (AcceptCall (FIId (sd_frameworkInfo d)) offerIds
        (concat (replicate (size (cached_offers offerIds (sd_cache d)))
           (fix_operation (FIId (sd_frameworkInfo d)) <$> operations))) refuse)] gs.
Proof.
  intros Hd Hs Hc. destruct (sd_masterPid d) as [master|] eqn:Hm; [|by destruct (di_connected _ Hd Hc)].
  pose proof (accept_loop_operations (FIId (sd_frameworkInfo d)) offerIds (sd_cache d) operations [] operations
    (or_introl eq_refl)) as Hok. cbn [app] in Hok. rewrite <- Hok. clear Hok.
  unfold AcceptOffers, stopped. rewrite crit_bind_run. cbn. rewrite Hs, Hc, bool_decide_eq_true_2 by done. cbn.
  destruct (accept_loop _ offerIds _) as [[c ops'] ok]. cbn. rewrite !crit_bind_run. cbn.
  rewrite crit_bind_run. unfold send. rewrite Hm. cbn.
  destruct (net_send _ _ _ _) as [e|]; [|by eauto 6]. rewrite crit_bind_run, lose_operations_run. cbn. eauto 6.
Qed.

(** Two offers of one slave, cached, and a launch. *)
Definition offer_moves : list (Move Input) :=
  connect_moves ++
  [MInput (InOffers [mkOffer "o-1" "s" "h" []; mkOffer "o-2" "s" "h" []]
     ["slave(1)@10.0.0.9:5051"; "slave(1)@10.0.0.9:5051"]);
   MThread 4; MThread 4].

Lemma AcceptOffers_repeats_operations_witness :
  ∃ (sys : DSystem) master a d' gs, sd_masterPid (ts_state sys) = Some master ∧
    AcceptOffers ["o-1"; "o-2"] [OpLaunch []] 5 quiet_env (ts_hist sys) (ts_state sys) =
      Done a d' [EvSend (Some master) (AcceptCall (Some "fw-1") ["o-1"; "o-2"] [OpLaunch []; OpLaunch []] 5)] gs.
Proof.
  destruct (moves_reach quiet_env 2 offer_moves (λ sys, sd_status (ts_state sys) = DRIVER_RUNNING ∧
    sd_connected (ts_state sys) = true ∧ FIId (sd_frameworkInfo (ts_state sys)) = Some "fw-1" ∧
    size (cached_offers ["o-1"; "o-2"] (sd_cache (ts_state sys))) = 2))
    as (sys & _ & Hr & Hs & Hc & Hf & H2); [vm_compute; by split_and!|].
  destruct (AcceptOffers_repeats_operations quiet_env (ts_hist sys) (ts_state sys) ["o-1"; "o-2"] [OpLaunch []] 5
    (ti_inv _ _ _ (ds_reach_inv _ _ Hr)) Hs Hc) as (master & a & d' & gs & Hm & He).
  rewrite Hf, H2 in He. exists sys, master, a, d', gs. split; [exact Hm|exact He].
Defined.

(** The message of [AcceptOffers] for a message of [LaunchTasks]. *)
Definition as_accept (e : Event) : Event :=
  match e with
  | EvSend to (LaunchTasksMessage fwid ids ts refuse) => EvSend to (AcceptCall fwid ids [OpLaunch ts] refuse)
  | _ => e
  end.

(** on one cached offer the two ways to launch are the same: [AcceptOffers] with one
    launch operation gives the answer, the new state and the goroutines of
    [LaunchTasks], and its messages are the same up to their form, in every
    state of the driver and whether or not the message can be sent. *)
Theorem AcceptOffers_LaunchTasks_equiv env h d o tasks refuse :
  dinv d → containsOffer o (sd_cache d) = true →
  (∀ to m m', net_send (env_net env) h to m = net_send (env_net env) h to m') →
  ∃ a d' w gs, LaunchTasks [o] tasks refuse env h d = Done a d' w gs ∧
    AcceptOffers [o] [OpLaunch tasks] refuse env h d = Done a d' (as_accept <$> w) gs.
Proof.
  intros Hd Ho Hsend. unfold LaunchTasks, AcceptOffers, stopped, unable. rewrite !crit_bind_run. cbn. rewrite Ho.
  destruct (bool_decide (sd_status d = DRIVER_RUNNING)) eqn:Hs; cbn; [|by repeat eexists].
  destruct (sd_connected d) eqn:Hc; cbn; [|by repeat eexists].
  destruct (sd_masterPid d) as [master|] eqn:Hm; [|by destruct (di_connected _ Hd Hc)].
  rewrite !crit_bind_run. cbn. rewrite !app_nil_r, !crit_bind_run. cbn.
  rewrite (Hsend _ (AcceptCall _ _ _ _) (LaunchTasksMessage (FIId (sd_frameworkInfo d)) [o]
    (set_framework_id (FIId (sd_frameworkInfo d)) <$> tasks) refuse)).
  destruct (net_send _ _ _ _); by repeat eexists.
Qed.

Lemma AcceptOffers_LaunchTasks_equiv_witness :
  ∃ (sys : DSystem) a d' w gs, LaunchTasks ["o-1"] [] 5 quiet_env (ts_hist sys) (ts_state sys) = Done a d' w gs ∧
    AcceptOffers ["o-1"] [OpLaunch []] 5 quiet_env (ts_hist sys) (ts_state sys) = Done a d' (as_accept <$> w) gs.
Proof.
  destruct (moves_reach quiet_env 2 offer_moves (λ sys, containsOffer "o-1" (sd_cache (ts_state sys)) = true))
    as (sys & _ & Hr & Ho); [vm_compute; reflexivity|].
  exists sys. exact (AcceptOffers_LaunchTasks_equiv quiet_env (ts_hist sys) (ts_state sys) "o-1" [] 5
    (ti_inv _ _ _ (ds_reach_inv _ _ Hr)) Ho (λ _ _ _, eq_refl)).
Defined.

(** ** Registration *)

(** The registration loop.  While nobody answers and messages can be sent, a
    running driver with a master sends it the registration again, once for
    each of its attempts: the first registration of a framework without an identifier,
    otherwise a re-registration that carries the failover flag.  A driver that
    is connected or no longer runs sends nothing and ends the loop. *)
Theorem registration_retried env h d fuel b master :
  sd_masterPid d = Some master → (∀ h to m, net_send (env_net env) h to m = None) → sd_stopCh d = false →
  run_alone (3 * fuel) env h d (doReliableRegistration fuel b) =
    Done (mret tt) d
      (if stopped d || sd_connected d || (sd_credential d && negb (sd_authenticated d)) then []
       else replicate fuel (EvSend (Some master)
              (match FIId (sd_frameworkInfo d) with
               | None | Some "" => RegisterFrameworkMessage (sd_frameworkInfo d)
               | Some _ => ReregisterFrameworkMessage (sd_frameworkInfo d) (sd_failover d)
               end))) [].
Proof.
  intros Hm Hs Hc.
  set (m := match FIId (sd_frameworkInfo d) with
            | None | Some "" => RegisterFrameworkMessage (sd_frameworkInfo d)
            | Some _ => ReregisterFrameworkMessage (sd_frameworkInfo d) (sd_failover d)
            end).
  assert (Hmsg : registration_message (sd_failover d) (sd_frameworkInfo d) = m).
  { unfold registration_message, GetFrameworkId, m. destruct (FIId (sd_frameworkInfo d)) as [[|a i]|]; done. }
  revert h b. induction fuel as [|fuel IH]; intros h b; [by destruct (_ || _)|].
  replace (3 * S fuel) with (S (S (S (3 * fuel)))) by lia.
  cbn [doReliableRegistration registerOnce mbind proc_bind proc_bind_go atomic run_alone proc_step].
  unfold registration at 1. rewrite crit_bind_run. cbn. rewrite Hm.
  destruct (stopped d || sd_connected d || (sd_credential d && negb (sd_authenticated d))) eqn:Hstop; cbn.
  - by destruct fuel.
  - rewrite Hs, Hmsg. cbn. rewrite Hc. rewrite app_nil_r. by rewrite IH.
Qed.

Lemma registration_retried_witness :
  ∃ sys : DSystem, sd_masterPid (ts_state sys) = Some test_master ∧
    run_alone 9 quiet_env (ts_hist sys) (ts_state sys) (doReliableRegistration 3 1) =
      Done (mret tt) (ts_state sys)
        (replicate 3 (EvSend (Some test_master) (RegisterFrameworkMessage test_framework))) [].
Proof.
  destruct (moves_reach quiet_env 2 (take 4 connect_moves) (λ sys,
    sd_masterPid (ts_state sys) = Some test_master ∧ sd_stopCh (ts_state sys) = false ∧
    (stopped (ts_state sys) || sd_connected (ts_state sys) ||
     (sd_credential (ts_state sys) && negb (sd_authenticated (ts_state sys)))) = false ∧
    sd_frameworkInfo (ts_state sys) = test_framework))
    as (sys & _ & _ & Hm & Hc & Hs & Hf); [vm_compute; by split_and!|].
  exists sys. split; [exact Hm|]. change 9 with (3 * 3).
  rewrite (registration_retried quiet_env (ts_hist sys) (ts_state sys) 3 1 test_master Hm (λ _ _ _, eq_refl) Hc).
  rewrite Hs, Hf. reflexivity.
Defined.
