(* ===== verification/Scheduler.v ===== *)
(** * The scheduler (src/scheduler/scheduler.go)

    The fields of [EtcdScheduler] that never change after construction are the
    configuration; the others are the shared state.  Every method is a [crit]
    (it holds the lock throughout, or is one atomic operation) or a [proc] (a
    sequence of such sections).  The body of a [for] without end is one
    iteration.  The scheduler is written against the [OfferStore] interface. *)

From Stdlib Require Import Ascii Floats.
From stdpp Require Import base strings list gmap sorting.
From S2P Require Import Prelude GoStd Errors Json Config Codec Mesos OfferStore World Rpc Zk.
From S2P Require Import Goroutine HttpMux.

(** ** Data *)

Definition portsPerTask : Z := 3.
Definition notReseeding : Z := 0.
Definition reseedUnderway : Z := 1.
(** 0.1, to the nearest binary64. *)
Definition executorWantsCpus : float := 0x1.999999999999ap-4%float.
Definition executorWantsMem : float := 32%float.
Definition executorWantsPorts : Z := 1.

Inductive State := Mutable | Immutable.

#[export] Instance State_eq_dec : EqDecision State.
Proof. solve_decision. Defined.

Record Stats := mkStats {
  RunningServers : Z;
  LaunchedServers : Z;
  FailedServers : Z;
  ClusterLivelocks : Z;
  ClusterReseeds : Z;
  IsHealthy : Z;
}.

Record OfferResources_ := mkOfferResources {
  res_cpus : float;
  res_mems : float;
  res_disk : float;
  res_ports : list Value_Range;
}.

(** The fields that the constructor and the command line set once.  [shutdown]
    says whether the hook is there; the one the constructor installs exits. *)
Record SchedulerConfig := mkConfig {
  Master : string;
  ExecutorPath : string;
  EtcdPath : string;
  FrameworkName : string;
  ZkConnect : string;
  ZkChroot : string;
  ZkServers : list string;
  singleInstancePerSlave : bool;
  desiredInstanceCount : Z;
  healthCheck : gmap string Node → IO (option error);
  shutdown : bool;
  reconciliationInfoFunc : list string → string → string → IO (gomap string * option error);
  updateReconciliationInfoFunc :
    gmap string string → list string → string → string → IO (option error);
  executorUris : list string;
  diskPerTask : float;
  cpusPerTask : float;
  memPerTask : float;
  offerRefuseSeconds : float;
  chillSeconds : Z;
  autoReseedEnabled : bool;
  reseedTimeout : Z;
}.

(** The configuration part of [NewEtcdScheduler]; the command line then sets the
    exported fields. *)
Definition NewConfig (desired chill reseed : Z) (autoReseed : bool) (uris : list string)
    (single : bool) (disk cpus mem refuse : float) : SchedulerConfig :=
  mkConfig "" "" "" "" "" "" [] single desired HealthCheck true GetPreviousReconciliationInfo
    UpdateReconciliationInfo uris disk cpus mem refuse chill autoReseed (i64 (second * reseed)).

(** The fields the methods change.  A channel of empty structs is the number of
    elements it holds; the master's task handles are the task identifiers.
    [reconciliationInfo] is the map that the field of this name refers to, [oldMaps] those it
    referred to before, in order: a goroutine may still hold one of them. *)
Record EtcdScheduler (T : Type) := mkSched {
  Stats_ : Stats;
  state : State;
  frameworkID : option string;
  masterInfo : option MasterInfo;
  pending : gset string;
  running : gmap string Node;
  heardFrom : gset string;
  tasks : gmap string string;
  highestInstanceID : Z;
  offerCache : T;
  launchChan : nat;
  pauseChan : nat;
  livelockWindow : option Z;
  reseeding : Z;
  reconciliationInfo : gomap string;
  oldMaps : list (gomap string);
}.
Arguments mkSched {T}.
Arguments Stats_ {T}.
Arguments state {T}.
Arguments frameworkID {T}.
Arguments masterInfo {T}.
Arguments pending {T}.
Arguments running {T}.
Arguments heardFrom {T}.
Arguments tasks {T}.
Arguments highestInstanceID {T}.
Arguments offerCache {T}.
Arguments launchChan {T}.
Arguments pauseChan {T}.
Arguments livelockWindow {T}.
Arguments reseeding {T}.
Arguments reconciliationInfo {T}.
Arguments oldMaps {T}.

Section Setters.
Context {T : Type}.
Implicit Types s : EtcdScheduler T.

Definition with_Stats (v : Stats) s : EtcdScheduler T :=
  mkSched v (state s) (frameworkID s) (masterInfo s) (pending s) (running s) (heardFrom s)
    (tasks s) (highestInstanceID s) (offerCache s) (launchChan s) (pauseChan s)
    (livelockWindow s) (reseeding s) (reconciliationInfo s) (oldMaps s).
Definition with_state (v : State) s : EtcdScheduler T :=
  mkSched (Stats_ s) v (frameworkID s) (masterInfo s) (pending s) (running s) (heardFrom
    s) (tasks s) (highestInstanceID s) (offerCache s) (launchChan s) (pauseChan s)
    (livelockWindow s) (reseeding s) (reconciliationInfo s) (oldMaps s).
Definition with_frameworkID (v : option string) s : EtcdScheduler T :=
  mkSched (Stats_ s) (state s) v (masterInfo s) (pending s) (running s) (heardFrom s)
    (tasks s) (highestInstanceID s) (offerCache s) (launchChan s) (pauseChan s)
    (livelockWindow s) (reseeding s) (reconciliationInfo s) (oldMaps s).
Definition with_masterInfo (v : option MasterInfo) s : EtcdScheduler T :=
  mkSched (Stats_ s) (state s) (frameworkID s) v (pending s) (running s) (heardFrom s)
    (tasks s) (highestInstanceID s) (offerCache s) (launchChan s) (pauseChan s)
    (livelockWindow s) (reseeding s) (reconciliationInfo s) (oldMaps s).
Definition with_pending (v : gset string) s : EtcdScheduler T :=
  mkSched (Stats_ s) (state s) (frameworkID s) (masterInfo s) v (running s) (heardFrom s)
    (tasks s) (highestInstanceID s) (offerCache s) (launchChan s) (pauseChan s)
    (livelockWindow s) (reseeding s) (reconciliationInfo s) (oldMaps s).
Definition with_running (v : gmap string Node) s : EtcdScheduler T :=
  mkSched (Stats_ s) (state s) (frameworkID s) (masterInfo s) (pending s) v (heardFrom s)
    (tasks s) (highestInstanceID s) (offerCache s) (launchChan s) (pauseChan s)
    (livelockWindow s) (reseeding s) (reconciliationInfo s) (oldMaps s).
Definition with_heardFrom (v : gset string) s : EtcdScheduler T :=
  mkSched (Stats_ s) (state s) (frameworkID s) (masterInfo s) (pending s) (running s) v
    (tasks s) (highestInstanceID s) (offerCache s) (launchChan s) (pauseChan s)
    (livelockWindow s) (reseeding s) (reconciliationInfo s) (oldMaps s).
Definition with_tasks (v : gmap string string) s : EtcdScheduler T :=
  mkSched (Stats_ s) (state s) (frameworkID s) (masterInfo s) (pending s) (running s)
    (heardFrom s) v (highestInstanceID s) (offerCache s) (launchChan s) (pauseChan s)
    (livelockWindow s) (reseeding s) (reconciliationInfo s) (oldMaps s).
Definition with_highestInstanceID (v : Z) s : EtcdScheduler T :=
  mkSched (Stats_ s) (state s) (frameworkID s) (masterInfo s) (pending s) (running s)
    (heardFrom s) (tasks s) v (offerCache s) (launchChan s) (pauseChan s) (livelockWindow
    s) (reseeding s) (reconciliationInfo s) (oldMaps s).
Definition with_offerCache (v : T) s : EtcdScheduler T :=
  mkSched (Stats_ s) (state s) (frameworkID s) (masterInfo s) (pending s) (running s)
    (heardFrom s) (tasks s) (highestInstanceID s) v (launchChan s) (pauseChan s)
    (livelockWindow s) (reseeding s) (reconciliationInfo s) (oldMaps s).
Definition with_launchChan (v : nat) s : EtcdScheduler T :=
  mkSched (Stats_ s) (state s) (frameworkID s) (masterInfo s) (pending s) (running s)
    (heardFrom s) (tasks s) (highestInstanceID s) (offerCache s) v (pauseChan s)
    (livelockWindow s) (reseeding s) (reconciliationInfo s) (oldMaps s).
Definition with_pauseChan (v : nat) s : EtcdScheduler T :=
  mkSched (Stats_ s) (state s) (frameworkID s) (masterInfo s) (pending s) (running s)
    (heardFrom s) (tasks s) (highestInstanceID s) (offerCache s) (launchChan s) v
    (livelockWindow s) (reseeding s) (reconciliationInfo s) (oldMaps s).
Definition with_livelockWindow (v : option Z) s : EtcdScheduler T :=
  mkSched (Stats_ s) (state s) (frameworkID s) (masterInfo s) (pending s) (running s)
    (heardFrom s) (tasks s) (highestInstanceID s) (offerCache s) (launchChan s) (pauseChan
    s) v (reseeding s) (reconciliationInfo s) (oldMaps s).
Definition with_reseeding (v : Z) s : EtcdScheduler T :=
  mkSched (Stats_ s) (state s) (frameworkID s) (masterInfo s) (pending s) (running s)
    (heardFrom s) (tasks s) (highestInstanceID s) (offerCache s) (launchChan s) (pauseChan
    s) (livelockWindow s) v (reconciliationInfo s) (oldMaps s).
(** The contents of the present map change. *)
Definition with_reconciliationInfo (v : gomap string) s : EtcdScheduler T :=
  mkSched (Stats_ s) (state s) (frameworkID s) (masterInfo s) (pending s) (running s)
    (heardFrom s) (tasks s) (highestInstanceID s) (offerCache s) (launchChan s) (pauseChan
    s) (livelockWindow s) (reseeding s) v (oldMaps s).
(** Another map is assigned to the field. *)
Definition assign_reconciliationInfo (v : gomap string) s : EtcdScheduler T :=
  mkSched (Stats_ s) (state s) (frameworkID s) (masterInfo s) (pending s) (running s)
    (heardFrom s) (tasks s) (highestInstanceID s) (offerCache s) (launchChan s) (pauseChan
    s) (livelockWindow s) (reseeding s) v (oldMaps s ++ [reconciliationInfo s]).
(** The present contents of the map that was assigned as number [ref]. *)
Definition map_at (ref : nat) s : gomap string := (oldMaps s ++ [reconciliationInfo s]) !!! ref.
End Setters.

Definition stats_running (v : Z) (st : Stats) : Stats :=
  mkStats v (LaunchedServers st) (FailedServers st) (ClusterLivelocks st) (ClusterReseeds st) (IsHealthy st).
Definition stats_launched (st : Stats) : Stats :=
  mkStats (RunningServers st) (u32 (LaunchedServers st + 1)) (FailedServers st) (ClusterLivelocks st)
    (ClusterReseeds st) (IsHealthy st).
Definition stats_failed (st : Stats) : Stats :=
  mkStats (RunningServers st) (LaunchedServers st) (u32 (FailedServers st + 1)) (ClusterLivelocks st)
    (ClusterReseeds st) (IsHealthy st).
Definition stats_livelocks (st : Stats) : Stats :=
  mkStats (RunningServers st) (LaunchedServers st) (FailedServers st) (u32 (ClusterLivelocks st + 1))
    (ClusterReseeds st) (IsHealthy st).
Definition stats_reseeds (st : Stats) : Stats :=
  mkStats (RunningServers st) (LaunchedServers st) (FailedServers st) (ClusterLivelocks st)
    (u32 (ClusterReseeds st + 1)) (IsHealthy st).
Definition stats_healthy (v : Z) (st : Stats) : Stats :=
  mkStats (RunningServers st) (LaunchedServers st) (FailedServers st) (ClusterLivelocks st)
    (ClusterReseeds st) v.

(** The goroutines that the methods start with [go]. *)
Inductive Goroutine :=
  | GoSync
  | GoRescind (offer : Offer)
  | GoReseed.

(** ** Offers *)

Definition getResources (offer : Offer) (resourceName : string) : list Resource :=
  FilterResources (OfferResources offer) (λ res, bool_decide (RName res = resourceName)).

Definition sum_scalars (rs : list Resource) : float :=
  foldl (λ acc res, (acc + GetScalarValue res)%float) 0%float rs.

Definition parseOffer (offer : Offer) : OfferResources_ :=
  mkOfferResources
    (sum_scalars (getResources offer "cpus"))
    (sum_scalars (getResources offer "mem"))
    (sum_scalars (getResources offer "disk"))
    (foldl (λ ports res, ports ++ GetRange res) [] (getResources offer "ports")).

(** [totalPorts += ( *pr.End + 1 ) - *pr.Begin] on [uint64]. *)
Definition total_ports (ports : list Value_Range) : Z :=
  foldl (λ total pr, u64 (total + u64 (u64 (End_ pr + 1) - Begin pr))) 0%Z ports.

(** The resources of the offer are enough for the task and its executor. *)
Definition sufficient (cfg : SchedulerConfig) (resources : OfferResources_) : bool :=
  let cpusWanted := (cpusPerTask cfg + executorWantsCpus)%float in
  let memWanted := (memPerTask cfg + executorWantsMem)%float in
  let portsWanted := (portsPerTask + executorWantsPorts)%Z in
  (cpusWanted <=? res_cpus resources)%float && (memWanted <=? res_mems resources)%float &&
  bool_decide (portsWanted ≤ total_ports (res_ports resources))%Z &&
  (diskPerTask cfg <=? res_disk resources)%float.

(** Some running node is on the slave. *)
Definition slave_in_use (running : gmap string Node) (slave : string) : bool :=
  existsb (λ kv, bool_decide (SlaveID kv.2 = slave)) (map_to_list running).

Section Scheduler.
Context {T : Type} `{!OfferStore T}.
Context (cfg : SchedulerConfig).

Notation Sched := (EtcdScheduler T).
Notation C := (crit (EtcdScheduler T) Goroutine).
Notation P := (proc (EtcdScheduler T) Goroutine).

(** [NewEtcdScheduler]: the initial state; [make(chan struct{}, 2048)]. *)
Definition chan_capacity : nat := Z.to_nat 2048.

Definition NewEtcdScheduler : IO Sched :=
  now ← Now;
  mret (mkSched (mkStats 0 0 0 0 0 1) Immutable None None ∅ ∅ ∅ ∅ (now / second)%Z
          (os_new (Z.to_nat (desiredInstanceCount cfg)) (singleInstancePerSlave cfg))
          0 0 None notReseeding (Some ∅) []).

(** ** Helpers *)

Definition decline (offer : Offer) : C unit := emit_event (EvDecline (OfferId offer)).

Definition RunningCopy : C (gmap string Node) := s ← get_state; mret (running s).

(** A send that drops the value when the channel is full. *)
Definition QueueLaunchAttempt : C unit :=
  modify (λ s, if bool_decide (launchChan s < chan_capacity)
               then with_launchChan (S (launchChan s)) s else s).

Definition PumpTheBrakes : C unit :=
  modify (λ s, if bool_decide (pauseChan s < chan_capacity)
               then with_pauseChan (S (pauseChan s)) s else s).

(** [if s.shutdown != nil { s.shutdown() }]; what follows is reached only with a
    hook that returns. *)
Definition call_shutdown : C unit := if shutdown cfg then emit_event EvShutdown else mret tt.

Definition sleep (d : Z) : P unit := atomic (lift_io (Sleep d)).

Definition ReconcileTasks (statuses : list TaskStatus) : C (option error) :=
  lift_io (act (EvReconcile statuses) (λ env h, env_reconcile env h statuses)).

(** ** Synchronising with the master *)

(** Every task of the reconciliation map was heard from. *)
Definition in_sync (s : Sched) : bool :=
  forallb (λ kv, bool_decide (kv.1 ∈ heardFrom s)) (map_to_list (entries (reconciliationInfo s))).

Definition isInSync : C bool := s ← get_state; mret (in_sync s).

Fixpoint wait_loop (retries : nat) (backoff : Z) : P (option error) :=
  match retries with
  | O => mret (Some (ErrNew "Unable to sync with master."))
  | S retries =>
      s ← atomic get_state;
      match masterInfo s ≫= MIHostname with
      | None => mret (Some (ErrNew "No master info."))
      | Some _ =>
          ok ← atomic isInSync;
          if (ok : bool) then mret None else
          _ ← sleep (backoff * second);
          wait_loop retries (next_backoff backoff)
      end
  end.

Definition waitForMasterSync : P (option error) := wait_loop 5 1.

(** The explicit reconciliation request for the persisted tasks. *)
Definition running_status (kv : string * string) : TaskStatus :=
  mkStatus kv.1 TASK_RUNNING (Some kv.2).

(** The previous map is installed under the lock; its reference is kept. *)
Definition install_previous (previous : gomap string) : C nat :=
  _ ← modify (assign_reconciliationInfo previous);
  s ← get_state; mret (length (oldMaps s)).

(** It is listed after the lock was released: [StatusUpdate] may have written to it, and
    [Initialize] or another synchronisation may have replaced it. *)
Definition list_previous (ref : nat) : C (list TaskStatus) :=
  s ← get_state;
  order ← lift_io (range (entries (map_at ref s)));
  mret (running_status <$> order).

Fixpoint sync_loop (retries : nat) (backoff : Z) : P unit :=
  match retries with
  | O => atomic call_shutdown
  | S retries =>
      prev ← atomic (lift_io (reconciliationInfoFunc cfg (ZkServers cfg) (ZkChroot cfg) (FrameworkName cfg)));
      match prev.2 with
      | None =>
          ref ← atomic (install_previous prev.1);
          statuses ← atomic (list_previous ref);
          e1 ← atomic (ReconcileTasks []);
          match e1 with
          | Some _ => sync_loop retries backoff
          | None =>
              e2 ← atomic (ReconcileTasks statuses);
              match e2 with
              | Some _ => _ ← sleep (backoff * second); sync_loop retries (next_backoff backoff)
              | None =>
                  e3 ← waitForMasterSync;
                  match e3 with
                  | Some _ => _ ← sleep (backoff * second); sync_loop retries (next_backoff backoff)
                  | None => atomic (modify (with_state Mutable))
                  end
              end
          end
      | Some _ => _ ← sleep (backoff * second); sync_loop retries (next_backoff backoff)
      end
  end.

Definition attemptMasterSync : P unit := sync_loop 5 1.

Definition Initialize (mi : MasterInfo) : C unit :=
  _ ← modify (λ s, with_masterInfo (Some mi) (assign_reconciliationInfo (Some ∅)
                     (with_heardFrom ∅ (with_running ∅ s))));
  spawn GoSync.

(** ** Mesos callbacks *)

Definition Registered (fwid : string) (mi : MasterInfo) : P unit :=
  _ ← atomic (modify (with_frameworkID (Some fwid)));
  _ ← (if bool_decide (ZkConnect cfg = "") then mret tt else
       err ← atomic (lift_io (PersistFrameworkID fwid (ZkServers cfg) (ZkChroot cfg) (FrameworkName cfg)));
       if bool_decide (err = None) || bool_decide (err = Some ErrZkNodeExists) then mret tt
       else atomic call_shutdown);
  atomic (Initialize mi).

Definition Reregistered (mi : MasterInfo) : P unit := atomic (Initialize mi).

Definition Disconnected : C unit := modify (with_state Immutable).

(** [s.offerCache.Push(offer)] and [Rescind], each under the cache's own lock, and the two
    steps of [BlockingPop]: a receive without the lock, and the lookup under it. *)
Definition cache_push (offer : Offer) : C bool := λ env h s,
  let r := os_push offer (offerCache s) in Done r.1 (with_offerCache r.2 s) [] [].
Definition cache_rescind (id : string) : C bool := λ env h s,
  let r := os_rescind id (offerCache s) in Done r.1 (with_offerCache r.2 s) [] [].
Definition cache_recv : C Offer := λ env h s,
  match os_recv (offerCache s) with
  | Some (o, t) => Done o (with_offerCache t s) [] []
  | None => Blocked
  end.
Definition cache_take (offer : Offer) : C bool := λ env h s,
  let r := os_take offer (offerCache s) in Done r.1 (with_offerCache r.2 s) [] [].

(** The body of the loop of [ResourceOffers]. *)
Definition resource_offer (offer : Offer) : P unit :=
  let resources := parseOffer offer in
  declined ← atomic (s ← get_state;
                     if bool_decide (state s = Immutable) then _ ← decline offer; mret true
                     else mret false);
  if (declined : bool) then mret tt else
  runningCopy ← atomic RunningCopy;
  if slave_in_use runningCopy (OfferSlaveId offer) && singleInstancePerSlave cfg
  then atomic (decline offer)
  else if sufficient cfg resources then
    pushed ← atomic (cache_push offer);
    if (pushed : bool) then
      _ ← atomic (spawn (GoRescind offer));
      atomic QueueLaunchAttempt
    else atomic (decline offer)
  else atomic (decline offer).

Definition ResourceOffers (offers : list Offer) : P unit := proc_each offers resource_offer.

(** The goroutine that declines a cached offer when nobody took it in time. *)
Definition rescind_timer (offer : Offer) : P unit :=
  _ ← sleep (i64 (Z.quot (chillSeconds cfg) 2 * second));
  rescinded ← atomic (cache_rescind (OfferId offer));
  if (rescinded : bool) then atomic (decline offer) else mret tt.

Definition is_terminal (st : TaskState) : bool :=
  match st with
  | TASK_LOST | TASK_FINISHED | TASK_KILLED | TASK_ERROR | TASK_FAILED => true
  | _ => false
  end.

(** The index of a name of the form [etcd-<index>]. *)
Definition name_index (name : string) : option Z :=
  match Split name "-" with [_; i] => ParseInt i | _ => None end.

(** [if etcdIndex > s.highestInstanceID { s.highestInstanceID = etcdIndex + 1 }]. *)
Definition bump_index (name : string) (highest : Z) : Z :=
  match name_index name with
  | Some i => if bool_decide (highest < i)%Z then i64 (i + 1) else highest
  | None => highest
  end.

(** A task ended. *)
Definition task_lost (name taskId : string) : C unit :=
  _ ← modify (λ s, with_Stats (stats_failed (Stats_ s)) s);
  _ ← PumpTheBrakes;
  _ ← modify (λ s, with_pending (pending s ∖ {[name]}) s);
  _ ← modify (λ s, with_running (delete name (running s)) s);
  _ ← modify (λ s, with_tasks (delete name (tasks s)) s);
  _ ← modify (λ s, with_reconciliationInfo (delete taskId <$> reconciliationInfo s) s);
  _ ← QueueLaunchAttempt;
  modify (λ s, if bool_decide (size (running s) = 0) && bool_decide (state s = Mutable)
               then with_state Immutable s else s).

(** An assignment to an entry of the reconciliation map, which panics when the map is nil. *)
Definition file_task (taskId slaveId : string) : C unit :=
  s ← get_state;
  match reconciliationInfo s with
  | None => crash
  | Some m => modify (with_reconciliationInfo (Some (<[taskId := slaveId]> m)))
  end.

(** A task runs. *)
Definition task_running (node : Node) (taskId slaveId : string) : C unit :=
  _ ← file_task taskId slaveId;
  s ← get_state;
  _ ← lift_io (updateReconciliationInfoFunc cfg (entries (reconciliationInfo s)) (ZkServers cfg)
                 (ZkChroot cfg) (FrameworkName cfg));
  _ ← modify (λ s, with_pending (pending s ∖ {[Name node]}) s);
  _ ← modify (λ s, match running s !! Name node with
                   | Some _ => s
                   | None => with_tasks (<[Name node := taskId]> (tasks s))
                               (with_running (<[Name node := node]> (running s)) s)
                   end);
  modify (λ s, with_highestInstanceID (bump_index (Name node) (highestInstanceID s)) s).

Definition StatusUpdate (status : TaskStatus) : C unit :=
  let taskId := StatusTaskId status in
  match Parse taskId with
  | Err _ => mret tt
  | Ok n =>
      let node := mkNode (Name n) (Host n) (RPCPort n) (ClientPort n) (ReseedPort n) (Type_ n)
                    (GetSlaveIdValue status) in
      _ ← modify (λ s, with_heardFrom ({[taskId]} ∪ heardFrom s) s);
      if is_terminal (StatusState status) then task_lost (Name node) taskId
      else if bool_decide (StatusState status = TASK_RUNNING)
      then task_running node taskId (GetSlaveIdValue status)
      else mret tt
  end.

Definition OfferRescinded (offerID : string) : C unit := _ ← cache_rescind offerID; mret tt.

Definition Error_ (err : string) : P unit :=
  if bool_decide (err = "Completed framework attempted to re-register") then
    _ ← atomic (lift_io (ClearZKState (ZkServers cfg) (ZkChroot cfg) (FrameworkName cfg)));
    atomic call_shutdown
  else mret tt.

(** ** Periodic work *)

(** One iteration of [PeriodicReconciler]. *)
Definition PeriodicReconciler : P unit :=
  s ← atomic get_state;
  _ ← (if bool_decide (state s = Mutable) then _ ← atomic (ReconcileTasks []); mret tt else mret tt);
  sleep (300 * second).

(** One iteration of [PeriodicHealthChecker]. *)
Definition PeriodicHealthChecker : P unit :=
  _ ← sleep (i64 (5 * chillSeconds cfg * second));
  nodes ← atomic RunningCopy;
  _ ← atomic (modify (λ s, with_Stats (stats_running (u32 (Z.of_nat (size nodes))) (Stats_ s)) s));
  if bool_decide (size nodes = 0) then atomic (modify (λ s, with_Stats (stats_healthy 0 (Stats_ s)) s))
  else
    err ← atomic (lift_io (healthCheck cfg nodes));
    atomic (modify (λ s, with_Stats (stats_healthy (match err with None => 1 | Some _ => 0 end) (Stats_ s)) s)).

(** One iteration of [PeriodicLaunchRequestor]. *)
Definition PeriodicLaunchRequestor : P unit :=
  _ ← atomic (_ ← modify (λ s, with_Stats (stats_running (u32 (Z.of_nat (size (running s)))) (Stats_ s)) s);
              s ← get_state;
              if bool_decide (Z.of_nat (size (running s)) < desiredInstanceCount cfg)%Z &&
                 bool_decide (state s = Mutable)
              then QueueLaunchAttempt else mret tt);
  sleep (i64 (5 * chillSeconds cfg * second)).

(** ** Launching *)

(** The loop over the configured members: the first one that is neither running
    nor pending and can be removed ends it. *)
Fixpoint prune_loop (s : Sched) (members : list string) : IO unit :=
  match members with
  | [] => mret tt
  | k :: rest =>
      if bool_decide (is_Some (running s !! k)) || bool_decide (k ∈ pending s) then prune_loop s rest
      else err ← RemoveInstance (running s) k;
           match err with Some _ => prune_loop s rest | None => mret tt end
  end.

Definition Prune : C (option error) :=
  s ← get_state;
  if bool_decide (state s = Mutable) then
    res ← lift_io (MemberList (running s));
    match res.2 with
    | Some err => mret (Some err)
    | None =>
        order ← lift_io (range res.1);
        _ ← lift_io (prune_loop s order.*1);
        mret None
    end
  else mret None.

(** The health check failed: note the livelock, and reseed when it has lasted. *)
Definition note_livelock : C unit :=
  _ ← modify (λ s, with_Stats (stats_healthy 0 (Stats_ s)) s);
  _ ← modify (λ s, with_Stats (stats_livelocks (Stats_ s)) s);
  s ← get_state;
  now ← lift_io Now;
  match livelockWindow s with
  | Some since =>
      if bool_decide (reseedTimeout cfg < now - since)%Z then
        if autoReseedEnabled cfg then spawn GoReseed else mret tt
      else mret tt
  | None => modify (with_livelockWindow (Some now))
  end.

Definition shouldLaunch : C bool :=
  s ← get_state;
  if negb (bool_decide (state s = Mutable)) then mret false
  else if bool_decide (reseeding s = reseedUnderway) then mret false
  else if negb (bool_decide (size (pending s) = 0)) then mret false
  else if bool_decide (desiredInstanceCount cfg ≤ Z.of_nat (size (running s)))%Z then mret false
  else
    members ← lift_io (MemberList (running s));
    match members.2 with
    | Some _ => mret false
    | None =>
        if bool_decide (Z.of_nat (size members.1) = desiredInstanceCount cfg) then mret false else
        recon ← lift_io (reconciliationInfoFunc cfg (ZkServers cfg) (ZkChroot cfg) (FrameworkName cfg));
        match recon.2 with
        | Some _ => mret false
        | None =>
            err ← lift_io (healthCheck cfg (running s));
            match err with
            | Some _ => _ ← note_livelock; mret false
            | None =>
                _ ← modify (λ s, with_Stats (stats_healthy 1 (Stats_ s)) s);
                _ ← modify (with_livelockWindow None);
                mret true
            end
        end
    end.

(** [filepath.Split]: what follows the last slash. *)
Definition path_base (path : string) : string := List.last (Split path "/") "".

Definition newExecutorInfo (node : Node) (uris : list string) (libprocessPort : Z) : ExecutorInfo :=
  let execmd := "./" +:+ path_base (ExecutorPath cfg) in
  mkExecutorInfo (Name node) None "etcd" (FrameworkName cfg)
    (mkCommand execmd false uris
       [execmd; "-log_dir=./"; "-driver-port=" +:+ FormatInt (i64 libprocessPort)])
    [NewScalarResource "cpus" executorWantsCpus; NewScalarResource "mem" executorWantsMem;
     NewRangesResource "ports"
       [NewValueRange libprocessPort (u64 (u64 (libprocessPort + executorWantsPorts) - 1))]].

(** The node a launch describes: ports from the lowest of the offer up. *)
Definition new_node (name : string) (offer : Offer) (lowest : Z) (first : bool) : Node :=
  mkNode name (OfferHostname offer) lowest (u64 (lowest + 1)) (u64 (lowest + 2))
    (if first then "new" else "existing") (OfferSlaveId offer).

Definition new_task (node : Node) (others : list Node) (offer : Offer) (libprocessPort : Z) : TaskInfo :=
  mkTaskInfo (Marshal_nodes (node :: others)) "etcd-server" (NodeString node) (OfferSlaveId offer)
    (newExecutorInfo node (executorUris cfg) libprocessPort)
    [NewScalarResource "cpus" (cpusPerTask cfg); NewScalarResource "mem" (memPerTask cfg);
     NewScalarResource "disk" (diskPerTask cfg);
     NewRangesResource "ports"
       [NewValueRange (RPCPort node) (u64 (u64 (RPCPort node + portsPerTask) - 1))]]
    (mkDiscovery EXTERNAL "etcd-server"
       [mkPort (u32 (RPCPort node)) "tcp"; mkPort (u32 (ClientPort node)) "client"]).

(** The locked section of [launchOne], lines 908-997.  [json.Marshal] of a list of
    nodes has no error. *)
Definition prepare_task (offer : Offer) (lowest : Z) : C TaskInfo :=
  _ ← modify (λ s, with_highestInstanceID (i64 (highestInstanceID s + 1)) s);
  s ← get_state;
  let name := "etcd-" +:+ FormatInt (highestInstanceID s) in
  let node := new_node name offer lowest (bool_decide (size (running s) = 0)) in
  order ← lift_io (range (running s));
  let task := new_task node order.*2 offer (u64 (lowest + 3)) in
  _ ← modify (λ s, with_pending ({[Name node]} ∪ pending s) s);
  mret task.

Definition valid_offer (runningCopy : gmap string Node) (offer : Offer) : bool :=
  negb (slave_in_use runningCopy (OfferSlaveId offer) && singleInstancePerSlave cfg).

(** [BlockingPop], whose loop skips what is no longer cached, until an offer is still desirable;
    the fuel bounds the number of offers looked at, and a loop that ran out of it waits. *)
Fixpoint pop_valid (fuel : nat) : P Offer :=
  match fuel with
  | O => atomic block
  | S fuel =>
      offer ← atomic cache_recv;
      ok ← atomic (cache_take offer);
      if negb ok then pop_valid fuel else
      runningCopy ← atomic RunningCopy;
      if valid_offer runningCopy offer then mret offer
      else _ ← atomic (decline offer); pop_valid fuel
  end.

(** From the second [shouldLaunch] on, with an offer in hand. *)
Definition launch_with (offer : Offer) : P unit :=
  ok ← atomic shouldLaunch;
  if negb ok then atomic (decline offer) else
  match res_ports (parseOffer offer) with
  | [] => atomic crash
  | r0 :: _ =>
      task ← atomic (prepare_task offer (Begin r0));
      _ ← atomic (modify (λ s, with_Stats (stats_launched (Stats_ s)) s));
      atomic (emit_event (EvLaunch [OfferId offer] [task]))
  end.

Definition launchOne (fuel : nat) : P unit :=
  err ← atomic Prune;
  match err with
  | Some _ => mret tt
  | None =>
      ok ← atomic shouldLaunch;
      if negb ok then mret tt else
      offer ← pop_valid fuel;
      launch_with offer
  end.

(** What the [select] over [launchChan] and [pauseChan] receives: [true] for a
    launch request.  When both are ready the runtime chooses. *)
Definition select_launch_or_pause : C bool := λ env h s,
  let launch := bool_decide (0 < launchChan s) in
  let pause := bool_decide (0 < pauseChan s) in
  let prefer_launch := default true (head (env_range env bool h [true; false])) in
  if launch && (prefer_launch || negb pause)
  then Done true (with_launchChan (pred (launchChan s)) s) [] []
  else if pause then Done false (with_pauseChan (pred (pauseChan s)) s) [] []
  else Blocked.

(** A receive from [pauseChan] that does not wait. *)
Definition try_pause : C bool := λ env h s,
  if bool_decide (0 < pauseChan s)
  then Done true (with_pauseChan (pred (pauseChan s)) s) [] [] else Done false s [] [].

(** One turn of [SerialLauncher]: a pending pause is served first and ends the
    turn, as the inner loop starts over. *)
Definition SerialLauncher (fuel : nat) : P unit :=
  paused ← atomic try_pause;
  if (paused : bool) then sleep (i64 (chillSeconds cfg * second)) else
  launch ← atomic select_launch_or_pause;
  if (launch : bool) then
    _ ← launchOne fuel;
    sleep (i64 (chillSeconds cfg * second))
  else sleep (i64 (chillSeconds cfg * second)).

(** ** Reseeding *)

(** The loop of [reseedNode]; the fuel bounds its turns. *)
Fixpoint reseed_wait (fuel : nat) (id : string) (node : Node) (before backoff : Z) : IO (option bool) :=
  match fuel with
  | O => mret None
  | S fuel =>
      now ← Now;
      if negb (bool_decide (now - before < reseedTimeout cfg)%Z) then mret (Some false) else
      err ← HealthCheck {[id := node]};
      match err with
      | None => mret (Some true)
      | Some _ =>
          _ ← Sleep (backoff * second);
          reseed_wait fuel id node before (next_backoff backoff)
      end
  end.

Definition reseed_fuel : nat := Z.to_nat (reseedTimeout cfg / second) + 2.

(** [None] when [s.running[node]] is nil, which [TriggerReseed] dereferences, or
    when the loop ran out of fuel. *)
Definition reseedNode (s : Sched) (id : string) : IO (option bool) :=
  match running s !! id with
  | None => mret None
  | Some node =>
      _ ← TriggerReseed node;
      before ← Now;
      reseed_wait reseed_fuel id node before 1
  end.

(** The loop over the candidates: the new seed, if any. *)
Fixpoint reseed_loop (s : Sched) (candidates : list nodeIndex) (newSeed : string)
    (killable : list string) : IO (option (string * list string)) :=
  match candidates with
  | [] => mret (Some (newSeed, killable))
  | c :: rest =>
      if negb (bool_decide (newSeed = "")) then reseed_loop s rest newSeed (killable ++ [NINode c])
      else
        r ← reseedNode s (NINode c);
        match r with
        | None => mret None
        | Some true => reseed_loop s rest (NINode c) killable
        | Some false => reseed_loop s rest newSeed (killable ++ [NINode c])
        end
  end.

Fixpoint kill_others (newSeed : string) (ts : list (string * string)) : IO unit :=
  match ts with
  | [] => mret tt
  | (node, taskID) :: rest =>
      if bool_decide (node = newSeed) then kill_others newSeed rest
      else _ ← act (EvKill taskID) (λ _ _, tt); kill_others newSeed rest
  end.

(** The part of [reseedCluster] that holds the lock, with its deferred function. *)
Definition reseed_locked : C unit :=
  _ ← modify (with_state Immutable);
  s ← get_state;
  candidates ← lift_io (RankReseedCandidates (running s));
  _ ← (if bool_decide (length candidates = 0) then emit_event EvAbort else mret tt);
  r ← lift_io (reseed_loop s candidates "" []);
  match r with
  | None => crash
  | Some (newSeed, _) =>
      _ ← (if bool_decide (newSeed = "") then mret tt
           else order ← lift_io (range (tasks s)); lift_io (kill_others newSeed order));
      _ ← modify (with_state Mutable);
      modify (with_reseeding notReseeding)
  end.

Definition cas_reseeding : C bool := λ env h s,
  if bool_decide (reseeding s = notReseeding)
  then Done true (with_reseeding reseedUnderway s) [] [] else Done false s [] [].

Definition reseedCluster : P unit :=
  won ← atomic cas_reseeding;
  if negb won then mret tt else
  _ ← atomic (modify (λ s, with_Stats (stats_reseeds (Stats_ s)) s));
  atomic reseed_locked.

(** The body of a started goroutine. *)
Definition goroutine (g : Goroutine) : P unit :=
  match g with
  | GoSync => attemptMasterSync
  | GoRescind offer => rescind_timer offer
  | GoReseed => reseedCluster
  end.

(** ** The administration interface: status code and body of each handler *)

Definition Marshal_stats (st : Stats) : string :=
  print (JObj [("running_servers", JNum (FormatUint (RunningServers st)));
               ("launched_servers", JNum (FormatUint (LaunchedServers st)));
               ("failed_servers", JNum (FormatUint (FailedServers st)));
               ("cluster_livelocks", JNum (FormatUint (ClusterLivelocks st)));
               ("cluster_reseeds", JNum (FormatUint (ClusterReseeds st)));
               ("healthy", JNum (FormatUint (IsHealthy st)))]).

Definition admin_stats : C (Z * string) := s ← get_state; mret (200%Z, Marshal_stats (Stats_ s)).

Definition admin_reseed : C (Z * string) := _ ← spawn GoReseed; mret (200%Z, "reseeding").

Definition admin_members : C (Z * string) :=
  nodes ← RunningCopy;
  order ← lift_io (range nodes);
  mret (200%Z, Marshal_nodes order.*2).

Definition newline : string := String (chr 10) "".

Definition admin_healthz : C (Z * string) :=
  s ← get_state;
  mret (if bool_decide (IsHealthy (Stats_ s) = 1%Z) then (200%Z, "cluster is healthy" +:+ newline)
        else (500%Z, "500 internal server error: cluster not healthy." +:+ newline)).
End Scheduler.

(** ** Serving the executor *)

(** The URI under which the file is served, when it exists, and the default multiplexer with the file. *)
Definition ServeExecutorArtifact (path address : string) (artifactPort : Z) (m : mux string)
    : IO (go (result (string * mux string))) :=
  err ← act (EvFs ("stat " +:+ path)) (λ env h, env_fs env h ("stat " +:+ path));
  match err with
  | Some e => mret (Returns (Err e))
  | None =>
      match Handle ("/" +:+ path_base path) path m with
      | Panics => mret Panics
      | Returns m =>
          mret (Returns (Ok ("http://" +:+ address +:+ ":" +:+ FormatInt artifactPort +:+ "/" +:+ path_base path, m)))
      end
  end.
