(* ===== verification/SchedInv.v ===== *)
(** * What the sections of the scheduler preserve

    The events by which the scheduler answers offers and launches tasks, the
    invariant of the shared state, and, for each locked section, what it does to
    the part of the state that the invariant speaks of. *)

From Stdlib Require Import Ascii Floats.
From stdpp Require Import base strings list gmap sorting.
From S2P Require Import Prelude GoStd Errors Json Config Codec Mesos OfferStore World Rpc Zk.
From S2P Require Import Goroutine Scheduler.

(** ** Answers and launches in a history *)

Definition event_answers (e : Event) : list string :=
  match e with EvDecline id => [id] | EvLaunch ids _ => ids | _ => [] end.
Definition event_launches (e : Event) : list TaskInfo :=
  match e with EvLaunch _ ts => ts | _ => [] end.

(** The offers that were declined or used, and the tasks that were launched. *)
Definition answers (h : list Event) : list string := h ≫= event_answers.
Definition launches (h : list Event) : list TaskInfo := h ≫= event_launches.

Lemma answers_app h w : answers (h ++ w) = answers h ++ answers w.
Proof. apply bind_app. Qed.
Lemma launches_app h w : launches (h ++ w) = launches h ++ launches w.
Proof. apply bind_app. Qed.

Definition silent (w : list Event) : Prop := answers w = [] ∧ launches w = [].

Lemma silent_nil : silent [].
Proof. done. Qed.
Lemma silent_app w w' : silent w → silent w' → silent (w ++ w').
Proof. intros [Ha Hl] [Ha' Hl']. split; [by rewrite answers_app, Ha, Ha'|by rewrite launches_app, Hl, Hl']. Qed.

Create HintDb quiet.
#[export] Hint Resolve silent_nil silent_app : quiet.

(** A program that neither answers offers nor launches tasks. *)
Definition quiet {A} (m : IO A) : Prop := ∀ env h, silent (m env h).2.

Lemma quiet_ret {A} (a : A) : quiet (mret a).
Proof. intros env h. apply silent_nil. Qed.
Lemma quiet_bind {A B} (m : IO A) (f : A → IO B) : quiet m → (∀ a, quiet (f a)) → quiet (m ≫= f).
Proof. intros Hm Hf env h. rewrite bind_run. apply silent_app; [apply Hm|apply Hf]. Qed.
Lemma quiet_ask {A} (f : Env → list Event → A) : quiet (ask f).
Proof. intros env h. apply silent_nil. Qed.
Lemma quiet_act {A} e (f : Env → list Event → A) : silent [e] → quiet (act e f).
Proof. intros He env h. exact He. Qed.
Lemma quiet_for_each {X S R} (xs : list X) (body : X → S → IO (R + S)) st :
  (∀ x st, quiet (body x st)) → quiet (for_each xs body st).
Proof.
  intros Hb. revert st. induction xs as [|x xs IH]; intros st; [apply quiet_ret|]. simpl.
  apply quiet_bind; [apply Hb|]. intros [r|s]; [apply quiet_ret|apply IH].
Qed.
Lemma quiet_retry {S R} n b (body : S → IO (R + S)) st :
  (∀ st, quiet (body st)) → quiet (retry n b body st).
Proof.
  intros Hb. revert b st. induction n as [|n IH]; intros b st; [apply quiet_ret|]. simpl.
  apply quiet_bind; [apply Hb|]. intros [r|s]; [apply quiet_ret|].
  apply quiet_bind; [by apply quiet_act|]. intros _. apply IH.
Qed.

(** Decompose a program and look at its events. *)
Ltac quiet_io :=
  repeat first
    [ progress intros
    | progress unfold list_via, leader_query, remove_via, rank_query, reconciliation_request,
        update_request, http_get
    | apply quiet_bind | apply quiet_for_each | apply quiet_retry
    | solve [auto with quiet]
    | apply quiet_ret | apply quiet_ask | (apply quiet_act; split; reflexivity)
    | match goal with |- quiet (match ?x with _ => _ end) => destruct x end
    | progress cbn beta iota zeta ].

Lemma quiet_HealthCheck running : quiet (HealthCheck running).
Proof. unfold HealthCheck. quiet_io. Qed.
Lemma quiet_MemberList running : quiet (MemberList running).
Proof. unfold MemberList. quiet_io. Qed.
#[export] Hint Resolve quiet_HealthCheck quiet_MemberList : quiet.
Lemma quiet_RemoveInstance running task : quiet (RemoveInstance running task).
Proof. unfold RemoveInstance. quiet_io. Qed.
Lemma quiet_RankReseedCandidates running : quiet (RankReseedCandidates running).
Proof.
  unfold RankReseedCandidates. apply quiet_bind; [apply quiet_ask|]. intros order.
  apply quiet_bind; [quiet_io|]. intros [[]|l]. apply quiet_ret.
Qed.
Lemma quiet_TriggerReseed node : quiet (TriggerReseed node).
Proof. unfold TriggerReseed. quiet_io. Qed.
Lemma quiet_GetPreviousReconciliationInfo servers chroot name :
  quiet (GetPreviousReconciliationInfo servers chroot name).
Proof. unfold GetPreviousReconciliationInfo. quiet_io. Qed.
Lemma quiet_UpdateReconciliationInfo m servers chroot name :
  quiet (UpdateReconciliationInfo m servers chroot name).
Proof. unfold UpdateReconciliationInfo. quiet_io. Qed.
Lemma quiet_PersistFrameworkID fwid servers chroot name :
  quiet (PersistFrameworkID fwid servers chroot name).
Proof. unfold PersistFrameworkID. quiet_io. Qed.
Lemma quiet_ClearZKState servers chroot name : quiet (ClearZKState servers chroot name).
Proof. unfold ClearZKState. quiet_io. Qed.
#[export] Hint Resolve quiet_RemoveInstance quiet_RankReseedCandidates quiet_TriggerReseed
  quiet_GetPreviousReconciliationInfo quiet_UpdateReconciliationInfo quiet_PersistFrameworkID
  quiet_ClearZKState : quiet.

(** The functions the configuration carries are quiet; the ones the constructor
    installs are. *)
Record cfg_quiet (cfg : SchedulerConfig) : Prop := {
  cq_health running : quiet (healthCheck cfg running);
  cq_recon a b c : quiet (reconciliationInfoFunc cfg a b c);
  cq_update m a b c : quiet (updateReconciliationInfoFunc cfg m a b c);
}.
#[export] Hint Resolve cq_health cq_recon cq_update : quiet.

Lemma NewConfig_quiet desired chill reseed auto uris single disk cpus mem refuse :
  cfg_quiet (NewConfig desired chill reseed auto uris single disk cpus mem refuse).
Proof.
  split; intros; [apply quiet_HealthCheck|apply quiet_GetPreviousReconciliationInfo|
    apply quiet_UpdateReconciliationInfo].
Qed.

(** ** The clock *)

Definition slept (w : list Event) : Z :=
  foldr (λ e acc, match e with EvSleep d => Z.max 0 d + acc | _ => acc end)%Z 0%Z w.

(** Time does not run backwards, and a sleep lasts at least as long as asked. *)
Definition clock_advances (env : Env) : Prop :=
  ∀ h w, (env_clock env h + slept w ≤ env_clock env (h ++ w))%Z.

Lemma slept_app w w' : slept (w ++ w') = (slept w + slept w')%Z.
Proof. induction w as [|e w IH]; [done|]. simpl. rewrite IH. destruct e; lia. Qed.

Lemma slept_nonneg w : (0 ≤ slept w)%Z.
Proof. induction w as [|e w IH]; simpl; [done|]. destruct e; lia. Qed.

Section Preservation.
Context {T : Type} `{HT : OfferStore T}.
Context (cfg : SchedulerConfig).
Implicit Types s : EtcdScheduler T.

(** ** The invariant of the shared state *)

Definition cached s : gset string := dom (os_set (offerCache s)).

(** Names and identifiers agree in the maps of running nodes and tasks, and every
    running node has a task handle. *)
Definition records_ok s : Prop :=
  (∀ k n, running s !! k = Some n → Name n = k ∧ wf_node n ∧ is_Some (tasks s !! k)) ∧
  (∀ k tid, tasks s !! k = Some tid → ∃ m, Parse tid = Ok m ∧ Name m = k).

(** Every cached offer is big enough for a task and its executor. *)
Definition offers_ok s : Prop :=
  ∀ k o, os_set (offerCache s) !! k = Some o → sufficient cfg (parseOffer o) = true.

(** The name of a launched task, which is also its executor's identifier. *)
Definition task_name (t : TaskInfo) : string := ExecutorId (TaskExecutor t).

Definition instance_name (i : Z) : string := "etcd-" +:+ FormatInt i.

(** The tasks launched so far have distinct names, numbered up to the counter. *)
Definition names_ok s (h : list Event) : Prop :=
  NoDup (task_name <$> launches h) ∧
  ∀ t, t ∈ launches h → ∃ i, task_name t = instance_name i ∧ (i ≤ highestInstanceID s)%Z ∧ is_i64 i.

(** The part of the state the invariant depends on. *)
Definition same_core s s' : Prop :=
  offerCache s' = offerCache s ∧ highestInstanceID s' = highestInstanceID s ∧
  running s' = running s ∧ tasks s' = tasks s ∧ pending s' = pending s.

#[export] Instance same_core_refl : Reflexive same_core.
Proof. by intros s. Qed.
#[export] Instance same_core_trans : Transitive same_core.
Proof. unfold same_core. intros s s' s'' (?&?&?&?&?) (?&?&?&?&?). split_and!; congruence. Qed.

(** The reconciliation map does not become nil. *)
Definition map_kept s s' : Prop := reconciliationInfo s' = None → reconciliationInfo s = None.

#[export] Instance map_kept_refl : Reflexive map_kept.
Proof. by intros s ?. Qed.

(** ** Sections that leave that part alone *)

(** The section cannot crash; when it is done it has kept the core, a map that is not nil,
    and neither answered nor launched. *)
Definition keeps_at {A} (c : crit (EtcdScheduler T) Goroutine A) (env : Env) (h : list Event) s : Prop :=
  match c env h s with
  | Blocked => True
  | Crashed => False
  | Done _ s' w _ => same_core s s' ∧ map_kept s s' ∧ silent w
  end.

Definition keeps {A} (c : crit (EtcdScheduler T) Goroutine A) : Prop := ∀ env h s, keeps_at c env h s.

Lemma keeps_ret {A} (a : A) : keeps (mret a).
Proof. intros env h s. split; [reflexivity|]. split; [reflexivity|done]. Qed.
Lemma keeps_bind {A B} (c : crit _ Goroutine A) (f : A → crit _ Goroutine B) :
  keeps c → (∀ a, keeps (f a)) → keeps (c ≫= f).
Proof.
  intros Hc Hf env h s. unfold keeps_at. rewrite crit_bind_run. specialize (Hc env h s).
  unfold keeps_at in Hc. destruct (c env h s) as [| |a s1 w1 g1]; [done..|]. destruct Hc as (Hs1 & Hm1 & Hw1).
  specialize (Hf a env (h ++ w1) s1). unfold keeps_at in Hf.
  destruct (f a env (h ++ w1) s1) as [| |b s2 w2 g2]; [done..|]. destruct Hf as (Hs2 & Hm2 & Hw2).
  split; [by transitivity s1|]. split; [intros H; by apply Hm1, Hm2|by apply silent_app].
Qed.
Lemma keeps_get : keeps get_state.
Proof. intros env h s. split; [reflexivity|]. split; [reflexivity|done]. Qed.
Lemma keeps_modify f : (∀ s, same_core s (f s) ∧ map_kept s (f s)) → keeps (modify f).
Proof. intros Hf env h s. destruct (Hf s). split; [done|]. by split. Qed.
Lemma keeps_lift {A} (m : IO A) : quiet m → keeps (lift_io m).
Proof. intros Hm env h s. split; [reflexivity|]. split; [reflexivity|apply Hm]. Qed.
Lemma keeps_emit e : silent [e] → keeps (emit_event e).
Proof. intros He env h s. split; [reflexivity|]. split; [reflexivity|done]. Qed.
Lemma keeps_spawn g : keeps (spawn g).
Proof. intros env h s. split; [reflexivity|]. split; [reflexivity|done]. Qed.
Lemma keeps_block {A} : keeps (block (A := A)).
Proof. intros env h s. done. Qed.
End Preservation.

Create HintDb keeps.
#[export] Hint Resolve keeps_ret keeps_get keeps_spawn keeps_block : keeps.

Ltac keeps_crit :=
  repeat first
    [ progress intros
    | solve [auto with keeps]
    | apply keeps_bind
    | (apply keeps_lift; solve [auto with quiet | apply cq_health; assumption
         | apply cq_recon; assumption | apply cq_update; assumption | quiet_io])
    | (apply keeps_emit; split; reflexivity)
    | (apply keeps_modify; intros; unfold same_core, map_kept; split_and!;
       solve [reflexivity | case_match; reflexivity | intros ?; assumption | case_match; intros ?; assumption])
    | match goal with |- keeps (match ?x with _ => _ end) => destruct x end
    | progress cbn beta iota zeta ].

Section Sections.
Context {T : Type} `{HT : OfferStore T}.
Context (cfg : SchedulerConfig) (Hcfg : cfg_quiet cfg).

Notation keepsT := (keeps (T := T)).

Lemma keeps_QueueLaunchAttempt : keepsT QueueLaunchAttempt.
Proof. unfold QueueLaunchAttempt. keeps_crit. Qed.
Lemma keeps_PumpTheBrakes : keepsT PumpTheBrakes.
Proof. unfold PumpTheBrakes. keeps_crit. Qed.
Lemma keeps_RunningCopy : keepsT RunningCopy.
Proof. unfold RunningCopy. keeps_crit. Qed.
Lemma keeps_call_shutdown : keepsT (call_shutdown cfg).
Proof. unfold call_shutdown. keeps_crit. Qed.
Lemma keeps_ReconcileTasks sts : keepsT (ReconcileTasks sts).
Proof. unfold ReconcileTasks. keeps_crit. Qed.
Lemma keeps_isInSync : keepsT isInSync.
Proof. unfold isInSync. keeps_crit. Qed.
Lemma keeps_list_previous ref : keepsT (list_previous ref).
Proof. unfold list_previous. keeps_crit. Qed.
Lemma keeps_Disconnected : keepsT Disconnected.
Proof. unfold Disconnected. keeps_crit. Qed.
Lemma keeps_note_livelock : keepsT (note_livelock cfg).
Proof. unfold note_livelock. keeps_crit. Qed.

Lemma quiet_prune_loop (s : EtcdScheduler T) ms : quiet (prune_loop s ms).
Proof.
  induction ms as [|k ms IH]; simpl; [apply quiet_ret|]. case_match; [done|].
  apply quiet_bind; [auto with quiet|]. intros [e|]; [done|apply quiet_ret].
Qed.

Lemma keeps_Prune : keepsT Prune.
Proof.
  unfold Prune. apply keeps_bind; [auto with keeps|]. intros s. case_bool_decide; [|apply keeps_ret].
  apply keeps_bind; [apply keeps_lift; auto with quiet|]. intros [m [e|]]; cbn [snd fst]; [apply keeps_ret|].
  apply keeps_bind; [apply keeps_lift, quiet_ask|]. intros order.
  apply keeps_bind; [apply keeps_lift, quiet_prune_loop|]. intros _. apply keeps_ret.
Qed.

Lemma keeps_shouldLaunch : keepsT (shouldLaunch cfg).
Proof. pose proof keeps_note_livelock. unfold shouldLaunch. keeps_crit. Qed.
End Sections.
#[export] Hint Resolve keeps_QueueLaunchAttempt keeps_PumpTheBrakes keeps_RunningCopy
  keeps_call_shutdown keeps_ReconcileTasks keeps_isInSync keeps_list_previous
  keeps_Disconnected keeps_Prune : keeps.

(** ** Reseeding *)

Section Reseed.
Context {T : Type} `{HT : OfferStore T}.
Context (cfg : SchedulerConfig) (env : Env) (Hclock : clock_advances env).
Implicit Types s : EtcdScheduler T.

Lemma next_backoff_pos b : (1 ≤ b)%Z → (1 ≤ next_backoff b)%Z.
Proof. unfold next_backoff. rewrite Z.shiftl_mul_pow2 by lia. lia. Qed.

(** The waiting loop ends within its fuel: each turn takes a second or more. *)
Lemma reseed_wait_ends fuel id node before b h :
  (1 ≤ b)%Z → (reseedTimeout cfg - (env_clock env h - before) < Z.of_nat fuel * second)%Z →
  (reseed_wait cfg (S fuel) id node before b env h).1 ≠ None.
Proof.
  revert b h. induction fuel as [|fuel IH]; intros b h Hb Hf; cbn [reseed_wait]; rewrite bind_run; cbn [fst snd Now ask].
  - rewrite app_nil_r. rewrite (bool_decide_eq_false_2 (_ < _)%Z) by lia. done.
  - rewrite app_nil_r. case_bool_decide as Ht; [|done]. cbn [negb]. rewrite bind_run.
    destruct ((HealthCheck {[id := node]} env h).1) as [e|]; [|done].
    rewrite bind_run. cbn [fst snd Sleep act]. apply IH; [by apply next_backoff_pos|].
    set (w := (HealthCheck {[id := node]} env h).2).
    pose proof (Hclock h (w ++ [EvSleep (b * second)])) as Hc. rewrite app_assoc in Hc.
    rewrite slept_app in Hc. pose proof (slept_nonneg w). simpl in Hc.
    assert (second ≤ b * second)%Z by (unfold second; lia). unfold second in *. lia.
Qed.

Lemma reseedNode_ends s id h : is_Some (running s !! id) → (reseedNode cfg s id env h).1 ≠ None.
Proof.
  intros [node Hn]. unfold reseedNode. rewrite Hn. run_bind. rewrite bind_run.
  cbn [fst snd Now ask]. rewrite app_nil_r. unfold reseed_fuel.
  rewrite (Nat.add_comm _ 2). apply reseed_wait_ends; [lia|].
  destruct (decide (0 ≤ reseedTimeout cfg)%Z).
  - rewrite Nat2Z.inj_succ, Z2Nat.id by (apply Z.div_pos; unfold second; lia).
    pose proof (Z.mul_div_le (reseedTimeout cfg) second ltac:(unfold second; lia)).
    pose proof (Z.mod_pos_bound (reseedTimeout cfg) second ltac:(unfold second; lia)).
    pose proof (Z.div_mod (reseedTimeout cfg) second ltac:(unfold second; lia)). lia.
  - assert (0 ≤ Z.of_nat (S (Z.to_nat (reseedTimeout cfg / second))) * second)%Z
      by (unfold second; lia). lia.
Qed.

Lemma reseed_loop_ends s cs seed ks h :
  Forall (λ c, is_Some (running s !! NINode c)) cs → (reseed_loop cfg s cs seed ks env h).1 ≠ None.
Proof.
  revert seed ks h. induction cs as [|c cs IH]; intros seed ks h Hcs; [done|].
  apply Forall_cons in Hcs as [Hc Hcs]. cbn [reseed_loop]. case_bool_decide; cbn [negb]; [|by apply IH].
  run_bind. pose proof (reseedNode_ends s (NINode c) h Hc) as Hn.
  destruct ((reseedNode cfg s (NINode c) env h).1) as [[|]|]; [by apply IH|by apply IH|done].
Qed.

Lemma quiet_reseed_wait fuel id node before b : quiet (reseed_wait cfg fuel id node before b).
Proof.
  revert b. induction fuel as [|fuel IH]; intros b; cbn [reseed_wait]; [apply quiet_ret|]. quiet_io.
Qed.

Lemma quiet_reseed_loop s cs seed ks : quiet (reseed_loop cfg s cs seed ks).
Proof.
  revert seed ks. induction cs as [|c cs IH]; intros seed ks; cbn [reseed_loop]; [apply quiet_ret|].
  case_bool_decide; cbn [negb]; [|apply IH]. apply quiet_bind.
  - unfold reseedNode. case_match; [|apply quiet_ret]. apply quiet_bind; [auto with quiet|]. intros _.
    apply quiet_bind; [apply quiet_ask|]. intros before. apply quiet_reseed_wait.
  - intros [[|]|]; [apply IH|apply IH|apply quiet_ret].
Qed.

Lemma quiet_kill_others seed ts : quiet (kill_others seed ts).
Proof.
  induction ts as [|[n tid] ts IH]; cbn [kill_others]; [apply quiet_ret|]. case_bool_decide; [done|].
  apply quiet_bind; [by apply quiet_act|done].
Qed.

(** Whatever the members answer, the reseed ends, releases the flag and leaves the
    scheduler [Mutable]. *)
Lemma reseed_locked_done h s :
  total (reseed_locked cfg) env h s (λ _ s' w gs,
    gs = [] ∧ same_core s s' ∧ map_kept s s' ∧ silent w ∧ state s' = Mutable ∧ reseeding s' = notReseeding).
Proof.
  unfold reseed_locked. apply total_modify_bind, total_get_bind, total_lift_bind.
  set (s1 := with_state Immutable s).
  pose proof (RankReseedCandidates_ensures env h (running s1)) as (_ & _ & Hcs).
  pose proof (quiet_RankReseedCandidates (running s1) env h) as Hq.
  destruct (RankReseedCandidates (running s1) env h) as [cs w0]. cbn [fst snd] in *.
  eapply (total_bind _ _ _ _ _ (λ _ s' w gs, s' = s1 ∧ silent w ∧ gs = [])); [by case_bool_decide|].
  intros [] ? wa ? (-> & Hwa & ->). apply total_lift_bind.
  pose proof (reseed_loop_ends s1 cs "" [] ((h ++ w0) ++ wa)) as Hl.
  pose proof (quiet_reseed_loop s1 cs "" [] env ((h ++ w0) ++ wa)) as Hq2.
  destruct (reseed_loop cfg s1 cs "" [] env ((h ++ w0) ++ wa)) as [[[seed ks]|] w1]; cbn [fst snd] in *.
  2:{ exfalso. apply Hl; [|done]. eapply Forall_impl; [exact Hcs|].
      intros ni (n & _ & _ & _ & Hn & _). by exists n. }
  eapply (total_bind _ _ _ _ _ (λ _ s' w gs, s' = s1 ∧ silent w ∧ gs = [])).
  { case_bool_decide; [done|]. apply total_lift_bind. unfold total. cbn [lift_io].
    split_and!; [done| |done]. apply silent_app; [done|apply quiet_kill_others]. }
  intros [] ? wk ? (-> & Hwk & ->). apply total_modify_bind.
  split_and!; try done; [by intros ?|]. repeat apply silent_app; done.
Qed.
End Reseed.

(** ** Status updates *)

(** A channel of capacity [chan_capacity] after a send that may be dropped. *)
Definition chan_send (n : nat) : nat := if bool_decide (n < chan_capacity) then S n else n.

Section Status.
Context {T : Type} `{HT : OfferStore T}.
Context (cfg : SchedulerConfig).
Implicit Types s : EtcdScheduler T.

(** The state after the end of task [name] was reported. *)
Record lost_state (name taskId : string) s s' : Prop := {
  ls_pending : pending s' = pending s ∖ {[name]};
  ls_running : running s' = delete name (running s);
  ls_tasks : tasks s' = delete name (tasks s);
  ls_recon : reconciliationInfo s' = delete taskId <$> reconciliationInfo s;
  ls_state : state s' = if bool_decide (delete name (running s) = ∅) then Immutable else state s;
  ls_failed : Stats_ s' = stats_failed (Stats_ s);
  ls_launch : launchChan s' = chan_send (launchChan s);
  ls_pause : pauseChan s' = chan_send (pauseChan s);
  ls_same : offerCache s' = offerCache s ∧ highestInstanceID s' = highestInstanceID s ∧
    heardFrom s' = heardFrom s ∧ masterInfo s' = masterInfo s ∧ frameworkID s' = frameworkID s ∧
    reseeding s' = reseeding s ∧ livelockWindow s' = livelockWindow s ∧ oldMaps s' = oldMaps s;
}.

Lemma queue_state s :
  (if bool_decide (launchChan s < chan_capacity) then with_launchChan (S (launchChan s)) s else s)
  = with_launchChan (chan_send (launchChan s)) s.
Proof. unfold chan_send. case_bool_decide; [done|by destruct s]. Qed.

Lemma brake_state s :
  (if bool_decide (pauseChan s < chan_capacity) then with_pauseChan (S (pauseChan s)) s else s)
  = with_pauseChan (chan_send (pauseChan s)) s.
Proof. unfold chan_send. case_bool_decide; [done|by destruct s]. Qed.

Lemma task_lost_run name taskId env h s :
  total (task_lost name taskId) env h s (λ _ s' w gs, w = [] ∧ gs = [] ∧ lost_state name taskId s s').
Proof.
  unfold task_lost, PumpTheBrakes, QueueLaunchAttempt. do 7 apply total_modify_bind.
  rewrite brake_state, queue_state. split; [done|]. split; [done|].
  assert (Hq : bool_decide (size (delete name (running s)) = 0) = bool_decide (delete name (running s) = ∅))
    by (apply bool_decide_ext, map_size_empty_iff).
  cbn [running state with_launchChan with_reconciliationInfo with_tasks with_running with_pending
       with_pauseChan with_Stats]. rewrite Hq.
  destruct (bool_decide (delete name (running s) = ∅)) eqn:He, (bool_decide (state s = Mutable)) eqn:Hm;
    cbn [andb]; split; cbn; rewrite ?He; try done.
  apply bool_decide_eq_false in Hm. by destruct (state s).
Qed.

(** The state after task [node] was reported to run. *)
Record running_state (node : Node) (taskId slaveId : string) s s' : Prop := {
  rs_pending : pending s' = pending s ∖ {[Name node]};
  rs_running : running s' = match running s !! Name node with
                            | Some _ => running s | None => <[Name node := node]> (running s) end;
  rs_tasks : tasks s' = match running s !! Name node with
                        | Some _ => tasks s | None => <[Name node := taskId]> (tasks s) end;
  rs_recon : reconciliationInfo s' = (λ m, <[taskId := slaveId]> m) <$> reconciliationInfo s;
  rs_highest : highestInstanceID s' = bump_index (Name node) (highestInstanceID s);
  rs_same : offerCache s' = offerCache s ∧ heardFrom s' = heardFrom s ∧ state s' = state s ∧
    Stats_ s' = Stats_ s ∧ launchChan s' = launchChan s ∧ pauseChan s' = pauseChan s ∧
    masterInfo s' = masterInfo s ∧ frameworkID s' = frameworkID s ∧ reseeding s' = reseeding s ∧
    livelockWindow s' = livelockWindow s ∧ oldMaps s' = oldMaps s;
}.

Lemma task_running_run node taskId slaveId env h s m :
  reconciliationInfo s = Some m →
  total (task_running cfg node taskId slaveId) env h s (λ _ s' w gs,
    gs = [] ∧ running_state node taskId slaveId s s' ∧
    w = (updateReconciliationInfoFunc cfg (<[taskId := slaveId]> m)
           (ZkServers cfg) (ZkChroot cfg) (FrameworkName cfg) env h).2).
Proof.
  intros Hm. unfold task_running.
  eapply (total_bind _ _ _ _ _ (λ _ s' w gs, s' = with_reconciliationInfo (Some (<[taskId := slaveId]> m)) s ∧ w = [] ∧ gs = [])).
  { unfold file_task. apply total_get_bind. by rewrite Hm. }
  intros _ s1 w1 g1 (-> & -> & ->). rewrite app_nil_r.
  apply total_get_bind, total_lift_bind, total_modify_bind, total_modify_bind.
  split; [done|]. split; [|cbn; by rewrite app_nil_r].
  split; cbn; rewrite ?Hm; try done; destruct (running s !! Name node); split_and?; done.
Qed.

(** With a nil map the report that a task runs panics. *)
Lemma task_running_nil node taskId slaveId env h s :
  reconciliationInfo s = None → task_running cfg node taskId slaveId env h s = Crashed.
Proof.
  intros Hm. unfold task_running. rewrite crit_bind_run. unfold file_task. rewrite crit_bind_run. cbn. by rewrite Hm.
Qed.
End Status.

(** ** Launching *)

Section Launch.
Context {T : Type} `{HT : OfferStore T}.
Context (cfg : SchedulerConfig).
Implicit Types s : EtcdScheduler T.

(** The conditions under which a launch may go ahead, as [shouldLaunch] checks
    them: the scheduler is [Mutable] and not reseeding, no task is pending, too
    few run, the cluster is not configured for the desired size, ZooKeeper
    answers and the cluster is healthy. *)
Record launch_gate (env : Env) s : Prop := {
  lg_mutable : state s = Mutable;
  lg_reseed : reseeding s ≠ reseedUnderway;
  lg_pending : pending s = ∅;
  lg_running : (Z.of_nat (size (running s)) < desiredInstanceCount cfg)%Z;
  lg_members : ∃ h, Z.of_nat (size (MemberList (running s) env h).1.1) ≠ desiredInstanceCount cfg;
  lg_zk : ∃ h, (reconciliationInfoFunc cfg (ZkServers cfg) (ZkChroot cfg) (FrameworkName cfg) env h).1.2 = None;
  lg_healthy : ∃ h, (healthCheck cfg (running s) env h).1 = None;
}.

Lemma shouldLaunch_gate env h s :
  total (shouldLaunch cfg) env h s (λ b s' w gs,
    b = true → launch_gate env s ∧ pending s' = pending s).
Proof.
  unfold shouldLaunch. apply total_get_bind.
  destruct (bool_decide (state s = Mutable)) eqn:Hm; cbn [negb]; [|by intros ?].
  destruct (bool_decide (reseeding s = reseedUnderway)) eqn:Hr; [by intros ?|].
  destruct (bool_decide (size (pending s) = 0)) eqn:Hp; cbn [negb]; [|by intros ?].
  destruct (bool_decide (desiredInstanceCount cfg ≤ _)%Z) eqn:Hd; [by intros ?|]. apply total_lift_bind.
  destruct ((MemberList (running s) env h).1.2); [by intros ?|].
  destruct (bool_decide (_ = desiredInstanceCount cfg)) eqn:Hs; [by intros ?|]. apply total_lift_bind.
  set (h1 := h ++ _). destruct (_.1.2) eqn:Hz; [by intros ?|]. apply total_lift_bind.
  set (h2 := h1 ++ _). destruct ((healthCheck cfg (running s) env h2).1) eqn:Hh.
  - eapply (total_bind _ _ _ _ _ (λ _ _ _ _, True)); [|intros; unfold total; cbn; done].
    unfold note_livelock. apply total_modify_bind, total_modify_bind, total_get_bind, total_lift_bind.
    unfold total. cbn. by repeat case_match.
  - apply total_modify_bind, total_modify_bind. intros _. split; [|intros; unfold total; cbn; done].
    apply bool_decide_eq_true in Hm, Hp. apply bool_decide_eq_false in Hr, Hd, Hs.
    split; try done; [by apply size_empty_inv in Hp; apply leibniz_equiv| |eauto..]. lia.
Qed.

(** The task a launch prepares, and the state it leaves. *)
Record prepared offer (lowest : Z) s (task : TaskInfo) s' : Prop := {
  pr_index : highestInstanceID s' = i64 (highestInstanceID s + 1);
  pr_pending : pending s' = {[instance_name (highestInstanceID s')]} ∪ pending s;
  pr_same : offerCache s' = offerCache s ∧ running s' = running s ∧ tasks s' = tasks s ∧
    state s' = state s ∧ reconciliationInfo s' = reconciliationInfo s ∧ oldMaps s' = oldMaps s;
  pr_task : ∃ order, order ≡ₚ map_to_list (running s) ∧
    task = new_task cfg (new_node (instance_name (highestInstanceID s')) offer lowest
                           (bool_decide (size (running s) = 0)))
             order.*2 offer (u64 (lowest + 3));
}.

Lemma prepare_task_run offer lowest env h s :
  total (prepare_task cfg offer lowest) env h s (λ task s' w gs,
    w = [] ∧ gs = [] ∧ prepared offer lowest s task s').
Proof.
  unfold prepare_task. apply total_modify_bind, total_get_bind, total_lift_bind, total_modify_bind.
  split; [done|]. split; [done|]. split; try done. eexists. split; [apply env_range_perm|done].
Qed.

Lemma instance_name_inj i j : is_i64 i → is_i64 j → instance_name i = instance_name j → i = j.
Proof.
  unfold instance_name. rewrite !sapp_cons, !sapp_nil_l. intros Hi Hj [= H]. by apply FormatInt_inj.
Qed.

(** A sufficient offer has a first port range. *)
Lemma sufficient_ports o : sufficient cfg (parseOffer o) = true → res_ports (parseOffer o) ≠ [].
Proof.
  unfold sufficient. intros H Hn. rewrite Hn in H. rewrite !andb_true_iff in H.
  destruct H as [[[_ _] H] _]. by apply bool_decide_eq_true in H.
Qed.
End Launch.
