(* ===== verification/System.v ===== *)
(** * The scheduler's goroutines together

    The Mesos callbacks, the periodic workers, the goroutines they start and the
    serial launcher run interleaved, one locked section at a time.  A goroutine
    owns the offers it has received or popped and not yet answered or cached;
    each step is checked against what the other goroutines rely on, which gives
    an invariant of every interleaving. *)

From Stdlib Require Import Ascii Floats.
From stdpp Require Import base strings list gmap sorting.
From S2P Require Import Prelude GoStd Errors Json Config Codec Mesos OfferStore World Rpc Zk.
From S2P Require Import Goroutine Scheduler SchedInv.

(** ** Moving an offer between owners *)

Section Sets.
Implicit Types O C D X : gset string.

Lemma push_sets O C D X id :
  id ∈ O → O ## C → O ## D →
  O ∖ {[id]} ## {[id]} ∪ C ∧ O ∖ {[id]} ## D ∧ O ∖ {[id]} ⊆ O ∪ C ∧
  {[id]} ∪ C ⊆ C ∪ O ∧ X ⊆ {[id]} ∪ X ∧ {[id]} ∪ X ⊆ X ∪ O ∧ (C ## D → {[id]} ∪ C ## D).
Proof. intros. split_and!; set_solver. Qed.

Lemma take_sets O C D id :
  id ∈ C → O ## C → O ## D → C ## D →
  {[id]} ∪ O ## C ∖ {[id]} ∧ {[id]} ∪ O ## D ∧ {[id]} ∪ O ⊆ O ∪ C ∧ C ∖ {[id]} ⊆ C ∪ O ∧ id ∉ O.
Proof. intros. split_and!; set_solver. Qed.

Lemma drop_sets O C D id : O ## C → C ## D → O ## C ∖ {[id]} ∧ C ∖ {[id]} ⊆ C ∪ O ∧ C ∖ {[id]} ## D.
Proof. intros. split_and!; set_solver. Qed.

Lemma frame_sets O O2 C C' D D' X X' :
  O2 ## O → O2 ## C → O2 ## D → C' ⊆ C ∪ O → D' ⊆ O ∪ C → X ⊆ X' → X' ⊆ X ∪ O →
  O2 ## C' ∧ O2 ## D ∪ D' ∧ ∀ k, k ∈ O2 → k ∈ X ↔ k ∈ X'.
Proof. intros. split_and!; set_solver. Qed.

Lemma answer_sets O C D id :
  id ∈ O → O ## C → O ## D → C ## D →
  O ∖ {[id]} ## C ∧ O ∖ {[id]} ## D ∪ {[id]} ∧ O ∖ {[id]} ⊆ O ∪ C ∧ {[id]} ⊆ O ∪ C ∧ C ## D ∪ {[id]} ∧ id ∉ D.
Proof. intros. split_and!; set_solver. Qed.
End Sets.

(** ** Rely and guarantee *)

Section Logic.
Context {T : Type} `{HL : OfferStoreLaws T}.
Context (cfg : SchedulerConfig) (env : Env).
Implicit Types (s : EtcdScheduler T) (h w : list Event) (X O : gset string).

Definition answered h : gset string := list_to_set (answers h).

(** ZooKeeper answered with a nil map and no error: the node held the text [null]. *)
Definition nil_answered : Prop :=
  ∃ h, (reconciliationInfoFunc cfg (ZkServers cfg) (ZkChroot cfg) (FrameworkName cfg) env h).1 = (None, None).

(** The invariant.  [X] is the set of the offers that were ever cached. *)
Record J s h X : Prop := {
  J_store : os_inv (offerCache s) X;
  J_offers : offers_ok cfg s;
  J_records : records_ok s;
  J_pending : size (pending s) ≤ 1;
  J_once : NoDup (answers h);
  J_cached : cached s ## answered h;
  J_names : names_ok s h;
  J_index : is_i64 (highestInstanceID s);
  J_queue : ∀ o, o ∈ os_queue (offerCache s) → sufficient cfg (parseOffer o) = true;
  J_map : reconciliationInfo s = None → nil_answered;
}.

(** The counter is not at the end of its range. *)
Definition room s : Prop := (highestInstanceID s < 2 ^ 63 - 1)%Z.

(** What a goroutine that owns [O] may assume of the others.  The launcher is the
    only one that adds a pending task or launches. *)
Definition rely (launcher : bool) O s h X s' h' X' : Prop :=
  J s' h' X' ∧ room s' ∧ O ## cached s' ∧ O ## answered h' ∧ (∀ k, k ∈ O → k ∈ X ↔ k ∈ X') ∧
  (launcher = true →
     pending s' ⊆ pending s ∧ (highestInstanceID s ≤ highestInstanceID s')%Z ∧ launches h' = launches h).

(** What a step of a goroutine that owned [O] and now owns [O'] promises. *)
Definition guar (launcher : bool) O s h X s' w X' O' : Prop :=
  J s' (h ++ w) X' ∧ O' ## cached s' ∧ O' ## answered (h ++ w) ∧ O' ⊆ O ∪ cached s ∧
  cached s' ⊆ cached s ∪ O ∧ answered w ⊆ O ∪ cached s ∧ X ⊆ X' ∧ X' ⊆ X ∪ O ∧
  (highestInstanceID s ≤ highestInstanceID s' ≤ Z.max (highestInstanceID s + 1) (2 ^ 62 + 1))%Z ∧
  (launcher = false → pending s' ⊆ pending s ∧ launches w = []).

(** Safety of what is left of a goroutine: after any interference, its next
    section keeps its promise, and crashes only on a nil map. *)
Fixpoint safe {A} (launcher : bool) (p : proc (EtcdScheduler T) Goroutine A)
    (Q : A → gset string → EtcdScheduler T → list Event → gset string → Prop) O s h X : Prop :=
  match p with
  | Ret a => Q a O s h X
  | Act B c k => ∀ s' h' X', rely launcher O s h X s' h' X' →
      match c env h' s' with
      | Blocked => True
      | Crashed => reconciliationInfo s' = None
      | Done b s'' w _ => ∃ O' X'', guar launcher O s' h' X' s'' w X'' O' ∧
                            safe launcher (k b) Q O' s'' (h' ++ w) X''
      end
  end.

Definition anything {A} : A → gset string → EtcdScheduler T → list Event → gset string → Prop :=
  λ _ _ _ _ _, True.

Lemma safe_bind {A B} l (p : proc _ _ A) (f : A → proc _ _ B) Q O s h X :
  safe l p (λ a O s h X, safe l (f a) Q O s h X) O s h X → safe l (p ≫= f) Q O s h X.
Proof.
  revert O s h X. induction p as [a|C c k IH]; intros O s h X; [done|]. simpl.
  intros Hp s' h' X' Hr. specialize (Hp s' h' X' Hr). destruct (c env h' s') as [| |b s'' w gs]; [done..|].
  destruct Hp as (O' & X'' & Hg & Hs). exists O', X''. split; [done|]. by apply IH.
Qed.

Lemma safe_mono {A} l (p : proc _ _ A) (Q Q' : A → gset string → EtcdScheduler T → list Event → gset string → Prop) O s h X :
  safe l p Q O s h X → (∀ a O s h X, Q a O s h X → Q' a O s h X) → safe l p Q' O s h X.
Proof.
  revert O s h X. induction p as [a|C c k IH]; intros O s h X; simpl; [by auto|].
  intros Hp HQ s' h' X' Hr. specialize (Hp s' h' X' Hr). destruct (c env h' s') as [| |b s'' w gs]; [done..|].
  destruct Hp as (O' & X'' & Hg & Hs). exists O', X''. split; [done|]. by apply IH.
Qed.

Lemma rely_trans l O s h X s' h' X' s'' h'' X'' :
  rely l O s h X s' h' X' → rely l O s' h' X' s'' h'' X'' → rely l O s h X s'' h'' X''.
Proof.
  intros (_ & _ & _ & _ & HX & Hl) (HJ & Hr & Hc & Ha & HX' & Hl'). split_and!; try done.
  - intros k Hk. by rewrite HX, HX'.
  - intros ->. destruct (Hl eq_refl) as (? & ? & ?), (Hl' eq_refl) as (? & ? & ?).
    split_and!; [set_solver|lia|congruence].
Qed.

(** Interference does not spoil safety. *)
Lemma safe_rely {A} l (p : proc _ _ A) O s h X s' h' X' :
  safe l p anything O s h X → rely l O s h X s' h' X' → safe l p anything O s' h' X'.
Proof.
  destruct p as [a|C c k]; [done|]. simpl. intros Hp Hr s'' h'' X'' Hr'.
  by apply Hp, (rely_trans _ _ _ _ _ s' h' X').
Qed.

(** A step of one goroutine, seen from another. *)
Lemma guar_rely l l' O O2 s h X s' w X' O' :
  guar l O s h X s' w X' O' → room s' → O2 ## O → O2 ## cached s → O2 ## answered h →
  (l' = true → l = false) → rely l' O2 s h X s' (h ++ w) X'.
Proof.
  intros (HJ & _ & _ & _ & Hc & Ha & HX & HX' & Hi & Hl) Hr HO HOc HOa Hll.
  destruct (frame_sets O O2 (cached s) (cached s') (answered h) (answered w) X X')
    as (H1 & H2 & H3); [done..|].
  split_and!; try done.
  - unfold answered in *. by rewrite answers_app, list_to_set_app_L.
  - intros ->. destruct (Hl (Hll eq_refl)) as [Hp Hla]. split_and!; [done|lia|].
    by rewrite launches_app, Hla, app_nil_r.
Qed.

(** *** Sections *)

(** The rule for one section. *)
Lemma safe_atomic {A} l (c : crit _ _ A) Q O s h X :
  (∀ s' h' X', rely l O s h X s' h' X' →
     match c env h' s' with
     | Blocked => True
     | Crashed => reconciliationInfo s' = None
     | Done b s'' w _ => ∃ O' X'', guar l O s' h' X' s'' w X'' O' ∧ Q b O' s'' (h' ++ w) X''
     end) →
  safe l (atomic c) Q O s h X.
Proof. intros Hc. exact Hc. Qed.

Lemma guar_core l O s h X s' w :
  J s h X → O ## cached s → O ## answered h → same_core s s' →
  (reconciliationInfo s' = None → nil_answered) → silent w → guar l O s h X s' w X O.
Proof.
  intros [Hst Hof [Hr1 Hr2] Hp Ho Hc [Hn1 Hn2] Hi Hq Hm] HOc HOa (Ec & Eh & Er & Et & Ep) Hm' [Ea El].
  unfold guar, cached, answered in *. rewrite Ec, Ep, Eh, answers_app, Ea, app_nil_r.
  split_and!; try done; try apply union_subseteq_l; try lia; try apply empty_subseteq.
  split; unfold offers_ok, records_ok, names_ok, cached, answered in *;
    rewrite ?Ec, ?Eh, ?Er, ?Et, ?Ep, ?answers_app, ?launches_app, ?Ea, ?El, ?app_nil_r; done.
Qed.

(** A section that keeps the core: the goroutine knows, of its result, what the
    section says of every state. *)
Lemma safe_keeps {A} l (c : crit _ _ A) (Q : A → gset string → EtcdScheduler T → list Event → gset string → Prop) O s h X :
  (∀ s' h' X', rely l O s h X s' h' X' →
     keeps_at c env h' s' ∧
     ∀ a s'' w gs, c env h' s' = Done a s'' w gs → same_core s' s'' → silent w →
       Q a O s'' (h' ++ w) X') →
  safe l (atomic c) Q O s h X.
Proof.
  intros Hc. apply safe_atomic. intros s' h' X' Hr. destruct (Hc s' h' X' Hr) as [Hk HQ].
  unfold keeps_at in Hk. destruct (c env h' s') as [| |a s'' w gs] eqn:E; [done..|].
  destruct Hk as (Hs & Hm & Hw). exists O, X'. destruct Hr as (HJ & _ & Hoc & Hoa & _).
  split; [|by eapply HQ]. apply guar_core; try done. intros Hn. by apply (J_map _ _ _ HJ), Hm.
Qed.

Lemma safe_keeps_any {A} l (c : crit _ _ A) O s h X : keeps c → safe l (atomic c) anything O s h X.
Proof. intros Hc. apply safe_keeps. intros. by split. Qed.

(** *** Answering an offer *)

Lemma answered_app h w : answered (h ++ w) = answered h ∪ answered w.
Proof. unfold answered. by rewrite answers_app, list_to_set_app_L. Qed.

Lemma answered_decline id : answered [EvDecline id] = {[id]}.
Proof. unfold answered, answers. simpl. set_solver. Qed.

Lemma safe_decline l o (Q : unit → gset string → EtcdScheduler T → list Event → gset string → Prop) O s h X :
  OfferId o ∈ O →
  (∀ s' h' X', rely l O s h X s' h' X' → Q tt (O ∖ {[OfferId o]}) s' (h' ++ [EvDecline (OfferId o)]) X') →
  safe l (atomic (decline o)) Q O s h X.
Proof.
  intros Ho HQ. apply safe_atomic. intros s' h' X' Hr. cbn [decline emit_event].
  exists (O ∖ {[OfferId o]}), X'. split; [|by apply HQ].
  destruct Hr as (HJ & _ & Hoc & Hoa & _). unfold guar. rewrite answered_app, answered_decline.
  destruct (answer_sets O (cached s') (answered h') (OfferId o)) as (H1 & H2 & H3 & H4 & H5 & H6);
    [done..|apply HJ|].
  split_and!; try done; try lia; try apply union_subseteq_l.
  destruct HJ as [Hst Hof Hrec Hp Honce Hc [Hn1 Hn2] Hi Hq Hm]. split; try done.
  - rewrite answers_app. apply NoDup_snoc; [done|]. unfold answered in H6. by rewrite elem_of_list_to_set in H6.
  - by rewrite answered_app, answered_decline.
  - unfold names_ok. rewrite launches_app, app_nil_r. done.
Qed.

(** *** The offer cache *)

Lemma J_cache s h X t X' :
  J s h X → os_inv t X' →
  (∀ k o, os_set t !! k = Some o → sufficient cfg (parseOffer o) = true) →
  (∀ o, o ∈ os_queue t → sufficient cfg (parseOffer o) = true) →
  (dom (os_set t) : gset string) ## answered h →
  J (with_offerCache t s) h X'.
Proof. intros [Hst Hof Hrec Hp Honce Hc Hn Hi Hq Hm] Hst' Hof' Hq' Hc'. by split. Qed.

Lemma os_params_eq s : with_offerCache (offerCache s) s = s.
Proof. by destruct s. Qed.

Lemma safe_push o (Q : bool → gset string → EtcdScheduler T → list Event → gset string → Prop) O s h X :
  OfferId o ∈ O → OfferId o ∉ X → sufficient cfg (parseOffer o) = true →
  (∀ s' h' X', rely false O s h X s' h' X' → Q false O s' h' X') →
  (∀ s' h' X' s'', rely false O s h X s' h' X' → Q true (O ∖ {[OfferId o]}) s'' h' ({[OfferId o]} ∪ X')) →
  safe false (atomic (cache_push o)) Q O s h X.
Proof.
  intros Ho HoX Hsuf Hf Ht. apply safe_atomic. intros s' h' X' Hr.
  pose proof Hr as (HJ & Hroom & Hoc & Hoa & HX & _). cbv zeta. unfold cache_push.
  destruct (decide (can_accept (os_set (offerCache s')) (os_max (offerCache s'))
                      (os_single (offerCache s')) o)) as [Ha|Ha].
  2:{ rewrite os_push_reject by done. cbn [fst snd]. exists O, X'. rewrite app_nil_r. split.
      - apply guar_core; try done. apply HJ.
      - rewrite os_params_eq. by apply Hf. }
  assert (HoX' : OfferId o ∉ X') by (intros Hin; by apply HoX, HX).
  destruct (os_push_accept _ _ _ (J_store _ _ _ HJ) HoX' Ha) as (t & -> & Hset & Hque & Hsame & Hinv).
  cbn [fst snd]. exists (O ∖ {[OfferId o]}), ({[OfferId o]} ∪ X'). rewrite app_nil_r.
  split; [|by eapply Ht].
  assert (Hdom : (dom (os_set t) : gset string) = {[OfferId o]} ∪ cached s')
    by (unfold cached; rewrite Hset; apply dom_insert_L).
  unfold guar. rewrite app_nil_r. unfold cached in *. cbn [offerCache with_offerCache]. rewrite Hdom.
  assert (answered [] = ∅) as -> by done.
  destruct (push_sets O (dom (os_set (offerCache s'))) (answered h') X' (OfferId o))
    as (H1 & H2 & H3 & H4 & H5 & H6 & H7); [done..|].
  split_and!; try done; try (cbn; lia); try apply empty_subseteq.
  apply (J_cache _ _ X'); [done..| | |].
  - intros k o'. rewrite Hset. intros [[<- <-]|[_ Hk]]%lookup_insert_Some; [done|].
    by eapply (J_offers _ _ _ HJ).
  - intros o' [->|Ho']%Hque; [done|by apply (J_queue _ _ _ HJ)].
  - rewrite Hdom. apply H7, HJ.
Qed.

(** Deleting an offer gives the caller the offer when it was still cached: rescinding, and
    the second step of a pop. *)
Lemma safe_delete l id (c : crit (EtcdScheduler T) Goroutine bool) (Q : bool → gset string → EtcdScheduler T → list Event → gset string → Prop) O s h X :
  (∀ t h' s', os_inv (offerCache s') t → ∃ t', c env h' s' =
     Done (bool_decide (is_Some (os_set (offerCache s') !! id))) (with_offerCache t' s') [] [] ∧
     os_set t' = delete id (os_set (offerCache s')) ∧ os_queue t' = os_queue (offerCache s') ∧ os_inv t' t) →
  (∀ s' h' X', Q false O s' h' X') → (∀ s' h' X', id ∉ O → Q true ({[id]} ∪ O) s' h' X') →
  safe l (atomic c) Q O s h X.
Proof.
  intros Hc Hf Ht. apply safe_atomic. intros s' h' X' Hr.
  pose proof Hr as (HJ & Hroom & Hoc & Hoa & _).
  destruct (Hc X' h' s' (J_store _ _ _ HJ)) as (t & -> & Hset & Hque & Hinv).
  pose proof (J_cached _ _ _ HJ) as Hd. unfold cached in *.
  assert (Hdom : (dom (os_set t) : gset string) = dom (os_set (offerCache s')) ∖ {[id]})
    by (rewrite Hset; apply dom_delete_L).
  assert (HJ' : J (with_offerCache t s') (h' ++ []) X').
  { rewrite app_nil_r. apply (J_cache _ _ X'); [done..| | |].
    - intros k o. rewrite Hset. intros [_ Hk]%lookup_delete_Some. by eapply (J_offers _ _ _ HJ).
    - rewrite Hque. apply HJ.
    - rewrite Hdom. by eapply (drop_sets O). }
  case_bool_decide as Hin; [exists ({[id]} ∪ O), X'|exists O, X'].
  - apply elem_of_dom in Hin.
    destruct (take_sets O (dom (os_set (offerCache s'))) (answered h') id) as (H1 & H2 & H3 & H4 & H5); [done..|].
    split; [|by auto]. unfold guar. rewrite app_nil_r in *. unfold cached in *.
    cbn [offerCache with_offerCache]. rewrite Hdom. assert (answered [] = ∅) as -> by done.
    split_and!; try done; try (cbn; lia); try apply empty_subseteq; apply union_subseteq_l.
  - destruct (drop_sets O (dom (os_set (offerCache s'))) (answered h') id) as (H1 & H2 & _); [done..|].
    split; [|by auto]. unfold guar. rewrite app_nil_r in *. unfold cached in *.
    cbn [offerCache with_offerCache]. rewrite Hdom. assert (answered [] = ∅) as -> by done.
    split_and!; try done; try (cbn; lia); try apply empty_subseteq; apply union_subseteq_l.
Qed.

Lemma safe_rescind id (Q : bool → gset string → EtcdScheduler T → list Event → gset string → Prop) O s h X :
  (∀ s' h' X', Q false O s' h' X') → (∀ s' h' X', Q true ({[id]} ∪ O) s' h' X') →
  safe false (atomic (cache_rescind id)) Q O s h X.
Proof.
  intros Hf Ht. apply (safe_delete _ id); [|done|auto]. intros t h' s' Hi. unfold cache_rescind. cbv zeta.
  destruct (os_rescind_spec _ _ id Hi) as (t' & -> & Hs & Hq & _ & Hi'). by exists t'.
Qed.

Lemma safe_take l o (Q : bool → gset string → EtcdScheduler T → list Event → gset string → Prop) O s h X :
  (∀ s' h' X', Q false O s' h' X') → (∀ s' h' X', Q true ({[OfferId o]} ∪ O) s' h' X') →
  safe l (atomic (cache_take o)) Q O s h X.
Proof.
  intros Hf Ht. apply (safe_delete _ (OfferId o)); [|done|auto]. intros t h' s' Hi. unfold cache_take. cbv zeta.
  destruct (os_take_spec _ _ o Hi) as (t' & -> & Hs & Hq & _ & Hi'). by exists t'.
Qed.

(** Receiving from the channel of the cache gives an offer that is big enough, whether or
    not it is still cached. *)
Lemma safe_recv l (Q : Offer → gset string → EtcdScheduler T → list Event → gset string → Prop) O s h X :
  (∀ o s' h' X', sufficient cfg (parseOffer o) = true → Q o O s' h' X') →
  safe l (atomic cache_recv) Q O s h X.
Proof.
  intros HQ. apply safe_atomic. intros s' h' X' Hr.
  pose proof Hr as (HJ & Hroom & Hoc & Hoa & _). unfold cache_recv.
  destruct (os_recv (offerCache s')) as [[o t]|] eqn:E; [|done].
  destruct (os_recv_spec _ _ _ _ (J_store _ _ _ HJ) E) as (Ho & Hque & Hset & _ & Hinv).
  exists O, X'. split; [|by apply HQ, (J_queue _ _ _ HJ)].
  assert (HJ' : J (with_offerCache t s') (h' ++ []) X').
  { rewrite app_nil_r. apply (J_cache _ _ X'); [done..| | |].
    - intros k o'. rewrite Hset. by apply (J_offers _ _ _ HJ).
    - intros o' Ho'. by apply (J_queue _ _ _ HJ), Hque.
    - rewrite Hset. apply HJ. }
  unfold guar. rewrite app_nil_r in *. unfold cached in *. cbn [offerCache with_offerCache]. rewrite Hset.
  assert (answered [] = ∅) as -> by done.
  split_and!; try done; try (cbn; lia); try apply empty_subseteq; apply union_subseteq_l.
Qed.

(** *** Registration and status updates *)

(** Changes to the records and the counter that a callback may make. *)
Lemma guar_records O s h X s' w :
  J s h X → O ## cached s → O ## answered h →
  offerCache s' = offerCache s → records_ok s' → pending s' ⊆ pending s → silent w →
  (highestInstanceID s ≤ highestInstanceID s' ≤ Z.max (highestInstanceID s + 1) (2 ^ 62 + 1))%Z →
  is_i64 (highestInstanceID s') → (reconciliationInfo s' = None → nil_answered) →
  guar false O s h X s' w X O.
Proof.
  intros [Hst Hof Hrec Hp Ho Hc [Hn1 Hn2] Hi Hq Hm] HOc HOa Ec Hrec' Hp' [Ea El] Hh Hi' Hm'.
  unfold guar, cached, answered in *. rewrite Ec, answers_app, Ea, app_nil_r.
  split_and!; try done; try apply union_subseteq_l; try lia; try apply empty_subseteq.
  split; unfold offers_ok, names_ok, cached, answered in *;
    rewrite ?Ec, ?answers_app, ?launches_app, ?Ea, ?El, ?app_nil_r; try done.
  - pose proof (subseteq_size _ _ Hp'). lia.
  - split; [done|]. intros t Ht. destruct (Hn2 t Ht) as (i & ? & ? & ?). exists i. split_and!; [done|lia|done].
Qed.

Lemma safe_Initialize mi O s h X : safe false (atomic (Initialize mi)) anything O s h X.
Proof.
  apply safe_atomic. intros s' h' X' (HJ & _ & Hoc & Hoa & _). exists O, X'. split; [|done].
  apply guar_records; try done; try (cbn; lia); [|apply HJ].
  split; [|apply HJ]. intros k n Hk. by destruct (lookup_empty_Some (M := gmap string) k n).
Qed.

(** The index in the task's name leaves room above it. *)
Definition index_ok (st : TaskStatus) : Prop :=
  ∀ n i, Parse (StatusTaskId st) = Ok n → name_index (Name n) = Some i → (i ≤ 2 ^ 62)%Z.

Lemma bump_index_bounds n hi :
  (∀ i, name_index n = Some i → (i ≤ 2 ^ 62)%Z) → is_i64 hi →
  (hi ≤ bump_index n hi ≤ Z.max (hi + 1) (2 ^ 62 + 1))%Z ∧ is_i64 (bump_index n hi).
Proof.
  intros Hi Hhi. unfold bump_index. destruct (name_index n) as [i|] eqn:E; [|split; [lia|done]].
  specialize (Hi i eq_refl). case_bool_decide; [|split; [lia|done]].
  unfold is_i64 in *. rewrite i64_small; unfold is_i64; lia.
Qed.

Lemma records_lost name s s' tid : lost_state name tid s s' → records_ok s → records_ok s'.
Proof.
  intros [_ Hr Ht _ _ _ _ _ _] [H1 H2]. split.
  - intros k n. rewrite Hr, Ht. intros [Hne Hk]%lookup_delete_Some.
    rewrite lookup_delete_ne by done. by apply H1.
  - intros k t. rewrite Ht. intros [_ Hk]%lookup_delete_Some. by apply H2.
Qed.

Lemma records_running node tid slave s s' :
  running_state node tid slave s s' → wf_node node → (∃ m, Parse tid = Ok m ∧ Name m = Name node) →
  records_ok s → records_ok s'.
Proof.
  intros [_ Hr Ht _ _ _] Hwf Hp [H1 H2]. unfold records_ok. rewrite Hr, Ht.
  destruct (running s !! Name node) eqn:E; [done|]. split.
  - intros k n [[<- <-]|[Hne Hk]]%lookup_insert_Some; [by rewrite lookup_insert_eq|].
    rewrite lookup_insert_ne by done. by apply H1.
  - intros k t [[<- <-]|[Hne Hk]]%lookup_insert_Some; [done|]. by apply H2.
Qed.

Lemma safe_StatusUpdate st (Hcfg : cfg_quiet cfg) O s h X :
  index_ok st → safe false (atomic (StatusUpdate cfg st)) anything O s h X.
Proof.
  intros Hix. apply safe_atomic. intros s' h' X' (HJ & _ & Hoc & Hoa & _).
  unfold StatusUpdate. destruct (Parse (StatusTaskId st)) as [n|e] eqn:Hp.
  2:{ exists O, X'. split; [|done]. apply guar_core; try done. apply HJ. }
  pose proof (Parse_wf _ _ Hp) as [Hwf _].
  rewrite crit_bind_run. cbn [modify]. set (s1 := with_heardFrom _ s'). cbn [app].
  rewrite app_nil_r. assert (HJ1 : J s1 h' X') by by destruct HJ.
  destruct (is_terminal (StatusState st)).
  - pose proof (task_lost_run (Name n) (StatusTaskId st) env h' s1) as Ht. unfold total in Ht. cbn [Name].
    destruct (task_lost _ _ env h' s1) as [| |[] s'' w gs]; [done..|]. destruct Ht as (-> & _ & Hl).
    exists O, X'. split; [|done].
    pose proof Hl as [Hpe _ _ Hre _ _ _ _ (Hca & Hhi & _)]. apply guar_records; try done.
    + eapply records_lost; [done|apply HJ1].
    + rewrite Hpe. apply subseteq_difference_l. done.
    + rewrite Hhi. cbn. lia.
    + rewrite Hhi. apply HJ.
    + rewrite Hre. intros Hn%fmap_None. by apply (J_map _ _ _ HJ).
  - case_bool_decide.
    2:{ exists O, X'. split; [|done]. apply guar_core; try done. apply HJ. }
    destruct (reconciliationInfo s') as [m|] eqn:Hm.
    2:{ by rewrite task_running_nil. }
    set (node := mkNode _ _ _ _ _ _ _).
    pose proof (task_running_run cfg node (StatusTaskId st) (GetSlaveIdValue st) env h' s1 m Hm) as Ht.
    unfold total in Ht. destruct (task_running _ _ _ _ env h' s1) as [| |[] s'' w gs]; [done..|].
    destruct Ht as (_ & Hru & ->). exists O, X'. split; [|done].
    pose proof Hru as [Hpe _ _ Hre Hhi (Hca & _)]. cbn [Name] in Hpe, Hhi.
    destruct (bump_index_bounds (Name n) (highestInstanceID s')) as [Hb1 Hb2];
      [by intros i Hi; eapply Hix|apply HJ|].
    apply guar_records; try done.
    + eapply records_running; [done| |by exists n|apply HJ1]. done.
    + rewrite Hpe. apply subseteq_difference_l. done.
    + apply (cq_update _ Hcfg).
    + rewrite Hhi. done.
    + rewrite Hhi. done.
    + rewrite Hre. intros Hn%fmap_None. by apply (J_map _ _ _ HJ).
Qed.

(** *** Launching *)

(** What the launcher knows of a prepared task until it is sent. *)
Definition fresh_task (task : TaskInfo) s h : Prop :=
  (task_name task ∉ task_name <$> launches h) ∧
  ∃ i, task_name task = instance_name i ∧ (i ≤ highestInstanceID s)%Z ∧ is_i64 i.

Lemma fresh_task_rely O task s h X s' h' X' :
  fresh_task task s h → rely true O s h X s' h' X' → fresh_task task s' h'.
Proof.
  intros (Hf & i & Hn & Hi & Hb) (_ & _ & _ & _ & _ & Hl). destruct (Hl eq_refl) as (_ & Hh & El).
  split; [by rewrite El|]. exists i. split_and!; [done|lia|done].
Qed.

Lemma prepared_fresh s h X offer lowest task s' :
  J s h X → room s → prepared cfg offer lowest s task s' → fresh_task task s' h ∧
  highestInstanceID s' = (highestInstanceID s + 1)%Z ∧ is_i64 (highestInstanceID s').
Proof.
  intros HJ Hr [Hi _ _ (order & _ & ->)].
  assert (Hi' : highestInstanceID s' = (highestInstanceID s + 1)%Z).
  { rewrite Hi. apply i64_small. pose proof (J_index _ _ _ HJ). unfold is_i64, room in *. lia. }
  assert (Hb : is_i64 (highestInstanceID s')).
  { rewrite Hi'. pose proof (J_index _ _ _ HJ). unfold is_i64, room in *. lia. }
  split_and!; [|done..]. split; [|by exists (highestInstanceID s')].
  intros (t & Ht & Hin)%list_elem_of_fmap. destruct (J_names _ _ _ HJ) as [_ Hall].
  destruct (Hall t Hin) as (j & Hj & Hle & Hbj). rewrite Hj in Ht.
  apply instance_name_inj in Ht; [|done..]. lia.
Qed.

(** The locked section adds the one pending task. *)
Lemma guar_prepared O s h X offer lowest task s' :
  J s h X → room s → O ## cached s → O ## answered h → pending s = ∅ →
  prepared cfg offer lowest s task s' → guar true O s h X s' [] X O.
Proof.
  intros HJ Hr Hoc Hoa Hp Hpr. destruct (prepared_fresh _ _ _ _ _ _ _ HJ Hr Hpr) as (_ & Hi & Hb).
  pose proof Hpr as [_ Hpe (Ec & Er & Et & _ & Em & _) _].
  destruct HJ as [Hst Hof Hrec _ Ho Hc [Hn1 Hn2] _ Hq Hm].
  unfold guar, cached, answered in *. rewrite Ec, app_nil_r.
  split_and!; try done; try apply union_subseteq_l; try lia; try apply empty_subseteq.
  split; unfold offers_ok, records_ok, names_ok, cached, answered in *; rewrite ?Ec, ?Er, ?Et, ?Em; try done.
  - rewrite Hpe, Hp, union_empty_r_L, size_singleton. done.
  - split; [done|]. intros t Ht. destruct (Hn2 t Ht) as (i & ? & ? & ?). exists i. split_and!; [done|lia|done].
Qed.

(** Sending it answers the offer. *)
Lemma guar_launch O s h X id task :
  J s h X → O ## cached s → O ## answered h → id ∈ O → fresh_task task s h →
  guar true O s h X s [EvLaunch [id] [task]] X (O ∖ {[id]}).
Proof.
  intros HJ Hoc Hoa Hin (Hf & i & Hi).
  assert (Ha : answered [EvLaunch [id] [task]] = {[id]}) by (unfold answered, answers; simpl; set_solver).
  destruct (answer_sets O (cached s) (answered h) id) as (H1 & H2 & H3 & H4 & H5 & H6); [done..|apply HJ|].
  unfold guar. rewrite answered_app, Ha.
  split_and!; try done; try apply union_subseteq_l; try lia.
  destruct HJ as [Hst Hof Hrec Hp Ho Hc [Hn1 Hn2] Hb Hq Hm]. split; try done.
  - rewrite answers_app. apply NoDup_snoc; [done|]. unfold answered in H6. by rewrite elem_of_list_to_set in H6.
  - by rewrite answered_app, Ha.
  - unfold names_ok. rewrite launches_app. split.
    + rewrite fmap_app. by apply NoDup_snoc.
    + intros t [Ht|Ht]%elem_of_app; [by apply Hn2|].
      apply list_elem_of_singleton in Ht as ->. by exists i.
Qed.

Section Launcher.
Context (Hcfg : cfg_quiet cfg).

(** The launcher's check: it keeps the core, and when it passes nothing is
    pending. *)
Lemma safe_shouldLaunch (Q : bool → gset string → EtcdScheduler T → list Event → gset string → Prop) O s h X :
  (∀ s' h' X', Q false O s' h' X') →
  (∀ s' h' X', pending s' = ∅ → Q true O s' h' X') →
  safe true (atomic (shouldLaunch cfg)) Q O s h X.
Proof.
  intros Hf Ht. apply safe_keeps. intros s' h' X' Hr. split; [by apply keeps_shouldLaunch|].
  intros [|] s'' w gs E _ _; [|done]. apply Ht.
  pose proof (shouldLaunch_gate cfg env h' s') as Hg. unfold total in Hg. rewrite E in Hg.
  destruct (Hg eq_refl) as [[_ _ Hp _ _ _ _] ->]. done.
Qed.

Lemma safe_launch_with o O s h X :
  OfferId o ∈ O → sufficient cfg (parseOffer o) = true → safe true (launch_with cfg o) anything O s h X.
Proof.
  intros Ho Hsuf. unfold launch_with. apply safe_bind, safe_shouldLaunch; clear s h X.
  { intros s h X. by apply safe_decline. }
  intros s h X Hp. cbn [negb]. pose proof (sufficient_ports cfg o Hsuf) as Hne.
  destruct (res_ports (parseOffer o)) as [|r0 rs]; [done|]. apply safe_bind, safe_atomic.
  intros s1 h1 X1 Hr1. pose proof Hr1 as (HJ1 & Hroom & Hoc & Hoa & _ & Hl).
  destruct (Hl eq_refl) as (Hp1 & _). rewrite Hp in Hp1.
  assert (Hp1' : pending s1 = ∅) by (apply leibniz_equiv; by apply equiv_empty).
  pose proof (prepare_task_run cfg o (Begin r0) env h1 s1) as Hpt. unfold total in Hpt.
  destruct (prepare_task cfg o (Begin r0) env h1 s1) as [| |task s2 w gs]; [done..|].
  destruct Hpt as (-> & _ & Hpr). exists O, X1. split; [by eapply guar_prepared|].
  destruct (prepared_fresh _ _ _ _ _ _ _ HJ1 Hroom Hpr) as (Hfresh & _). rewrite app_nil_r.
  apply safe_bind, safe_keeps. intros s3 h3 X3 Hr3. split; [by keeps_crit|].
  intros [] s4 w gs' E Hcore [_ El]. apply safe_atomic. intros s5 h5 X5 Hr5. cbn [emit_event].
  exists (O ∖ {[OfferId o]}), X5. split; [|done].
  pose proof Hr5 as (HJ5 & _ & Hoc5 & Hoa5 & _). apply guar_launch; try done.
  eapply fresh_task_rely; [|exact Hr5].
  destruct (fresh_task_rely _ _ _ _ _ _ _ _ Hfresh Hr3) as (Hf3 & i & Hi1 & Hi2 & Hi3).
  destruct Hcore as (_ & Eh & _). split; [by rewrite launches_app, El, app_nil_r|].
  exists i. by rewrite Eh.
Qed.

Lemma safe_pop_valid fuel (Q : Offer → gset string → EtcdScheduler T → list Event → gset string → Prop) s h X :
  (∀ o s' h' X', sufficient cfg (parseOffer o) = true → Q o {[OfferId o]} s' h' X') →
  safe true (pop_valid cfg fuel) Q ∅ s h X.
Proof.
  intros HQ. revert s h X. induction fuel as [|fuel IH]; intros s h X; cbn [pop_valid].
  { apply safe_keeps. intros. split; [apply keeps_block|]. by intros. }
  apply safe_bind, safe_recv. intros o s0 h0 X0 Hsuf.
  apply safe_bind, safe_take; intros s1 h1 X1; [apply IH|]. cbn [negb]. rewrite union_empty_r_L.
  apply safe_bind, safe_keeps. intros s2 h2 X2 _. split; [apply keeps_RunningCopy|].
  intros rc s3 w gs _ _ _. destruct (valid_offer cfg rc o); [by apply HQ|].
  apply safe_bind, safe_decline; [set_solver|]. intros s4 h4 X4 _. rewrite difference_diag_L. apply IH.
Qed.

Lemma safe_sleep l d O s h X : safe l (sleep d) anything O s h X.
Proof. apply safe_keeps_any. unfold sleep. keeps_crit. Qed.

Lemma safe_launchOne fuel s h X : safe true (launchOne cfg fuel) anything ∅ s h X.
Proof.
  unfold launchOne. apply safe_bind, safe_keeps. intros s1 h1 X1 _. split; [apply keeps_Prune|].
  intros [e|] s2 w gs _ _ _; [done|]. apply safe_bind, safe_shouldLaunch; [done|].
  intros s3 h3 X3 _. cbn [negb]. apply safe_bind, safe_pop_valid. intros o s4 h4 X4 Hsuf.
  apply safe_launch_with; [set_solver|done].
Qed.

Lemma safe_SerialLauncher fuel s h X : safe true (SerialLauncher cfg fuel) anything ∅ s h X.
Proof.
  unfold SerialLauncher. apply safe_bind, safe_keeps. intros s1 h1 X1 _. split.
  { unfold keeps_at, try_pause. case_bool_decide; split_and!; by try intros ?. }
  intros [|] s2 w gs _ _ _; [apply safe_sleep|]. apply safe_bind, safe_keeps. intros s3 h3 X3 _. split.
  { unfold keeps_at, select_launch_or_pause. cbv zeta.
    destruct (_ && _); [|destruct (bool_decide (0 < pauseChan s3)); [|done]]; split_and!; by try intros ?. }
  intros [|] s4 w' gs' _ _ _; [|apply safe_sleep]. apply safe_bind.
  eapply safe_mono; [apply safe_launchOne|]. intros. apply safe_sleep.
Qed.
End Launcher.

(** *** The other goroutines *)

Section Others.
Context (Hcfg : cfg_quiet cfg) (Hclock : clock_advances env).

(** A section that keeps the core, followed by anything safe. *)
Lemma safe_keeps_bind {A B} l (c : crit (EtcdScheduler T) Goroutine A) (k : A → proc _ _ B) O s h X :
  keeps c → (∀ a s h X, safe l (k a) anything O s h X) → safe l (atomic c ≫= k) anything O s h X.
Proof. intros Hc Hk. apply safe_bind, safe_keeps. intros. split; [apply Hc|]. intros. apply Hk. Qed.

Lemma safe_wait_loop n b (k : option error → proc (EtcdScheduler T) Goroutine unit) O s h X :
  (∀ e s h X, safe false (k e) anything O s h X) →
  safe false (wait_loop n b ≫= k) anything O s h X.
Proof.
  intros Hk. apply safe_bind. revert b s h X. induction n as [|n IH]; intros b s h X; cbn [wait_loop]; [apply Hk|].
  apply safe_bind, safe_keeps. intros s1 h1 X1 _. split; [apply keeps_get|]. intros s2 s3 w gs _ _ _.
  destruct (masterInfo s2 ≫= MIHostname); [|apply Hk].
  apply safe_bind, safe_keeps. intros s4 h4 X4 _. split; [apply keeps_isInSync|].
  intros [|] s5 w' gs' _ _ _; [apply Hk|]. apply safe_bind, safe_keeps. intros s6 h6 X6 _.
  split; [unfold sleep; keeps_crit|]. intros. apply IH.
Qed.

(** Installing a map that ZooKeeper answered. *)
Lemma safe_install l previous (Q : nat → gset string → EtcdScheduler T → list Event → gset string → Prop) O s h X :
  (previous = None → nil_answered) → (∀ ref s' h' X', Q ref O s' h' X') →
  safe l (atomic (install_previous previous)) Q O s h X.
Proof.
  intros Hn HQ. apply safe_atomic. intros s' h' X' (HJ & _ & Hoc & Hoa & _).
  unfold install_previous. rewrite crit_bind_run. cbn. exists O, X'. split; [|apply HQ].
  by apply guar_core.
Qed.

Lemma safe_sync_loop n b O s h X : safe false (sync_loop cfg n b) anything O s h X.
Proof.
  revert b s h X. induction n as [|n IH]; intros b s h X; cbn [sync_loop].
  { apply safe_keeps_any. auto with keeps. }
  assert (Hs : ∀ s h X, safe false (_ ← sleep (b * second); sync_loop cfg n (next_backoff b)) anything O s h X)
    by (intros; apply safe_keeps_bind; [keeps_crit|done]).
  apply safe_bind, safe_keeps. intros s0 h0 X0 _. split; [keeps_crit|].
  intros [m [e|]] s1 w gs Hp _ _; cbn [fst snd]; [apply Hs|].
  apply safe_bind, safe_install. { intros ->. exists h0. unfold lift_io in Hp. by simplify_eq. }
  intros ref s2 h2 X2. apply safe_keeps_bind; [auto with keeps|]. intros sts s2' h2' X2'.
  apply safe_keeps_bind; [auto with keeps|]. intros [e1|] s3 h3 X3; [apply IH|].
  apply safe_keeps_bind; [auto with keeps|]. intros [e2|] s4 h4 X4; [apply Hs|].
  apply safe_wait_loop. intros [e3|] s5 h5 X5; [apply Hs|]. apply safe_keeps_any. keeps_crit.
Qed.

Lemma safe_rescind_timer o s h X : safe false (rescind_timer cfg o) anything ∅ s h X.
Proof.
  unfold rescind_timer. apply safe_keeps_bind; [keeps_crit|]. intros _ s1 h1 X1.
  apply safe_bind, safe_rescind; intros s2 h2 X2; [done|]. apply safe_decline; [set_solver|done].
Qed.

Lemma safe_reseedCluster O s h X : safe false (reseedCluster cfg) anything O s h X.
Proof.
  unfold reseedCluster. apply safe_bind, safe_keeps. intros s1 h1 X1 _. split.
  { unfold keeps_at, cas_reseeding. case_bool_decide; split_and!; by try intros ?. }
  intros [|] s2 w gs _ _ _; [|done]. cbn [negb]. apply safe_keeps_bind; [keeps_crit|]. intros _ s3 h3 X3.
  apply safe_keeps. intros s4 h4 X4 _. split; [|done].
  pose proof (reseed_locked_done cfg env Hclock h4 s4) as Ht. unfold total, keeps_at in *.
  destruct (reseed_locked cfg env h4 s4); [done..|]. by destruct Ht as (_ & ? & ? & ? & _).
Qed.

Lemma safe_goroutine g s h X : safe false (goroutine cfg g) anything ∅ s h X.
Proof.
  destruct g; [apply safe_sync_loop|apply safe_rescind_timer|apply safe_reseedCluster].
Qed.

(** One offer is cached or declined; the goroutine keeps the others. *)
Lemma safe_resource_offer o O s h X :
  OfferId o ∈ O → (∀ k, k ∈ O → k ∉ X) →
  safe false (resource_offer cfg o)
    (λ _ O' _ _ X', O' = O ∖ {[OfferId o]} ∧ ∀ k, k ∈ O' → k ∉ X') O s h X.
Proof.
  intros Ho HX. unfold resource_offer.
  assert (Hdec : ∀ s h X, (∀ k, k ∈ O → k ∉ X) → safe false (atomic (decline o))
     (λ _ O' _ _ X', O' = O ∖ {[OfferId o]} ∧ ∀ k, k ∈ O' → k ∉ X') O s h X).
  { intros s1 h1 X1 HX1. apply safe_decline; [done|]. intros s2 h2 X2 (_ & _ & _ & _ & HX2 & _).
    split; [done|]. intros k [Hk _]%elem_of_difference. rewrite <- HX2 by done. by apply HX1. }
  apply safe_bind, safe_atomic. intros s1 h1 X1 Hr1.
  pose proof Hr1 as (HJ1 & Hroom1 & Hoc1 & Hoa1 & HX1 & _).
  assert (HX1' : ∀ k, k ∈ O → k ∉ X1) by (intros k Hk; rewrite <- HX1 by done; by apply HX).
  rewrite crit_bind_run. cbn [get_state]. destruct (bool_decide (state s1 = Immutable)).
  { rewrite crit_bind_run. cbn [decline emit_event mret crit_ret app].
    pose proof (Hdec s1 h1 X1 HX1' s1 h1 X1) as Hd. cbn [decline emit_event] in Hd.
    destruct Hd as (O' & X' & Hg & Hq); [by split_and!|]. exists O', X'.
    split; [done|]. apply Hq. }
  cbn [mret crit_ret app]. exists O, X1. split; [apply guar_core; try done; apply HJ1|]. rewrite app_nil_r.
  apply safe_bind, safe_keeps. intros s2 h2 X2 Hr2. split; [apply keeps_RunningCopy|].
  intros rc s3 w gs _ _ _. destruct Hr2 as (_ & _ & _ & _ & HX2 & _).
  assert (HX2' : ∀ k, k ∈ O → k ∉ X2) by (intros k Hk; rewrite <- HX2 by done; by apply HX1').
  destruct (_ && _); [by apply Hdec|]. destruct (sufficient cfg (parseOffer o)) eqn:Hsuf; [|by apply Hdec].
  apply safe_bind, safe_push; [done|by apply HX2'|done| |].
  - intros s4 h4 X4 (_ & _ & _ & _ & HX4 & _). apply Hdec. intros k Hk. rewrite <- HX4 by done. by apply HX2'.
  - intros s4 h4 X4 s4' (_ & _ & _ & _ & HX4 & _).
    assert (HX4' : ∀ k, k ∈ O ∖ {[OfferId o]} → k ∉ {[OfferId o]} ∪ X4).
    { intros k [Hk Hne]%elem_of_difference [?|Hin]%elem_of_union; [done|].
      apply (HX2' k Hk). by apply HX4. }
    apply safe_bind, safe_keeps. intros s5 h5 X5 Hr5. split; [apply keeps_spawn|]. intros _ s6 w6 gs6 _ _ _.
    destruct Hr5 as (_ & _ & _ & _ & HX5 & _).
    apply safe_keeps. intros s7 h7 X7 Hr7. split; [apply keeps_QueueLaunchAttempt|]. intros _ s8 w8 gs8 _ _ _.
    destruct Hr7 as (_ & _ & _ & _ & HX7 & _). split; [done|]. intros k Hk.
    rewrite <- HX7, <- HX5 by done. by apply HX4'.
Qed.

Lemma safe_ResourceOffers offers s h X :
  NoDup (OfferId <$> offers) → (∀ o, o ∈ offers → OfferId o ∉ X) →
  safe false (ResourceOffers cfg offers) anything (list_to_set (OfferId <$> offers)) s h X.
Proof.
  unfold ResourceOffers. revert s h X.
  induction offers as [|o offers IH]; intros s h X Hnd HX; cbn [proc_each]; [done|].
  rewrite fmap_cons in *. apply NoDup_cons in Hnd as [Hno Hnd].
  apply safe_bind. eapply safe_mono; [apply safe_resource_offer|].
  - set_solver.
  - intros k. rewrite elem_of_list_to_set, <- fmap_cons. intros (o' & -> & Hin)%list_elem_of_fmap. by apply HX.
  - intros _ O' s1 h1 X1 [-> HX1].
    assert (E : list_to_set (OfferId o :: (OfferId <$> offers)) ∖ {[OfferId o]}
                = (list_to_set (OfferId <$> offers) : gset string)).
    { rewrite list_to_set_cons, difference_union_distr_l_L, difference_diag_L, union_empty_l_L.
      apply difference_disjoint_L. set_solver. }
    rewrite E in *. apply IH; [done|]. intros o' Ho'. apply HX1. rewrite elem_of_list_to_set.
    by apply list_elem_of_fmap_2.
Qed.
End Others.
End Logic.
