(* ===== verification/Interleave.v ===== *)
(** * Every interleaving of the scheduler

    The whole process as a transition system: thread 0 is the serial launcher,
    the others are the callbacks, the periodic workers and the goroutines they
    started.  A transition runs one section of one thread, begins a turn of the
    launcher, or delivers a callback.  The theorems hold of every state that is
    reached in fewer than 2^61 transitions, which keeps the instance counter
    away from the end of [int64]. *)

From Stdlib Require Import Ascii Floats.
From stdpp Require Import base strings list gmap sorting.
From S2P Require Import Prelude GoStd Errors Json Config Codec Mesos OfferStore World Rpc Zk.
From S2P Require Import Goroutine Scheduler SchedInv System.

(** What the driver, the HTTP server and the periodic loops run. *)
Inductive Callback :=
  | CbRegistered (fwid : string) (mi : MasterInfo)
  | CbReregistered (mi : MasterInfo)
  | CbDisconnected
  | CbResourceOffers (offers : list Offer)
  | CbStatusUpdate (st : TaskStatus)
  | CbOfferRescinded (id : string)
  | CbError (err : string)
  | CbReconciler
  | CbHealthChecker
  | CbLaunchRequestor
  | CbAdminStats
  | CbAdminReseed
  | CbAdminMembers
  | CbAdminHealthz.

Section Interleave.
Context {T : Type} `{HT : OfferStore T}.
Context (cfg : SchedulerConfig) (env : Env).

Definition callback (cb : Callback) : proc (EtcdScheduler T) Goroutine unit :=
  match cb with
  | CbRegistered fwid mi => Registered cfg fwid mi
  | CbReregistered mi => Reregistered mi
  | CbDisconnected => atomic Disconnected
  | CbResourceOffers offers => ResourceOffers cfg offers
  | CbStatusUpdate st => atomic (StatusUpdate cfg st)
  | CbOfferRescinded id => atomic (OfferRescinded id)
  | CbError err => Error_ cfg err
  | CbReconciler => PeriodicReconciler
  | CbHealthChecker => PeriodicHealthChecker cfg
  | CbLaunchRequestor => PeriodicLaunchRequestor cfg
  | CbAdminStats => _ ← atomic admin_stats; mret tt
  | CbAdminReseed => _ ← atomic admin_reseed; mret tt
  | CbAdminMembers => _ ← atomic admin_members; mret tt
  | CbAdminHealthz => _ ← atomic admin_healthz; mret tt
  end.

(** The offers a callback brings. *)
Definition brings (cb : Callback) : gset string :=
  match cb with CbResourceOffers offers => list_to_set (OfferId <$> offers) | _ => ∅ end.

(** Mesos never sends an offer identifier twice, and task names carry indices
    that leave room in [int64]. *)
Definition legal (seen : gset string) (cb : Callback) : Prop :=
  match cb with
  | CbResourceOffers offers => NoDup (OfferId <$> offers) ∧ brings cb ## seen
  | CbStatusUpdate st => index_ok st
  | _ => True
  end.

Record System := mkSystem {
  sys_sched : EtcdScheduler T;
  sys_hist : list Event;
  sys_threads : list (proc (EtcdScheduler T) Goroutine unit);
  sys_seen : gset string;
}.

Inductive sys_step : System → System → Prop :=
  | step_thread s h ts seen i p p' s' w gs :
      ts !! i = Some p → proc_step env h s p = Done p' s' w gs →
      sys_step (mkSystem s h ts seen)
               (mkSystem s' (h ++ w) (<[i := p']> ts ++ (goroutine cfg <$> gs)) seen)
  | step_turn s h ts seen fuel :
      ts !! 0 = Some (Ret tt) →
      sys_step (mkSystem s h ts seen) (mkSystem s h (<[0 := SerialLauncher cfg fuel]> ts) seen)
  | step_callback s h ts seen cb :
      legal seen cb →
      sys_step (mkSystem s h ts seen) (mkSystem s h (ts ++ [callback cb]) (brings cb ∪ seen)).

(** A fresh scheduler, with an idle launcher. *)
Definition initial : System :=
  mkSystem (NewEtcdScheduler cfg env []).1 [] [Ret tt] ∅.

Inductive reach : nat → System → Prop :=
  | reach_initial : reach 0 initial
  | reach_step n sys sys' : reach n sys → sys_step sys sys' → reach (S n) sys'.
End Interleave.
Arguments System T : clear implicits.
Arguments mkSystem {T}.

(** ** The invariant *)

Section Invariant.
Context {T : Type} `{HL : OfferStoreLaws T}.
Context (cfg : SchedulerConfig) (env : Env).
Context (Hcfg : cfg_quiet cfg) (Hclock : clock_advances env).

Definition is_launcher (i : nat) : bool := bool_decide (i = 0).

(** The threads and the offers they own. *)
Record threads_ok (s : EtcdScheduler T) (h : list Event) (X seen : gset string)
    (ts : list (proc (EtcdScheduler T) Goroutine unit)) (Os : list (gset string)) : Prop := {
  th_length : length Os = length ts;
  th_safe i p O : ts !! i = Some p → Os !! i = Some O →
    safe cfg env (is_launcher i) p anything O s h X ∧
    O ## cached s ∧ O ## answered h ∧ O ⊆ seen;
  th_disjoint i j O1 O2 : i ≠ j → Os !! i = Some O1 → Os !! j = Some O2 → O1 ## O2;
}.

Record sys_ok (n : nat) (sys : System T) (X : gset string) (Os : list (gset string)) : Prop := {
  so_J : J cfg env (sys_sched sys) (sys_hist sys) X;
  so_index : (highestInstanceID (sys_sched sys) ≤ 2 ^ 62 + 1 + Z.of_nat n)%Z;
  so_seen : X ⊆ sys_seen sys ∧ answered (sys_hist sys) ⊆ sys_seen sys;
  so_threads : threads_ok (sys_sched sys) (sys_hist sys) X (sys_seen sys) (sys_threads sys) Os;
  so_launcher : 0 < length (sys_threads sys);
}.

Lemma safe_callback cb seen s h X :
  legal seen cb → X ⊆ seen → safe cfg env false (callback cfg cb) anything (brings cb) s h X.
Proof.
  intros Hl HX. destruct cb; cbn [callback brings].
  - unfold Registered. apply safe_keeps_bind; [keeps_crit|]. intros _ s1 h1 X1. apply safe_bind.
    apply (safe_mono _ _ _ _ anything); [|intros; apply safe_Initialize].
    case_bool_decide; [done|]. apply safe_keeps_bind; [keeps_crit|]. intros err s2 h2 X2.
    destruct (_ || _); [done|]. apply safe_keeps_any. auto with keeps.
  - apply safe_Initialize.
  - apply safe_keeps_any. auto with keeps.
  - destruct Hl as [Hnd Hd]. apply safe_ResourceOffers; [done..|].
    intros o Ho Hin. apply (Hd (OfferId o)); [|by apply HX]. cbn [brings].
    rewrite elem_of_list_to_set. by apply list_elem_of_fmap_2.
  - by apply safe_StatusUpdate.
  - apply safe_atomic. intros s' h' X' Hr. unfold OfferRescinded. rewrite crit_bind_run.
    assert (Hs : safe cfg env false (atomic (cache_rescind id)) anything ∅ s h X) by by apply safe_rescind.
    specialize (Hs s' h' X' Hr). destruct (cache_rescind id env h' s') as [| |b s'' w gs]; [done..|].
    cbn [mret crit_ret]. by rewrite app_nil_r.
  - unfold Error_. case_bool_decide; [|done]. apply safe_keeps_bind; [keeps_crit|]. intros _ s1 h1 X1.
    apply safe_keeps_any. auto with keeps.
  - unfold PeriodicReconciler. apply safe_keeps_bind; [keeps_crit|]. intros s1 s2 h2 X2. apply safe_bind.
    apply (safe_mono _ _ _ _ anything); [|intros; by apply safe_sleep].
    case_bool_decide; [|done]. by apply safe_keeps_bind; [auto with keeps|].
  - unfold PeriodicHealthChecker. apply safe_keeps_bind; [keeps_crit|]. intros _ s1 h1 X1.
    apply safe_keeps_bind; [auto with keeps|]. intros nodes s2 h2 X2.
    apply safe_keeps_bind; [keeps_crit|]. intros _ s3 h3 X3.
    case_bool_decide; [apply safe_keeps_any; keeps_crit|].
    apply safe_keeps_bind; [keeps_crit|]. intros err s4 h4 X4. apply safe_keeps_any. keeps_crit.
  - unfold PeriodicLaunchRequestor. apply safe_keeps_bind; [|intros; by apply safe_sleep]. keeps_crit.
  - by apply safe_keeps_bind; [unfold admin_stats; keeps_crit|].
  - by apply safe_keeps_bind; [unfold admin_reseed; keeps_crit|].
  - by apply safe_keeps_bind; [unfold admin_members; keeps_crit|].
  - by apply safe_keeps_bind; [unfold admin_healthz; keeps_crit|].
Qed.

Lemma room_of n sys X Os : sys_ok n sys X Os → (Z.of_nat n < 2 ^ 61)%Z → room (sys_sched sys).
Proof. intros [_ Hi _ _ _] Hn. unfold room. lia. Qed.

(** A thread sees the present state as one that its own past allows. *)
Lemma rely_refl l O s h X :
  J cfg env s h X → room s → O ## cached s → O ## answered h → rely cfg env l O s h X s h X.
Proof. intros. by split_and!. Qed.

(** One step of thread [i]: it crashes only on a nil map, and the other threads are as
    safe as before. *)
Lemma threads_step s h X seen ts Os i p O :
  J cfg env s h X → room s → threads_ok s h X seen ts Os → ts !! i = Some p → Os !! i = Some O →
  match proc_step env h s p with
  | Blocked => True
  | Crashed => reconciliationInfo s = None
  | Done p' s' w gs => ∃ O' X', guar cfg env (is_launcher i) O s h X s' w X' O' ∧
      safe cfg env (is_launcher i) p' anything O' s' (h ++ w) X'
  end.
Proof.
  intros HJ Hr Hth Hp HO. destruct (th_safe _ _ _ _ _ _ Hth i p O Hp HO) as (Hs & Hc & Ha & _).
  destruct p as [[]|B c k]; [done|]. simpl in Hs. specialize (Hs s h X (rely_refl _ _ _ _ _ HJ Hr Hc Ha)).
  simpl. by destruct (c env h s).
Qed.

Lemma threads_ok_step s h X seen ts Os i p O p' s' w gs X' O' :
  room s' → X ⊆ seen → threads_ok s h X seen ts Os → ts !! i = Some p → Os !! i = Some O →
  cached s ⊆ seen → guar cfg env (is_launcher i) O s h X s' w X' O' →
  safe cfg env (is_launcher i) p' anything O' s' (h ++ w) X' →
  threads_ok s' (h ++ w) X' seen (<[i := p']> ts ++ (goroutine cfg <$> gs))
    (<[i := O']> Os ++ ((λ _, ∅) <$> gs)).
Proof.
  intros Hr HX [Hlen Hsafe Hdis] Hp HO Hcs Hg Hs'.
  pose proof Hg as (_ & Hc' & Ha' & Hsub & _).
  assert (Hi : i < length ts) by (by eapply lookup_lt_Some). assert (Hi' : i < length Os) by lia.
  assert (Hlt : ∀ (j : nat), is_launcher (length ts + j) = false)
    by (intros j; apply bool_decide_eq_false; lia).
  split.
  - rewrite !length_app, !length_insert, !length_fmap. lia.
  - intros j q Oj Hq HOj. apply lookup_app_Some in Hq as [Hq|[Hj Hq]].
    + rewrite lookup_app_l in HOj by (rewrite length_insert; apply lookup_lt_Some in Hq;
        rewrite length_insert in Hq; lia).
      destruct (decide (i = j)) as [<-|Hne].
      * rewrite list_lookup_insert_eq in Hq by done. rewrite list_lookup_insert_eq in HOj by done. simplify_eq. split_and!; try done.
        destruct (Hsafe i p O Hp HO) as (_ & _ & _ & HOs). clear -Hsub HOs Hcs. set_solver.
      * rewrite list_lookup_insert_ne in Hq by done. rewrite list_lookup_insert_ne in HOj by done.
        destruct (Hsafe j q Oj Hq HOj) as (Hs & Hc & Ha & HOs).
        assert (Hrel : rely cfg env (is_launcher j) Oj s h X s' (h ++ w) X').
        { eapply guar_rely; try done; [by eapply (Hdis j i)|]. intros Hj%bool_decide_eq_true.
          apply bool_decide_eq_false. lia. }
        pose proof Hrel as (_ & _ & ? & ? & _). split_and!; try done. by eapply safe_rely.
    + rewrite length_insert in *. rewrite lookup_app_r in HOj by (rewrite length_insert; lia).
      rewrite length_insert, Hlen in HOj. rewrite list_lookup_fmap in Hq. rewrite list_lookup_fmap in HOj.
      destruct (gs !! (j - length ts)); simplify_eq/=. replace j with (length ts + (j - length ts)) by lia.
      rewrite Hlt. split_and!; [by apply safe_goroutine|apply disjoint_empty_l..|apply empty_subseteq].
  - intros j1 j2 O1 O2 Hne H1 H2.
    assert (Hcase : ∀ j Oj, (<[i := O']> Os ++ ((λ _ : Goroutine, ∅) <$> gs)) !! j = Some Oj →
      Oj = ∅ ∨ (j = i ∧ Oj = O') ∨ (j ≠ i ∧ Os !! j = Some Oj)).
    { intros j Oj [Hj|[_ Hj]]%lookup_app_Some.
      - destruct (decide (j = i)) as [->|?]; [rewrite list_lookup_insert_eq in Hj by done; simplify_eq; auto|].
        rewrite list_lookup_insert_ne in Hj by done. auto.
      - rewrite list_lookup_fmap in Hj. destruct (gs !! _); simplify_eq/=. auto. }
    assert (Hother : ∀ j Oj, j ≠ i → Os !! j = Some Oj → O' ## Oj).
    { intros j Oj Hj HOj. destruct (lookup_lt_is_Some_2 ts j) as [q Hq]; [rewrite <- Hlen; by eapply lookup_lt_Some|].
      destruct (Hsafe j q Oj Hq HOj) as (_ & Hc & _). pose proof (Hdis i j O Oj ltac:(done) HO HOj) as Hd.
      clear -Hsub Hc Hd. set_solver. }
    destruct (Hcase _ _ H1) as [->|[[-> ->]|[Hn1 HO1]]], (Hcase _ _ H2) as [->|[[-> ->]|[Hn2 HO2]]];
      first [apply disjoint_empty_l|apply disjoint_empty_r|done|exact (Hother _ _ Hn2 HO2)
            |symmetry; exact (Hother _ _ Hn1 HO1)|exact (Hdis _ _ _ _ Hne HO1 HO2)].
Qed.

Lemma cached_seen s h X : J cfg env s h X → cached s ⊆ X.
Proof.
  intros HJ k Hk. unfold cached in Hk. apply elem_of_dom in Hk as [o Ho].
  by eapply os_inv_seen; [apply HJ|].
Qed.

(** A new thread joins with the offers it brings. *)
Lemma threads_ok_join s h X seen ts Os p O :
  threads_ok s h X seen ts Os → 0 < length ts → cached s ⊆ seen → answered h ⊆ seen → O ## seen →
  safe cfg env false p anything O s h X →
  threads_ok s h X (O ∪ seen) (ts ++ [p]) (Os ++ [O]).
Proof.
  intros [Hlen Hsafe Hdis] H0 Hc Ha HO Hs. split.
  - rewrite !length_app. simpl. lia.
  - intros j q Oj [Hq|[Hj Hq]]%lookup_app_Some HOj.
    + rewrite lookup_app_l in HOj by (apply lookup_lt_Some in Hq; lia).
      destruct (Hsafe j q Oj Hq HOj) as (? & ? & ? & ?). split_and!; try done. by apply union_subseteq_r'.
    + rewrite lookup_app_r in HOj by lia. rewrite Hlen in HOj.
      apply list_lookup_singleton_Some in Hq as [Hz <-]. rewrite Hz in HOj. simplify_eq/=.
      assert (is_launcher j = false) as -> by (apply bool_decide_eq_false; lia).
      split_and!; [done|clear -Hc HO; set_solver|clear -Ha HO; set_solver|apply union_subseteq_l].
  - assert (Hold : ∀ j Oj, Os !! j = Some Oj → O ## Oj).
    { intros j Oj HOj. destruct (lookup_lt_is_Some_2 ts j) as [q Hq]; [rewrite <- Hlen; by eapply lookup_lt_Some|].
      destruct (Hsafe j q Oj Hq HOj) as (_ & _ & _ & Hsub). clear -Hsub HO. set_solver. }
    intros j1 j2 O1 O2 Hne [H1|[Hj1 H1]]%lookup_app_Some [H2|[Hj2 H2]]%lookup_app_Some.
    + by eapply Hdis.
    + apply list_lookup_singleton_Some in H2 as [_ <-]. symmetry. by eapply Hold.
    + apply list_lookup_singleton_Some in H1 as [_ <-]. by eapply Hold.
    + apply list_lookup_singleton_Some in H1 as [? <-]. apply list_lookup_singleton_Some in H2 as [? <-]. lia.
Qed.

Lemma sys_ok_step n sys sys' X Os :
  sys_ok n sys X Os → (Z.of_nat (S n) < 2 ^ 61)%Z → sys_step cfg env sys sys' →
  ∃ X' Os', sys_ok (S n) sys' X' Os'.
Proof.
  intros Hok Hn Hstep. pose proof (room_of _ _ _ _ Hok ltac:(lia)) as Hr.
  destruct Hok as [HJ Hi [HX Ha] Hth H0].
  destruct Hstep as [s h ts seen i p p' s' w gs Hp Hps|s h ts seen fuel Hl|s h ts seen cb Hl];
    cbn [sys_sched sys_hist sys_threads sys_seen] in *.
  - destruct (lookup_lt_is_Some_2 Os i) as [O HO]; [rewrite (th_length _ _ _ _ _ _ Hth); by eapply lookup_lt_Some|].
    pose proof (threads_step _ _ _ _ _ _ _ _ _ HJ Hr Hth Hp HO) as Hg. rewrite Hps in Hg.
    destruct Hg as (O' & X' & Hg & Hs'). pose proof Hg as (HJ' & _ & _ & _ & _ & Haw & _ & HX' & Hhi & _).
    destruct (th_safe _ _ _ _ _ _ Hth i p O Hp HO) as (_ & _ & _ & HOs).
    pose proof (cached_seen _ _ _ HJ) as Hcs.
    exists X', (<[i := O']> Os ++ ((λ _, ∅) <$> gs)). split; cbn [sys_sched sys_hist sys_threads sys_seen].
    + done.
    + lia.
    + rewrite answered_app. split; [clear -HX' HX HOs; set_solver|clear -Ha Haw HOs HX Hcs; set_solver].
    + apply (threads_ok_step s h X _ _ _ _ p O); try done; [unfold room; lia|by transitivity X].
    + rewrite length_app, length_insert. lia.
  - exists X, (<[0 := ∅]> Os). assert (H0' : 0 < length Os) by (by rewrite (th_length _ _ _ _ _ _ Hth)).
    split; cbn [sys_sched sys_hist sys_threads sys_seen]; try done; [lia| |by rewrite length_insert].
    destruct Hth as [Hlen Hsafe Hdis]. split.
    + by rewrite !length_insert.
    + intros [|j] q Oj Hq HOj.
      * rewrite list_lookup_insert_eq in Hq by done. rewrite list_lookup_insert_eq in HOj by done. simplify_eq.
        split_and!; [by apply safe_SerialLauncher|apply disjoint_empty_l..|apply empty_subseteq].
      * rewrite list_lookup_insert_ne in Hq by done. rewrite list_lookup_insert_ne in HOj by done. by apply Hsafe.
    + intros [|j1] [|j2] O1 O2 Hne H1 H2; [done| | |].
      * rewrite list_lookup_insert_eq in H1 by done. simplify_eq. apply disjoint_empty_l.
      * rewrite list_lookup_insert_eq in H2 by done. simplify_eq. apply disjoint_empty_r.
      * rewrite list_lookup_insert_ne in H1 by done. rewrite list_lookup_insert_ne in H2 by done. by eapply Hdis.
  - exists X, (Os ++ [brings cb]). split; cbn [sys_sched sys_hist sys_threads sys_seen]; try done.
    + lia.
    + split; by apply union_subseteq_r'.
    + apply threads_ok_join; try done.
      * pose proof (cached_seen _ _ _ HJ). by transitivity X.
      * destruct cb; try apply disjoint_empty_l. by destruct Hl.
      * by apply (safe_callback cb seen).
    + rewrite length_app. lia.
Qed.

(** The clock reads a plausible time when the scheduler is built. *)
Definition clock_sane : Prop := (0 ≤ env_clock env [] / second ≤ 2 ^ 62)%Z.

Lemma sys_ok_initial : clock_sane → sys_ok 0 (initial cfg env) ∅ [∅].
Proof.
  intros Hc. unfold initial, NewEtcdScheduler. rewrite bind_run. cbn [Now ask fst snd mret IO_ret].
  set (t0 := os_new _ _).
  assert (Hset : os_set t0 = ∅) by apply os_new_set.
  split; cbn [sys_sched sys_hist sys_threads sys_seen]; try (simpl; lia).
  - constructor.
    + apply os_new_inv.
    + intros k o. cbn [offerCache]. rewrite Hset. by intros ?%lookup_empty_Some.
    + split; intros k x Hk; cbn [running tasks] in Hk; by apply lookup_empty_Some in Hk.
    + cbn [pending]. rewrite size_empty. lia.
    + constructor.
    + apply disjoint_empty_r.
    + split; [constructor|]. intros t Ht. by apply not_elem_of_nil in Ht.
    + unfold is_i64, clock_sane in *. cbn [highestInstanceID]. lia.
    + cbn [offerCache]. intros o. unfold t0. rewrite os_new_queue. by intros ?%not_elem_of_nil.
    + done.
  - cbn. unfold clock_sane in Hc. lia.
  - split; [done|]. apply empty_subseteq.
  - split; [done| |].
    + intros [|i] p O Hp HO; [|done]. simplify_eq/=.
      split_and!; [done|apply disjoint_empty_l..|apply empty_subseteq].
    + intros [|i] [|j] O1 O2 Hne H1 H2; done.
Qed.

Lemma reach_ok n sys :
  clock_sane → (Z.of_nat n < 2 ^ 61)%Z → reach cfg env n sys → ∃ X Os, sys_ok n sys X Os.
Proof.
  intros Hc Hn Hr. revert Hn. induction Hr as [|n sys sys' Hr IH Hstep]; intros Hn.
  - exists ∅, [∅]. by apply sys_ok_initial.
  - destruct IH as (X & Os & Hok); [lia|]. by eapply sys_ok_step.
Qed.

(** ** Theorems *)

(** C1: At most one task is pending, in every interleaving of the callbacks, the
    periodic workers, reseeds and the launcher: the launcher adds a pending task
    only after it saw none, and no other goroutine ever adds one, even though the
    lock is released between its check and the launch. *)
Theorem at_most_one_pending n sys :
  clock_sane → (Z.of_nat n < 2 ^ 61)%Z → reach cfg env n sys → size (pending (sys_sched sys)) ≤ 1.
Proof. intros Hc Hn Hr. destruct (reach_ok n sys Hc Hn Hr) as (X & Os & [HJ _ _ _ _]). apply HJ. Qed.

(** C2: Every offer is answered at most once.  In every interleaving no offer
    identifier is declined or used for a launch twice, only offers that Mesos sent
    are answered, and an offer that is still in the cache is not answered yet. *)
Theorem offers_answered_once n sys :
  clock_sane → (Z.of_nat n < 2 ^ 61)%Z → reach cfg env n sys →
  NoDup (answers (sys_hist sys)) ∧ answered (sys_hist sys) ⊆ sys_seen sys ∧
  cached (sys_sched sys) ## answered (sys_hist sys).
Proof.
  intros Hc Hn Hr. destruct (reach_ok n sys Hc Hn Hr) as (X & Os & [HJ _ [_ Ha] _ _]).
  split_and!; [apply HJ|done|apply HJ].
Qed.

(** C3: Instance names are never reused.  In every interleaving the tasks launched
    so far have pairwise distinct names of the form [etcd-<index>], each index at
    most the scheduler's counter, whatever status updates arrive meanwhile. *)
Theorem instance_names_unique n sys :
  clock_sane → (Z.of_nat n < 2 ^ 61)%Z → reach cfg env n sys →
  NoDup (task_name <$> launches (sys_hist sys)) ∧
  ∀ t, t ∈ launches (sys_hist sys) →
    ∃ i, task_name t = instance_name i ∧ (i ≤ highestInstanceID (sys_sched sys))%Z.
Proof.
  intros Hc Hn Hr. destruct (reach_ok n sys Hc Hn Hr) as (X & Os & [HJ _ _ _ _]).
  destruct (J_names _ _ _ _ _ HJ) as [Hnd Hall]. split; [done|].
  intros t Ht. destruct (Hall t Ht) as (i & ? & ? & _). by exists i.
Qed.

(** C5: The scheduler's maps agree.  In every reachable state a running node is
    filed under its own name, has well-formed fields, and has a task handle, whose
    identifier parses to a node of the same name, so that a reseed can kill it. *)
Theorem records_consistent n sys :
  clock_sane → (Z.of_nat n < 2 ^ 61)%Z → reach cfg env n sys → records_ok (sys_sched sys).
Proof. intros Hc Hn Hr. destruct (reach_ok n sys Hc Hn Hr) as (X & Os & [HJ _ _ _ _]). apply HJ. Qed.

(** The cache holds only offers that fit.  In every reachable state each cached
    offer has the cpus, memory, disk and number of ports that a task and its
    executor need. *)
Theorem cached_offers_sufficient n sys k o :
  clock_sane → (Z.of_nat n < 2 ^ 61)%Z → reach cfg env n sys →
  os_set (offerCache (sys_sched sys)) !! k = Some o → sufficient cfg (parseOffer o) = true.
Proof.
  intros Hc Hn Hr. destruct (reach_ok n sys Hc Hn Hr) as (X & Os & [HJ _ _ _ _]). apply (J_offers _ _ _ _ _ HJ).
Qed.

End Invariant.

(** ** Executable runs *)

Section Execute.
Context {T : Type} `{HT : OfferStore T}.
Context (cfg : SchedulerConfig) (env : Env).

(** What happens next: a section of a thread, a turn of the launcher, a callback. *)
Inductive choice := Run (i : nat) | Turn (fuel : nat) | Deliver (cb : Callback).

Definition index_okb (st : TaskStatus) : bool :=
  match Parse (StatusTaskId st) with
  | Ok n => match name_index (Name n) with Some i => bool_decide (i ≤ 2 ^ 62)%Z | None => true end
  | Err _ => true
  end.

Definition legalb (seen : gset string) (cb : Callback) : bool :=
  match cb with
  | CbResourceOffers offers => bool_decide (NoDup (OfferId <$> offers)) && bool_decide (brings cb ## seen)
  | CbStatusUpdate st => index_okb st
  | _ => true
  end.

Definition exec1 (c : choice) (sys : System T) : option (System T) :=
  let 'mkSystem s h ts seen := sys in
  match c with
  | Run i =>
      p ← ts !! i;
      match proc_step env h s p with
      | Done p' s' w gs => Some (mkSystem s' (h ++ w) (<[i := p']> ts ++ (goroutine cfg <$> gs)) seen)
      | _ => None
      end
  | Turn fuel =>
      match ts !! 0 with
      | Some (Ret tt) => Some (mkSystem s h (<[0 := SerialLauncher cfg fuel]> ts) seen)
      | _ => None
      end
  | Deliver cb =>
      if legalb seen cb then Some (mkSystem s h (ts ++ [callback cfg cb]) (brings cb ∪ seen)) else None
  end.

Fixpoint exec (cs : list choice) (sys : System T) : option (System T) :=
  match cs with
  | [] => Some sys
  | c :: cs => sys' ← exec1 c sys; exec cs sys'
  end.

Lemma legalb_legal seen cb : legalb seen cb = true → legal seen cb.
Proof.
  destruct cb; try done; cbn [legalb legal].
  - rewrite andb_true_iff, !bool_decide_eq_true. done.
  - unfold index_okb, index_ok. intros H n i Hp Hi. rewrite Hp, Hi in H. by apply bool_decide_eq_true in H.
Qed.

Lemma exec1_step c sys sys' : exec1 c sys = Some sys' → sys_step cfg env sys sys'.
Proof.
  destruct sys as [s h ts seen], c as [i|fuel|cb]; cbn [exec1].
  - destruct (ts !! i) as [p|] eqn:Hp; [|done]. cbn [mbind option_bind].
    destruct (proc_step env h s p) as [| |p' s' w gs] eqn:Hs; [done..|]. intros [= <-]. by eapply step_thread.
  - destruct (ts !! 0) as [[[]|]|] eqn:Hp; try done. intros [= <-]. by apply step_turn.
  - destruct (legalb seen cb) eqn:Hl; [|done]. intros [= <-]. by apply step_callback, legalb_legal.
Qed.

Lemma exec_reach cs n sys sys' :
  reach cfg env n sys → exec cs sys = Some sys' → reach cfg env (length cs + n) sys'.
Proof.
  revert n sys. induction cs as [|c cs IH]; intros n sys Hr; cbn [exec]; [by intros [= <-]|].
  destruct (exec1 c sys) as [sys1|] eqn:H1; [|done]. cbn [mbind option_bind]. intros H.
  replace (length (c :: cs) + n) with (length cs + S n) by (simpl; lia).
  eapply IH; [|done]. eapply reach_step; [done|by eapply exec1_step].
Qed.
End Execute.

(** ** A concrete run *)

(** Members answer every request with the empty object, their Raft index grows,
    ZooKeeper holds what was written, and the clock follows the sleeps. *)
Definition live_env : Env := {|
  env_http := env_http healthy_env;
  env_etcd_sync := env_etcd_sync healthy_env;
  env_etcd_get := env_etcd_get healthy_env;
  env_zk_connect := env_zk_connect zk0;
  env_zk_create := env_zk_create zk0;
  env_zk_set := env_zk_set zk0;
  env_zk_get := env_zk_get zk0;
  env_zk_delete := env_zk_delete zk0;
  env_zk_children := env_zk_children zk0;
  env_reconcile := env_reconcile quiet_env;
  env_status := env_status quiet_env;
  env_exec := env_exec quiet_env;
  env_fs := env_fs quiet_env;
  env_clock h := (1000 * second + slept h)%Z;
  env_net := env_net quiet_env;
  env_range := env_range quiet_env;
  env_range_perm := env_range_perm quiet_env;
|}.

Lemma live_clock : clock_advances live_env ∧ clock_sane live_env.
Proof.
  split.
  - intros h w. cbn. rewrite slept_app. lia.
  - unfold clock_sane. vm_compute. split; intros [=].
Qed.

Definition cfg3 : SchedulerConfig := NewConfig 3 10 240 true [] false 1 1 1 1.

Definition offer1 : Offer := mkOffer "offer-1" "slave-1" "host1"
  [NewScalarResource "cpus" 4; NewScalarResource "mem" 1024; NewScalarResource "disk" 4096;
   NewRangesResource "ports" [mkRange 31000 31009]].
Definition offer2 : Offer := mkOffer "offer-2" "slave-2" "host2"
  [NewScalarResource "cpus" 4; NewScalarResource "mem" 1024; NewScalarResource "disk" 4096;
   NewRangesResource "ports" [mkRange 31000 31009]].

Definition master1 : MasterInfo := mkMasterInfo None None None (Some "master") None None None.

(** The scheduler registers and synchronises, two offers arrive, the launcher uses
    the first, and the second is declined when its time is up. *)
Definition choices1 : list choice :=
  [Deliver (CbRegistered "fw" master1)] ++ replicate 2 (Run 1) ++ replicate 8 (Run 2) ++
  [Deliver (CbResourceOffers [offer1; offer2])] ++ replicate 10 (Run 3) ++
  [Turn 5] ++ replicate 11 (Run 0) ++ replicate 2 (Run 4) ++ replicate 3 (Run 5).

Section ConcreteRun.
Context {T : Type} `{HT : OfferStore T}.

Definition after (cs : list choice) : System T :=
  default (initial cfg3 live_env) (exec cfg3 live_env cs (initial cfg3 live_env)).

(** The choices can all be taken. *)
Definition runnable (cs : list choice) : bool :=
  match exec cfg3 live_env cs (initial (T := T) cfg3 live_env) with Some _ => true | None => false end.

Lemma after_reach cs : runnable cs = true → reach cfg3 live_env (length cs) (after cs).
Proof.
  unfold runnable, after. destruct (exec _ _ _ _) as [sys|] eqn:E; [|done]. intros _. cbn.
  rewrite <- (Nat.add_0_r (length cs)). eapply exec_reach; [apply reach_initial|done].
Qed.

(** One more choice is one more transition. *)
Lemma after_step cs c : runnable (cs ++ [c]) = true → sys_step cfg3 live_env (after cs) (after (cs ++ [c])).
Proof.
  unfold runnable, after.
  assert (E : ∀ cs sys, exec cfg3 live_env (cs ++ [c]) sys =
     (exec cfg3 live_env cs sys ≫= exec1 (T := T) cfg3 live_env c)).
  { intros l. induction l as [|x l IH]; intros sys; cbn [app exec].
    - cbn. destruct (exec1 cfg3 live_env c sys); done.
    - destruct (exec1 cfg3 live_env x sys); cbn [mbind option_bind]; [apply IH|done]. }
  rewrite E. destruct (exec cfg3 live_env cs _) as [sys|]; [|done]. cbn [mbind option_bind].
  destruct (exec1 cfg3 live_env c sys) as [sys'|] eqn:E1; [|done]. intros _. by eapply exec1_step.
Qed.
End ConcreteRun.
