(* ===== verification/Runs.v ===== *)
(** * Concrete runs of the scheduler with the offer cache

    The interleaving theorems instantiated at the real offer cache, the
    constructor's configuration and a run that registers, caches two offers,
    launches a task on one and declines the other. *)

From stdpp Require Import base strings list gmap.
From S2P Require Import Prelude GoStd Errors Config Mesos OfferStore OfferCache World Rpc Zk.
From S2P Require Import Goroutine Scheduler SchedInv System Interleave.

Definition run1 : System OfferCache := after choices1.

Lemma run1_reach : reach cfg3 live_env 39 run1.
Proof. apply (after_reach choices1). by_compute. Qed.

Lemma at_most_one_pending_witness :
  pending (sys_sched run1) = {["etcd-1001"]} ∧ size (pending (sys_sched run1)) ≤ 1.
Proof.
  split; [by_compute|].
  apply (at_most_one_pending cfg3 live_env (NewConfig_quiet _ _ _ _ _ _ _ _ _ _) (proj1 live_clock) 39 run1);
    [apply live_clock|lia|apply run1_reach].
Defined.

Lemma offers_answered_once_witness :
  answers (sys_hist run1) = ["offer-1"; "offer-2"] ∧ NoDup (answers (sys_hist run1)).
Proof.
  split; [by_compute|].
  apply (offers_answered_once cfg3 live_env (NewConfig_quiet _ _ _ _ _ _ _ _ _ _) (proj1 live_clock) 39 run1);
    [apply live_clock|lia|apply run1_reach].
Defined.

Lemma instance_names_unique_witness :
  (task_name <$> launches (sys_hist run1)) = ["etcd-1001"] ∧ NoDup (task_name <$> launches (sys_hist run1)).
Proof.
  split; [by_compute|].
  apply (instance_names_unique cfg3 live_env (NewConfig_quiet _ _ _ _ _ _ _ _ _ _) (proj1 live_clock) 39 run1);
    [apply live_clock|lia|apply run1_reach].
Defined.

(** The launched task starts. *)
Definition choices2 : list choice :=
  choices1 ++ [Deliver (CbStatusUpdate (mkStatus "etcd-1001 host1 31000 31001 31002" TASK_RUNNING (Some "slave-1")));
               Run 6].

Definition run2 : System OfferCache := after choices2.

Lemma run2_reach : reach cfg3 live_env 41 run2.
Proof. apply (after_reach choices2). by_compute. Qed.

Lemma records_consistent_witness :
  Name <$> (running (sys_sched run2) !! "etcd-1001") = Some "etcd-1001" ∧ records_ok (sys_sched run2).
Proof.
  split; [by_compute|].
  apply (records_consistent cfg3 live_env (NewConfig_quiet _ _ _ _ _ _ _ _ _ _) (proj1 live_clock) 41 run2);
    [apply live_clock|lia|apply run2_reach].
Defined.

(** Both offers are cached. *)
Definition choices_cached : list choice := take 22 choices1.
Definition run_cached : System OfferCache := after choices_cached.

Lemma run_cached_reach : reach cfg3 live_env 22 run_cached.
Proof. apply (after_reach choices_cached). by_compute. Qed.

Lemma cached_offers_sufficient_witness : sufficient cfg3 (parseOffer offer1) = true.
Proof.
  apply (cached_offers_sufficient cfg3 live_env (NewConfig_quiet _ _ _ _ _ _ _ _ _ _) (proj1 live_clock)
    22 run_cached "offer-1"); [apply live_clock|lia|apply run_cached_reach|by_compute].
Defined.








