(* ===== verification/SchedProps.v ===== *)
(** * What the scheduler's operations do

    Functional properties of the single operations: status updates, the launch
    gate, the description of a launched task, its ports, synchronisation,
    reseeding and the refusal of offers while the scheduler is locked. *)

From Stdlib Require Import Ascii Floats.
From stdpp Require Import base strings list gmap sorting.
From S2P Require Import Prelude GoStd Errors Json Config Codec Mesos OfferStore OfferCache World.
From S2P Require Import Rpc Zk Goroutine Scheduler SchedInv System Interleave Runs.

Section Operations.
Context {T : Type} `{HT : OfferStore T}.
Context (cfg : SchedulerConfig).
Implicit Types s : EtcdScheduler T.

(** ** Status updates *)

(** The node a status describes. *)
Definition status_node (n : Node) (st : TaskStatus) : Node :=
  mkNode (Name n) (Host n) (RPCPort n) (ClientPort n) (ReseedPort n) (Type_ n) (GetSlaveIdValue st).

(** C14: The effect of a status update.  An update whose task identifier does not
    parse changes nothing.  Any other is recorded as heard.  The end of a task
    removes it from the pending, running, task and reconciliation maps, counts
    the failure, pauses and then requests a launch, and locks the scheduler when
    no task is left running.  A running task is added to the reconciliation
    map, which is then written to ZooKeeper, no longer pending, filed under its name
    unless already there, and raises the instance counter above its index; on a nil
    reconciliation map this panics.  Other states change nothing more. *)
Theorem StatusUpdate_effect env h s st :
  match Parse (StatusTaskId st) with
  | Err _ => StatusUpdate cfg st env h s = Done tt s [] []
  | Ok n =>
      let s1 := with_heardFrom ({[StatusTaskId st]} ∪ heardFrom s) s in
      if is_terminal (StatusState st) then
        total (StatusUpdate cfg st) env h s (λ _ s' w gs,
          gs = [] ∧ w = [] ∧ lost_state (Name n) (StatusTaskId st) s1 s')
      else if bool_decide (StatusState st = TASK_RUNNING) then
        match reconciliationInfo s with
        | None => StatusUpdate cfg st env h s = Crashed
        | Some m =>
            total (StatusUpdate cfg st) env h s (λ _ s' w gs, gs = [] ∧
              running_state (status_node n st) (StatusTaskId st) (GetSlaveIdValue st) s1 s' ∧
              w = (updateReconciliationInfoFunc cfg (<[StatusTaskId st := GetSlaveIdValue st]> m)
                     (ZkServers cfg) (ZkChroot cfg) (FrameworkName cfg) env h).2)
        end
      else total (StatusUpdate cfg st) env h s (λ _ s' w gs, gs = [] ∧ w = [] ∧ s' = s1)
  end.
Proof.
  unfold StatusUpdate. destruct (Parse (StatusTaskId st)) as [n|e]; [|done]. cbv zeta.
  destruct (is_terminal (StatusState st)).
  - apply total_modify_bind. eapply total_mono; [apply task_lost_run|]. by intros _ s' w gs (-> & -> & Hl).
  - case_bool_decide; [|by apply total_modify_bind]. destruct (reconciliationInfo s) as [m|] eqn:Hm.
    + apply total_modify_bind. by eapply total_mono; [apply task_running_run|].
    + rewrite crit_bind_run. cbn [modify]. by rewrite task_running_nil.
Qed.

(** ** Launching *)

(** The launch gate.  [shouldLaunch] answers true only in a state that is
    [Mutable], not reseeding, without a pending task and with fewer running tasks
    than desired, whose members listed a number of members other than the
    desired one, with ZooKeeper readable and a nil health check; and it
    never blocks or panics. *)
Theorem shouldLaunch_checks env h s :
  total (shouldLaunch cfg) env h s (λ b s' _ _, b = true → launch_gate cfg env s ∧ pending s' = pending s).
Proof. apply shouldLaunch_gate. Qed.

Lemma FormatInt_ascii z : is_ascii (FormatInt z) = true.
Proof.
  unfold FormatInt. case_bool_decide; [|apply digits_ascii, FormatUint_digits].
  apply (digits_ascii (FormatUint (- z))), FormatUint_digits.
Qed.

Lemma instance_name_word i : is_word (instance_name i).
Proof.
  unfold instance_name. rewrite !sapp_cons, sapp_nil_l. split; [done|].
  apply graphic_no_space. simpl. unfold FormatInt. case_bool_decide; apply FormatUint_graphic.
Qed.

(** An offer whose strings survive the task identifier and the JSON encoding. *)
Definition plain_offer (o : Offer) : Prop :=
  is_word (OfferHostname o) ∧ is_ascii (OfferHostname o) = true ∧ is_ascii (OfferSlaveId o) = true.

Lemma new_node_wf i o lowest first :
  plain_offer o → is_u64 lowest →
  wf_node (new_node (instance_name i) o lowest first) ∧
  ascii_node (new_node (instance_name i) o lowest first).
Proof.
  intros (Hw & Ha & Hs) Hl. pose proof (u64_bounds (lowest + 1)). pose proof (u64_bounds (lowest + 2)).
  split; [split_and!; try done; apply instance_name_word|].
  split_and!; try done; [|by destruct first].
  cbn [Name new_node]. unfold instance_name, is_ascii. rewrite all_bytes_app. apply andb_true_iff.
  split; [done|apply FormatInt_ascii].
Qed.

(** A launched task describes itself.  The identifier of the task that
    [launchOne] prepares parses back to the new node, its data decodes, as the
    executor does it, to the new node followed by exactly the running nodes, and
    its executor carries the node's name, which becomes pending. *)
Theorem prepared_task_round_trip env h s offer lowest :
  plain_offer offer → is_u64 lowest → (∀ k n, running s !! k = Some n → ascii_node n) →
  total (prepare_task cfg offer lowest) env h s (λ task s' _ _,
    let node := new_node (instance_name (highestInstanceID s')) offer lowest
                  (bool_decide (size (running s) = 0)) in
    Parse (TaskTaskId task) = Ok (strip_node node) ∧
    (∃ others, others ≡ₚ (map_to_list (running s)).*2 ∧
       Unmarshal_nodes (TaskData task) = Some (Some <$> node :: others)) ∧
    task_name task = Name node ∧ Name node ∈ pending s').
Proof.
  intros Ho Hl Hr. eapply total_mono; [apply prepare_task_run|].
  intros task s' w gs (_ & _ & [_ Hp _ (order & Hperm & ->)]). cbv zeta.
  set (node := new_node _ _ _ _). destruct (new_node_wf (highestInstanceID s') offer lowest
    (bool_decide (size (running s) = 0)) Ho Hl) as [Hwf Hasc]. fold node in Hwf, Hasc.
  split_and!; [by apply Parse_NodeString| |done|rewrite Hp; set_solver].
  exists order.*2. split; [by rewrite Hperm|]. apply (Unmarshal_Marshal_nodes (node :: order.*2)).
  constructor; [done|]. rewrite Hperm. apply Forall_fmap, Forall_forall. intros [k n] Hin.
  by eapply Hr, elem_of_map_to_list.
Qed.

(** ** Ports *)

Definition in_range_of (r : Value_Range) (p : Z) : Prop := (Begin r ≤ p ≤ End_ r)%Z.

(** When the first port range of the offer has four ports or more, the ports a
    launch assigns (peer, client and reseed port of the task, driver port of
    the executor) are distinct ports of that range, and the resources the task and
    its executor claim are exactly these ports. *)
Theorem ports_within_first_range offer r0 name first others :
  (0 ≤ Begin r0)%Z → (Begin r0 + 3 ≤ End_ r0 < 2 ^ 64)%Z →
  let node := new_node name offer (Begin r0) first in
  let driver := u64 (Begin r0 + 3) in
  let task := new_task cfg node others offer driver in
  Forall (in_range_of r0) [RPCPort node; ClientPort node; ReseedPort node; driver] ∧
  NoDup [RPCPort node; ClientPort node; ReseedPort node; driver] ∧
  list_find (λ r, RName r = "ports") (TaskResources task) =
    Some (3, NewRangesResource "ports" [mkRange (RPCPort node) (ReseedPort node)]) ∧
  list_find (λ r, RName r = "ports") (ExecResources (TaskExecutor task)) =
    Some (2, NewRangesResource "ports" [mkRange driver driver]).
Proof.
  intros H0 H1 node driver task. subst node driver task.
  assert (Hs : ∀ d, (0 ≤ d ≤ 3)%Z → u64 (Begin r0 + d) = (Begin r0 + d)%Z)
    by (intros d Hd; apply u64_small; unfold is_u64; lia).
  assert (Hsub : ∀ x y, u64 (u64 x - y) = u64 (x - y)) by (intros x y; apply Zminus_mod_idemp_l).
  unfold in_range_of. cbn [new_node RPCPort ClientPort ReseedPort]. rewrite !Hs by lia. split_and!.
  - repeat constructor; lia.
  - repeat constructor; rewrite ?elem_of_cons, ?elem_of_nil; lia.
  - cbn [TaskResources new_task list_find]. rewrite !decide_False by done. rewrite decide_True by done.
    cbn. unfold NewValueRange, portsPerTask. rewrite Hsub, <- Z.add_sub_assoc, Hs by lia. done.
  - cbn [TaskExecutor ExecResources new_task newExecutorInfo list_find].
    rewrite !decide_False by done. rewrite decide_True by done. cbn.
    unfold NewValueRange, executorWantsPorts. rewrite Hsub, Z.add_simpl_r, Hs by lia. done.
Qed.

(** ** Refusing offers *)

(** While the scheduler is [Immutable] no offer is used: [ResourceOffers]
    declines every offer, in order, and changes nothing. *)
Theorem immutable_declines_all env h s offers :
  state s = Immutable →
  run_alone (length offers) env h s (ResourceOffers cfg offers)
  = Done (Ret tt) s ((λ o, EvDecline (OfferId o)) <$> offers) [].
Proof.
  intros Hs. revert h. induction offers as [|o offers IH]; intros h; [done|].
  cbn [length run_alone]. unfold ResourceOffers. cbn [proc_each]. unfold resource_offer at 1.
  cbn. rewrite crit_bind_run. cbn [get_state]. rewrite bool_decide_eq_true_2 by done.
  rewrite crit_bind_run. cbn. unfold ResourceOffers in IH. by rewrite IH.
Qed.

(** ** Synchronisation *)

(** The goroutine changes the scheduler's state only to [Mutable], and only in the
    section that follows one in which every task of the reconciliation map had
    been heard from. *)
Fixpoint unlocks_in_sync {A} (p : proc (EtcdScheduler T) Goroutine A) (synced : bool) : Prop :=
  match p with
  | Ret _ => True
  | Act B c k => ∀ env h s b s' w gs, c env h s = Done b s' w gs →
      (state s' = state s ∨ (state s' = Mutable ∧ synced = true)) ∧
      ∃ synced', (synced' = true → in_sync s = true) ∧ unlocks_in_sync (k b) synced'
  end.

(** A section that leaves the state alone, then anything that starts over. *)
Lemma unlocks_keep {A B} (c : crit (EtcdScheduler T) Goroutine B) (k : B → proc (EtcdScheduler T) Goroutine A) synced :
  (∀ env h s b s' w gs, c env h s = Done b s' w gs → state s' = state s) →
  (∀ b, unlocks_in_sync (k b) false) → unlocks_in_sync (atomic c ≫= k) synced.
Proof.
  intros Hc Hk. simpl. intros env h s b s' w gs E. split; [left; by eapply Hc|]. by exists false.
Qed.

Lemma unlocks_wait n b (k : option error → proc (EtcdScheduler T) Goroutine unit) :
  (∀ e, unlocks_in_sync (k (Some e)) false) → unlocks_in_sync (k None) true →
  unlocks_in_sync (wait_loop n b ≫= k) false.
Proof.
  intros He Hn. revert b. induction n as [|n IH]; intros b; cbn [wait_loop]; [apply He|].
  simpl. intros env h s x s' w gs [= <- <- <- <-]. split; [by left|]. exists false. split; [done|].
  destruct (masterInfo s ≫= MIHostname); [|apply He].
  intros env' h' s1 ok s1' w' gs' E. unfold isInSync in E. rewrite crit_bind_run in E. cbn in E.
  injection E as <- <- <- <-.
  split; [by left|]. exists (in_sync s1). split; [done|]. destruct (in_sync s1); [done|].
  apply unlocks_keep; [|intros; apply IH]. by intros ??????? [= _ <- _ _].
Qed.

(** C15: The scheduler is unlocked only in sync.  In every run of
    [attemptMasterSync], whatever the other goroutines do meanwhile, the state is
    changed only to [Mutable], in the section right after a check that found
    every task of the reconciliation map heard from. *)
Theorem attemptMasterSync_unlocks_in_sync : unlocks_in_sync (attemptMasterSync cfg) false.
Proof.
  unfold attemptMasterSync. generalize 5 1%Z. induction n as [|n IH]; intros b; cbn [sync_loop].
  { simpl. intros env h s x s' w gs E. split; [|by exists false]. left. unfold call_shutdown in E.
    destruct (shutdown cfg); by injection E as _ <- _ _. }
  assert (Hs : ∀ sy, unlocks_in_sync (_ ← sleep (b * second); sync_loop cfg n (next_backoff b)) sy)
    by (intros sy; apply unlocks_keep; [by intros ??????? [= _ <- _ _]|done]).
  apply unlocks_keep; [by intros ??????? [= _ <- _ _]|]. intros [m [e|]]; cbn [fst snd]; [apply Hs|].
  apply unlocks_keep; [by intros ??????? [= _ <- _ _]|]. intros ref.
  apply unlocks_keep; [by intros ??????? [= _ <- _ _]|]. intros sts.
  apply unlocks_keep; [by intros ??????? [= _ <- _ _]|]. intros [e1|]; [apply IH|].
  apply unlocks_keep; [by intros ??????? [= _ <- _ _]|]. intros [e2|]; [apply Hs|].
  apply unlocks_wait; [intros; apply Hs|]. simpl. intros env h s x s' w gs [= _ <- _ _].
  split; [by right|]. by exists false.
Qed.

(** ** Reseeding *)

End Operations.

(** ** Where the code falls short *)

(** Two ranges, of which the first has a single port. *)
Definition split_offer : Offer := mkOffer "offer-3" "slave-3" "host3"
  [NewScalarResource "cpus" 4; NewScalarResource "mem" 1024; NewScalarResource "disk" 4096;
   NewRangesResource "ports" [mkRange 31000 31000; mkRange 32000 32009]].

(** Ports outside the offer.  The number of ports is summed over all ranges
    but the ports are taken from the first one, so an offer with enough ports in
    all and a single port in its first range is accepted and the client, reseed
    and driver ports of the task launched on it are in none of its ranges. *)
Theorem ports_escape_offer :
  let ranges := res_ports (parseOffer split_offer) in
  let node := new_node "etcd-1" split_offer (Begin (default (mkRange 0 0) (head ranges))) true in
  sufficient cfg3 (parseOffer split_offer) = true ∧
  Forall (λ p, Forall (λ r, ¬ in_range_of r p) ranges)
    [ClientPort node; ReseedPort node; u64 (RPCPort node + 3)].
Proof.
  cbv zeta. split; [by_compute|].
  assert (res_ports (parseOffer split_offer) = [mkRange 31000 31000; mkRange 32000 32009]) as -> by reflexivity.
  set (node := new_node _ _ _ _).
  assert ([ClientPort node; ReseedPort node; u64 (RPCPort node + 3)] = [31001; 31002; 31003]%Z) as ->
    by (by_compute).
  repeat constructor; unfold in_range_of; cbn; lia.
Qed.

(** The scheduler registers; its synchronisation is about to end when the master
    goes away. *)
Definition stale_choices : list choice :=
  [Deliver (CbRegistered "fw" master1)] ++ replicate 2 (Run 1) ++ replicate 7 (Run 2) ++
  [Deliver CbDisconnected; Run 3].

(** A synchronisation that ends late unlocks a disconnected scheduler.  In a
    reachable state the disconnection has locked the scheduler; the next section
    of the synchronisation that was under way makes it [Mutable] again, without
    any new registration. *)
Theorem stale_sync_unlocks :
  reach cfg3 live_env (length stale_choices) (after (T := OfferCache) stale_choices) ∧
  state (sys_sched (after (T := OfferCache) stale_choices)) = Immutable ∧
  sys_step cfg3 live_env (after (T := OfferCache) stale_choices)
    (after (T := OfferCache) (stale_choices ++ [Run 2])) ∧
  state (sys_sched (after (T := OfferCache) (stale_choices ++ [Run 2]))) = Mutable.
Proof.
  split_and!.
  - apply after_reach. by_compute.
  - by_compute.
  - apply after_step. by_compute.
  - by_compute.
Qed.

(** The first task runs, the connection is lost and found, and the synchronisation is about
    to end when the connection is lost again; it ends, the scheduler registers again,
    another offer arrives and the launcher takes its turn before any status update. *)
Definition relaunch_choices : list choice :=
  choices2 ++ [Run 0; Deliver CbDisconnected; Run 7; Deliver (CbReregistered master1); Run 8] ++
  replicate 6 (Run 9) ++
  [Deliver (CbStatusUpdate (mkStatus "etcd-1001 host1 31000 31001 31002" TASK_RUNNING (Some "slave-1")));
   Run 10; Run 9; Deliver CbDisconnected; Run 11; Run 9; Deliver (CbReregistered master1); Run 12;
   Deliver (CbResourceOffers [mkOffer "offer-4" "slave-4" "host4" (OfferResources offer1)])] ++
  replicate 5 (Run 14) ++ [Turn 5] ++ replicate 13 (Run 0).

(** A task's name and the types of the nodes its executor will decode. *)
Definition launched_types (t : TaskInfo) : string * list string :=
  (task_name t, (λ n : option Node, default "" (Type_ <$> n)) <$> default [] (Unmarshal_nodes (TaskData t))).

(** A registration of a scheduler that a late synchronisation unlocked starts a second
    cluster.  [Initialize] empties the running map and leaves the scheduler [Mutable], so
    before the master's task states arrive the launcher finds no running node
    and launches a node of type [new] beside the cluster that is still up. *)
Theorem reregistration_starts_second_cluster :
  let sys := after (T := OfferCache) relaunch_choices in
  reach cfg3 live_env (length relaunch_choices) sys ∧
  launched_types <$> launches (sys_hist sys) = [("etcd-1001", ["new"]); ("etcd-1002", ["new"])].
Proof.
  cbv zeta. split.
  - apply after_reach. by_compute.
  - by_compute.
Qed.

(** ** Concrete instances *)

Definition sched0 : EtcdScheduler OfferCache := sys_sched run2.

Lemma prepared_task_round_trip_witness :
  total (prepare_task cfg3 offer2 31000) live_env [] sched0 (λ task s' _ _,
    Parse (TaskTaskId task) =
      Ok (strip_node (new_node (instance_name (highestInstanceID s')) offer2 31000 false))).
Proof.
  eapply total_mono; [apply (prepared_task_round_trip cfg3 live_env [] sched0 offer2 31000)|].
  - split_and!; by vm_compute.
  - by vm_compute.
  - intros k n Hk. assert (Hr : running sched0 = {["etcd-1001" := mkNode "etcd-1001" "host1" 31000 31001 31002 "" "slave-1"]})
      by (by_compute).
    rewrite Hr in Hk. clear Hr. apply lookup_singleton_Some in Hk as [_ <-]. by vm_compute.
  - intros task s' w gs (Hp & _). exact Hp.
Defined.

Lemma ports_within_first_range_witness :
  NoDup [31000; 31001; 31002; 31003]%Z ∧
  Forall (in_range_of (mkRange 31000 31009)) [31000; 31001; 31002; 31003]%Z.
Proof.
  destruct (ports_within_first_range cfg3 offer1 (mkRange 31000 31009) "etcd-1" true [])
    as (H1 & H2 & _); [cbn; lia..|]. split; [exact H2|exact H1].
Defined.

Lemma immutable_declines_all_witness :
  run_alone 2 live_env [] (with_state Immutable sched0) (ResourceOffers cfg3 [offer1; offer2])
  = Done (Ret tt) (with_state Immutable sched0) [EvDecline "offer-1"; EvDecline "offer-2"] [].
Proof. apply (immutable_declines_all cfg3 live_env [] (with_state Immutable sched0) [offer1; offer2]). done. Defined.

