(* ===== verification/Executor.v ===== *)
(** * The executor (src/executor/executor.go)

    The executor's own state is the shutdown channel, open or closed, and the
    goroutines that wait to end it after a disconnection.  [etcdHarness] is a
    prologue that ends in the locals of its loop, and the loop is a transition system:
    its own steps, the goroutines of every turn ([runUntilClosed] and the one that waits
    for the process), reseed requests and the driver's callbacks interleave.  Processes
    and files are events: starting a command is [EvExec], a kill or a file operation is
    [EvFs].  For etcd [env_exec] is the result of [Start], for [dumbExec] that of [Wait]. *)

From Stdlib Require Import Ascii.
From stdpp Require Import base strings list gmap.
From S2P Require Import Prelude GoStd Errors Json Config Codec Mesos World Rpc.

Definition defaultMesosMaxSlavePingTimeouts : Z := 5.
Definition defaultMesosSlavePingTimeout : Z := 15 * second.
Definition suicideTimeout : Z := (defaultMesosMaxSlavePingTimeouts + 1) * defaultMesosSlavePingTimeout.

(** ** The command line of etcd *)

(** One entry of [--initial-cluster]. *)
Definition cluster_entry (n : Node) : string := Name n +:+ "=" +:+ http_url (Host n) (RPCPort n).

(** [cmdTemplate] filled in. *)
Definition render (n : Node) (cluster : string) : string :=
  "./etcd --data-dir=etcd_data --name=" +:+ Name n +:+
  " --listen-peer-urls=" +:+ http_url (Host n) (RPCPort n) +:+
  " --initial-advertise-peer-urls=" +:+ http_url (Host n) (RPCPort n) +:+
  " --listen-client-urls=" +:+ http_url (Host n) (ClientPort n) +:+
  " --advertise-client-urls=" +:+ http_url (Host n) (ClientPort n) +:+
  " --initial-cluster=" +:+ cluster.

(** Executing the template cannot fail: every field it names is there. *)
Definition command (nodes : list Node) : result string :=
  match nodes with
  | [] => Err (ErrNew "No nodes to configure.")
  | n :: _ => Ok (render n (Join (cluster_entry <$> nodes) ","))
  end.

(** ** The executor's state *)

Record Executor := mkExecutor {
  launchTimeout : Z;
  shutdownClosed : bool;
  suicides : nat;
}.

Definition New (launchTimeout : Z) : Executor := mkExecutor launchTimeout false 0.

(** [e.shutdown()]: [close(e.shutdownChan)], which panics on a closed channel. *)
Definition shutdown (e : Executor) : go Executor :=
  if shutdownClosed e then Panics else Returns (mkExecutor (launchTimeout e) true (suicides e)).

(** Every goroutine waiting on [cancelSuicide] receives. *)
Definition Reregistered (e : Executor) : Executor := mkExecutor (launchTimeout e) (shutdownClosed e) 0.

(** A goroutine starts to wait for [suicideTimeout]. *)
Definition Disconnected (e : Executor) : Executor :=
  mkExecutor (launchTimeout e) (shutdownClosed e) (S (suicides e)).

(** The timer of one of them fires. *)
Definition suicide (e : Executor) : option (go Executor) :=
  match suicides e with
  | O => None
  | S n => Some (shutdown (mkExecutor (launchTimeout e) (shutdownClosed e) n))
  end.

Definition KillTask (e : Executor) : go Executor := shutdown e.

(** ** Effects *)

Definition SendStatusUpdate (task : string) (st : TaskState) : IO (option error) :=
  act (EvStatus task st) (λ env h, env_status env h task st).
Definition file_op (op : string) : IO (option error) := act (EvFs op) (λ env h, env_fs env h op).
Definition exec_cmd (cmd : string) : IO (option error) := act (EvExec cmd) (λ env h, env_exec env h cmd).

Definition handleFailure (task : string) : IO unit :=
  _ ← SendStatusUpdate task TASK_FAILED;
  act EvAbort (λ _ _, tt).

(** [dumbExec]: run a command and wait for it. *)
Definition dumbExec (args : string) : IO (option error) := exec_cmd args.

Definition backup_command : string := "./etcdctl backup --data-dir=./etcd_data --backup-dir=./etcd_backup".

(** ** etcdHarness *)

(** The local variables of the loop. *)
Record Harness := mkHarness {
  hs_node : Node;
  hs_cmd : string;
  hs_before : Z;
  hs_delay : Z;
  hs_reseeding : bool;
}.

(** [runningMap[string(i)] = r] for the elements after the first. *)
Fixpoint running_map (i : N) (rest : list Node) (m : gmap string Node) : gmap string Node :=
  match rest with
  | [] => m
  | r :: rest => running_map (i + 1) rest (<[utf8_encode i := r]> m)
  end.

(** Up to the loop.  A nil element of the list is dereferenced by [command]. *)
Definition harness_start (task : string) (running : list (option Node)) : IO (go (option Harness)) :=
  match mapM id running with
  | None => mret Panics
  | Some [] => mret Panics
  | Some (node :: rest) =>
      match command (node :: rest) with
      | Err _ => _ ← handleFailure task; mret (Returns None)
      | Ok cmd =>
          let cmd := cmd +:+ " --initial-cluster-state=" +:+ Type_ node in
          err ← ConfigureInstance (running_map 1 rest ∅) node;
          match err with
          | Some _ => _ ← handleFailure task; mret (Returns None)
          | None =>
              err ← SendStatusUpdate task TASK_RUNNING;
              _ ← match err with Some _ => handleFailure task | None => mret tt end;
              now ← Now;
              mret (Returns (Some (mkHarness node cmd now 0 false)))
          end
      end
  end.

Definition LaunchTask (task data : string) : IO (go (option Harness)) :=
  match Unmarshal_nodes data with
  | None => _ ← handleFailure task; mret (Returns None)
  | Some [] => _ ← handleFailure task; mret (Returns None)
  | Some running => harness_start task running
  end.

(** ** The loop of etcdHarness and its goroutines

    Each turn of the loop starts a goroutine [runUntilClosed] with two channels of its own;
    that one starts a goroutine that waits for the process.  The goroutines interleave: the
    kill of a turn may come before, during or after the backup, and even after the next
    turn has started etcd again. *)

(** Where [runUntilClosed] is: before [Start]; at [<-killChan] with a process, or without one
    ([command.Process] is nil when [Start] failed); returned. *)
Inductive run_pc := RunNew | RunUp | RunFailed | RunDone.

(** The goroutine that waits for the process: not started; in [Wait]; returned. *)
Inductive wait_pc := WaitNone | WaitProc | WaitDone.

(** One turn's goroutines and channels. *)
Record Run := mkRun {
  r_cmd : string;
  r_pc : run_pc;
  r_wait : wait_pc;
  killClosed : bool;
  exitClosed : bool;
}.

Definition with_run_pc (pc : run_pc) (w : wait_pc) (r : Run) : Run := mkRun (r_cmd r) pc w (killClosed r) (exitClosed r).
Definition close_kill (r : Run) : Run := mkRun (r_cmd r) (r_pc r) (r_wait r) true (exitClosed r).
Definition close_exit (r : Run) : Run := mkRun (r_cmd r) (r_pc r) WaitDone (killClosed r) true.

(** Where the loop is: at its top; before [FixInstancePeers]; at the [select]; in
    [stripPersistedMetadata]; reporting its failure; building the command of the reseed;
    after an exit of etcd; giving up; backing off. *)
Inductive harness_pc :=
  | HTop | HFix | HSelect | HBackup | HRemove | HRename | HFailed | HCommand
  | HExited | HGiveUp | HSleep.

(** Which case of the [select] was ready. *)
Inductive wake := ReseedRequest | ShutdownClosed | EtcdExited.

(** The executor's process: its state, the locals of the loop, the goroutines of every turn
    so far, the requests queued in [reseedChan], and what has happened. *)
Record Exec := mkExec {
  x_exec : Executor;
  x_hs : Harness;
  x_pc : harness_pc;
  x_runs : list Run;
  x_reseeds : nat;
  x_hist : list Event;
}.

Definition set_exec e x := mkExec e (x_hs x) (x_pc x) (x_runs x) (x_reseeds x) (x_hist x).
Definition set_hs hs x := mkExec (x_exec x) hs (x_pc x) (x_runs x) (x_reseeds x) (x_hist x).
Definition set_pc pc x := mkExec (x_exec x) (x_hs x) pc (x_runs x) (x_reseeds x) (x_hist x).
Definition set_runs rs x := mkExec (x_exec x) (x_hs x) (x_pc x) rs (x_reseeds x) (x_hist x).
Definition set_reseeds n x := mkExec (x_exec x) (x_hs x) (x_pc x) (x_runs x) n (x_hist x).
Definition log (w : list Event) x := mkExec (x_exec x) (x_hs x) (x_pc x) (x_runs x) (x_reseeds x) (x_hist x ++ w).

(** A step goes on, ends the process by [e.exit()], or panics. *)
Inductive ending := Goes (x : Exec) | Exited | Panicked.

(** The answer of a step, and its events; [None] when it is not enabled. *)
Definition moved : Type := option (ending * list Event).

Definition goes (x : Exec) (w : list Event) : moved := Some (Goes (log w x), w).

(** [e.shutdown()], then go on. *)
Definition shutting_down (x : Exec) : moved :=
  match shutdown (x_exec x) with
  | Returns e => goes (set_exec e x) []
  | Panics => Some (Panicked, [])
  end.

(** [close(killChan)] of the present turn, then go on at [pc]. *)
Definition kill_current (pc : harness_pc) (x : Exec) : moved :=
  match last (x_runs x) with
  | None => None
  | Some r =>
      if killClosed r then Some (Panicked, []) else
      goes (set_pc pc (set_runs (<[pred (length (x_runs x)) := close_kill r]> (x_runs x)) x)) []
  end.

(** Run a program of the loop and go on at a place that depends on its answer. *)
Definition harness_io {A} (m : IO A) (next : A → Exec → Exec) (env : Env) (x : Exec) : moved :=
  let r := m env (x_hist x) in goes (next r.1 x) r.2.

(** On an error of [stripPersistedMetadata] the failure is reported. *)
Definition unless_failed (pc : harness_pc) (err : option error) : Exec → Exec :=
  set_pc match err with Some _ => HFailed | None => pc end.

(** The three steps of [stripPersistedMetadata]. *)
Definition stripPersistedMetadata (env : Env) (x : Exec) : moved :=
  match x_pc x with
  | HBackup => harness_io (dumbExec backup_command) (unless_failed HRemove) env x
  | HRemove => harness_io (file_op "remove ./etcd_data") (unless_failed HRename) env x
  | HRename => harness_io (file_op "rename ./etcd_backup ./etcd_data") (unless_failed HCommand) env x
  | _ => None
  end.

(** The loop's next step, given the case that [select] chooses. *)
Definition harness_step (env : Env) (task : string) (wk : wake) (x : Exec) : moved :=
  let 'mkHarness node cmd before delay reseeding := x_hs x in
  match x_pc x with
  | HTop => goes (set_pc (if reseeding then HFix else HSelect)
                    (set_runs (x_runs x ++ [mkRun cmd RunNew WaitNone false false]) x)) []
  | HFix => harness_io (FixInstancePeers node) (λ _, set_pc HSelect) env x
  | HSelect =>
      match wk with
      | ReseedRequest => match x_reseeds x with
                         | O => None
                         | S n => kill_current HBackup (set_reseeds n x)
                         end
      | ShutdownClosed => if shutdownClosed (x_exec x) then kill_current HTop x else None
      | EtcdExited => match last (x_runs x) with
                      | Some r => if exitClosed r then goes (set_pc HExited x) [] else None
                      | None => None
                      end
      end
  | HBackup | HRemove | HRename => stripPersistedMetadata env x
  | HFailed => harness_io (handleFailure task) (λ _, set_pc HCommand) env x
  | HCommand =>
      let '(cmd, failed) := match command [node] with Ok c => (c, false) | Err _ => ("", true) end in
      harness_io (_ ← (if (failed : bool) then handleFailure task else mret tt); Now)
        (λ now x, set_pc HTop (set_hs (mkHarness node (cmd +:+ " --force-new-cluster") now delay true) x)) env x
  | HExited =>
      harness_io (now ← Now;
                  if bool_decide (launchTimeout (x_exec x) < now - before)%Z
                  then _ ← handleFailure task; mret HGiveUp else mret HSleep)
        set_pc env x
  | HGiveUp => shutting_down (set_pc HSleep x)
  | HSleep =>
      harness_io (Sleep (delay * second))
        (λ _ x, set_pc HTop (set_hs (mkHarness node cmd before (Z.min (delay + 1) 4) reseeding) x)) env x
  end.

(** [runUntilClosed] of turn [i]: it starts the process and does not look at the error; when
    its channel is closed it kills the process, which dereferences a nil pointer if none was
    started, and exits the executor if that is shutting down. *)
Definition run_step (env : Env) (i : nat) (x : Exec) : moved :=
  r ← x_runs x !! i;
  match r_pc r with
  | RunNew =>
      let a := exec_cmd (r_cmd r) env (x_hist x) in
      let pc := match a.1 with None => RunUp | Some _ => RunFailed end in
      goes (set_runs (<[i := with_run_pc pc WaitProc r]> (x_runs x)) x) a.2
  | RunUp =>
      if killClosed r then
        let a := file_op "kill etcd" env (x_hist x) in
        if shutdownClosed (x_exec x) then Some (Exited, a.2)
        else goes (set_runs (<[i := with_run_pc RunDone (r_wait r) r]> (x_runs x)) x) a.2
      else None
  | RunFailed => if killClosed r then Some (Panicked, []) else None
  | RunDone => None
  end.

(** [command.Wait()] returns: the process has ended, or there was none. *)
Definition wait_step (i : nat) (x : Exec) : moved :=
  r ← x_runs x !! i;
  match r_wait r with
  | WaitProc =>
      if killClosed r then goes (set_runs (<[i := with_run_pc (r_pc r) WaitDone r]> (x_runs x)) x) []
      else if exitClosed r then Some (Panicked, [])
      else goes (set_runs (<[i := close_exit r]> (x_runs x)) x) []
  | _ => None
  end.

(** What happens next: a step of the loop, of a turn's goroutines, a request on [/reseed],
    the failure of its listener, a callback of the driver, the end of a disconnection's
    timer. *)
Inductive move :=
  | MHarness (wk : wake)
  | MRun (i : nat)
  | MWait (i : nat)
  | MReseed
  | MListenerEnds
  | MKillTask
  | MDisconnected
  | MReregistered
  | MSuicide.

Definition xstep (env : Env) (task : string) (m : move) (x : Exec) : moved :=
  match m with
  | MHarness wk => harness_step env task wk x
  | MRun i => run_step env i x
  | MWait i => wait_step i x
  | MReseed => if bool_decide (x_reseeds x < 1) then goes (set_reseeds (S (x_reseeds x)) x) [] else None
  | MListenerEnds | MKillTask => shutting_down x
  | MDisconnected => goes (set_exec (Disconnected (x_exec x)) x) []
  | MReregistered => goes (set_exec (Reregistered (x_exec x)) x) []
  | MSuicide => match suicide (x_exec x) with
                | None => None
                | Some (Returns e) => goes (set_exec e x) []
                | Some Panics => Some (Panicked, [])
                end
  end.

(** A sequence of steps that all go on, with the events of each. *)
Inductive xruns (env : Env) (task : string) : Exec → list (move * list Event) → Exec → Prop :=
  | xruns_nil x : xruns env task x [] x
  | xruns_snoc x tr x1 m w x2 :
      xruns env task x tr x1 → xstep env task m x1 = Some (Goes x2, w) →
      xruns env task x (tr ++ [(m, w)]) x2.

(** The loop begins. *)
Definition harness_begin (e : Executor) (hs : Harness) (h : list Event) : Exec := mkExec e hs HTop [] 0 h.

(** The handler of [/reseed]: it answers first, then queues the request, and
    blocks ([None]) when one is queued already. *)
Definition reseed_handler (queued : nat) : string * option nat :=
  ("ok", if bool_decide (queued < 1) then Some (S queued) else None).

(** ** Properties *)

(** *** The command line *)

Definition graphic (s : string) : Prop := all_bytes is_graphic s = true.
Definition graphic_node (n : Node) : Prop := graphic (Name n) ∧ graphic (Host n).

Lemma graphic_app s t : graphic s → graphic t → graphic (s +:+ t).
Proof. unfold graphic. intros Hs Ht. by rewrite all_bytes_app, Hs, Ht. Qed.

Lemma graphic_url host port : graphic host → graphic (http_url host port).
Proof.
  intros Hh. unfold http_url. repeat apply graphic_app; try done. apply FormatUint_graphic.
Qed.

Lemma graphic_entry n : graphic_node n → graphic (cluster_entry n).
Proof.
  intros [Hn Hh]. unfold cluster_entry. repeat apply graphic_app; try done. apply FormatUint_graphic.
Qed.

Lemma graphic_Join ws : Forall graphic ws → graphic (Join ws ",").
Proof.
  induction 1 as [|w ws Hw Hws IH]; [done|]. destruct ws as [|w' ws]; [done|].
  change (Join (w :: w' :: ws) ",") with (w +:+ "," +:+ Join (w' :: ws) ",").
  by repeat apply graphic_app.
Qed.

(** Fields joined by blanks are the fields again. *)
Lemma Fields_Join ws : Forall is_word ws → Fields (Join ws " ") = ws.
Proof.
  induction 1 as [|w ws [Hne Hw] Hws IH]; [done|]. destruct ws as [|w' ws]; [by apply Fields_last|].
  change (Join (w :: w' :: ws) " ") with (w +:+ " " +:+ Join (w' :: ws) " ").
  rewrite (sapp_cons " " ""), sapp_nil_l, Fields_cons by done. by rewrite IH.
Qed.

Lemma graphic_word a s : graphic (String a s) → is_word (String a s).
Proof. intros H. split; [done|]. by apply graphic_no_space. Qed.

(** The arguments etcd is started with. *)
Definition etcd_argv (n : Node) (nodes : list Node) (last : string) : list string :=
  ["./etcd"; "--data-dir=etcd_data"; "--name=" +:+ Name n;
   "--listen-peer-urls=" +:+ http_url (Host n) (RPCPort n);
   "--initial-advertise-peer-urls=" +:+ http_url (Host n) (RPCPort n);
   "--listen-client-urls=" +:+ http_url (Host n) (ClientPort n);
   "--advertise-client-urls=" +:+ http_url (Host n) (ClientPort n);
   "--initial-cluster=" +:+ Join (cluster_entry <$> nodes) ","; last].

Lemma render_argv n nodes last :
  render n (Join (cluster_entry <$> nodes) ",") +:+ " " +:+ last = Join (etcd_argv n nodes last) " ".
Proof.
  unfold render, etcd_argv. cbn [Join]. rewrite !string_app_assoc.
  repeat (rewrite sapp_cons || rewrite sapp_nil_l). done.
Qed.

(** The command line says what it should.  For nodes whose names and hosts are
    printable without blanks, splitting the command of [command] with its
    last option appended gives exactly the nine arguments of etcd: the node's own
    name and URLs, and one [name=http://host:port] entry for each node of the
    list, in order.  No field of a node can introduce another argument. *)
Theorem command_argv n rest last cmd :
  Forall graphic_node (n :: rest) → graphic last → last ≠ "" → command (n :: rest) = Ok cmd →
  Fields (cmd +:+ " " +:+ last) = etcd_argv n (n :: rest) last.
Proof.
  intros Hg Hl Hl0 Hcmd. unfold command in Hcmd.
  assert (cmd = render n (Join (cluster_entry <$> n :: rest) ",")) as -> by congruence.
  rewrite (render_argv n (n :: rest) last). apply Fields_Join.
  pose proof Hg as [[Hn Hh] _]%Forall_cons.
  assert (Hc : graphic (Join (cluster_entry <$> n :: rest) ",")).
  { apply graphic_Join, Forall_fmap. eapply Forall_impl; [exact Hg|]. apply graphic_entry. }
  assert (Hlit : ∀ a s t, graphic (String a s) → graphic t → is_word (String a s +:+ t)).
  { intros a s t Hs Ht. rewrite sapp_cons. apply graphic_word. rewrite <- sapp_cons. by apply graphic_app. }
  pose proof (graphic_url (Host n) (RPCPort n) Hh). pose proof (graphic_url (Host n) (ClientPort n) Hh).
  unfold etcd_argv. repeat (apply Forall_cons; split); try (by apply Hlit); try (by apply graphic_word); [|constructor].
  destruct last; [done|]. by apply graphic_word.
Qed.

(** *** Starting *)

Lemma mapM_id_Some (l : list (option Node)) ns : mapM id l = Some ns → l = Some <$> ns.
Proof. intros H%mapM_Some. induction H as [|o n l ns Ho H IH]; [done|]. simpl. by rewrite IH, <- Ho. Qed.

Lemma harness_start_some task l env h hs :
  (harness_start task l env h).1 = Returns (Some hs) →
  ∃ node rest, l = Some <$> node :: rest ∧
    (ConfigureInstance (running_map 1 rest ∅) node env h).1 = None ∧
    hs_node hs = node ∧ hs_delay hs = 0%Z ∧ hs_reseeding hs = false ∧
    hs_cmd hs = render node (Join (cluster_entry <$> node :: rest) ",") +:+
                " --initial-cluster-state=" +:+ Type_ node ∧
    ∃ w, (harness_start task l env h).2 =
         (ConfigureInstance (running_map 1 rest ∅) node env h).2 ++ EvStatus task TASK_RUNNING :: w.
Proof.
  unfold harness_start. destruct (mapM id l) as [[|node rest]|] eqn:Hm; [done| |done].
  apply mapM_id_Some in Hm as ->. cbn [command]. rewrite !bind_run. cbn [fst snd].
  destruct ((ConfigureInstance _ node env h).1) as [e|] eqn:Hc; [done|].
  rewrite !bind_run. cbn [fst snd SendStatusUpdate act]. intros [= <-].
  exists node, rest. split_and!; try done. eexists. rewrite <- app_comm_cons. done.
Qed.

(** What the prologue does, as a function of the attempt to join. *)
Lemma harness_start_run task node rest env h :
  harness_start task (Some <$> node :: rest) env h =
  let join := ConfigureInstance (running_map 1 rest ∅) node env h in
  match join.1 with
  | Some _ => (Returns None, join.2 ++ [EvStatus task TASK_FAILED; EvAbort])
  | None =>
      let w := EvStatus task TASK_RUNNING ::
        (match env_status env (h ++ join.2) task TASK_RUNNING with
         | Some _ => [EvStatus task TASK_FAILED; EvAbort] | None => [] end) in
      (Returns (Some (mkHarness node (render node (Join (cluster_entry <$> node :: rest) ",") +:+
          " --initial-cluster-state=" +:+ Type_ node) (env_clock env (h ++ join.2 ++ w)) 0 false)), join.2 ++ w)
  end.
Proof.
  cbv zeta. unfold harness_start.
  assert (Hm : mapM id (Some <$> node :: rest) = Some (node :: rest)).
  { apply mapM_Some, Forall2_fmap_l, Forall_Forall2_diag. by apply Forall_forall. }
  rewrite Hm. cbn [command]. rewrite bind_run.
  set (join := ConfigureInstance _ node env h). destruct (join.1); cbn [fst snd].
  - by rewrite bind_run.
  - rewrite bind_run. cbn [fst snd SendStatusUpdate act]. rewrite bind_run.
    destruct (env_status env (h ++ join.2) task TASK_RUNNING); cbn;
      rewrite ?app_nil_r, <- ?app_assoc; done.
Qed.

Lemma handleFailure_events task env h :
  handleFailure task env h = (tt, [EvStatus task TASK_FAILED; EvAbort]).
Proof. done. Qed.

(** The executor reports what it did.  A task that was launched had data that
    decodes to its own node followed by the others, joined the cluster through the
    others with a nil result before [TASK_RUNNING] was sent, and its harness is
    set up for that node; a launch that was given up had data that does not decode
    or names no node, or failed to join, and ends with [TASK_FAILED] and an abort
    of the driver, with no event but those of the attempt to join before. *)
Theorem LaunchTask_reports env h task data :
  (∀ hs, (LaunchTask task data env h).1 = Returns (Some hs) →
     ∃ node rest, Unmarshal_nodes data = Some (Some <$> node :: rest) ∧
       (ConfigureInstance (running_map 1 rest ∅) node env h).1 = None ∧
       hs_node hs = node ∧ hs_delay hs = 0%Z ∧ hs_reseeding hs = false ∧
       ∃ w, (LaunchTask task data env h).2 =
            (ConfigureInstance (running_map 1 rest ∅) node env h).2 ++ EvStatus task TASK_RUNNING :: w) ∧
  ((LaunchTask task data env h).1 = Returns None →
     ((Unmarshal_nodes data = None ∨ Unmarshal_nodes data = Some []) ∧
      (LaunchTask task data env h).2 = [EvStatus task TASK_FAILED; EvAbort]) ∨
     ∃ node rest e, Unmarshal_nodes data = Some (Some <$> node :: rest) ∧
       (ConfigureInstance (running_map 1 rest ∅) node env h).1 = Some e ∧
       (LaunchTask task data env h).2 =
         (ConfigureInstance (running_map 1 rest ∅) node env h).2 ++ [EvStatus task TASK_FAILED; EvAbort]).
Proof.
  unfold LaunchTask. destruct (Unmarshal_nodes data) as [[|o l]|] eqn:Hd.
  1,3: split; [done|]; intros _; left; split; [auto|done].
  split.
  - intros hs Hs. destruct (harness_start_some _ _ _ _ _ Hs) as (node & rest & -> & ? & ? & ? & ? & _ & ?).
    exists node, rest. done.
  - unfold harness_start. destruct (mapM id (o :: l)) as [[|node rest]|] eqn:Hm; [done| |done].
    apply mapM_id_Some in Hm as ->. cbn [command]. rewrite !bind_run. cbn [fst snd].
    destruct ((ConfigureInstance _ node env h).1) as [e|] eqn:Hc; [|done]. intros _. right.
    exists node, rest, e. by split_and!.
Qed.

(** *** The goroutines of the harness *)

(** The loop is between starting a turn and leaving its [select]. *)
Definition in_turn (pc : harness_pc) : bool := match pc with HFix | HSelect => true | _ => false end.

(** The turn is over: its process was told to die, or has ended. *)
Definition released (r : Run) : Prop := killClosed r = true ∨ exitClosed r = true.

(** The command of a reseeded node: the only member of a new cluster. *)
Definition single_command (node : Node) : string := render node (cluster_entry node) +:+ " --force-new-cluster".

(** The goroutines of one turn. *)
Record run_ok (first : string) (node : Node) (r : Run) : Prop := {
  ro_cmd : r_cmd r = first ∨ r_cmd r = single_command node;
  ro_exit : exitClosed r = true → r_wait r = WaitDone;
  ro_new : r_pc r = RunNew → r_wait r = WaitNone;
}.

(** What holds of every interleaving: the command of the loop is the first one until a
    reseed and the single node's from then on; every turn but the present one is over,
    whose kill channel is still open. *)
Record harness_ok (first : string) (node : Node) (x : Exec) : Prop := {
  ho_node : hs_node (x_hs x) = node;
  ho_cmd : hs_cmd (x_hs x) = if hs_reseeding (x_hs x) then single_command node else first;
  ho_delay : (0 ≤ hs_delay (x_hs x) ≤ 4)%Z;
  ho_runs : Forall (run_ok first node) (x_runs x);
  ho_turns : if in_turn (x_pc x)
             then ∃ rs r, x_runs x = rs ++ [r] ∧ Forall released rs ∧ killClosed r = false ∧
                          r_cmd r = hs_cmd (x_hs x)
             else Forall released (x_runs x);
}.

(** What a step of another goroutine does to a turn. *)
Definition run_le (r r' : Run) : Prop :=
  r_cmd r' = r_cmd r ∧ killClosed r' = killClosed r ∧ (exitClosed r = true → exitClosed r' = true) ∧
  (∀ first node, run_ok first node r → run_ok first node r').

#[export] Instance run_le_refl : Reflexive run_le.
Proof. intros r. split_and!; auto. Qed.

Definition is_harness (m : move) : bool := match m with MHarness _ => true | _ => false end.

(** A step of another goroutine than the loop. *)
Lemma other_step env task m x x' w :
  is_harness m = false → xstep env task m x = Some (Goes x', w) →
  x_hs x' = x_hs x ∧ x_pc x' = x_pc x ∧ Forall2 run_le (x_runs x) (x_runs x').
Proof.
  assert (Hins : ∀ i r r', x_runs x !! i = Some r → run_le r r' → Forall2 run_le (x_runs x) (<[i := r']> (x_runs x))).
  { intros i r r' Hr Hle. rewrite <- (list_insert_id (x_runs x) i r Hr) at 1.
    apply Forall2_insert; [|done]. apply Forall_Forall2_diag, Forall_forall. by intros ? _. }
  assert (Hall : Forall2 run_le (x_runs x) (x_runs x)) by (apply Forall_Forall2_diag, Forall_forall; by intros ? _).
  assert (Hsd : ∀ x' w, shutting_down x = Some (Goes x', w) →
    x_hs x' = x_hs x ∧ x_pc x' = x_pc x ∧ Forall2 run_le (x_runs x) (x_runs x')).
  { intros x1 w1. unfold shutting_down. destruct (shutdown (x_exec x)); [|done]. by intros [= <- <-]. }
  destruct m as [wk|i|i| | | | | |]; cbn [is_harness xstep]; intros Hm; try done; try apply Hsd.
  - unfold run_step. destruct (x_runs x !! i) as [r|] eqn:Hr; [|done]. cbn [mbind option_bind].
    destruct (r_pc r) eqn:Hpc.
    + intros [= <- <-]. split_and!; [done..|]. eapply Hins; [done|]. split_and!; try done.
      intros f n [Hc He Hn]. split; [done| |].
      * intros H. by rewrite (He H) in Hn; specialize (Hn Hpc).
      * cbn. by case_match.
    + destruct (killClosed r); [|done]. destruct (shutdownClosed (x_exec x)); [done|].
      intros [= <- <-]. split_and!; [done..|]. eapply Hins; [done|]. split_and!; try done. by intros f n [Hc He Hn].
    + by destruct (killClosed r).
    + done.
  - unfold wait_step. destruct (x_runs x !! i) as [r|] eqn:Hr; [|done]. cbn [mbind option_bind].
    destruct (r_wait r) eqn:Hw; [done| |done]. destruct (killClosed r) eqn:Hk.
    + intros [= <- <-]. split_and!; [done..|]. eapply Hins; [done|]. split_and!; try done.
      intros f n [Hc He Hn]. split; [done..|]. intros Hpc. by rewrite Hn in Hw.
    + destruct (exitClosed r); [done|]. intros [= <- <-]. split_and!; [done..|]. eapply Hins; [done|].
      split_and!; try done. intros f n [Hc He Hn]. split; [done..|]. intros Hpc. by rewrite Hn in Hw.
  - case_bool_decide; [|done]. by intros [= <- <-].
  - by intros [= <- <-].
  - by intros [= <- <-].
  - destruct (suicide (x_exec x)) as [[e|]|]; [|done..]. by intros [= <- <-].
Qed.

Lemma released_le rs rs' : Forall2 run_le rs rs' → Forall released rs → Forall released rs'.
Proof.
  induction 1 as [|r r' rs rs' (_ & Hk & He & _) H IH]; [done|]. intros [[Hr|Hr] Hrs]%Forall_cons_iff;
    (constructor; [|by apply IH]); [left; congruence|right; auto].
Qed.

Lemma runs_ok_le first node rs rs' : Forall2 run_le rs rs' → Forall (run_ok first node) rs → Forall (run_ok first node) rs'.
Proof.
  induction 1 as [|r r' rs rs' (_ & _ & _ & Ho) H IH]; [done|]. intros [Hr Hrs]%Forall_cons_iff. constructor; auto.
Qed.

Lemma insert_last {A} (l : list A) x y : <[pred (length (l ++ [x])) := y]> (l ++ [x]) = l ++ [y].
Proof.
  rewrite length_app, Nat.add_1_r. cbn [pred]. rewrite insert_app_r_alt, Nat.sub_diag by done. done.
Qed.

(** Closing the kill channel of the present turn does not panic. *)
Lemma kill_current_goes first node pc x y :
  harness_ok first node x → in_turn (x_pc x) = true → x_runs y = x_runs x →
  ∃ rs r, x_runs x = rs ++ [r] ∧ Forall released (rs ++ [close_kill r]) ∧
    Forall (run_ok first node) (rs ++ [close_kill r]) ∧
    kill_current pc y = goes (set_pc pc (set_runs (rs ++ [close_kill r]) y)) [].
Proof.
  intros [_ _ _ Hok Ht] Hin Hy. rewrite Hin in Ht. destruct Ht as (rs & r & Hrs & Hrel & Hk & _).
  exists rs, r. rewrite Hrs in Hok. apply Forall_app in Hok as [Hok Hokr].
  split; [done|]. split_and!.
  - apply Forall_app. split; [done|]. apply Forall_singleton. by left.
  - apply Forall_app. split; [done|]. apply Forall_singleton in Hokr as [Hc He Hn].
    by apply Forall_singleton.
  - unfold kill_current. by rewrite Hy, Hrs, last_snoc, Hk, insert_last.
Qed.

Lemma harness_ok_step first node env task m x x' w :
  xstep env task m x = Some (Goes x', w) → harness_ok first node x → harness_ok first node x'.
Proof.
  intros Hs Hok. destruct (is_harness m) eqn:Hm.
  2:{ destruct (other_step _ _ _ _ _ _ Hm Hs) as (Hhs & Hpc & Hle). destruct Hok as [H1 H2 H3 H4 H5].
      split; rewrite ?Hhs, ?Hpc; try done; [by eapply runs_ok_le|].
      destruct (in_turn (x_pc x)); [|by eapply released_le].
      destruct H5 as (rs & r & Hrs & Hrel & Hk & Hc). rewrite Hrs in Hle.
      apply Forall2_app_inv_l in Hle as (rs' & l & Hle & (r' & l' & (Hc' & Hk' & _) & Hn & ->)%Forall2_cons_inv_l & ->).
      apply Forall2_nil_inv_l in Hn as ->. exists rs', r'. split_and!; [done|by eapply released_le|congruence..]. }
  destruct m as [wk| | | | | | | |]; try done. cbn [xstep] in Hs. unfold harness_step in Hs.
  pose proof Hok as [H1 H2 H3 H4 H5]. destruct (x_hs x) as [nd cmd before delay reseeding] eqn:Hhs.
  cbn [hs_node hs_cmd hs_delay hs_reseeding] in *. subst nd.
  assert (Hkill : ∀ pc y, x_runs y = x_runs x → x_hs y = x_hs x → in_turn (x_pc x) = true → in_turn pc = false →
    kill_current pc y = Some (Goes x', w) → harness_ok first node x').
  { intros pc y Hy Hh Hin Hpc Hkc.
    destruct (kill_current_goes first node pc x y Hok Hin Hy) as (rs & r & _ & Hrel & Hoks & E).
    rewrite E in Hkc. injection Hkc as <- <-.
    split; cbn [x_hs x_pc x_runs log set_pc set_runs hs_node hs_cmd hs_delay hs_reseeding]; rewrite ?Hh, ?Hhs; try done.
    by rewrite Hpc. }
  destruct (x_pc x) eqn:Hpc; cbn [in_turn] in *.
  - injection Hs as <- <-. split; cbn; rewrite ?Hhs; try done.
    + apply Forall_app. split; [done|]. apply Forall_singleton. split; cbn; try done.
      rewrite H2. destruct reseeding; auto.
    + destruct reseeding; cbn; exists (x_runs x); eexists; by split_and!.
  - injection Hs as <- <-. by split; cbn; rewrite ?Hhs.
  - destruct wk.
    + destruct (x_reseeds x); [done|]. eapply (Hkill HBackup); [..|exact Hs]; done.
    + destruct (shutdownClosed (x_exec x)); [|done]. eapply (Hkill HTop); [..|exact Hs]; done.
    + destruct (last (x_runs x)) as [r|] eqn:Hl; [|done]. destruct (exitClosed r) eqn:He; [|done].
      injection Hs as <- <-. split; cbn; rewrite ?Hhs; try done.
      destruct H5 as (rs & r' & Hrs & Hrel & _). rewrite Hrs in *. rewrite last_snoc in Hl.
      apply Forall_app. split; [done|]. constructor; [|done]. right. congruence.
  - unfold stripPersistedMetadata in Hs. rewrite Hpc in Hs. injection Hs as <- <-.
    cbn. split; cbn; rewrite ?Hhs; try done. by destruct (env_exec _ _ _).
  - unfold stripPersistedMetadata in Hs. rewrite Hpc in Hs. injection Hs as <- <-.
    cbn. split; cbn; rewrite ?Hhs; try done. by destruct (env_fs _ _ _).
  - unfold stripPersistedMetadata in Hs. rewrite Hpc in Hs. injection Hs as <- <-.
    cbn. split; cbn; rewrite ?Hhs; try done. by destruct (env_fs _ _ _).
  - injection Hs as <- <-. by split; cbn; rewrite ?Hhs.
  - injection Hs as <- <-. by split; cbn.
  - injection Hs as <- <-. cbn. case_bool_decide; (split; cbn; rewrite ?Hhs; done).
  - unfold shutting_down in Hs. destruct (shutdown _); [|done]. injection Hs as <- <-. by split; cbn; rewrite ?Hhs.
  - injection Hs as <- <-. split; cbn; try done. lia.
Qed.

Lemma harness_ok_runs first node env task x tr x' :
  xruns env task x tr x' → harness_ok first node x → harness_ok first node x'.
Proof. induction 1 as [|x tr x1 m w x2 H IH Hs]; [done|]. intros Hx. eapply harness_ok_step; eauto. Qed.

Lemma harness_ok_begin node cmd before e h :
  harness_ok cmd node (harness_begin e (mkHarness node cmd before 0 false) h).
Proof. by split; cbn. Qed.

#[export] Instance run_le_trans : Transitive run_le.
Proof.
  intros r1 r2 r3 (E1 & E2 & E3 & E4) (F1 & F2 & F3 & F4). split_and!; [congruence..|auto|auto].
Qed.

(** The steps of the loop in a run, and its own events. *)
Definition harness_moves (tr : list (move * list Event)) : nat := length (filter (λ l, is_harness l.1 = true) tr).
Definition harness_events (tr : list (move * list Event)) : list Event :=
  mjoin (snd <$> filter (λ l, is_harness l.1 = true) tr).

Lemma harness_moves_snoc tr m w :
  harness_moves (tr ++ [(m, w)]) = (harness_moves tr + if is_harness m then 1 else 0)%nat ∧
  harness_events (tr ++ [(m, w)]) = harness_events tr ++ if is_harness m then w else [].
Proof.
  unfold harness_moves, harness_events. rewrite filter_app, length_app, fmap_app, join_app.
  destruct (is_harness m) eqn:Hm.
  - rewrite filter_cons_True by done. cbn. by rewrite app_nil_r.
  - rewrite filter_cons_False by (cbn; by rewrite Hm). by rewrite !app_nil_r.
Qed.

(** The disk cooperates with a reseed. *)
Definition disk_ok (env : Env) : Prop :=
  (∀ h, env_exec env h backup_command = None) ∧ (∀ h op, env_fs env h op = None).

Definition reseed_places : list harness_pc := [HBackup; HRemove; HRename; HCommand; HTop].
Definition reseed_work : list Event :=
  [EvExec backup_command; EvFs "remove ./etcd_data"; EvFs "rename ./etcd_backup ./etcd_data"].

(** After [k] steps of the loop since it received the request. *)
Record reseed_phase (node : Node) (runs : list Run) (k : nat) (evs : list Event) (x : Exec) : Prop := {
  rp_pc : reseed_places !! k = Some (x_pc x);
  rp_node : hs_node (x_hs x) = node;
  rp_hs : 4 ≤ k → hs_cmd (x_hs x) = single_command node ∧ hs_reseeding (x_hs x) = true;
  rp_runs : Forall2 run_le runs (x_runs x);
  rp_events : evs = take k reseed_work;
}.

Lemma reseed_phase_run env task node runs x tr x' :
  disk_ok env → xruns env task x tr x' → harness_moves tr ≤ 4 → reseed_phase node runs 0 [] x →
  reseed_phase node runs (harness_moves tr) (harness_events tr) x'.
Proof.
  intros [Hex Hfs]. induction 1 as [|x tr x1 m w x2 H IH Hs]; [done|]. intros Hk H0.
  destruct (harness_moves_snoc tr m w) as [E1 E2]. rewrite E1, E2. rewrite E1 in Hk.
  specialize (IH ltac:(lia) H0). destruct IH as [Hpc Hn Hh Hle He].
  destruct (is_harness m) eqn:Hm.
  2:{ destruct (other_step _ _ _ _ _ _ Hm Hs) as (E3 & E4 & Hle'). rewrite Nat.add_0_r, app_nil_r.
      split; rewrite ?E3, ?E4; try done. by transitivity (x_runs x1). }
  destruct m as [wk| | | | | | | |]; try done. cbn [xstep] in Hs. unfold harness_step in Hs.
  destruct (x_hs x1) as [nd cmd before delay reseeding] eqn:Ehs. cbn [hs_node] in Hn. subst nd.
  rewrite Nat.add_1_r in *. rewrite He.
  destruct (harness_moves tr) as [|[|[|[|k]]]]; [..|exfalso; lia]; injection Hpc as Hpc; rewrite <- Hpc in Hs;
    unfold stripPersistedMetadata in Hs; rewrite <- ?Hpc in Hs; injection Hs as <- <-;
    (split; cbn; rewrite ?Ehs, ?Hex, ?Hfs; try done; intros; first [lia|by split]).
Qed.

(** C18: A reseed request rebuilds the node as a cluster of its own, in every interleaving.
    Take any reachable state of the executor whose loop receives a reseed request at its
    [select], and any continuation, with the other goroutines interleaved at will, up to the
    loop's fifth step from there.  When the backup and the file operations succeed, the
    loop's own events are the backup, the removal of the data directory and the renaming of
    the backup, in this order, with no report to Mesos; the turn that was interrupted was
    told to die, and its goroutine, whenever it runs, kills the process it had started, which
    may be before or after the backup; and a new turn has begun whose goroutine starts etcd
    as the only member with [--force-new-cluster]. *)
Theorem reseed_rebuilds_node env task node cmd before e h tr0 x x1 w0 tr x2 wk w x3 :
  disk_ok env →
  xruns env task (harness_begin e (mkHarness node cmd before 0 false) h) tr0 x →
  x_pc x = HSelect → xstep env task (MHarness ReseedRequest) x = Some (Goes x1, w0) →
  xruns env task x1 tr x2 → harness_moves tr = 4 → xstep env task (MHarness wk) x2 = Some (Goes x3, w) →
  harness_events (tr ++ [(MHarness wk, w)]) = reseed_work ∧
  ∃ rs r rs' r', x_runs x = rs ++ [r] ∧ length rs' = length rs ∧
    x_runs x3 = (rs' ++ [r']) ++ [mkRun (single_command node) RunNew WaitNone false false] ∧
    r_cmd r' = r_cmd r ∧ killClosed r' = true ∧ Forall released rs' ∧ x_pc x3 = HFix ∧
    (r_pc r' = RunUp → shutdownClosed (x_exec x3) = false →
       ∃ x4, xstep env task (MRun (length rs')) x3 = Some (Goes x4, [EvFs "kill etcd"])) ∧
    ∃ x4, xstep env task (MRun (S (length rs'))) x3 = Some (Goes x4, [EvExec (single_command node)]).
Proof.
  intros Hd Hr0 Hpc Hs1 Hr Hk Hs3.
  pose proof (harness_ok_runs cmd node _ _ _ _ _ Hr0 (harness_ok_begin _ _ _ _ _)) as Hok.
  cbn [xstep] in Hs1. unfold harness_step in Hs1. rewrite Hpc in Hs1.
  pose proof (ho_node _ _ _ Hok) as Hnode. destruct (x_hs x) as [nd cm bf dl rd] eqn:Ehs. cbn in Hnode. subst nd.
  destruct (x_reseeds x) as [|n]; [done|].
  destruct (kill_current_goes cmd node HBackup x (set_reseeds n x) Hok ltac:(by rewrite Hpc) eq_refl)
    as (rs & r & Hrs & Hrel & _ & E). rewrite E in Hs1. injection Hs1 as <- <-.
  assert (H0 : reseed_phase node (rs ++ [close_kill r]) 0 []
                 (log [] (set_pc HBackup (set_runs (rs ++ [close_kill r]) (set_reseeds n x))))).
  { split; cbn; rewrite ?Ehs; try done; intros; lia. }
  pose proof (reseed_phase_run _ _ _ _ _ _ _ Hd Hr ltac:(lia) H0) as [P1 P2 P3 P4 P5]. rewrite Hk in *.
  destruct (P3 ltac:(lia)) as [Hcmd Hrd]. injection P1 as P1. cbn [xstep] in Hs3. unfold harness_step in Hs3.
  destruct (x_hs x2) as [nd cm2 bf2 dl2 rd2] eqn:Ehs2. cbn in P2, Hcmd, Hrd. subst nd cm2 rd2.
  rewrite <- P1 in Hs3. injection Hs3 as <- <-. split.
  { rewrite (proj2 (harness_moves_snoc _ _ _)), P5. done. }
  apply Forall2_app_inv_l in P4 as (rs' & l & Hle & (r' & l' & (Hc' & Hk' & _) & Hn & ->)%Forall2_cons_inv_l & Hx2).
  apply Forall2_nil_inv_l in Hn as ->. apply Forall_app in Hrel as [Hrel _].
  exists rs, r, rs', r'. cbn [x_runs log set_pc set_runs x_pc x_exec]. rewrite Hx2.
  split_and!; try done.
  - symmetry. by eapply Forall2_length.
  - by eapply released_le.
  - intros Hup Hsh. cbn [xstep]. unfold run_step. cbn [x_runs log set_pc set_runs x_exec].
    rewrite <- app_assoc, (lookup_app_r rs'), Nat.sub_diag by done. cbn [lookup list_lookup app mbind option_bind].
    rewrite Hup, Hk'. cbn. rewrite Hsh. by eexists.
  - cbn [xstep]. unfold run_step. cbn [x_runs log set_pc set_runs x_exec].
    rewrite (lookup_app_r (rs' ++ [r'])) by (rewrite length_app; cbn; lia).
    rewrite length_app, Nat.add_1_r, Nat.sub_diag. cbn. by eexists.
Qed.

(** The first turn starts the command that the prologue built. *)
Lemma first_turn_starts env task e hs h :
  hs_reseeding hs = false →
  ∃ x, xruns env task (harness_begin e hs h) [(MHarness ReseedRequest, []); (MRun 0, [EvExec (hs_cmd hs)])] x.
Proof.
  destruct hs as [node cmd before delay reseeding]. cbn [hs_reseeding hs_cmd]. intros ->. eexists.
  apply (xruns_snoc _ _ _ [(MHarness ReseedRequest, [])] (set_pc HSelect
    (set_runs [mkRun cmd RunNew WaitNone false false] (harness_begin e (mkHarness node cmd before delay false) h)))).
  - apply (xruns_snoc _ _ _ [] (harness_begin e (mkHarness node cmd before delay false) h)); [constructor|].
    unfold set_pc, set_runs, harness_begin. cbn. unfold goes, log. cbn. by rewrite app_nil_r.
  - reflexivity.
Qed.

(** *** The end of the executor *)




(** The loop keeps its invariant in every interleaving: the back-off stays between 0 and 4
    seconds, the same node is run all along, with the first command until a reseed and as a
    single node from then on, and every turn but the present one has been told to die or
    its process has ended. *)
Theorem harness_invariant env task node cmd before e h tr x :
  xruns env task (harness_begin e (mkHarness node cmd before 0 false) h) tr x → harness_ok cmd node x.
Proof. intros Hr. by apply (harness_ok_runs _ _ _ _ _ _ _ Hr), harness_ok_begin. Qed.

(** ** Executable runs *)

Fixpoint xexec (env : Env) (task : string) (ms : list move) (x : Exec) : option (list (move * list Event) * Exec) :=
  match ms with
  | [] => Some ([], x)
  | m :: ms =>
      match xstep env task m x with
      | Some (Goes x', w) => r ← xexec env task ms x'; Some ((m, w) :: r.1, r.2)
      | _ => None
      end
  end.

Lemma xruns_app env task x tr1 y tr2 z :
  xruns env task x tr1 y → xruns env task y tr2 z → xruns env task x (tr1 ++ tr2) z.
Proof.
  intros H1. induction 1 as [|y tr y1 m w y2 H2 IH Hs]; [by rewrite app_nil_r|].
  rewrite app_assoc. by eapply xruns_snoc; [apply IH|].
Qed.

Lemma xexec_runs env task ms x tr x' : xexec env task ms x = Some (tr, x') → xruns env task x tr x'.
Proof.
  revert x tr. induction ms as [|m ms IH]; intros x tr; cbn [xexec]; [intros [= <- <-]; constructor|].
  destruct (xstep env task m x) as [[[x1| |] w]|] eqn:E; try done.
  destruct (xexec env task ms x1) as [[tr1 x2]|] eqn:E1; [|done]. cbn [mbind option_bind fst snd].
  intros [= <- <-]. apply (xruns_app _ _ _ [(m, w)] x1); [|by apply IH].
  apply (xruns_snoc _ _ _ [] x); [constructor|done].
Qed.

(** The executor of one node, and where some moves lead to. *)
Definition harness1 : Exec := harness_begin (New second) (mkHarness node1 "./etcd" 0 0 false) [].
Definition xafter (env : Env) (x : Exec) (ms : list move) : Exec :=
  match xexec env "t" ms x with Some (_, x) => x | None => harness1 end.
Definition xtrace (env : Env) (x : Exec) (ms : list move) : list (move * list Event) :=
  match xexec env "t" ms x with Some (tr, _) => tr | None => [] end.
Definition xenabled (env : Env) (x : Exec) (ms : list move) : bool :=
  match xexec env "t" ms x with Some _ => true | None => false end.

Lemma xafter_runs env x ms : xenabled env x ms = true → xruns env "t" x (xtrace env x ms) (xafter env x ms).
Proof.
  unfold xenabled, xtrace, xafter. destruct (xexec env "t" ms x) as [[tr x']|] eqn:E; [|done].
  intros _. by eapply xexec_runs.
Qed.

Definition loop : move := MHarness ReseedRequest.

(** etcd runs and a reseed request is queued; the loop receives it; the loop works, and the
    old process is killed after the backup. *)
Definition asked : Exec := xafter quiet_env harness1 [loop; MRun 0; MReseed].
Definition received : Exec := xafter quiet_env asked [loop].
Definition rebuilt_moves : list move := [loop; loop; MRun 0; loop; loop].
Definition rebuilt : Exec := xafter quiet_env received rebuilt_moves.

Lemma reseed_rebuilds_node_witness :
  x_hist (xafter quiet_env rebuilt [loop; MRun 1]) =
    [EvExec "./etcd"; EvExec backup_command; EvFs "remove ./etcd_data"; EvFs "kill etcd";
     EvFs "rename ./etcd_backup ./etcd_data"; EvExec (single_command node1)] ∧
  harness_events (xtrace quiet_env received rebuilt_moves ++ [(loop, [])]) = reseed_work.
Proof.
  split; [by_compute|].
  apply (reseed_rebuilds_node quiet_env "t" node1 "./etcd" 0 (New second) []
    (xtrace quiet_env harness1 [loop; MRun 0; MReseed]) asked received []
    (xtrace quiet_env received rebuilt_moves) rebuilt ReseedRequest [] (xafter quiet_env rebuilt [loop])).
  - by split.
  - apply (xafter_runs quiet_env harness1). by_compute.
  - by_compute.
  - by_compute.
  - apply xafter_runs. by_compute.
  - by_compute.
  - by_compute.
Defined.

(** ** Where the code falls short *)

(** The kill is not awaited: the backup may be taken, the data directory replaced and etcd
    started again while the old process still runs. *)
Lemma reseed_beside_old_process :
  x_hist (xafter quiet_env received [loop; loop; loop; loop; loop; MRun 1; MRun 0]) =
    [EvExec "./etcd"; EvExec backup_command; EvFs "remove ./etcd_data";
     EvFs "rename ./etcd_backup ./etcd_data"; EvExec (single_command node1); EvFs "kill etcd"].
Proof. by_compute. Qed.

(** A world in which commands fail and long ago is always past. *)
Definition broken_env : Env := {|
  env_http := env_http quiet_env;
  env_etcd_sync := env_etcd_sync quiet_env;
  env_etcd_get := env_etcd_get quiet_env;
  env_zk_connect := env_zk_connect quiet_env;
  env_zk_create := env_zk_create quiet_env;
  env_zk_set := env_zk_set quiet_env;
  env_zk_get := env_zk_get quiet_env;
  env_zk_delete := env_zk_delete quiet_env;
  env_zk_children := env_zk_children quiet_env;
  env_reconcile := env_reconcile quiet_env;
  env_status := env_status quiet_env;
  env_exec _ cmd := if bool_decide (cmd = "./etcd") then None else Some (ErrOs "exit status 1");
  env_fs := env_fs quiet_env;
  env_clock _ := (1000 * second)%Z;
  env_net := env_net quiet_env;
  env_range := env_range quiet_env;
  env_range_perm := env_range_perm quiet_env;
|}.

(** A failed backup does not stop the reseed.  The data directory is left alone and the task
    is reported failed, but the loop goes on and etcd is started with
    [--force-new-cluster] on the old data. *)
Lemma reseed_after_failed_backup :
  x_hist (xafter broken_env harness1 [loop; MRun 0; MReseed; loop; MRun 0; loop; loop; loop; loop; MRun 1]) =
    [EvExec "./etcd"; EvFs "kill etcd"; EvExec backup_command; EvStatus "t" TASK_FAILED; EvAbort;
     EvExec (single_command node1)].
Proof. by_compute. Qed.




(** After a shutdown the loop goes round: etcd is started again before the goroutine of the
    turn before exits the executor, and no one kills that process. *)
Lemma etcd_started_after_shutdown :
  let x := xafter quiet_env harness1 [loop; MRun 0; MKillTask; MHarness ShutdownClosed; loop; MRun 1] in
  x_hist x = [EvExec "./etcd"; EvExec "./etcd"] ∧
  xstep quiet_env "t" (MRun 0) x = Some (Exited, [EvFs "kill etcd"]).
Proof. split; by_compute. Qed.

(** ** Concrete instances *)

Lemma command_argv_witness :
  Fields (default "" (match command [node1] with Ok c => Some c | Err _ => None end)
            +:+ " " +:+ "--force-new-cluster")
  = etcd_argv node1 [node1] "--force-new-cluster".
Proof. apply (command_argv node1 [] "--force-new-cluster"); [by repeat constructor|done..]. Defined.
