(* ===== verification/ExecDriver.v ===== *)
(** * The Mesos executor driver (mesos-go/executor, vendored)

    executor.go: the driver that stands between the slave and the executor.
    Every handler and every call holds the driver's lock throughout and is one
    section; a callback of the executor is a goroutine of its own, so callbacks run one
    at a time but in any order.  The recovery timer is a goroutine that can
    run only while its timer is not stopped. *)

From Stdlib Require Import Ascii.
From stdpp Require Import base strings list gmap.
From S2P Require Import Prelude GoStd Errors Upid Mesos World Goroutine Threads.

Definition defaultRecoveryTimeout : Z := 15 * 60 * second.

(** What [os.Getenv] finds; an unset variable is empty. *)
Definition Environ : Type := string → string.

(** The driver's state.  [stopCh] and [started] are whether the channel is
    closed; a UUID is its text, the empty one before the first registration; the
    updates are under the UUID and the tasks under the task's identifier.  The
    recovery timer is a number; [ed_timerStopped] are the stopped ones and [ed_timers] counts them. *)
Record ExecDriver := mkExecDriver {
  ed_self : option UPID;
  ed_stopCh : bool;
  ed_status : DriverStatus;
  ed_slaveUPID : option UPID;
  ed_slaveID : string;
  ed_frameworkID : string;
  ed_executorID : string;
  ed_workDir : string;
  ed_connected : bool;
  ed_connection : string;
  ed_local : bool;
  ed_checkpoint : bool;
  ed_recoveryTimeout : Z;
  ed_recoveryTimer : option nat;
  ed_timerStopped : gset nat;
  ed_timers : nat;
  ed_updates : gmap string TaskUpdate;
  ed_tasks : gmap string TaskInfo;
  ed_started : bool;
}.

Definition with_self (v : option UPID) (d : ExecDriver) : ExecDriver :=
  let 'mkExecDriver _ sc st su si fi ei wd co cn lo ck rt rm ts tn up ta sa := d in
  mkExecDriver v sc st su si fi ei wd co cn lo ck rt rm ts tn up ta sa.
Definition with_stopCh (v : bool) (d : ExecDriver) : ExecDriver :=
  let 'mkExecDriver se _ st su si fi ei wd co cn lo ck rt rm ts tn up ta sa := d in
  mkExecDriver se v st su si fi ei wd co cn lo ck rt rm ts tn up ta sa.
Definition with_status (v : DriverStatus) (d : ExecDriver) : ExecDriver :=
  let 'mkExecDriver se sc _ su si fi ei wd co cn lo ck rt rm ts tn up ta sa := d in
  mkExecDriver se sc v su si fi ei wd co cn lo ck rt rm ts tn up ta sa.
Definition with_slaveUPID (v : option UPID) (d : ExecDriver) : ExecDriver :=
  let 'mkExecDriver se sc st _ si fi ei wd co cn lo ck rt rm ts tn up ta sa := d in
  mkExecDriver se sc st v si fi ei wd co cn lo ck rt rm ts tn up ta sa.
Definition with_environment (si fi ei wd : string) (lo ck : bool) (d : ExecDriver) : ExecDriver :=
  let 'mkExecDriver se sc st su _ _ _ _ co cn _ _ rt rm ts tn up ta sa := d in
  mkExecDriver se sc st su si fi ei wd co cn lo ck rt rm ts tn up ta sa.
Definition with_connected (v : bool) (d : ExecDriver) : ExecDriver :=
  let 'mkExecDriver se sc st su si fi ei wd _ cn lo ck rt rm ts tn up ta sa := d in
  mkExecDriver se sc st su si fi ei wd v cn lo ck rt rm ts tn up ta sa.
Definition with_connection (v : string) (d : ExecDriver) : ExecDriver :=
  let 'mkExecDriver se sc st su si fi ei wd co _ lo ck rt rm ts tn up ta sa := d in
  mkExecDriver se sc st su si fi ei wd co v lo ck rt rm ts tn up ta sa.
Definition with_updates (v : gmap string TaskUpdate) (d : ExecDriver) : ExecDriver :=
  let 'mkExecDriver se sc st su si fi ei wd co cn lo ck rt rm ts tn _ ta sa := d in
  mkExecDriver se sc st su si fi ei wd co cn lo ck rt rm ts tn v ta sa.
Definition with_tasks (v : gmap string TaskInfo) (d : ExecDriver) : ExecDriver :=
  let 'mkExecDriver se sc st su si fi ei wd co cn lo ck rt rm ts tn up _ sa := d in
  mkExecDriver se sc st su si fi ei wd co cn lo ck rt rm ts tn up v sa.
Definition with_started (v : bool) (d : ExecDriver) : ExecDriver :=
  let 'mkExecDriver se sc st su si fi ei wd co cn lo ck rt rm ts tn up ta _ := d in
  mkExecDriver se sc st su si fi ei wd co cn lo ck rt rm ts tn up ta v.

(** The old timer is stopped and a new one is started. *)
Definition with_newTimer (d : ExecDriver) : ExecDriver :=
  let 'mkExecDriver se sc st su si fi ei wd co cn lo ck rt rm ts tn up ta sa := d in
  mkExecDriver se sc st su si fi ei wd co cn lo ck rt (Some tn)
    (match rm with Some n => {[n]} ∪ ts | None => ts end) (S tn) up ta sa.

Inductive ExecGo :=
  | GoCallback (cb : ExecCall)
  | GoRecovery (timer : nat) (session : string).

Abbreviation EC := (crit ExecDriver ExecGo).
Abbreviation EP := (proc ExecDriver ExecGo).
Abbreviation answer := (DriverStatus * option error)%type.

(** ** Construction *)

Definition blank_driver : ExecDriver :=
  mkExecDriver None false DRIVER_NOT_STARTED None "" "" "" "." false "" false false defaultRecoveryTimeout
    None ∅ 0 ∅ ∅ false.

Definition parseEnviroments (resolve : string → option error) (getenv : Environ) (d : ExecDriver)
    : result ExecDriver :=
  if bool_decide (getenv "MESOS_SLAVE_PID" = "")
  then Err (ErrNew "Cannot find MESOS_SLAVE_PID in the environment")
  else match Parse resolve (getenv "MESOS_SLAVE_PID") with
  | Err e => Err e
  | Ok pid =>
      Ok (with_environment (getenv "MESOS_SLAVE_ID") (getenv "MESOS_FRAMEWORK_ID") (getenv "MESOS_EXECUTOR_ID")
            (if bool_decide (getenv "MESOS_DIRECTORY" = "") then ed_workDir d else getenv "MESOS_DIRECTORY")
            (ed_local d || negb (bool_decide (getenv "MESOS_LOCAL" = "")))
            (ed_checkpoint d || bool_decide (getenv "MESOS_CHECKPOINT" = "1"))
            (with_slaveUPID (Some pid) d))
  end.

(** [NewMesosExecutorDriver], given whether there is an executor and the error of the messenger. *)
Definition NewMesosExecutorDriver (executor : bool) (newMessenger : option error)
    (resolve : string → option error) (getenv : Environ) : result ExecDriver :=
  if negb executor then Err (ErrNew "Executor callback interface cannot be nil.")
  else match newMessenger with
  | Some e => Err e
  | None => parseEnviroments resolve getenv blank_driver
  end.

(** ** Sections *)

Definition send (to : option UPID) (m : Message) : EC (option error) :=
  match to with
  | None => crash
  | Some _ => lift_io (act (EvSend to m) (λ env h, net_send (env_net env) h to m))
  end.

Definition withExecutor (cb : ExecCall) : EC unit := spawn (GoCallback cb).

Definition new_uuid : EC string := lift_io (ask (λ env h, net_uuid (env_net env) h)).

Definition Status (d : ExecDriver) : DriverStatus := ed_status d.
Definition Running (d : ExecDriver) : bool := bool_decide (ed_status d = DRIVER_RUNNING).
Definition stopped (d : ExecDriver) : bool := negb (bool_decide (ed_status d = DRIVER_RUNNING)).
Definition Connected (d : ExecDriver) : bool := ed_connected d.
Definition aborted (d : ExecDriver) : bool := bool_decide (ed_status d = DRIVER_ABORTED).

Definition unable (d : ExecDriver) : EC answer :=
  mret (ed_status d, Some (ErrDriver "unexpected driver status")).

(** ** Starting and stopping *)

(** [_stop]: [stopCh] is closed once. *)
Definition stop_with (stopStatus : DriverStatus) : EC (option error) :=
  err ← lift_io (act EvMessengerStop (λ env h, net_stop (env_net env) h));
  _ ← modify (λ d, with_stopCh true (with_status stopStatus d));
  mret err.

Definition stop : EC answer :=
  d ← get_state;
  if stopped d then unable d else err ← stop_with DRIVER_STOPPED; mret (DRIVER_STOPPED, err).

Definition Stop : EC answer := stop.

Definition abort : EC answer :=
  d ← get_state;
  if stopped d then unable d else err ← stop_with DRIVER_ABORTED; mret (DRIVER_ABORTED, err).

Definition Abort : EC answer := abort.

(** A registration that cannot be sent stops the messenger and closes [stopCh], and
    leaves the status as it is. *)
Definition start : EC answer :=
  d ← get_state;
  if negb (bool_decide (ed_status d = DRIVER_NOT_STARTED)) then unable d
  else
    r ← lift_io (act EvMessengerStart (λ env h, net_start (env_net env) h));
    match r with
    | Err e => mret (ed_status d, Some e)
    | Ok pid =>
        _ ← modify (with_self (Some pid));
        err ← send (ed_slaveUPID d) (RegisterExecutorMessage (ed_frameworkID d) (ed_executorID d));
        match err with
        | Some e =>
            err0 ← stop_with (ed_status d);
            mret (ed_status d, Some (default e err0))
        | None =>
            _ ← modify (λ d, with_started true (with_status DRIVER_RUNNING d));
            mret (DRIVER_RUNNING, None)
        end
    end.

Definition Start : EC answer := start.

(** [join] waits for the closing of [stopCh], with the lock released. *)
Definition wait_stop : EC answer := λ env h d,
  if ed_stopCh d then Done (ed_status d, None) d [] [] else Blocked.

(** The first look at the channel is in the same section as the check of the status. *)
Definition join_check : EC (option answer) :=
  d ← get_state;
  if stopped d then a ← unable d; mret (Some a)
  else if ed_stopCh d then mret (Some (ed_status d, None))
  else mret None.

Definition Join : EP answer :=
  r ← atomic join_check;
  match r with Some a => mret a | None => atomic wait_stop end.

Definition Run : EP answer :=
  r ← atomic (r ← start;
              match r.2 with
              | Some _ => a ← stop; mret (Some a)
              | None => join_check
              end);
  match r with Some a => mret a | None => atomic wait_stop end.

(** ** Message handlers *)

(** The end of a driver that has lost its slave. *)
Definition slave_exited : EC unit :=
  _ ← withExecutor EcShutdown;
  _ ← abort;
  mret tt.

(** The driver is disconnected before the session is compared. *)
Definition networkError (session : string) : EC unit :=
  d ← get_state;
  if aborted d then mret tt
  else if ed_connected d then
    _ ← modify (with_connected false);
    if negb (bool_decide (session = ed_connection d)) then mret tt
    else if ed_checkpoint d then
      _ ← withExecutor EcDisconnected;
      _ ← modify with_newTimer;
      spawn (GoRecovery (ed_timers d) session)
    else slave_exited
  else slave_exited.

Definition shutdown : EC unit :=
  d ← get_state;
  if aborted d then mret tt
  else if stopped d then mret tt
  else
    _ ← withExecutor EcShutdown;
    _ ← stop;
    mret tt.

Definition recoveryTimedOut (connection : string) : EC unit :=
  d ← get_state;
  if ed_connected d then mret tt
  else if bool_decide (connection = ed_connection d) then shutdown
  else mret tt.

(** The two registration handlers differ in the callback. *)
Definition connect (cb : ExecCall) : EC unit :=
  d ← get_state;
  if aborted d then mret tt
  else if stopped d then mret tt
  else
    uuid ← new_uuid;
    _ ← modify (λ d, with_connection uuid (with_connected true d));
    withExecutor cb.

Definition registered : EC unit := connect EcRegistered.
Definition reregistered : EC unit := connect EcReregistered.

(** The updates and the tasks in the order in which the maps are iterated. *)
Definition reconnect (from : UPID) : EC unit :=
  d ← get_state;
  if aborted d then mret tt
  else if stopped d then mret tt
  else
    _ ← modify (with_slaveUPID (Some from));
    updates ← lift_io (range (ed_updates d));
    tasks ← lift_io (range (ed_tasks d));
    _ ← send (Some from) (ReregisterExecutorMessage (ed_executorID d) (ed_frameworkID d) updates.*2 tasks.*2);
    mret tt.

(** [log.Fatalf] on a task that is already there ends the process. *)
Definition runTask (task : TaskInfo) : EC unit :=
  d ← get_state;
  if aborted d then mret tt
  else if stopped d then mret tt
  else match ed_tasks d !! TaskTaskId task with
  | Some _ => crash
  | None =>
      _ ← modify (λ d, with_tasks (<[TaskTaskId task := task]> (ed_tasks d)) d);
      withExecutor (EcLaunchTask task)
  end.

(** A handler that only passes something on. *)
Definition pass_on (cb : ExecCall) : EC unit :=
  d ← get_state;
  if aborted d then mret tt else if stopped d then mret tt else withExecutor cb.

Definition killTask (taskId : string) : EC unit := pass_on (EcKillTask taskId).
Definition frameworkMessage (data : string) : EC unit := pass_on (EcFrameworkMessage data).

(** A stopped driver only logs that it ignores the message. *)
Definition statusUpdateAcknowledgement (taskId uuid : string) : EC unit :=
  d ← get_state;
  if aborted d then mret tt
  else modify (λ d, with_tasks (delete taskId (ed_tasks d)) (with_updates (delete uuid (ed_updates d)) d)).

Definition frameworkError (message : string) : EC unit :=
  d ← get_state;
  if aborted d then mret tt else withExecutor (EcError message).

(** ** Calls of the executor *)

Definition makeStatusUpdate (uuid : string) (taskStatus : TaskStatus) (d : ExecDriver) : TaskUpdate :=
  mkUpdate (Some (ed_frameworkID d)) (ed_executorID d) (ed_slaveID d)
    (mkStatus (StatusTaskId taskStatus) (StatusState taskStatus) (Some (ed_slaveID d))) "" uuid.

Definition SendStatusUpdate (taskStatus : TaskStatus) : EC answer :=
  d ← get_state;
  if stopped d then unable d
  else if bool_decide (StatusState taskStatus = TASK_STAGING) then
    _ ← stop_with DRIVER_ABORTED;
    mret (DRIVER_ABORTED, Some (ErrNew "Executor is not allowed to send TASK_STAGING status update. Aborting!"))
  else
    uuid ← new_uuid;
    let update := makeStatusUpdate uuid taskStatus d in
    _ ← modify (λ d, with_updates (<[uuid := update]> (ed_updates d)) d);
    match ed_self d with
    | None => crash
    | Some self =>
        err ← send (ed_slaveUPID d) (StatusUpdateMessage update (PidString self));
        mret (ed_status d, err)
    end.

Definition SendFrameworkMessage (data : string) : EC answer :=
  d ← get_state;
  if stopped d then unable d
  else
    err ← send (ed_slaveUPID d)
            (ExecutorToFrameworkMessage (ed_slaveID d) (ed_frameworkID d) (ed_executorID d) data);
    mret (ed_status d, err).

(** ** Goroutines *)

(** The timer expires unless it was stopped before. *)
Definition expire (timer : nat) : EC unit := λ env h d,
  if bool_decide (timer ∈ ed_timerStopped d) then Blocked else Done tt d [] [].

Definition exec_go (fuel : nat) (g : ExecGo) : EP unit :=
  match g with
  | GoCallback cb => atomic (emit_event (EvExecutor cb))
  | GoRecovery timer session => _ ← atomic (expire timer); atomic (recoveryTimedOut session)
  end.

(** ** What reaches the driver *)

Inductive Input :=
  | InNetworkError (session : string)
  | InRegistered | InReregistered
  | InReconnect (from : UPID)
  | InRunTask (task : TaskInfo)
  | InKillTask (taskId : string)
  | InAcknowledgement (taskId uuid : string)
  | InFrameworkMessage (data : string)
  | InShutdown
  | InFrameworkError (message : string)
  | CallStart | CallRun | CallJoin | CallStop | CallAbort
  | CallStatusUpdate (status : TaskStatus)
  | CallFrameworkMessage (data : string).

Definition input (i : Input) : EP unit :=
  match i with
  | InNetworkError session => atomic (networkError session)
  | InRegistered => atomic registered
  | InReregistered => atomic reregistered
  | InReconnect from => atomic (reconnect from)
  | InRunTask task => atomic (runTask task)
  | InKillTask id => atomic (killTask id)
  | InAcknowledgement id uuid => atomic (statusUpdateAcknowledgement id uuid)
  | InFrameworkMessage data => atomic (frameworkMessage data)
  | InShutdown => atomic shutdown
  | InFrameworkError m => atomic (frameworkError m)
  | CallStart => ignore (atomic Start)
  | CallRun => ignore Run
  | CallJoin => ignore Join
  | CallStop => ignore (atomic Stop)
  | CallAbort => ignore (atomic Abort)
  | CallStatusUpdate st => ignore (atomic (SendStatusUpdate st))
  | CallFrameworkMessage data => ignore (atomic (SendFrameworkMessage data))
  end.

(** [init] installs the ten handlers; nothing is asked of what arrives. *)
Definition executor_driver : Component ExecDriver ExecGo Input := mkComponent input (λ _ _, true) exec_go.
