(* ===== verification/ExecDriverProps.v ===== *)
(** * What the executor driver guarantees

    The contract of the driver of ExecDriver.v in every interleaving, the fate
    of a status update that is not acknowledged, and what happens to the etcd
    executor when the slave goes away and comes back. *)

From Stdlib Require Import Ascii.
From stdpp Require Import base strings list gmap.
From S2P Require Import Prelude GoStd Errors Upid Mesos World Executor Goroutine Threads ExecDriver.

(** ** The contract *)

Definition erank (s : DriverStatus) : nat :=
  match s with DRIVER_NOT_STARTED => 0 | DRIVER_RUNNING => 1 | _ => 2 end.

Record einv (d : ExecDriver) : Prop := {
  ei_slave : ed_slaveUPID d ≠ None;
  ei_self : ed_status d ≠ DRIVER_NOT_STARTED → ed_self d ≠ None;
  ei_started : ed_started d = true ↔ ed_status d ≠ DRIVER_NOT_STARTED;
  ei_connected : ed_connected d = true → ed_status d ≠ DRIVER_NOT_STARTED;
  ei_stopped : erank (ed_status d) = 2 → ed_stopCh d = true;
  ei_updates k u : ed_updates d !! k = Some u →
    UpdUuid u = k ∧ StatusState (UpdStatus u) ≠ TASK_STAGING ∧
    UpdFrameworkId u = Some (ed_frameworkID d) ∧ UpdExecutorId u = ed_executorID d ∧
    StatusSlaveId (UpdStatus u) = Some (ed_slaveID d);
  ei_tasks k t : ed_tasks d !! k = Some t → TaskTaskId t = k;
  ei_timer n : n < ed_timers d → n ∈ ed_timerStopped d ∨ ed_recoveryTimer d = Some n;
}.

(** What never changes back: a status that is final stays, and the identity given by
    the environment. *)
Record emono (d d' : ExecDriver) : Prop := {
  em_rank : erank (ed_status d) ≤ erank (ed_status d');
  em_final : erank (ed_status d) = 2 → ed_status d' = ed_status d;
  em_stop : ed_stopCh d = true → ed_stopCh d' = true;
  em_ids : ed_slaveID d' = ed_slaveID d ∧ ed_frameworkID d' = ed_frameworkID d ∧
           ed_executorID d' = ed_executorID d ∧ ed_checkpoint d' = ed_checkpoint d;
}.

#[export] Instance emono_preorder : PreOrder emono.
Proof.
  split.
  - intros d. by split.
  - intros d1 d2 d3 [Hr Hf Hs (?&?&?&?)] [Hr' Hf' Hs' (?&?&?&?)]. split; [lia| |auto|split_and!; congruence].
    intros Hend. rewrite Hf', Hf; [done..|]. by rewrite Hf.
Qed.

Definition is_send (e : Event) : bool := match e with EvSend _ _ => true | _ => false end.
Definition sends (h : list Event) : list Event := filter (λ e, is_send e = true) h.

(** A section of a stopped driver sends nothing; the process ends only where a task
    is there that was not acknowledged. *)
Definition executor_contract : Contract ExecDriver ExecGo := {|
  c_inv := einv;
  c_mono := emono;
  c_events d w := erank (ed_status d) = 2 → sends w = [];
  c_crash d := ed_tasks d ≠ ∅;
  c_go _ _ := True;
|}.

#[export] Instance executor_contract_laws : ContractLaws executor_contract.
Proof.
  split.
  - apply emono_preorder.
  - done.
  - cbn. intros d d' w w' Hw Hm Hw' Hr. unfold sends in *. rewrite filter_app, Hw, Hw'; [done| |done].
    by rewrite (em_final _ _ Hm).
Qed.

(** The obligations of a section that has been executed. *)
Ltac eowe d :=
  destruct d; unfold owes, executor_contract, stopped, aborted in *; cbn in *;
  repeat match goal with
  | H : bool_decide _ = true |- _ => apply bool_decide_eq_true in H
  | H : bool_decide _ = false |- _ => apply bool_decide_eq_false in H
  | H : negb _ = true |- _ => apply negb_true_iff in H
  | H : negb _ = false |- _ => apply negb_false_iff in H
  | H : einv _ |- _ => destruct H; cbn in *
  end; simplify_eq/=.

Ltac eowe_done :=
  repeat match goal with
  | |- _ ∧ _ => split
  | |- einv _ => constructor; cbn
  | |- emono _ _ => constructor; cbn
  | |- Forall _ [] => apply Forall_nil
  | |- Forall _ (_ :: _) => apply Forall_cons
  end; cbn; try done; try (intros; intuition (congruence || lia)).

Section Sections.
Context (env : Env).
Abbreviation section_ok := (section_ok executor_contract env).
Abbreviation esafe := (tsafe executor_contract env).

Lemma exec_wp_send to m h d (K : Prop) (Q : option error → ExecDriver → list Event → list ExecGo → Prop) :
  to ≠ None → (∀ err, Q err d [EvSend to m] []) → wp env (send to m) h d K Q.
Proof. destruct to; [|done]. intros _ HQ. apply HQ. Qed.

Ltac ewp_step :=
  lazymatch goal with
  | |- wp _ (send _ _) _ _ _ _ => apply exec_wp_send; [|intros]
  | _ => wp_step
  end.

Ltac run_section d := repeat ewp_step; try done; eowe d; eowe_done.

Lemma exec_stop_ok : section_ok stop (λ _, True) always.
Proof. intros h d Hd _. unfold stop, stop_with, unable. run_section d. Qed.

Lemma exec_abort_ok : section_ok abort (λ _, True) always.
Proof. intros h d Hd _. unfold abort, stop_with, unable. run_section d. Qed.

Lemma exec_start_ok : section_ok start (λ _, True) always.
Proof. intros h d Hd _. unfold start, stop_with, unable. run_section d. Qed.

Lemma join_check_ok : section_ok join_check (λ _, True) always.
Proof. intros h d Hd _. unfold join_check, unable. run_section d. Qed.

Lemma exec_Run_start_ok :
  section_ok (r ← start; match r.2 with Some _ => a ← stop; mret (Some a) | None => join_check end)
    (λ _, True) always.
Proof.
  intros h d Hd _. unfold start, stop, stop_with, join_check, unable.
  repeat (ewp_step; cbn [fst snd]); eowe d; eowe_done.
Qed.

Lemma wait_stop_ok : section_ok wait_stop (λ _, True) always.
Proof. intros h d Hd _. unfold wp, wait_stop. destruct (ed_stopCh d); [by split_and!|done]. Qed.

Lemma networkError_ok session : section_ok (networkError session) (λ _, True) always.
Proof.
  intros h d Hd _. unfold networkError, slave_exited, abort, stop_with, withExecutor, unable. run_section d.
  intros n Hn. destruct (decide (n = ed_timers)) as [->|]; [by right|left].
  destruct (ei_timer0 n) as [Hs|Hs]; [lia| |].
  - destruct ed_recoveryTimer; set_solver.
  - rewrite Hs. set_solver.
Qed.

Lemma shutdown_ok : section_ok shutdown (λ _, True) always.
Proof. intros h d Hd _. unfold shutdown, stop, stop_with, withExecutor, unable. run_section d. Qed.

Lemma recoveryTimedOut_ok session : section_ok (recoveryTimedOut session) (λ _, True) always.
Proof.
  intros h d Hd _. unfold recoveryTimedOut. apply wp_get_bind.
  destruct (ed_connected d); [by split_and!|]. case_bool_decide; [|by split_and!]. by apply shutdown_ok.
Qed.

Lemma connect_ok cb : section_ok (connect cb) (λ _, True) always.
Proof. intros h d Hd _. unfold connect, new_uuid, withExecutor. run_section d. Qed.

Lemma reconnect_ok from : section_ok (reconnect from) (λ _, True) always.
Proof. intros h d Hd _. unfold reconnect. run_section d. Qed.

Lemma pass_on_ok cb : section_ok (pass_on cb) (λ _, True) always.
Proof. intros h d Hd _. unfold pass_on, withExecutor. run_section d. Qed.

Lemma frameworkError_ok m : section_ok (frameworkError m) (λ _, True) always.
Proof. intros h d Hd _. unfold frameworkError, withExecutor. run_section d. Qed.

Lemma exec_SendFrameworkMessage_ok data : section_ok (SendFrameworkMessage data) (λ _, True) always.
Proof. intros h d Hd _. unfold SendFrameworkMessage, unable. run_section d. Qed.

Lemma runTask_ok task : section_ok (runTask task) (λ _, True) always.
Proof.
  intros h d Hd _. unfold runTask, withExecutor. run_section d.
  - intros ->. by rewrite lookup_empty in *.
  - intros k t [[<- <-]|[_ Hk]]%lookup_insert_Some; [done|by apply ei_tasks0].
Qed.

Lemma acknowledgement_ok id uuid : section_ok (statusUpdateAcknowledgement id uuid) (λ _, True) always.
Proof.
  intros h d Hd _. unfold statusUpdateAcknowledgement. run_section d.
  - intros k u [_ Hk]%lookup_delete_Some. by apply ei_updates0.
  - intros k t [_ Hk]%lookup_delete_Some. by apply ei_tasks0.
Qed.

Lemma SendStatusUpdate_ok st : section_ok (SendStatusUpdate st) (λ _, True) always.
Proof.
  intros h d Hd _. unfold SendStatusUpdate, stop_with, unable, new_uuid. run_section d.
  all: intros k upd [[<- <-]|[_ Hk]]%lookup_insert_Some; [done|by apply ei_updates0].
Qed.

Lemma expire_ok n : section_ok (expire n) (λ _, True) always.
Proof. intros h d Hd _. unfold wp, expire. case_bool_decide; [done|by split_and!]. Qed.

Lemma callback_ok cb : section_ok (emit_event (EvExecutor cb)) (λ _, True) always.
Proof. intros h d Hd _. by split_and!. Qed.

(** ** Threads *)

Lemma exec_Join_safe d : esafe Join always d.
Proof.
  apply tsafe_then; [apply join_check_ok|]. intros [a|] d'; [done|]. apply tsafe_section, wait_stop_ok.
Qed.

Lemma exec_Run_safe d : esafe Run always d.
Proof.
  apply tsafe_then; [apply exec_Run_start_ok|]. intros [a|] d'; [done|]. apply tsafe_section, wait_stop_ok.
Qed.

Lemma exec_go_safe fuel g d : esafe (exec_go fuel g) always d.
Proof.
  destruct g; cbn [exec_go].
  - apply tsafe_section, callback_ok.
  - apply tsafe_then; [apply expire_ok|]. intros _ d'. apply tsafe_section, recoveryTimedOut_ok.
Qed.

Lemma exec_input_safe i d : esafe (input i) always d.
Proof.
  destruct i; cbn [input];
    try (apply tsafe_section;
         first [apply networkError_ok|apply connect_ok|apply reconnect_ok|apply runTask_ok|apply pass_on_ok
               |apply acknowledgement_ok|apply shutdown_ok|apply frameworkError_ok]; fail);
    try (apply tsafe_ignore, tsafe_section;
         first [apply exec_start_ok|apply exec_stop_ok|apply exec_abort_ok|apply SendStatusUpdate_ok
               |apply exec_SendFrameworkMessage_ok]).
  - apply tsafe_ignore, exec_Run_safe.
  - apply tsafe_ignore, exec_Join_safe.
Qed.
End Sections.

(** ** The system *)

Abbreviation ESystem := (TSystem ExecDriver ExecGo).
Abbreviation es_runs := (t_runs executor_driver).
Abbreviation es_moves := (t_moves executor_driver).
Abbreviation es_inv env := (t_inv env executor_contract).

(** The states reached from a new driver. *)
Definition es_reach (env : Env) (sys : ESystem) : Prop :=
  ∃ getenv d, NewMesosExecutorDriver true None (net_resolve (env_net env)) getenv = Ok d ∧
    es_runs env (mkTSystem d [] []) sys.

Lemma es_runs_inv env sys sys' :
  es_inv env sys → es_runs env sys sys' → keeps_contract env executor_contract sys sys'.
Proof.
  apply (t_runs_inv executor_driver env executor_contract); intros; [apply exec_go_safe|apply exec_input_safe].
Qed.

Lemma exec_new_driver_inv env resolve getenv d :
  NewMesosExecutorDriver true None resolve getenv = Ok d → es_inv env (mkTSystem d [] []).
Proof.
  cbn. unfold parseEnviroments. intros Hn. repeat case_match; simplify_eq/=;
    (split; [|done]); constructor; cbn; try done; try (intros; lia).
Qed.

Lemma es_reach_inv env sys : es_reach env sys → es_inv env sys.
Proof.
  intros (getenv & d & Hn & Hr). by destruct (es_runs_inv _ _ _ (exec_new_driver_inv env _ _ _ Hn) Hr).
Qed.

(** ** Every interleaving *)

(** C20: In every state that a new executor driver can reach, whatever arrives and in
    whatever order the threads run: the slave's process is known; a driver past its start
    has an identifier of its own and was started; a stopped or aborted
    one has closed its stop channel; every update kept for the slave is filed
    under its own UUID, is not TASK_STAGING and carries the identity of
    this executor; every task is filed under its identifier; and at most one
    recovery timer is running. *)
Theorem executor_driver_invariant env sys : es_reach env sys → einv (ts_state sys).
Proof. intros Hr. apply (es_reach_inv _ _ Hr). Qed.

(** A stopped or aborted executor driver stays what it is in every run, and sends
    nothing any more: no message follows the ones that were sent before. *)
Theorem executor_driver_final env sys sys' :
  es_reach env sys → erank (ed_status (ts_state sys)) = 2 → es_runs env sys sys' →
  ed_status (ts_state sys') = ed_status (ts_state sys) ∧ sends (ts_hist sys') = sends (ts_hist sys).
Proof.
  intros Hr Hf Hs. destruct (es_runs_inv _ _ _ (es_reach_inv _ _ Hr) Hs) as (_ & Hm & w & -> & Hw).
  split; [by apply (em_final _ _ Hm)|]. unfold sends in *. rewrite filter_app, Hw by done. apply app_nil_r.
Qed.

(** ** Examples *)

Definition test_env_vars : Environ := λ v,
  if bool_decide (v = "MESOS_SLAVE_PID") then "slave(1)@10.0.0.9:5051"
  else if bool_decide (v = "MESOS_SLAVE_ID") then "s-1"
  else if bool_decide (v = "MESOS_FRAMEWORK_ID") then "fw-1"
  else if bool_decide (v = "MESOS_EXECUTOR_ID") then "etcd-1"
  else if bool_decide (v = "MESOS_CHECKPOINT") then "1" else "".

Definition test_slave : UPID := mkUPID "slave(1)" "10.0.0.9" "5051".
Definition test_driver : ExecDriver :=
  mkExecDriver None false DRIVER_NOT_STARTED (Some test_slave) "s-1" "fw-1" "etcd-1" "." false "" false true
    defaultRecoveryTimeout None ∅ 0 ∅ ∅ false.
Definition new_system : ESystem := mkTSystem test_driver [] [].

Lemma exec_new_system_reach sys : es_runs quiet_env new_system sys → es_reach quiet_env sys.
Proof. intros Hr. exists test_env_vars, test_driver. split; [vm_compute; reflexivity|exact Hr]. Qed.

Lemma exec_moves_reach fuel ms (P : ESystem → Prop) :
  match es_moves quiet_env fuel ms new_system with Some sys => P sys | None => False end →
  ∃ sys, es_moves quiet_env fuel ms new_system = Some sys ∧ es_reach quiet_env sys ∧ P sys.
Proof.
  intros (sys & Hm & Hr & HP)%t_moves_reach. exists sys. split_and!; [done| |done]. by apply exec_new_system_reach.
Qed.

(** Start and register; the callback runs. *)
Definition register_moves : list (Move Input) :=
  [MInput CallStart; MThread 0; MInput InRegistered; MThread 1; MThread 2].

(** Then a status update, and the end. *)
Definition end_moves : list (Move Input) :=
  register_moves ++ [MInput (CallStatusUpdate (mkStatus "t" TASK_RUNNING None)); MThread 3;
                     MInput InShutdown; MThread 4].

Lemma end_run :
  ∃ sys : ESystem, es_moves quiet_env 0 end_moves new_system = Some sys ∧ es_reach quiet_env sys ∧
    erank (ed_status (ts_state sys)) = 2 ∧ size (ed_updates (ts_state sys)) = 1.
Proof.
  apply (exec_moves_reach 0 end_moves (λ sys, erank (ed_status (ts_state sys)) = 2 ∧ size (ed_updates (ts_state sys)) = 1)).
  vm_compute. by split.
Qed.

Lemma executor_driver_invariant_witness :
  ∃ sys : ESystem, size (ed_updates (ts_state sys)) = 1 ∧ einv (ts_state sys).
Proof.
  destruct end_run as (sys & _ & Hr & _ & Hu). exists sys. split; [exact Hu|].
  exact (executor_driver_invariant quiet_env sys Hr).
Defined.

Lemma executor_driver_final_witness :
  ∃ sys sys' : ESystem, es_runs quiet_env sys sys' ∧ sends (ts_hist sys') = sends (ts_hist sys).
Proof.
  destruct end_run as (sys & _ & Hr & Hf & _). exists sys.
  destruct (es_moves quiet_env 0 [MInput (InReconnect test_slave)] sys) as [sys'|] eqn:Hm; [|discriminate].
  exists sys'. pose proof (t_moves_runs _ _ _ _ _ _ Hm) as Hs. split; [exact Hs|].
  exact (proj2 (executor_driver_final quiet_env sys sys' Hr Hf Hs)).
Defined.

(** ** Updates that are not acknowledged *)

(** The same driver, where no acknowledgement with the UUID [k] arrives. *)
Definition unacknowledged (k : string) : Component ExecDriver ExecGo Input :=
  mkComponent input
    (λ _ i, match i with InAcknowledgement _ uuid => negb (bool_decide (uuid = k)) | _ => true end) exec_go.

Lemma unacknowledged_runs k env sys sys' : t_runs (unacknowledged k) env sys sys' → es_runs env sys sys'.
Proof.
  intros Hr. induction Hr as [sys|s1 s2 s3 H12 H23 IH]; [constructor|]. eapply rtc_l; [|exact IH].
  destruct H12 as [s h ts i p p' s' w gs fuel Hi Hp|s h ts i Hl].
  - exact (t_thread executor_driver env s h ts i p p' s' w gs fuel Hi Hp).
  - by apply (t_input executor_driver env s h ts i).
Qed.

(** An update is kept under [k]. *)
Definition keeps_update (k : string) : Contract ExecDriver ExecGo := {|
  c_inv _ := True;
  c_mono d d' := is_Some (ed_updates d !! k) → is_Some (ed_updates d' !! k);
  c_events _ _ := True;
  c_crash _ := True;
  c_go _ _ := True;
|}.

#[export] Instance keeps_update_laws k : ContractLaws (keeps_update k).
Proof. split; [|done|done]. split; [intros d Hd; exact Hd|]. intros d1 d2 d3 H12 H23 H1. exact (H23 (H12 H1)). Qed.

Section KeepsUpdate.
Context (env : Env) (k : string).
Abbreviation kept c := (section_ok (keeps_update k) env c (λ _, True) always).
Abbreviation ksafe := (tsafe (keeps_update k) env).

Lemma kept_send to m h d (Q : option error → ExecDriver → list Event → list ExecGo → Prop) :
  (∀ err w, Q err d w []) → wp env (send to m) h d True Q.
Proof. destruct to; [|done]. intros HQ. apply HQ. Qed.

Ltac kwp_step :=
  lazymatch goal with
  | |- wp _ (send _ _) _ _ _ _ => apply kept_send; intros
  | _ => wp_step
  end.

(** A section that does not delete an update. *)
Ltac run_kept :=
  intros h d _ _; repeat (kwp_step; cbn [fst snd]);
  try done; unfold owes, keeps_update; cbn; split_and!; try done;
  try (destruct d; cbn; done); try (by apply Forall_forall); try (destruct d; cbn; by apply Forall_forall).

Lemma kept_insert uuid u (m : gmap string TaskUpdate) : is_Some (m !! k) → is_Some (<[uuid := u]> m !! k).
Proof.
  intros Hk. destruct (decide (uuid = k)) as [->|Hne]; [rewrite lookup_insert_eq; by eexists|].
  by rewrite lookup_insert_ne.
Qed.

Lemma SendStatusUpdate_kept st : kept (SendStatusUpdate st).
Proof.
  unfold SendStatusUpdate, stop_with, unable, new_uuid. run_kept.
  all: intros Hk; destruct d; by apply (kept_insert _ _ _ Hk).
Qed.

Lemma acknowledgement_kept id uuid :
  uuid ≠ k → kept (statusUpdateAcknowledgement id uuid).
Proof.
  intros Hne. unfold statusUpdateAcknowledgement. run_kept.
  destruct d; cbn. by rewrite lookup_delete_ne.
Qed.

Lemma stop_kept : kept stop.
Proof. unfold stop, stop_with, unable. run_kept. Qed.
Lemma abort_kept : kept abort.
Proof. unfold abort, stop_with, unable. run_kept. Qed.
Lemma start_kept : kept start.
Proof. unfold start, stop_with, unable. run_kept. Qed.
Lemma Run_start_kept :
  kept (r ← start; match r.2 with Some _ => a ← stop; mret (Some a) | None => join_check end).
Proof. unfold start, stop, stop_with, join_check, unable. run_kept. Qed.
Lemma join_check_kept : kept join_check.
Proof. unfold join_check, unable. run_kept. Qed.
Lemma wait_stop_kept : kept wait_stop.
Proof. intros h d _ _. unfold wp, wait_stop. destruct (ed_stopCh d); [by split_and!|done]. Qed.
Lemma networkError_kept session : kept (networkError session).
Proof. unfold networkError, slave_exited, abort, stop_with, withExecutor, unable. run_kept. Qed.
Lemma shutdown_kept : kept shutdown.
Proof. unfold shutdown, stop, stop_with, withExecutor, unable. run_kept. Qed.
Lemma recoveryTimedOut_kept session : kept (recoveryTimedOut session).
Proof. unfold recoveryTimedOut, shutdown, stop, stop_with, withExecutor, unable. run_kept. Qed.
Lemma connect_kept cb : kept (connect cb).
Proof. unfold connect, new_uuid, withExecutor. run_kept. Qed.
Lemma reconnect_kept from : kept (reconnect from).
Proof. unfold reconnect. run_kept. Qed.
Lemma runTask_kept task : kept (runTask task).
Proof. unfold runTask, withExecutor. run_kept. Qed.
Lemma pass_on_kept cb : kept (pass_on cb).
Proof. unfold pass_on, withExecutor. run_kept. Qed.
Lemma frameworkError_kept m : kept (frameworkError m).
Proof. unfold frameworkError, withExecutor. run_kept. Qed.
Lemma SendFrameworkMessage_kept data : kept (SendFrameworkMessage data).
Proof. unfold SendFrameworkMessage, unable. run_kept. Qed.
Lemma expire_kept n : kept (expire n).
Proof. intros h d _ _. unfold wp, expire. case_bool_decide; [done|by split_and!]. Qed.
Lemma callback_kept cb : kept (emit_event (EvExecutor cb)).
Proof. run_kept. Qed.

Lemma exec_go_kept fuel g d : ksafe (exec_go fuel g) always d.
Proof.
  destruct g; cbn [exec_go]; [apply tsafe_section, callback_kept|].
  apply tsafe_then; [apply expire_kept|]. intros _ d'. apply tsafe_section, recoveryTimedOut_kept.
Qed.

Lemma input_kept i d : cp_legal (unacknowledged k) env i = true → ksafe (input i) always d.
Proof.
  intros Hl. destruct i; cbn [input];
    try (apply tsafe_section;
         first [apply networkError_kept|apply connect_kept|apply reconnect_kept|apply runTask_kept
               |apply pass_on_kept|apply shutdown_kept|apply frameworkError_kept]; fail);
    try (apply tsafe_ignore, tsafe_section;
         first [apply start_kept|apply stop_kept|apply abort_kept|apply SendStatusUpdate_kept
               |apply SendFrameworkMessage_kept]; fail).
  - apply tsafe_section, acknowledgement_kept. by apply negb_true_iff, bool_decide_eq_false in Hl.
  - apply tsafe_ignore, tsafe_then; [apply Run_start_kept|]. intros [a|] d'; [done|].
    apply tsafe_section, wait_stop_kept.
  - apply tsafe_ignore, tsafe_then; [apply join_check_kept|]. intros [a|] d'; [done|].
    apply tsafe_section, wait_stop_kept.
Qed.

Lemma kept_runs sys sys' :
  t_inv env (keeps_update k) sys → t_runs (unacknowledged k) env sys sys' →
  keeps_contract env (keeps_update k) sys sys'.
Proof.
  apply (t_runs_inv (unacknowledged k) env (keeps_update k)); intros; [apply exec_go_kept|by apply input_kept].
Qed.
End KeepsUpdate.

(** C19: An update that is not acknowledged is never forgotten.  If the driver
    keeps an update under the UUID [k] at some point of a run in which no acknowledgement
    with that UUID ever arrives, then however the run goes on, when a
    slave asks a driver that runs to reconnect, the answer is one message, to
    that slave, with all the updates that are kept, one with the UUID [k] among them. *)
Theorem unacknowledged_update_resent env getenv d0 k sys sys' from :
  NewMesosExecutorDriver true None (net_resolve (env_net env)) getenv = Ok d0 →
  t_runs (unacknowledged k) env (mkTSystem d0 [] []) sys → is_Some (ed_updates (ts_state sys) !! k) →
  t_runs (unacknowledged k) env sys sys' → ed_status (ts_state sys') = DRIVER_RUNNING →
  ∃ updates tasks d',
    reconnect from env (ts_hist sys') (ts_state sys') =
      Done tt d' [EvSend (Some from) (ReregisterExecutorMessage (ed_executorID (ts_state sys'))
        (ed_frameworkID (ts_state sys')) updates tasks)] [] ∧
    updates ≡ₚ (map_to_list (ed_updates (ts_state sys'))).*2 ∧ k ∈ UpdUuid <$> updates.
Proof.
  intros Hn Hr Hk Hr' Hs.
  assert (Hinv : einv (ts_state sys')).
  { apply (es_reach_inv env). exists getenv, d0. split; [done|].
    by trans sys; eapply unacknowledged_runs. }
  assert (Hi : t_inv env (keeps_update k) sys).
  { eapply (kept_runs env k (mkTSystem d0 [] [])); [by split|exact Hr]. }
  destruct (kept_runs env k _ _ Hi Hr') as (_ & Hm & _). destruct (Hm Hk) as [u Hu].
  set (s := ts_state sys') in *. set (h := ts_hist sys').
  exists ((env_range env _ h (map_to_list (ed_updates s))).*2), ((env_range env _ h (map_to_list (ed_tasks s))).*2),
    (with_slaveUPID (Some from) s).
  unfold reconnect, aborted, stopped. split_and!.
  - rewrite crit_bind_run. cbn. rewrite Hs, bool_decide_eq_false_2, bool_decide_eq_true_2 by done. cbn [negb].
    do 3 (rewrite crit_bind_run; cbn; rewrite !app_nil_r). done.
  - by rewrite env_range_perm.
  - rewrite env_range_perm. apply list_elem_of_fmap. exists u. split; [by destruct (ei_updates _ Hinv k u Hu)|].
    apply list_elem_of_fmap. exists (k, u). split; [done|]. by apply elem_of_map_to_list.
Qed.

(** Register and report a status: the update is kept under its UUID. *)
Definition report_moves : list (Move Input) :=
  register_moves ++ [MInput (CallStatusUpdate (mkStatus "t" TASK_RUNNING None)); MThread 3].

Lemma report_run :
  ∃ k (sys : ESystem), t_runs (unacknowledged k) quiet_env new_system sys ∧
    is_Some (ed_updates (ts_state sys) !! k) ∧ ed_status (ts_state sys) = DRIVER_RUNNING.
Proof.
  exists "3".
  destruct (t_moves_reach (unacknowledged "3") quiet_env 0 report_moves new_system (λ sys,
    match ed_updates (ts_state sys) !! "3" with Some _ => true | None => false end = true ∧
    ed_status (ts_state sys) = DRIVER_RUNNING)) as (sys & _ & Hr & Hk & Hs); [vm_compute; by split|].
  exists sys. split_and!; [done| |done]. by destruct (ed_updates (ts_state sys) !! "3").
Qed.

Lemma unacknowledged_update_resent_witness :
  ∃ k (sys : ESystem) updates tasks d', reconnect test_slave quiet_env (ts_hist sys) (ts_state sys) =
    Done tt d' [EvSend (Some test_slave) (ReregisterExecutorMessage (ed_executorID (ts_state sys))
      (ed_frameworkID (ts_state sys)) updates tasks)] [] ∧ k ∈ UpdUuid <$> updates.
Proof.
  destruct report_run as (k & sys & Hr & Hk & Hs).
  destruct (unacknowledged_update_resent quiet_env test_env_vars test_driver k sys sys test_slave)
    as (updates & tasks & d' & He & _ & Hin); [vm_compute; reflexivity|exact Hr|exact Hk|apply rtc_refl|exact Hs|].
  exists k, sys, updates, tasks, d'. split; [exact He|exact Hin].
Defined.

(** ** Sessions *)

(** The slave is lost and comes back; then the error of the old session, and one of the new. *)
Definition stale_moves : list (Move Input) :=
  register_moves ++
  [MInput (InNetworkError "2"); MThread 3; MThread 4; MInput InReregistered; MThread 6; MThread 7;
   MInput (InNetworkError "2"); MThread 8; MInput (InNetworkError "4"); MThread 9].

(** a network error of a session that is over disconnects the driver although it
    is reported as ignored, so that the next error of the current session aborts the
    driver at once, with checkpointing enabled and its recovery
    time not even started. *)
Theorem stale_session_aborts :
  ∃ sys : ESystem, es_reach quiet_env sys ∧ ed_checkpoint (ts_state sys) = true ∧
    ed_status (ts_state sys) = DRIVER_ABORTED ∧
    ed_recoveryTimer (ts_state sys) = Some 0 ∧ ed_timers (ts_state sys) = 1.
Proof.
  destruct (exec_moves_reach 0 stale_moves (λ sys, ed_checkpoint (ts_state sys) = true ∧
    ed_status (ts_state sys) = DRIVER_ABORTED ∧
    ed_recoveryTimer (ts_state sys) = Some 0 ∧ ed_timers (ts_state sys) = 1)) as (sys & _ & Hr & HP);
    [vm_compute; by split_and!|].
  exists sys. split; [exact Hr|exact HP].
Qed.

(** ** The etcd executor under its driver *)

(** The connection callbacks of the etcd executor; the others do not touch its timers. *)
Definition on_callback (cb : ExecCall) (e : Executor) : Executor :=
  match cb with
  | EcReregistered => Executor.Reregistered e
  | EcDisconnected => Executor.Disconnected e
  | _ => e
  end.

(** The executor after the callbacks that have run. *)
Definition executor_after (h : list Event) (e : Executor) : Executor :=
  fold_left (λ e ev, match ev with EvExecutor cb => on_callback cb e | _ => e end) h e.

(** The slave is lost and comes back, and the callback of the return runs first. *)
Definition swapped_moves : list (Move Input) :=
  register_moves ++
  [MInput (InNetworkError "2"); MThread 3; MInput InReregistered; MThread 6; MThread 7; MThread 4].

(** The same with the callbacks in the order of the messages. *)
Definition ordered_moves : list (Move Input) :=
  register_moves ++
  [MInput (InNetworkError "2"); MThread 3; MInput InReregistered; MThread 6; MThread 4; MThread 7].

(** The driver does not keep its callbacks in order: after a slave that was
    lost has come back and the driver is connected again, the etcd executor can
    have seen the return before the loss.  Its timer then still runs, and when it
    fires it closes the shutdown channel of an executor whose connection is fine. *)
Theorem swapped_callbacks_kill_executor :
  ∃ sys : ESystem, es_reach quiet_env sys ∧ ed_connected (ts_state sys) = true ∧
    ed_status (ts_state sys) = DRIVER_RUNNING ∧
    let e := executor_after (ts_hist sys) (Executor.New (240 * second)) in
    suicides e = 1 ∧ ∃ e', suicide e = Some (Returns e') ∧ shutdownClosed e' = true.
Proof.
  destruct (exec_moves_reach 0 swapped_moves (λ sys, ed_connected (ts_state sys) = true ∧
    ed_status (ts_state sys) = DRIVER_RUNNING ∧
    executor_after (ts_hist sys) (Executor.New (240 * second)) = mkExecutor (240 * second) false 1))
    as (sys & _ & Hr & Hc & Hs & He); [vm_compute; by split_and!|].
  exists sys. cbv zeta. rewrite He. split_and!; [done..|]. by eexists.
Qed.

(** In the order of the messages no timer is left. *)
Lemma ordered_callbacks_spare_executor :
  option_map (λ sys : ESystem, suicides (executor_after (ts_hist sys) (Executor.New (240 * second))))
    (es_moves quiet_env 0 ordered_moves new_system) = Some 0.
Proof. vm_compute. reflexivity. Qed.
