(* ===== verification/Cmd.v ===== *)
(** * The three programs (src/cmd)

    The bodies of the [main] functions from the parsed flags to the point where
    the Mesos driver, or etcd itself, takes over.  What the operating system
    answers (host name, name lookup, file contents, temporary directory) is a
    parameter. *)

From Stdlib Require Import Ascii Floats.
From stdpp Require Import base strings list gmap.
From S2P Require Import Prelude GoStd Errors Json Config Codec Mesos World Rpc State Zk Executor.
From S2P Require Import OfferStore Goroutine HttpMux Scheduler.

(** ** etcd-mesos-proxy *)

(** How the proxy's [main] ends: [log.Fatal], a run-time panic, the exec of etcd, or
    not within the fuel of [GetState]. *)
Inductive proxy_end :=
  | ProxyFatal (e : option error)
  | ProxyPanics
  | ProxyExec (bin : string) (argv : list string)
  | ProxyStuck.

(** [cmdTemplate] filled in. *)
Definition proxy_args (bin cluster dataDir urls : string) : string :=
  bin +:+ " --proxy=on --data-dir=" +:+ dataDir +:+ " --listen-client-urls=" +:+ urls +:+
  " --advertise-client-urls=" +:+ urls +:+ " --initial-cluster=" +:+ cluster.

(** From the address of the master on. *)
Definition proxy_from_master (fuel : nat) (path etcdBin frameworkName clientUrls master : string)
    : IO proxy_end :=
  st ← GetState fuel ("http://" +:+ master);
  match st with
  | OutOfFuel => mret ProxyStuck
  | StateError e => mret (ProxyFatal e)
  | GotState state =>
      match GetPeersFromState state frameworkName with
      | Err e => mret (ProxyFatal (Some e))
      | Ok peers =>
          mret (ProxyExec etcdBin (Fields (proxy_args etcdBin (Join peers ",") path clientUrls)))
      end
  end.

Definition proxy_main (fuel : nat) (little_endian : bool) (proto_unmarshal : decoder)
    (tempDir : result string) (master etcdBin frameworkName clientUrls : string) : IO proxy_end :=
  match tempDir with
  | Err e => mret (ProxyFatal (Some e))
  | Ok path =>
      if HasPrefix master "zk://" then
        r ← GetMasterFromZK little_endian proto_unmarshal master;
        match r with
        | Panics => mret ProxyPanics
        | Returns (Err e) => mret (ProxyFatal (Some e))
        | Returns (Ok m) => proxy_from_master fuel path etcdBin frameworkName clientUrls m
        end
      else proxy_from_master fuel path etcdBin frameworkName clientUrls master
  end.

(** ** etcd-mesos-executor *)

(** The driver's configuration: binding address, binding port and executor, or the
    fatal error for a missing port.  [ParseIP] is the library's. *)
Definition executor_main (ParseIP : string → option string) (libprocessIP : string)
    (launchTimeout_ driverPort : Z) : option (option string * Z * Executor) :=
  if bool_decide (driverPort = 0%Z) then None
  else Some (if bool_decide (libprocessIP = "") then None else ParseIP libprocessIP,
             (driverPort mod 2 ^ 16)%Z,
             Executor.New (i64 (i64 launchTimeout_ * second))).

(** ** etcd-mesos-scheduler *)

Record Flags := mkFlags {
  fl_frameworkName : string;
  fl_master : string;
  fl_zkFrameworkPersist : string;
  fl_taskCount : Z;
  fl_adminPort : Z;
  fl_reseedTimeout : Z;
  fl_autoReseed : bool;
  fl_artifactPort : Z;
  fl_sandboxDisk : float;
  fl_sandboxCpu : float;
  fl_sandboxMem : float;
  fl_executorPath : string;
  fl_etcdPath : string;
  fl_etcdctlPath : string;
  fl_address : string;
  fl_advertiseAddress : string;
  fl_driverPort : Z;
  fl_authPrincipal : string;
  fl_authSecretFile : string;
  fl_offerRefuseSeconds : float;
  fl_singleInstancePerSlave : bool;
  fl_weburi : string;
}.

(** What the operating system answers. *)
Record Host_os := mkOs {
  os_hostname : result string;
  os_lookup_ip : string → result (list string);
  os_read_file : string → result string;
}.

Inductive main_end :=
  | MainFatal
  | MainReturns
  | MainPanics
  | MainRuns (cfg : SchedulerConfig) (fwid : option string) (weburi : string)
      (credential : option (string * option string)) (binding : string) (published : option string).

Definition defaultAddresses (os : Host_os) (address advertiseAddress : string) : string * string * bool :=
  let address :=
    if bool_decide (address = "") then
      match os_hostname os with Ok hostname => hostname | Err _ => "127.0.0.1" end
    else address in
  if bool_decide (advertiseAddress = "") then (address, address, false)
  else (address, advertiseAddress, true).

(** [parseIP]: [None] is [log.Fatal]. *)
Definition parseIP (os : Host_os) (address : string) : option string :=
  match os_lookup_ip os address with Ok (a :: _) => Some a | _ => None end.

(** The artifacts, registered with the default multiplexer one after the other: an error
    ends [main], a second registration under one name panics. *)
Fixpoint serve_all (paths : list string) (address : string) (port : Z) (m : mux string)
    : IO (go (result (list string * mux string))) :=
  match paths with
  | [] => mret (Returns (Ok ([], m)))
  | p :: ps =>
      r ← ServeExecutorArtifact p address port m;
      match r with
      | Panics => mret Panics
      | Returns (Err e) => mret (Returns (Err e))
      | Returns (Ok (uri, m)) =>
          r ← serve_all ps address port m;
          mret match r with
               | Panics => Panics
               | Returns (Err e) => Returns (Err e)
               | Returns (Ok (us, m)) => Returns (Ok (uri :: us, m))
               end
      end
  end.

(** The credential, [None] for [log.Fatal]. *)
Definition credential_of (os : Host_os) (fl : Flags) : option (option (string * option string)) :=
  if bool_decide (fl_authPrincipal fl = "") then Some None
  else if bool_decide (fl_authSecretFile fl = "") then Some (Some (fl_authPrincipal fl, None))
  else match os_read_file os (fl_authSecretFile fl) with
       | Ok secret => Some (Some (fl_authPrincipal fl, Some secret))
       | Err _ => None
       end.

(** The configuration the scheduler is built with. *)
Definition config_of (fl : Flags) (uris servers : list string) (chroot : string) : SchedulerConfig :=
  let base := NewConfig (fl_taskCount fl) 10 (fl_reseedTimeout fl) (fl_autoReseed fl) uris
                (fl_singleInstancePerSlave fl) (fl_sandboxDisk fl) (fl_sandboxCpu fl)
                (fl_sandboxMem fl) (fl_offerRefuseSeconds fl) in
  mkConfig (fl_master fl) (fl_executorPath fl) (EtcdPath base) (fl_frameworkName fl)
    (fl_zkFrameworkPersist fl) chroot servers (singleInstancePerSlave base)
    (desiredInstanceCount base) (healthCheck base) (Scheduler.shutdown base)
    (reconciliationInfoFunc base) (updateReconciliationInfoFunc base) (executorUris base)
    (diskPerTask base) (cpusPerTask base) (memPerTask base) (offerRefuseSeconds base)
    (chillSeconds base) (autoReseedEnabled base) (reseedTimeout base).

Definition scheduler_main (os : Host_os) (fl : Flags) : IO main_end :=
  if bool_decide (fl_zkFrameworkPersist fl = "") then mret MainFatal else
  let '(address, advertise, explicit) := defaultAddresses os (fl_address fl) (fl_advertiseAddress fl) in
  let weburi := if bool_decide (fl_weburi fl = "")
                then "http://" +:+ address +:+ ":" +:+ FormatInt (fl_adminPort fl) +:+ "/"
                else fl_weburi fl in
  uris ← serve_all [fl_executorPath fl; fl_etcdPath fl; fl_etcdctlPath fl] advertise (fl_artifactPort fl) [];
  match uris with
  | Panics => mret MainPanics
  | Returns (Err _) => mret MainReturns
  | Returns (Ok (uris, _)) =>
      match parseIP os address with
      | None => mret MainFatal
      | Some binding =>
          match credential_of os fl with
          | None => mret MainFatal
          | Some cred =>
              match ParseZKURI (fl_zkFrameworkPersist fl) with
              | Err _ => mret MainFatal
              | Ok (servers, chroot) =>
                  prev ← GetPreviousFrameworkID servers chroot (fl_frameworkName fl);
                  let run fwid :=
                    let cfg := config_of fl uris servers chroot in
                    if (explicit : bool) then
                      match parseIP os advertise with
                      | None => MainFatal
                      | Some pub => MainRuns cfg fwid weburi cred binding (Some pub)
                      end
                    else MainRuns cfg fwid weburi cred binding None in
                  match prev.2 with
                  | None => mret (run (Some prev.1))
                  | Some e => if bool_decide (e = ErrZkNoNode) then mret (run None) else mret MainFatal
                  end
              end
          end
      end
  end.
