(* ===== verification/Admin.v ===== *)
(** * The HTTP interfaces of the scheduler and of the executor

    [AdminHTTP] (scheduler/scheduler.go): the multiplexer with its five patterns, the
    handlers of Scheduler.v behind it, and what happens when the listener ends; the
    artifact server of etcd-mesos-scheduler; [reseedListener] (executor/executor.go).
    The requests are a list of paths in the order in which their handlers run; the
    static files are what [http.FileServer] answers. *)

From Stdlib Require Import Ascii Floats.
From stdpp Require Import base strings list sets gmap.
From S2P Require Import Prelude GoStd Errors Json Config Codec Mesos OfferStore OfferCache World Rpc Zk.
From S2P Require Import Goroutine HttpMux Scheduler Executor Cmd.

Inductive admin_handler := AdminIndex | AdminStats | AdminReseed | AdminMembers | AdminHealthz.

Definition go_bind {A B} (f : A → go B) (m : go A) : go B := match m with Returns a => f a | Panics => Panics end.
#[export] Instance go_mbind : MBind go := @go_bind.

(** The registrations of [AdminHTTP], in its order. *)
Definition admin_mux : go (mux admin_handler) :=
  m ← Handle "/" AdminIndex [];
  m ← Handle "/stats" AdminStats m;
  m ← Handle "/reseed" AdminReseed m;
  m ← Handle "/members" AdminMembers m;
  Handle "/healthz" AdminHealthz m.

Section Admin.
Context {T : Type} `{!OfferStore T}.
Context (cfg : SchedulerConfig) (file_server : string → Z * string).

Abbreviation C := (crit (EtcdScheduler T) Goroutine).
Abbreviation P := (proc (EtcdScheduler T) Goroutine).

(** The answer to one request. *)
Definition admin_serve (m : mux admin_handler) (path : string) : C (Z * string) :=
  match mux_match m path with
  | Some AdminIndex => mret (file_server path)
  | Some AdminStats => admin_stats
  | Some AdminReseed => admin_reseed
  | Some AdminMembers => admin_members
  | Some AdminHealthz => admin_healthz
  | None => mret (404%Z, "404 page not found" +:+ newline)
  end.

(** [http.ListenAndServe] until it fails; then the hook. *)
Definition AdminHTTP (requests : list string) : P unit :=
  match admin_mux with
  | Panics => atomic crash
  | Returns m => _ ← proc_each requests (λ path, _ ← atomic (admin_serve m path); mret tt); atomic (call_shutdown cfg)
  end.
End Admin.

(** ** The executor's listener *)

(** [reseedListener]: one pattern; the handler of Executor.v behind it.  The channel holds
    [queued] requests; [None] is a handler that blocks after it has answered. *)
Definition reseed_mux : go (mux unit) := Handle "/reseed" tt [].

Definition reseed_serve (m : mux unit) (path : string) (queued : nat) : Z * string * option nat :=
  match mux_match m path with
  | Some _ => let '(body, queued) := reseed_handler queued in (200%Z, body, queued)
  | None => (404%Z, "404 page not found" +:+ newline, Some queued)
  end.

(** Requests, then the listener ends and the hook is called. *)
Fixpoint reseed_requests (m : mux unit) (paths : list string) (queued : nat) : list (Z * string) * nat :=
  match paths with
  | [] => ([], queued)
  | p :: ps =>
      let '(code, body, next) := reseed_serve m p queued in
      let '(rs, q) := reseed_requests m ps (default queued next) in ((code, body) :: rs, q)
  end.

Definition reseedListener (paths : list string) (queued : nat) (e : Executor) : go (list (Z * string) * nat * Executor) :=
  m ← reseed_mux; e ← Executor.shutdown e; Returns (reseed_requests m paths queued, e).

(** ** Dispatch *)

Definition admin_table : mux admin_handler :=
  [("/", AdminIndex); ("/stats", AdminStats); ("/reseed", AdminReseed); ("/members", AdminMembers); ("/healthz", AdminHealthz)].

Lemma admin_mux_returns : admin_mux = Returns admin_table.
Proof. done. Qed.

Definition admin_route (path : string) : option admin_handler :=
  if bool_decide (path = "/stats") then Some AdminStats
  else if bool_decide (path = "/reseed") then Some AdminReseed
  else if bool_decide (path = "/members") then Some AdminMembers
  else if bool_decide (path = "/healthz") then Some AdminHealthz
  else if HasPrefix path "/" then Some AdminIndex else None.

Lemma admin_routes path : mux_match admin_table path = admin_route path.
Proof.
  unfold admin_route. repeat (case_bool_decide; [by subst|]).
  unfold mux_match, admin_table, match_loop, pathMatch. cbn -[HasPrefix bool_decide String.length].
  rewrite !(bool_decide_eq_false_2 (_ = path)) by congruence. rewrite !andb_false_r. by destruct (HasPrefix path "/").
Qed.

Lemma HasPrefix_length s p : HasPrefix s p = true → String.length p ≤ String.length s.
Proof.
  revert s. induction p as [|a p IH]; intros [|b s]; simpl; try done; [lia|]. intros [_ H%IH]%andb_true_iff. lia.
Qed.

(** A pattern is the longest that matches its own text. *)
Lemma mux_match_self {H} (m : mux H) p h : wf_mux m → (p, h) ∈ m → p ≠ "" → mux_match m p = Some h.
Proof.
  intros Hwf Hin Hp. apply mux_match_iff; [done|]. exists p. split; [done|]. split.
  - unfold pathMatch. destruct (ends_in_slash p); [apply HasPrefix_refl|]. by rewrite !bool_decide_eq_true_2.
  - intros p' h' _ Hm%pathMatch_prefix%HasPrefix_length. done.
Qed.

Section AdminProps.
Context {T : Type} `{!OfferStore T}.
Context (cfg : SchedulerConfig) (file_server : string → Z * string).

(** The goroutines a request starts. *)
Definition started (path : string) : list Goroutine := if bool_decide (path = "/reseed") then [GoReseed] else [].

(** A counter of the statistics, as a client reads it from a body. *)
Definition stat (body key : string) : option Z :=
  v ← parse body;
  match v with
  | JObj kvs => v ← (list_to_map kvs : gmap string json) !! key; dec_u64 0 v
  | _ => None
  end.

Definition is_stats (st : Stats) : Prop :=
  Forall is_u64 [RunningServers st; LaunchedServers st; FailedServers st; ClusterLivelocks st; ClusterReseeds st; IsHealthy st].

(** What a client learns from the answer to a request in a state: the counters, the running nodes in
    some order, the verdict on the cluster, or the static file. *)
Definition says (s : EtcdScheduler T) (path : string) (answer : Z * string) : Prop :=
  if bool_decide (path = "/stats") then
    answer.1 = 200%Z ∧
    stat answer.2 "running_servers" = Some (RunningServers (Stats_ s)) ∧
    stat answer.2 "launched_servers" = Some (LaunchedServers (Stats_ s)) ∧
    stat answer.2 "failed_servers" = Some (FailedServers (Stats_ s)) ∧
    stat answer.2 "cluster_livelocks" = Some (ClusterLivelocks (Stats_ s)) ∧
    stat answer.2 "cluster_reseeds" = Some (ClusterReseeds (Stats_ s)) ∧
    stat answer.2 "healthy" = Some (IsHealthy (Stats_ s))
  else if bool_decide (path = "/reseed") then answer = (200%Z, "reseeding")
  else if bool_decide (path = "/members") then
    answer.1 = 200%Z ∧ ∃ ns, ns ≡ₚ (map_to_list (running s)).*2 ∧ Unmarshal_nodes answer.2 = Some (Some <$> ns)
  else if bool_decide (path = "/healthz") then answer.1 = if decide (IsHealthy (Stats_ s) = 1%Z) then 200%Z else 500%Z
  else answer = if HasPrefix path "/" then file_server path else (404%Z, "404 page not found" +:+ newline).

Lemma Marshal_stats_read st key l :
  is_stats st →
  (list_to_map [("running_servers", RunningServers st); ("launched_servers", LaunchedServers st);
                ("failed_servers", FailedServers st); ("cluster_livelocks", ClusterLivelocks st);
                ("cluster_reseeds", ClusterReseeds st); ("healthy", IsHealthy st)] : gmap string Z) !! key = Some l →
  stat (Marshal_stats st) key = Some l.
Proof.
  intros Hst Hl. unfold stat, Marshal_stats. rewrite parse_print; [|cbn -[valid_number]; by rewrite !valid_number_FormatUint].
  cbn [mbind option_bind]. set (kvs := [_; _; _; _; _; _]) in Hl.
  change [("running_servers", _); _; _; _; _; _] with (prod_map id (λ z, JNum (FormatUint z)) <$> kvs).
  rewrite list_to_map_fmap, lookup_fmap, Hl. cbn [fmap option_fmap option_map mbind option_bind dec_u64].
  apply ParseUint_FormatUint. apply elem_of_list_to_map_2 in Hl. unfold is_stats in Hst. rewrite Forall_forall in Hst.
  apply Hst. by apply (list_elem_of_fmap_2 snd) in Hl.
Qed.

Lemma admin_serve_effect path env h (s : EtcdScheduler T) :
  is_stats (Stats_ s) → (∀ k n, running s !! k = Some n → ascii_node n) →
  ∃ answer, admin_serve file_server admin_table path env h s = Done answer s [] (started path) ∧ says s path answer.
Proof.
  intros Hst Hn. unfold admin_serve, started, says. rewrite admin_routes. unfold admin_route.
  case_bool_decide as H1.
  { subst. eexists. split; [done|]. split; [done|]. split_and!; by apply Marshal_stats_read. }
  case_bool_decide as H2; [subst; by eexists|]. case_bool_decide as H3.
  { subst. eexists. split; [done|]. split; [done|]. cbn [snd].
    assert (Hp : ∀ h', (range (running s) env h').1 ≡ₚ map_to_list (running s)) by (intros h'; apply env_range_perm).
    eexists. split; [by apply fmap_Permutation, Hp|]. apply Unmarshal_Marshal_nodes. rewrite Hp. apply Forall_fmap, Forall_forall.
    intros [k n] Hin. by eapply Hn, elem_of_map_to_list. }
  case_bool_decide as H4.
  { subst. eexists. split; [done|]. by repeat case_decide || case_bool_decide. }
  destruct (HasPrefix path "/"); by eexists.
Qed.

Lemma admin_each env requests h (s : EtcdScheduler T) :
  is_stats (Stats_ s) → (∀ k n, running s !! k = Some n → ascii_node n) →
  run_alone (S (length requests)) env h s
    (_ ← proc_each requests (λ path, _ ← atomic (admin_serve file_server admin_table path); mret tt); atomic (call_shutdown cfg)) =
  Done (Ret tt) s (if Scheduler.shutdown cfg then [EvShutdown] else []) (requests ≫= started).
Proof.
  intros Hst Hn. revert h. induction requests as [|path requests IH]; intros h.
  - cbn. unfold call_shutdown. by destruct (Scheduler.shutdown cfg).
  - specialize (IH h). destruct (admin_serve_effect path env h s Hst Hn) as (answer & Ha & _).
    lazymatch type of IH with run_alone ?n _ _ _ ?rest = _ =>
      change (run_alone (S n) env h s (Act _ (admin_serve file_server admin_table path) (λ _, rest)) =
              Done (Ret tt) s (if Scheduler.shutdown cfg then [EvShutdown] else []) (started path ++ (requests ≫= started)));
      set (more := rest) in *; set (n' := n) in *
    end.
    cbn [run_alone proc_step]. by rewrite Ha, app_nil_r, IH.
Qed.

(** C39: What the administration interface answers.  In a state whose counters are in range and whose
    nodes are ASCII, a client of [/stats] reads back the six counters, one of [/members]
    exactly the running nodes, one of [/healthz] 200 when the scheduler holds the cluster for
    healthy and 500 when not, one of [/reseed] that a reseed has begun, and any other path
    the static file; no request changes the state of the scheduler or crashes it, a goroutine is
    started by each request for [/reseed] and by no other, and when the listener
    ends the shutdown hook runs. *)
Theorem admin_requests_served env h (s : EtcdScheduler T) requests :
  is_stats (Stats_ s) → (∀ k n, running s !! k = Some n → ascii_node n) →
  Forall (λ path, ∃ m answer, admin_mux = Returns m ∧
    admin_serve file_server m path env h s = Done answer s [] (started path) ∧ says s path answer) requests ∧
  run_alone (S (length requests)) env h s (AdminHTTP cfg file_server requests) =
    Done (Ret tt) s (if Scheduler.shutdown cfg then [EvShutdown] else []) (requests ≫= started).
Proof.
  intros Hst Hn. split.
  - apply Forall_true. intros path. exists admin_table. destruct (admin_serve_effect path env h s Hst Hn) as (answer & Ha & Hs).
    by exists answer.
  - unfold AdminHTTP. rewrite admin_mux_returns. by apply admin_each.
Qed.
End AdminProps.

(** A scheduler with one running node, whose cluster is healthy. *)
Definition admin_state : EtcdScheduler OfferCache :=
  with_Stats (mkStats 1 4 3 0 0 1)
    (with_running {["etcd-1" := node1]} (NewEtcdScheduler (NewConfig 3 120 0 false [] false 1 1 1 1) quiet_env []).1).

Lemma admin_requests_served_witness :
  ∃ answer, admin_serve (λ _, (404%Z, "missing")) admin_table "/members" quiet_env [] admin_state = Done answer admin_state [] [] ∧
    Unmarshal_nodes answer.2 = Some [Some node1].
Proof.
  destruct (admin_requests_served (NewConfig 3 120 0 false [] false 1 1 1 1) (λ _, (404%Z, "missing")) quiet_env [] admin_state ["/members"])
    as [Hall _].
  - repeat constructor; vm_compute; done.
  - intros k n Hk. change (({["etcd-1" := node1]} : gmap string Node) !! k = Some n) in Hk.
    apply lookup_singleton_Some in Hk as [_ <-]. vm_compute. by repeat split.
  - apply Forall_inv in Hall as (m & answer & Hm & Ha & _ & ns & Hp & Hu). injection Hm as <-. exists answer. split; [exact Ha|].
    rewrite Hu. change (map_to_list (running admin_state)) with (map_to_list ({["etcd-1" := node1]} : gmap string Node)) in Hp.
    rewrite map_to_list_singleton in Hp. apply Permutation_singleton_r in Hp as ->. reflexivity.
Defined.

(** ** Artifacts *)

Definition artifact_uri (address : string) (port : Z) (path : string) : string :=
  "http://" +:+ address +:+ ":" +:+ FormatInt port +:+ "/" +:+ path_base path.

Definition pattern_of (path : string) : string := "/" +:+ path_base path.

(** One artifact: its file is there, and its name is new. *)
Lemma ServeExecutorArtifact_cases path address port m env h :
  (ServeExecutorArtifact path address port m env h).1 =
  match env_fs env h ("stat " +:+ path) with
  | Some e => Returns (Err e)
  | None => if bool_decide (pattern_of path ∈ m.*1) then Panics
            else Returns (Ok (artifact_uri address port path, m ++ [(pattern_of path, path)]))
  end.
Proof.
  unfold ServeExecutorArtifact. rewrite bind_run. cbn [act fst snd].
  destruct (env_fs _ _ _); [done|]. unfold Handle. rewrite (bool_decide_eq_false_2 (_ = "")) by done.
  cbn [orb]. unfold pattern_of. by case_bool_decide.
Qed.

Lemma serve_all_served paths address port m env h us m' : wf_mux m →
  (serve_all paths address port m env h).1 = Returns (Ok (us, m')) →
  us = artifact_uri address port <$> paths ∧ m' = m ++ ((λ p, (pattern_of p, p)) <$> paths) ∧ wf_mux m'.
Proof.
  revert m h us m'. induction paths as [|p ps IH]; intros m h us m' Hm; cbn [serve_all].
  - intros [= <- <-]. by rewrite app_nil_r.
  - rewrite bind_run, ServeExecutorArtifact_cases. destruct (env_fs _ _ _); [done|]. case_bool_decide as Hin; [done|].
    rewrite bind_run. set (h' := h ++ _). destruct ((serve_all ps _ _ _ _ _).1) as [[[us1 m1]|]|] eqn:Hs; [|done..].
    apply IH in Hs as (-> & -> & Hwf).
    + cbn. intros [= <- <-]. rewrite <- app_assoc in *. done.
    + unfold wf_mux. rewrite fmap_app. by apply NoDup_snoc.
Qed.

(** Each artifact is served where the tasks are told to fetch it.  When [main] has registered the
    three binaries, the URIs handed to the executors name the port and the base name of each, no two
    base names are the same, and the multiplexer answers a request for a base name with the file itself. *)
Theorem artifacts_served paths address port env h us m :
  (serve_all paths address port [] env h).1 = Returns (Ok (us, m)) →
  us = artifact_uri address port <$> paths ∧ NoDup (path_base <$> paths) ∧
  ∀ path, path ∈ paths → mux_match m (pattern_of path) = Some path.
Proof.
  intros (-> & -> & Hwf)%serve_all_served; [|apply NoDup_nil_2]. split; [done|]. cbn [app] in *. split.
  - unfold wf_mux in Hwf. rewrite <- list_fmap_compose in Hwf. apply (NoDup_fmap_1 (λ b, "/" +:+ b)).
    by rewrite <- list_fmap_compose.
  - intros path Hp. apply mux_match_self; [done| |done]. by apply (list_elem_of_fmap_2 (λ p, (pattern_of p, p))).
Qed.

Lemma artifacts_served_witness :
  ∃ m, (serve_all ["./bin/ex"; "./bin/etcd"] "host" 12300 [] zk0 []).1 =
    Returns (Ok (["http://host:12300/ex"; "http://host:12300/etcd"], m)) ∧ mux_match m "/etcd" = Some "./bin/etcd".
Proof.
  eexists. split; [by_compute|].
  destruct (artifacts_served ["./bin/ex"; "./bin/etcd"] "host" 12300 zk0 [] ["http://host:12300/ex"; "http://host:12300/etcd"]
    [("/ex", "./bin/ex"); ("/etcd", "./bin/etcd")]) as (_ & _ & Hm); [by_compute|].
  apply (Hm "./bin/etcd"). by right; left.
Defined.

(** Two binaries of one name, or one path given twice, panic: [http: multiple registrations]. *)
Lemma same_name_panics : (serve_all ["./a/etcd"; "./b/etcd"] "host" 12300 [] zk0 []).1 = Panics.
Proof. by_compute. Qed.

(** When the port of the listener is taken the executor shuts down at once; a kill then closes the channel again. *)
Lemma listener_then_kill_panics launch :
  ∃ e, reseedListener [] 0 (Executor.New launch) = Returns ([], 0, e) ∧ KillTask e = Panics.
Proof. by eexists. Qed.
