(* ===== verification/TestServer.v ===== *)
(** * The test helper (src/testing/etcd.go)

    The server that stands for etcd in the tests of the rpc and of the scheduler
    package: one pattern, answered with a list of members as JSON, and the port that is
    parsed out of the listener's address.  Its answer is read by [MemberList] of Rpc.v. *)

From Stdlib Require Import Ascii.
From stdpp Require Import base strings list gmap.
From S2P Require Import Prelude GoStd Errors Json Config Codec World Rpc HttpMux.

(** ** Members as JSON *)

(** A slice that is nil is [null]; one that is empty and not nil does not occur here. *)
Definition urls_json (us : list string) : json := match us with [] => JNull | _ => JArr (JStr <$> us) end.

Definition member_json (m : Member) : json :=
  JObj [("id", JStr (MemberID m)); ("name", JStr (MemberName m));
        ("peerURLs", urls_json (PeerURLs m)); ("clientURLs", urls_json (ClientURLs m))].

Definition Marshal_members (l : ClusterMemberList) : string :=
  print (JObj [("members", match Members l with [] => JNull | ms => JArr (member_json <$> ms) end)]).

(** ** The server *)

Definition members_handler (memberList : ClusterMemberList) : Z * string := (200%Z, Marshal_members memberList).

(** The mux and the port.  [listen] is what [net.Listen] on port 0 gives: the address it is bound to. *)
Definition NewTestEtcdServer (memberList : ClusterMemberList) (listen : result string)
    : go (result (mux (Z * string) * Z)) :=
  match Handle "/v2/members" (members_handler memberList) [] with
  | Panics => Panics
  | Returns m =>
      match listen with
      | Err e => Returns (Err e)
      | Ok addr =>
          match Split addr ":" with
          | [_; p] =>
              match ParseInt p with
              | Some port => Returns (Ok (m, port))
              | None => Returns (Err (ErrNew ("Could not parse port into an int: " +:+ p)))
              end
          | _ => Returns (Err (ErrNew ("Bad address: " +:+ addr)))
          end
      end
  end.

(** ** What a client reads *)

Definition ascii_member (m : Member) : Prop :=
  is_ascii (MemberID m) = true ∧ is_ascii (MemberName m) = true ∧
  Forall (λ u, is_ascii u = true) (PeerURLs m) ∧ Forall (λ u, is_ascii u = true) (ClientURLs m).

Lemma urls_json_wf us : Forall (λ u, is_ascii u = true) us → wf_json (urls_json us) = true.
Proof.
  intros HF. destruct us as [|u us]; [done|]. cbn [urls_json wf_json]. induction HF as [|v vs Hv HF IH]; [done|].
  rewrite fmap_cons. cbn [forallb wf_json]. by rewrite Hv, IH.
Qed.

Lemma dec_urls us : dec_slice (dec_string "") (urls_json us) = Some us.
Proof.
  destruct us as [|u us]; [done|]. cbn [urls_json dec_slice]. generalize (u :: us). clear. intros us.
  induction us as [|u us IH]; [done|]. rewrite fmap_cons. cbn [mapM dec_string mbind option_bind]. by rewrite IH.
Qed.

Lemma member_json_wf m : ascii_member m → wf_json (member_json m) = true.
Proof.
  intros (Hi & Hn & Hp & Hc). unfold member_json. cbn -[is_ascii urls_json wf_json].
  apply urls_json_wf in Hp, Hc. cbn [wf_json forallb snd fst]. cbn -[is_ascii wf_json urls_json].
  by rewrite Hi, Hn, Hp, Hc.
Qed.

Lemma dec_member m : dec_struct set_member (mkMember "" "" [] []) (member_json m) = Some m.
Proof.
  destruct m as [id name peers clients]. unfold member_json, dec_struct. cbn [MemberID MemberName PeerURLs ClientURLs].
  pose proof (dec_urls peers) as Hp. pose proof (dec_urls clients) as Hc.
  lazy -[dec_slice urls_json dec_string] in Hp, Hc |- *. by rewrite Hp, Hc.
Qed.

Lemma members_json_wf ms : Forall ascii_member ms → forallb wf_json (member_json <$> ms) = true.
Proof. induction 1 as [|m ms Hm _ IH]; [done|]. rewrite fmap_cons. cbn [forallb]. by rewrite member_json_wf, IH. Qed.

Lemma dec_members ms : mapM (dec_struct set_member (mkMember "" "" [] [])) (member_json <$> ms) = Some ms.
Proof. induction ms as [|m ms IH]; [done|]. rewrite fmap_cons. cbn [mapM]. rewrite dec_member. simpl. by rewrite IH. Qed.

Lemma Unmarshal_Marshal_members l : Forall ascii_member (Members l) → Unmarshal_members (Marshal_members l) = Some l.
Proof.
  destruct l as [ms]. cbn [Members]. intros HF. unfold Unmarshal_members, Marshal_members. cbn [Members].
  rewrite parse_print.
  - destruct ms as [|m ms]; [by vm_compute|]. cbn [mbind option_bind dec_struct dec_fields].
    change (set_member_list (mkMemberList []) (fold_key "members") (JArr (member_json <$> m :: ms)))
      with (ms ← mapM (dec_struct set_member (mkMember "" "" [] [])) (member_json <$> m :: ms); Some (mkMemberList ms)).
    by rewrite dec_members.
  - destruct ms as [|m ms]; [done|]. apply members_json_wf in HF. cbn [wf_json forallb snd fst]. by rewrite HF.
Qed.

Lemma FormatInt_digits z : (0 ≤ z)%Z → all_bytes is_digit (FormatInt z) = true.
Proof. intros. unfold FormatInt. rewrite bool_decide_eq_false_2 by lia. apply FormatUint_digits. Qed.

Lemma server_port l host port : has_no ":" host = true → (0 ≤ port < 65536)%Z →
  NewTestEtcdServer l (Ok (host +:+ ":" +:+ FormatInt port)) = Returns (Ok ([("/v2/members", members_handler l)], port)).
Proof.
  intros Hh Hp. unfold NewTestEtcdServer, Handle. cbn -[Split ParseInt FormatInt].
  rewrite sapp_cons, sapp_nil_l, Split_app by done.
  rewrite Split_no.
  - rewrite ParseInt_FormatInt; [done|]. unfold is_i64. lia.
  - unfold has_no. eapply all_bytes_impl; [|apply FormatInt_digits; lia].
    intros a Ha. apply negb_true_iff, bool_decide_eq_false. by intros ->.
Qed.

(** The answer to a request for a path. *)
Definition served (m : mux (Z * string)) (path : string) : HttpResult :=
  match mux_match m path with
  | Some (code, body) => HttpResp code (Ok body)
  | None => HttpResp 404 (Ok ("404 page not found" +:+ String (chr 10) ""))
  end.

(** The test server speaks the protocol that [MemberList] reads.  Created on any free port, it
    reports that port; when every running node is such a server with a list of members
    that is not empty, [MemberList] returns the identifier of each member by its name, without an error. *)
Theorem test_server_members l host port :
  has_no ":" host = true → (0 ≤ port < 65536)%Z → Forall ascii_member (Members l) → Members l ≠ [] →
  ∃ m, NewTestEtcdServer l (Ok (host +:+ ":" +:+ FormatInt port)) = Returns (Ok (m, port)) ∧
    ∀ env h running, running ≠ ∅ →
      (∀ id n h, running !! id = Some n →
         env_http env h (mkRequest GET (http_url (Host n) (ClientPort n) +:+ "/v2/members") "") = served m "/v2/members") →
      (MemberList running env h).1 = (add_members (Members l) ∅, None).
Proof.
  intros Hh Hp Hm Hne. eexists. split; [by apply server_port|]. intros env h running Hr Hs.
  unfold MemberList. rewrite bool_decide_eq_false_2 by by rewrite map_size_empty_iff.
  rewrite bind_run. cbn [RPC_RETRIES retry]. rewrite !bind_run. cbn [range ask fst snd].
  assert (Hp' := env_range_perm env _ h (map_to_list running)).
  destruct (env_range env _ h (map_to_list running)) as [|[id n] order] eqn:Ho.
  { apply Permutation_nil_l in Hp'. symmetry in Hp'. by apply map_to_list_empty_iff in Hp'. }
  assert (Hid : running !! id = Some n) by (apply elem_of_map_to_list; rewrite <- Hp'; left).
  cbn [for_each]. rewrite !bind_run. unfold list_via. rewrite bind_run. cbn [http_get http_do act fst snd].
  rewrite (Hs id n _ Hid).
  change (served _ _) with (HttpResp 200 (Ok (Marshal_members l))). cbv iota.
  rewrite Unmarshal_Marshal_members by done. by destruct (Members l).
Qed.

Definition list1 : ClusterMemberList := mkMemberList [mkMember "ab12" "etcd-1" ["http://h:1"] []].

Lemma test_server_members_witness :
  ∃ m, NewTestEtcdServer list1 (Ok "127.0.0.1:4001") = Returns (Ok (m, 4001%Z)).
Proof.
  destruct (test_server_members list1 "127.0.0.1" 4001) as (m & Hm & _); [done|lia|by repeat constructor|done|].
  exists m. exact Hm.
Defined.

Lemma test_server_bad_address l : NewTestEtcdServer l (Ok "[::1]:4001") = Returns (Err (ErrNew "Bad address: [::1]:4001")).
Proof. done. Qed.
