(* ===== verification/EndToEnd.v ===== *)
(** * Across the components

    What one program writes, another reads: the task the scheduler prepares is
    the one the executor starts, the status it sends back is filed under the
    prepared name, the proxy is given the peers of the running tasks, and the
    scheduler that the command line builds satisfies the assumptions of the
    interleaving theorems. *)

From Stdlib Require Import Ascii Floats.
From stdpp Require Import base strings list gmap sorting.
From S2P Require Import Prelude GoStd Errors Json Config Codec Mesos World Rpc State Zk Executor.
From S2P Require Import OfferStore OfferCache Goroutine Scheduler SchedInv System Interleave Runs.
From S2P Require Import SchedProps Cmd.

(** The index of an instance name is the one it was made from. *)
Lemma name_index_instance i j : is_i64 i → name_index (instance_name i) = Some j → j = i.
Proof.
  intros Hi. unfold name_index, instance_name.
  change ("etcd-" +:+ FormatInt i) with (("etcd" +:+ "-") +:+ FormatInt i).
  rewrite string_app_assoc, (sapp_cons "-" ""), sapp_nil_l, Split_app by done.
  unfold FormatInt. case_bool_decide as Hneg.
  - simpl. pose proof (Split_nonempty (FormatUint (- i)) "-"). by destruct (Split (FormatUint (- i)) "-").
  - rewrite Split_no.
    + pose proof (ParseInt_FormatInt i Hi) as Hp. unfold FormatInt in Hp.
      rewrite bool_decide_eq_false_2 in Hp by done. rewrite Hp. by intros [= <-].
    + eapply all_bytes_impl; [|apply FormatUint_digits]. intros a Ha. apply negb_true_iff, bool_decide_eq_false.
      by intros ->.
Qed.

Section TaskLife.
Context {T : Type} `{HT : OfferStore T}.
Context (cfg : SchedulerConfig).
Implicit Types s : EtcdScheduler T.

(** C7: From the scheduler's offer to the running etcd.  For the task that the scheduler
    prepares, [LaunchTask] first calls [ConfigureInstance] with the new node and exactly the
    running nodes; its events are those of that call and then, when it fails, the report
    [TASK_FAILED] and the abort of the driver, nothing else.  When it succeeds
    [TASK_RUNNING] is reported and the harness goes on, whose first turn starts etcd with
    the new node's name and URLs, the new node and the running ones as the initial cluster,
    and state [new] just when nothing was running. *)
Theorem executor_runs_prepared_task env env' h h' s offer lowest :
  plain_offer offer → is_u64 lowest → (∀ k n, running s !! k = Some n → ascii_node n) →
  total (prepare_task cfg offer lowest) env h s (λ task s' _ _,
    let node := new_node (instance_name (highestInstanceID s')) offer lowest
                  (bool_decide (size (running s) = 0)) in
    ∃ others, others ≡ₚ (map_to_list (running s)).*2 ∧
      let join := ConfigureInstance (running_map 1 others ∅) node env' h' in
      let launch := LaunchTask (TaskTaskId task) (TaskData task) env' h' in
      match join.1 with
      | Some _ => launch.1 = Returns None ∧
                  launch.2 = join.2 ++ [EvStatus (TaskTaskId task) TASK_FAILED; EvAbort]
      | None =>
          ∃ hs, launch.1 = Returns (Some hs) ∧
            launch.2 = join.2 ++ EvStatus (TaskTaskId task) TASK_RUNNING ::
              (match env_status env' (h' ++ join.2) (TaskTaskId task) TASK_RUNNING with
               | Some _ => [EvStatus (TaskTaskId task) TASK_FAILED; EvAbort] | None => [] end) ∧
            ∀ e h2, ∃ x, xruns env' (TaskTaskId task) (harness_begin e hs h2)
              [(MHarness ReseedRequest, []); (MRun 0, [EvExec (render node (Join (cluster_entry <$> node :: others) ",") +:+
                 " --initial-cluster-state=" +:+ (if bool_decide (running s = ∅) then "new" else "existing"))])] x
      end).
Proof.
  intros Ho Hl Hr. eapply total_mono; [apply prepare_task_run|].
  intros task s' w gs (_ & _ & [_ _ _ (order & Hperm & ->)]). cbv zeta.
  set (first := bool_decide (size (running s) = 0)).
  set (node := new_node _ offer lowest first).
  destruct (new_node_wf (highestInstanceID s') offer lowest first Ho Hl) as [Hwf Hasc].
  exists order.*2. split; [by rewrite Hperm|].
  assert (Hd : Unmarshal_nodes (TaskData (new_task cfg node order.*2 offer (u64 (lowest + 3))))
               = Some (Some <$> node :: order.*2)).
  { apply Unmarshal_Marshal_nodes. constructor; [done|]. rewrite Hperm.
    apply Forall_fmap, Forall_forall. intros [k n] Hin. by eapply Hr, elem_of_map_to_list. }
  unfold LaunchTask. rewrite Hd. rewrite fmap_cons.
  set (tid := TaskTaskId _). clearbody tid. rewrite <- fmap_cons, harness_start_run.
  replace (if bool_decide (running s = ∅) then "new" else "existing") with (Type_ node)
    by (unfold node, first; cbn; by rewrite (bool_decide_ext _ _ (map_size_empty_iff (running s)))).
  cbv zeta. destruct ((ConfigureInstance (running_map 1 order.*2 ∅) node env' h').1); [done|]. cbn [fst snd].
  eexists. split; [done|]. split; [done|]. intros e h2. by apply first_turn_starts.
Qed.

(** C8: The life of a launch.  With a reconciliation map that is not nil, the running status
    of the task that the scheduler prepared takes its name off the pending set, files under that name the node
    that was prepared (up to the type, which the identifier does not carry), and
    the counter is not raised by it. *)
Theorem prepared_task_becomes_running env h s offer lowest :
  plain_offer offer → is_u64 lowest → is_i64 (highestInstanceID s + 1) →
  running s !! instance_name (highestInstanceID s + 1) = None → is_Some (reconciliationInfo s) →
  total (task ← prepare_task cfg offer lowest;
         StatusUpdate cfg (mkStatus (TaskTaskId task) TASK_RUNNING (Some (OfferSlaveId offer)))) env h s
    (λ _ s' _ _,
      let name := instance_name (highestInstanceID s + 1) in
      (name ∉ pending s') ∧ highestInstanceID s' = (highestInstanceID s + 1)%Z ∧
      ∃ n, running s' !! name = Some n ∧
        n = mkNode name (OfferHostname offer) lowest (u64 (lowest + 1)) (u64 (lowest + 2)) "" (OfferSlaveId offer)).
Proof.
  intros Ho Hl Hi Hfree [m Hm]. eapply total_bind; [apply prepare_task_run|].
  intros task s1 w gs (-> & -> & [Hidx Hpe (_ & Hru & _ & _ & Hrec & _) (order & _ & ->)]). rewrite Hm in Hrec.
  rewrite i64_small in Hidx by done. rewrite Hidx in *.
  set (node := new_node _ offer lowest _). unfold StatusUpdate. cbn [StatusTaskId StatusState TaskTaskId new_task].
  destruct (new_node_wf (highestInstanceID s + 1) offer lowest (bool_decide (size (running s) = 0)) Ho Hl) as [Hwf _].
  rewrite (Parse_NodeString node Hwf). apply total_modify_bind. cbn [is_terminal].
  rewrite bool_decide_eq_true_2 by done. eapply total_mono; [by apply (task_running_run _ _ _ _ _ _ _ m)|].
  intros _ s2 w2 gs2 (_ & [Hp2 Hr2 _ _ Hh2 _] & _). cbn [Name strip_node new_node node] in *.
  cbn [running pending highestInstanceID with_heardFrom] in *.
  split_and!.
  - rewrite Hp2. set_solver.
  - rewrite Hh2, Hidx. unfold bump_index. destruct (name_index _) as [i|] eqn:Hn; [|done].
    apply name_index_instance in Hn as ->; [|done].
    by rewrite bool_decide_eq_false_2 by lia.
  - rewrite Hr2, Hru, Hfree. eexists. split; [apply lookup_insert_eq|done].
Qed.
End TaskLife.

(** ** The programs *)

(** The proxy starts etcd only with the peers of the running tasks.  When its
    [main] gets as far as executing etcd, the master it asked (the flag, or the
    leader found in ZooKeeper) answered with a state that lists the framework,
    every running task of it has a well-formed identifier, and the
    [--initial-cluster] argument is built from exactly their entries. *)
Theorem proxy_exec_peers fuel le proto tempDir master etcdBin name urls env h bin argv :
  (proxy_main fuel le proto tempDir master etcdBin name urls env h).1 = ProxyExec bin argv →
  ∃ path m h' state peers, tempDir = Ok path ∧
    (HasPrefix master "zk://" = false → m = master) ∧
    (HasPrefix master "zk://" = true → (GetMasterFromZK le proto master env h).1 = Returns (Ok m)) ∧
    (GetState fuel ("http://" +:+ m) env h').1 = GotState state ∧
    GetPeersFromState state name = Ok peers ∧
    bin = etcdBin ∧ argv = Fields (proxy_args etcdBin (Join peers ",") path urls).
Proof.
  assert (Hfm : ∀ path m h', (proxy_from_master fuel path etcdBin name urls m env h').1 = ProxyExec bin argv →
    ∃ state peers, (GetState fuel ("http://" +:+ m) env h').1 = GotState state ∧
      GetPeersFromState state name = Ok peers ∧
      bin = etcdBin ∧ argv = Fields (proxy_args etcdBin (Join peers ",") path urls)).
  { intros path m h'. unfold proxy_from_master. run_bind.
    destruct ((GetState fuel ("http://" +:+ m) env h').1) as [state|e|]; [|done..].
    destruct (GetPeersFromState state name) as [peers|] eqn:Hp; [|done]. intros [= <- <-]. by exists state, peers. }
  unfold proxy_main. destruct tempDir as [path|]; [|done]. destruct (HasPrefix master "zk://") eqn:Hz.
  - run_bind.
    destruct ((GetMasterFromZK le proto master env h).1) as [[m|e]|] eqn:Hm; [|done..].
    intros (state & peers & Hx)%Hfm. exists path, m. eexists _, state, peers. by split_and!; try apply Hx.
  - intros (state & peers & Hx)%Hfm. exists path, master, h, state, peers. by split_and!; try apply Hx.
Qed.

Lemma serve_all_length ps address port m env h us m' :
  (serve_all ps address port m env h).1 = Returns (Ok (us, m')) → length us = length ps.
Proof.
  revert m h us. induction ps as [|p ps IH]; intros m h us; cbn [serve_all]; [by intros [= <- <-]|].
  run_bind. destruct ((ServeExecutorArtifact _ _ _ _ _ _).1) as [[[uri m1]|]|]; [|done..].
  run_bind. destruct ((serve_all ps _ _ _ _ _).1) as [[[us1 m2]|]|] eqn:Hs; [|done..].
  intros [= <- ->]. simpl. f_equal. by eapply IH.
Qed.

(** What [main] has done when it runs the driver. *)
Lemma scheduler_main_config os fl env h cfg fwid weburi cred binding pub :
  (scheduler_main os fl env h).1 = MainRuns cfg fwid weburi cred binding pub →
  fl_zkFrameworkPersist fl ≠ "" ∧
  ∃ uris servers chroot h', cfg = config_of fl uris servers chroot ∧ length uris = 3 ∧
    ParseZKURI (fl_zkFrameworkPersist fl) = Ok (servers, chroot) ∧
    let prev := (GetPreviousFrameworkID servers chroot (fl_frameworkName fl) env h').1 in
    (prev.2 = None ∧ fwid = Some prev.1) ∨ (prev.2 = Some ErrZkNoNode ∧ fwid = None).
Proof.
  unfold scheduler_main. case_bool_decide as Hzk; [done|].
  destruct (defaultAddresses os (fl_address fl) (fl_advertiseAddress fl)) as [[address advertise] explicit].
  run_bind.
  destruct ((serve_all _ _ _ _ _ _).1) as [[[uris m]|]|] eqn:Hu; [|done..]. apply serve_all_length in Hu.
  destruct (parseIP os address) as [b|]; [|done]. destruct (credential_of os fl) as [c|]; [|done].
  destruct (ParseZKURI (fl_zkFrameworkPersist fl)) as [[servers chroot]|] eqn:Hp; [|done].
  run_bind. set (h' := h ++ _). intros Hend.
  assert (Hcfg : cfg = config_of fl uris servers chroot ∧
    let prev := (GetPreviousFrameworkID servers chroot (fl_frameworkName fl) env h').1 in
    ((prev.2 = None ∧ fwid = Some prev.1) ∨ (prev.2 = Some ErrZkNoNode ∧ fwid = None))).
  { cbv zeta. destruct (_.1.2) as [e|].
    - case_bool_decide as He; [|done]. subst e. destruct explicit; [destruct (parseIP os advertise)|];
        simplify_eq/=; auto.
    - destruct explicit; [destruct (parseIP os advertise)|]; simplify_eq/=; auto. }
  destruct Hcfg as [-> Hprev]. split; [done|]. by exists uris, servers, chroot, h'.
Qed.

(** The scheduler's [main] hands over a sound configuration.  It runs the driver
    only with a ZooKeeper URI that parses, whose servers and chroot it uses; with the
    framework identifier that ZooKeeper holds, or none when ZooKeeper answered
    that there is none; and with the functions that the interleaving theorems
    assume to be quiet. *)
Theorem scheduler_main_runs os fl env h cfg fwid weburi cred binding pub :
  (scheduler_main os fl env h).1 = MainRuns cfg fwid weburi cred binding pub →
  cfg_quiet cfg ∧ ZkConnect cfg = fl_zkFrameworkPersist fl ∧ ZkConnect cfg ≠ "" ∧
  ParseZKURI (ZkConnect cfg) = Ok (ZkServers cfg, ZkChroot cfg) ∧
  length (executorUris cfg) = 3 ∧
  ∃ h', let prev := (GetPreviousFrameworkID (ZkServers cfg) (ZkChroot cfg) (FrameworkName cfg) env h').1 in
    (prev.2 = None ∧ fwid = Some prev.1) ∨ (prev.2 = Some ErrZkNoNode ∧ fwid = None).
Proof.
  intros (Hzk & uris & servers & chroot & h' & -> & Hu & Hp & Hprev)%scheduler_main_config.
  split_and!; try done; [|by exists h'].
  split; intros; [apply quiet_HealthCheck|apply quiet_GetPreviousReconciliationInfo|
    apply quiet_UpdateReconciliationInfo].
Qed.

(** ** Concrete runs *)

(** The node that runs, and a world in which joining through it succeeds. *)
Definition running1 : Node := mkNode "etcd-1001" "host1" 31000 31001 31002 "" "slave-1".

Lemma joins_through_running1 node : (ConfigureInstance (running_map 1 [running1] ∅) node healthy_env []).1 = None.
Proof. by_compute. Qed.

Lemma running_sched0 : running sched0 = {["etcd-1001" := running1]}.
Proof. by_compute. Qed.

Lemma executor_runs_prepared_task_witness :
  running sched0 = {["etcd-1001" := running1]} ∧
  total (prepare_task cfg3 offer2 31000) live_env [] sched0 (λ task _ _ _,
    ∃ hs cmd, (LaunchTask (TaskTaskId task) (TaskData task) healthy_env []).1 = Returns (Some hs) ∧
      ∀ e h2, ∃ x, xruns healthy_env (TaskTaskId task) (harness_begin e hs h2)
        [(MHarness ReseedRequest, []); (MRun 0, [EvExec (cmd +:+ " --initial-cluster-state=existing")])] x).
Proof.
  split; [exact running_sched0|].
  eapply total_mono.
  - apply (executor_runs_prepared_task cfg3 live_env healthy_env [] [] sched0 offer2 31000).
    + split_and!; by vm_compute.
    + by vm_compute.
    + intros k n Hk. rewrite running_sched0 in Hk. apply lookup_singleton_Some in Hk as [_ <-]. by vm_compute.
  - intros task s' w gs (others & Hp & Hl). rewrite running_sched0 in Hp. rewrite map_to_list_singleton in Hp.
    apply Permutation_singleton_r in Hp. subst others. cbv zeta in Hl. rewrite joins_through_running1 in Hl.
    destruct Hl as (hs & H1 & _ & H3). rewrite running_sched0 in H3.
    rewrite (bool_decide_eq_false_2 ({["etcd-1001" := running1]} = ∅)) in H3 by apply map_non_empty_singleton.
    eexists hs, _. split; [exact H1|exact H3].
Defined.

Lemma prepared_task_becomes_running_witness :
  total (task ← prepare_task cfg3 offer1 31000;
         StatusUpdate cfg3 (mkStatus (TaskTaskId task) TASK_RUNNING (Some (OfferSlaveId offer1)))) live_env []
    (NewEtcdScheduler (T := OfferCache) cfg3 live_env []).1
    (λ _ s' _ _, ∃ n, running s' !! Name n = Some n ∧ (Name n ∉ pending s') ∧ Host n = OfferHostname offer1).
Proof.
  eapply total_mono.
  - apply (prepared_task_becomes_running cfg3 live_env [] (NewEtcdScheduler (T := OfferCache) cfg3 live_env []).1
      offer1 31000).
    + split_and!; by vm_compute.
    + by vm_compute.
    + by vm_compute.
    + by change (running _) with (∅ : gmap string Node).
    + by eexists.
  - intros _ s' w gs (Hp & _ & n & Hn & Heq). exists n. rewrite Heq in Hn |- *. by split_and!.
Defined.

(** A master with one framework that has one running task. *)
Definition state_doc : string :=
  print (JObj [("frameworks", JArr [JObj [("name", JStr "etcd");
    ("tasks", JArr [JObj [("id", JStr "etcd-1 host1 2380 2379 2381"); ("state", JStr "TASK_RUNNING")]])]])]).

Definition master_env : Env := etcd_env (λ _ _, HttpResp 200 (Ok state_doc)) (λ _ _ _, Err ErrJson).

Lemma proxy_exec_peers_witness :
  ∃ path m h' state peers, Ok "/tmp/p" = Ok path ∧
    (HasPrefix "m:5050" "zk://" = false → m = "m:5050") ∧
    (HasPrefix "m:5050" "zk://" = true →
       (GetMasterFromZK true (λ _, Err ErrProto) "m:5050" master_env []).1 = Returns (Ok m)) ∧
    (GetState 1 ("http://" +:+ m) master_env h').1 = GotState state ∧
    GetPeersFromState state "etcd" = Ok peers ∧ "./etcd" = "./etcd" ∧
    ["./etcd"; "--proxy=on"; "--data-dir=/tmp/p"; "--listen-client-urls=u"; "--advertise-client-urls=u";
     "--initial-cluster=etcd-1=http://host1:2380"] =
      Fields (proxy_args "./etcd" (Join peers ",") path "u").
Proof.
  apply (proxy_exec_peers 1 true (λ _, Err ErrProto) (Ok "/tmp/p") "m:5050" "./etcd" "etcd" "u" master_env []).
  by_compute.
Defined.

Definition flags1 : Flags :=
  mkFlags "etcd" "m:5050" "zk://h:2181/etcd" 3 23400 240 true 12300 1 1 1 "./bin/ex" "./bin/etcd" "./bin/etcdctl"
    "host" "" 0 "" "" 15 true "".

Definition os1 : Host_os := mkOs (Ok "host") (λ a, Ok [a]) (λ _, Err (ErrOs "no file")).

Definition main_runs (r : main_end) : bool := match r with MainRuns _ _ _ _ _ _ => true | _ => false end.

Lemma scheduler_main_runs_witness :
  ∃ cfg, cfg_quiet cfg ∧ ParseZKURI "zk://h:2181/etcd" = Ok (ZkServers cfg, ZkChroot cfg).
Proof.
  assert (Hr : main_runs (scheduler_main os1 flags1 zk0 []).1 = true) by (by_compute).
  destruct ((scheduler_main os1 flags1 zk0 []).1) as [| | |cfg fwid weburi cred binding pub] eqn:He; [discriminate Hr..|].
  exists cfg. destruct (scheduler_main_runs os1 flags1 zk0 [] cfg fwid weburi cred binding pub He)
    as (Hq & Hz & _ & Hp & _).
  split; [exact Hq|]. rewrite Hz in Hp. exact Hp.
Defined.
