(* ===== verification/DriverEnd.v ===== *)
(** * The programs over their drivers

    The scheduler of etcd-mesos with the Mesos driver it runs on:
    a launch that the driver cannot send comes back as a lost task, and a
    restarted scheduler registers again under the identifier it kept in ZooKeeper.
    The executor's [main] with its driver. *)

From Stdlib Require Import Ascii Floats.
From stdpp Require Import base strings list gmap sorting.
From S2P Require Import Threads ExecDriver ExecDriverProps.
From S2P Require Import Prelude GoStd Errors Upid Json Config Codec Mesos World Rpc State Zk Executor.
From S2P Require Import OfferStore OfferCache Goroutine Threads SchedDriver DriverSys.
From S2P Require Import Scheduler SchedInv System Interleave Runs SchedProps Cmd EndToEnd.

(** ** A launch that cannot be sent *)

(** What the thread of lost tasks does in a driver that runs: one callback for each task. *)
Lemma lost_task_thread env h d fuel task why :
  dinv d → sd_status d = DRIVER_RUNNING →
  run_alone 2 env h d (driver_go fuel (GoLostTasks [task] why)) =
    Done (mret tt) d [EvSched (ScStatusUpdate (mkStatus (TaskTaskId task) TASK_LOST None) "")] [].
Proof.
  intros Hd Hs. destruct (sd_self d) as [self|] eqn:Hself; [|by destruct (di_running _ Hd Hs)].
  assert (Hst : sd_stopCh d = false).
  { destruct (sd_stopCh d) eqn:E; [|done]. destruct (di_stop _ Hd E); congruence. }
  assert (Hq : sd_queueClosed d = false).
  { destruct (sd_queueClosed d) eqn:E; [|done]. by rewrite (di_queue _ Hd E) in Hst. }
  cbn [driver_go proc_each]. unfold pushLostTask, handler, statusUpdated, stopped, atomic.
  cbn [mbind proc_bind proc_bind_go run_alone proc_step]. rewrite crit_bind_run. cbn.
  rewrite Hself, !crit_bind_run. cbn. rewrite Hs, Hself. unfold Equal.
  rewrite !bool_decide_eq_true_2 by done. cbn. rewrite (bool_decide_eq_true_2 ("" = "")) by done.
  cbn [orb]. rewrite !crit_bind_run. cbn. unfold withScheduler. by rewrite Hq, Hst.
Qed.

Section LostLaunch.
Context {T : Type} `{HT : OfferStore T}.
Context (cfg : SchedulerConfig).
Implicit Types s : EtcdScheduler T.

(** The lost status of a prepared task undoes its launch. *)
Definition lost_undoes (task : TaskInfo) env h s1 (st : TaskStatus) : Prop :=
  StatusTaskId st = TaskTaskId task ∧
  total (StatusUpdate cfg st) env h s1 (λ _ s2 w _, w = [] ∧
    let name := instance_name (highestInstanceID s1) in
    name ∈ pending s1 ∧ pending s2 = pending s1 ∖ {[name]} ∧ running s2 = delete name (running s1) ∧
    lost_state name (TaskTaskId task) (with_heardFrom ({[TaskTaskId task]} ∪ heardFrom s1) s1) s2).

Lemma lost_status_undoes env h s offer lowest task s1 :
  plain_offer offer → is_u64 lowest → prepared cfg offer lowest s task s1 →
  lost_undoes task env h s1 (mkStatus (TaskTaskId task) TASK_LOST None).
Proof.
  intros Ho Hl [_ Hpe _ (order & _ & ->)]. split; [done|].
  set (node := new_node _ offer lowest _). set (task := new_task cfg node _ offer _).
  destruct (new_node_wf (highestInstanceID s1) offer lowest (bool_decide (size (running s) = 0)) Ho Hl) as [Hwf _].
  unfold StatusUpdate. cbn [StatusTaskId StatusState TaskTaskId new_task task].
  rewrite (Parse_NodeString node Hwf). apply total_modify_bind. cbn [is_terminal].
  eapply total_mono; [apply task_lost_run|]. intros _ s2 w2 gs2 (-> & -> & Hlost).
  split; [done|]. cbv zeta. split_and!.
  - rewrite Hpe. set_solver.
  - exact (ls_pending _ _ _ _ Hlost).
  - exact (ls_running _ _ _ _ Hlost).
  - exact Hlost.
Qed.

(** C10: What becomes of a launch, whatever state the driver is in.  The scheduler has
    prepared a task and calls the driver, in any state that satisfies the driver's
    invariant.  If the driver runs and is connected, exactly one message with this task, its
    framework identifier filled in, goes to the master; if that send fails, or if the driver
    runs and is not connected and so sends nothing, the call returns the error and starts a
    thread that hands the scheduler a lost status of exactly that task, whose handling takes
    the task's name off the pending set again and off the running ones, counts a failure and
    requests another launch.  A driver that does not run returns an error, sends nothing and
    reports no lost task. *)
Theorem lost_launch_returns env env' h h' s offer lowest d offerIds refuse fuel :
  plain_offer offer → is_u64 lowest → dinv d →
  total (prepare_task cfg offer lowest) env h s (λ task s1 _ _,
    ∃ err d' w gs, SchedDriver.LaunchTasks offerIds [task] refuse env' h' d =
        Done (sd_status d, err) d' w gs ∧
      (w = [] ∨ ∃ master, sd_connected d = true ∧ sd_masterPid d = Some master ∧
         w = [EvSend (Some master) (LaunchTasksMessage (FIId (sd_frameworkInfo d)) offerIds
                [set_framework_id (FIId (sd_frameworkInfo d)) task] refuse)]) ∧
      (err = None → w ≠ [] ∧ gs = []) ∧
      (sd_status d ≠ DRIVER_RUNNING → err ≠ None ∧ d' = d ∧ w = [] ∧ gs = []) ∧
      (sd_status d = DRIVER_RUNNING → sd_connected d = false → err = Some ErrDisconnected ∧ d' = d ∧ w = []) ∧
      (sd_status d = DRIVER_RUNNING → err ≠ None →
         ∃ g st, gs = [g] ∧
           run_alone 2 env' (h' ++ w) d' (driver_go fuel g) = Done (mret tt) d' [EvSched (ScStatusUpdate st "")] [] ∧
           lost_undoes task env h s1 st)).
Proof.
  intros Ho Hl Hd. eapply total_mono; [apply prepare_task_run|]. intros task s1 w0 gs0 (_ & _ & Hpr).
  pose proof (lost_status_undoes env h _ _ _ _ _ Ho Hl Hpr) as Hu. clear Hpr.
  unfold SchedDriver.LaunchTasks, stopped. rewrite crit_bind_run. cbn [get_state].
  destruct (decide (sd_status d = DRIVER_RUNNING)) as [Hs|Hs].
  2:{ rewrite (bool_decide_eq_false_2 _ Hs). cbn. do 4 eexists. split; [reflexivity|]. by split_and!; auto. }
  rewrite (bool_decide_eq_true_2 _ Hs). cbn [negb]. destruct (sd_connected d) eqn:Hc; cbn [negb].
  2:{ rewrite crit_bind_run. cbn. do 4 eexists. split; [reflexivity|]. split_and!; auto; try done.
      intros _ _. eexists _, _. split; [reflexivity|]. split; [by apply lost_task_thread|done]. }
  destruct (sd_masterPid d) as [master|] eqn:Hm; [|by destruct (di_connected _ Hd Hc)].
  set (fwid := FIId (sd_frameworkInfo d)). set (ok := set_framework_id fwid <$> [task]).
  rewrite !crit_bind_run. cbn [modify]. rewrite crit_bind_run. cbn [send lift_io act fst snd].
  assert (Hd' : dinv (with_cache (use_offers offerIds ok (sd_cache d)) d)) by (apply dinv_cache; [apply use_offers_ok, Hd|done]).
  destruct (net_send _ _ _ _) as [e|].
  - cbn [lift_io act fst snd]. rewrite crit_bind_run. cbn [spawn mret crit_ret app].
    exists (Some e), (with_cache (use_offers offerIds ok (sd_cache d)) d),
      [EvSend (Some master) (LaunchTasksMessage fwid offerIds ok refuse)],
      [GoLostTasks ok ("Unable to launch tasks: " +:+ error_text e)].
    split; [reflexivity|]. split_and!; try done; [right; by exists master|].
    intros _ _. eexists _, _. split; [reflexivity|]. split; [|exact Hu].
    pose proof (lost_task_thread env' (h' ++ [EvSend (Some master) (LaunchTasksMessage fwid offerIds ok refuse)])
      _ fuel (set_framework_id fwid task) ("Unable to launch tasks: " +:+ error_text e) Hd') as Ht.
    assert (Hid : TaskTaskId (set_framework_id fwid task) = TaskTaskId task)
      by (unfold set_framework_id; by destruct (ExecFrameworkId (TaskExecutor task))).
    rewrite Hid in Ht. apply Ht. by destruct d.
  - cbn. do 4 eexists. split; [reflexivity|]. split_and!; try done. right. by exists master.
Qed.
End LostLaunch.

(** A driver that has started and knows no master. *)
Lemma started_run :
  ∃ sys : DSystem, ds_reach quiet_env sys ∧ sd_status (ts_state sys) = DRIVER_RUNNING ∧
    sd_connected (ts_state sys) = false.
Proof.
  destruct (DriverSys.moves_reach quiet_env 2 (take 2 connect_moves) (λ sys,
    sd_status (ts_state sys) = DRIVER_RUNNING ∧ sd_connected (ts_state sys) = false)) as (sys & _ & Hr & HP);
    [vm_compute; by split|].
  exists sys. split; [exact Hr|exact HP].
Qed.

Lemma lost_launch_returns_witness :
  ∃ sys : DSystem, sd_status (ts_state sys) = DRIVER_RUNNING ∧
    total (prepare_task cfg3 offer1 31000) live_env []
    (NewEtcdScheduler (T := OfferCache) cfg3 live_env []).1 (λ task s1 _ _,
      ∃ gs, SchedDriver.LaunchTasks ["offer-1"] [task] 5 quiet_env [] (ts_state sys) =
          Done (DRIVER_RUNNING, Some ErrDisconnected) (ts_state sys) [] gs ∧
        ∃ g st, gs = [g] ∧ run_alone 2 quiet_env [] (ts_state sys) (driver_go 0 g) =
          Done (mret tt) (ts_state sys) [EvSched (ScStatusUpdate st "")] [] ∧ lost_undoes cfg3 task live_env [] s1 st).
Proof.
  destruct started_run as (sys & Hr & Hs & Hc). exists sys. split; [exact Hs|]. eapply total_mono.
  - apply (lost_launch_returns cfg3 live_env quiet_env [] [] (NewEtcdScheduler (T := OfferCache) cfg3 live_env []).1
      offer1 31000 (ts_state sys) ["offer-1"] 5 0).
    + split_and!; by vm_compute.
    + by vm_compute.
    + exact (ti_inv _ _ _ (ds_reach_inv _ _ Hr)).
  - intros task s1 w gs (err & d' & w' & gs' & E & _ & _ & _ & Hdis & Hlost). destruct (Hdis Hs Hc) as (-> & -> & ->).
    exists gs'. rewrite Hs in E. split; [exact E|]. exact (Hlost Hs (λ H, ltac:(discriminate H))).
Defined.

(** ** The scheduler's main and its driver *)

(** The framework that [main] describes to the driver; [failoverTimeout] is the flag
    [-failover-timeout-seconds]. *)
Definition fwinfo (cfg : SchedulerConfig) (fwid : option string) (weburi : string)
    (cred : option (string * option string)) (failoverTimeout : float) : FrameworkInfo :=
  mkFrameworkInfo "" (FrameworkName cfg) fwid (Some failoverTimeout) true "" (fst <$> cred) weburi.

(** The end of [main]: a driver that cannot be created is only logged, and [Run] is
    called on the nil pointer, whose lock it takes. *)
Definition run_driver (m : main_end) (failoverTimeout : float) (user hostname : string)
    (newDetector newMessenger : option error) : option (go Driver) :=
  match m with
  | MainRuns cfg fwid weburi cred _ _ =>
      Some (match NewMesosSchedulerDriver
                    (mkDriverConfig true (Some (fwinfo cfg fwid weburi cred failoverTimeout)) (Master cfg)
                       (bool_decide (is_Some cred)) true "") user hostname newDetector newMessenger with
            | Ok d => Returns d
            | Err _ => Panics
            end)
  | _ => None
  end.

(** *** Until a master acknowledges the registration *)

(** The driver while no acknowledgement of a registration has arrived. *)
Definition is_ack (i : Input) : bool := match i with InRegistered _ _ _ | InReregistered _ _ => true | _ => false end.

Definition unacknowledged : Component Driver DriverGo Input :=
  mkComponent input (λ env i, DriverSys.legal env i && negb (is_ack i)) driver_go.

Definition is_registration (m : Message) : bool :=
  match m with RegisterFrameworkMessage _ | ReregisterFrameworkMessage _ _ => true | _ => false end.

Section FirstContact.
Context (env : Env) (info : FrameworkInfo) (failover : bool).

(** A registration that is sent is the one of the driver as it was built. *)
Definition first_event (e : Event) : Prop :=
  match e with
  | EvSend _ m => is_registration m = true → m = registration_message failover info
  | _ => True
  end.

(** Until then the framework's description and the failover flag do not change. *)
Definition first_contract : Contract Driver DriverGo := {|
  c_inv d := sd_frameworkInfo d = info ∧ sd_failover d = failover;
  c_mono _ _ := True;
  c_events _ w := Forall first_event w;
  c_crash _ := True;
  c_go _ _ := True;
|}.

#[export] Instance first_contract_laws : ContractLaws first_contract.
Proof. split; [by split|by constructor|]. intros s s' w w' Hw _ Hw'. by apply Forall_app. Qed.

Abbreviation fsection c := (section_ok first_contract env c (λ _, True) always).
Abbreviation fsafe := (tsafe first_contract env).

Lemma fwp_send to m h d (Q : option error → Driver → list Event → list DriverGo → Prop) :
  (∀ err, Q err d [EvSend to m] []) → wp env (send to m) h d True Q.
Proof. intros HQ. unfold send, wp. destruct to; [apply HQ|done]. Qed.

Lemma fowes {A} d (a : A) d' w gs :
  sd_frameworkInfo d' = info ∧ sd_failover d' = failover → Forall first_event w →
  owes first_contract d always a d' w gs.
Proof. intros Hi Hw. split_and!; try done. by apply Forall_true. Qed.

(** Symbolic execution of a section that keeps both and sends no registration. *)
Ltac fstep :=
  lazymatch goal with
  | |- wp _ (send _ _) _ _ _ _ => apply fwp_send; intros
  | |- wp _ (withScheduler _) _ _ _ _ => unfold wp, withScheduler
  | |- owes _ _ _ _ _ _ _ => apply fowes
  | _ => wp_step
  end.

Ltac fdone :=
  repeat match goal with
  | |- Forall _ [] => apply Forall_nil
  | |- Forall _ (_ :: _) => apply Forall_cons
  | |- Forall _ (_ ++ _) => apply Forall_app
  | |- _ ∧ _ => split
  | H : ?x ∧ ?y |- _ => destruct H
  end; try done.

Ltac fsec :=
  intros h d Hd _; destruct d; cbn in Hd;
  repeat (fstep; cbn [fst snd sd_frameworkInfo sd_failover with_status with_connection with_connected]);
  try done; cbn in *; fdone.

Lemma withScheduler_first cb : fsection (withScheduler cb).
Proof.
  intros h d Hd _. unfold wp, withScheduler. destruct (sd_queueClosed d); [apply fowes; [done|constructor]|].
  destruct (sd_stopCh d); apply fowes; try done.
  - by destruct d.
  - by apply Forall_replicate.
  - by constructor.
Qed.

Lemma tryAuthentication_first : fsection tryAuthentication.
Proof. unfold tryAuthentication, cancel. fsec. Qed.
Lemma route_result_first c s pid : fsection (route_result c s pid).
Proof. unfold route_result, handleAuthenticationResult, tryAuthentication, cancel. fsec. Qed.
Lemma handleNetworkError_first from pid session : fsection (handleNetworkError from pid session).
Proof. unfold handleNetworkError. fsec. Qed.
Lemma master_changed_first from master :
  fsection (r ← master_changed from master;
            if negb r.1 && r.2 then _ ← tryAuthentication; mret r else mret r).
Proof. unfold master_changed, tryAuthentication, resolver, cancel. fsec. Qed.
Lemma resourcesOffered_first offers pids : fsection (resourcesOffered offers pids).
Proof. unfold resourcesOffered, resolver. fsec. Qed.
Lemma resourceOfferRescinded_first id : fsection (resourceOfferRescinded id).
Proof. unfold resourceOfferRescinded. fsec. Qed.
Lemma statusUpdated_first from update pid : fsection (statusUpdated from update pid).
Proof. unfold statusUpdated. fsec. Qed.
Lemma exitedExecutor_first e s st : fsection (exitedExecutor e s st).
Proof. unfold exitedExecutor. fsec. Qed.
Lemma slaveLost_first id : fsection (slaveLost id).
Proof. unfold slaveLost. fsec. Qed.
Lemma frameworkMessageRcvd_first e s data : fsection (frameworkMessageRcvd e s data).
Proof. unfold frameworkMessageRcvd. fsec. Qed.
Lemma start_first : fsection start.
Proof. unfold start, unable. fsec. Qed.
Lemma stop_first cause failover' : fsection (stop cause failover').
Proof. unfold stop, stop_with, unable. fsec. Qed.
Lemma abort_first cause : fsection (abort cause).
Proof. unfold abort, stop, stop_with, unable. fsec. Qed.
Lemma fatal_first m : fsection (fatal m).
Proof. unfold fatal, abort, stop, stop_with, unable. fsec. Qed.
Lemma LaunchTasks_first ids ts refuse : fsection (SchedDriver.LaunchTasks ids ts refuse).
Proof. unfold SchedDriver.LaunchTasks, unable. fsec. Qed.
Lemma send_call_first m : (∀ fwid, is_registration (m fwid) = false) → fsection (send_call m).
Proof.
  intros Hm. unfold send_call, unable. fsec. all: intros Hreg; by rewrite Hm in Hreg.
Qed.
Lemma SendFrameworkMessage_first e s data : fsection (SendFrameworkMessage e s data).
Proof. unfold SendFrameworkMessage, unable. fsec. Qed.
Lemma AcceptOffers_first ids ops refuse : fsection (AcceptOffers ids ops refuse).
Proof.
  assert (Hlose : ∀ ops why h d (Q : unit → Driver → list Event → list DriverGo → Prop),
    (∀ gs, Q tt d [] gs) → wp env (lose_operations ops why) h d True Q).
  { clear. intros ops. induction ops as [|op ops IH]; intros why h d Q HQ; [apply HQ|].
    destruct op; cbn [lose_operations]; try by apply IH. apply wp_bind, wp_spawn. cbn. apply IH. intros gs. apply HQ. }
  intros h d Hd _. unfold AcceptOffers, unable. apply wp_get_bind.
  destruct (stopped d); [by apply fowes; [|constructor]|]. destruct (sd_connected d); cbn [negb].
  - destruct (accept_loop _ ids _) as [[c ops'] ok]. apply wp_modify_bind, wp_bind, fwp_send. intros [e|].
    + apply wp_bind, Hlose. intros gs. apply fowes; [by destruct d|by repeat constructor].
    + apply fowes; [by destruct d|by repeat constructor].
  - apply wp_bind, Hlose. intros gs. apply fowes; [done|constructor].
Qed.

Lemma Join_check_first : fsection (d ← get_state; if stopped d then a ← unable d; mret (Some a) else mret None).
Proof. unfold unable. fsec. Qed.
Lemma Run_start_first :
  fsection (r ← start;
            match r.2 with
            | Some e => a ← stop (Some (error_text e)) false; mret (Some a)
            | None =>
                d ← get_state;
                if stopped d then a ← unable d; mret (Some a) else mret None
            end).
Proof. unfold start, stop, stop_with, unable. fsec. Qed.
Lemma wait_done_first : fsection wait_done.
Proof. intros h d Hd _. unfold wp, wait_done. destruct (sd_queueClosed d); [by apply fowes; [|constructor]|done]. Qed.
Lemma get_state_first : fsection get_state.
Proof. intros h d Hd _. by apply fowes; [|constructor]. Qed.
Lemma lost_task_first why task :
  fsection (d ← get_state;
            match sd_self d with
            | None => crash
            | Some self =>
                statusUpdated self (lost_update (FIId (sd_frameworkInfo d)) why task) (PidString self)
            end).
Proof. unfold statusUpdated. fsec. Qed.

(** Every thread keeps the contract. *)

Lemma handler_first c d : fsection c → fsafe (handler c) always d.
Proof.
  intros Hc. apply tsafe_then; [done|]. intros [cb|] d'; [|done]. apply tsafe_section, withScheduler_first.
Qed.

Lemma registerOnce_first d : fsafe registerOnce always d.
Proof.
  apply tsafe_bind. intros h d' _ Hd. unfold registration. apply wp_get_bind.
  assert (Hnone : wp env (mret None : DC (option (bool * UPID * FrameworkInfo))) h d' True
    (owes first_contract d' (λ r d, fsafe (match r with
       | None => mret false
       | Some (failover, pid, info) =>
           err ← atomic (send (Some pid) (registration_message failover info));
           match err with Some _ => _ ← atomic (Stop failover); mret true | None => mret true end
       end) always d))).
  { apply wp_ret. split_and!; try done; constructor. }
  destruct (sd_masterPid d') as [pid|]; [|done].
  destruct (stopped d' || _ || _); [done|]. apply wp_ret. pose proof Hd as [E1 E2].
  split; [exact Hd|]. split_and!; try done; [constructor..|]. rewrite E1, E2. apply tsafe_then.
  - intros h2 d2 Hd2 _. apply fwp_send. intros err. apply fowes; [done|]. by repeat constructor.
  - intros [e|] d2; [|done]. apply tsafe_then; [apply stop_first|done].
Qed.

Lemma doReliableRegistration_first fuel b d : fsafe (doReliableRegistration fuel b) always d.
Proof.
  revert b d. induction fuel as [|fuel IH]; intros b d; [done|]. apply tsafe_bind.
  eapply tsafe_weaken; [apply registerOnce_first|]. intros again d' _. destruct again; cbn [negb]; [|done].
  apply tsafe_then; [apply get_state_first|]. intros d2 d3. destruct (sd_stopCh d2); [done|apply IH].
Qed.

Lemma driver_go_first fuel g d : fsafe (driver_go fuel g) always d.
Proof.
  destruct g; cbn [driver_go].
  - apply tsafe_then; [intros h d' Hd _; by apply fowes; [|constructor]|]. intros o d'.
    apply tsafe_then; [intros h d'' Hd _; by apply fowes; [|constructor]|]. intros _ d''.
    apply tsafe_section. intros h [] Hd _. by apply fowes; [|constructor].
  - apply tsafe_section, route_result_first.
  - apply doReliableRegistration_first.
  - revert d. induction tasks as [|t tasks IH]; intros d; [done|]. cbn [proc_each]. apply tsafe_bind.
    eapply tsafe_weaken; [apply handler_first, lost_task_first|]. intros _ d' _. apply IH.
  - apply tsafe_section, withScheduler_first.
Qed.

Lemma input_first i d : is_ack i = false → fsafe (input i) always d.
Proof.
  intros Hi. destruct i; cbn [is_ack] in Hi; try done; cbn [input];
    try (apply handler_first; eauto using handleNetworkError_first, resourcesOffered_first,
           resourceOfferRescinded_first, statusUpdated_first, exitedExecutor_first, slaveLost_first,
           frameworkMessageRcvd_first; fail);
    try (apply tsafe_ignore, tsafe_section;
         first [apply start_first|apply stop_first|apply abort_first|apply LaunchTasks_first|apply AcceptOffers_first
               |by apply send_call_first|apply SendFrameworkMessage_first]).
  - apply tsafe_then; [apply master_changed_first|]. intros [[] auth] d'; cbn [fst snd negb]; [|done].
    apply tsafe_then; [apply withScheduler_first|]. intros _ d''.
    destruct auth; [|done]. apply tsafe_section, tryAuthentication_first.
  - apply tsafe_section, fatal_first.
  - apply tsafe_ignore, tsafe_then; [apply Run_start_first|]. intros [a|] d'; [done|]. apply tsafe_section, wait_done_first.
  - apply tsafe_ignore, tsafe_then; [apply Join_check_first|]. intros [a|] d'; [done|]. apply tsafe_section, wait_done_first.
Qed.
End FirstContact.

(** Before the first acknowledgement every registration is the one of the new driver. *)
Lemma first_contact env d sys :
  t_runs unacknowledged env (mkTSystem d [] []) sys →
  sd_frameworkInfo (ts_state sys) = sd_frameworkInfo d ∧ sd_failover (ts_state sys) = sd_failover d ∧
  Forall (first_event (sd_frameworkInfo d) (sd_failover d)) (ts_hist sys).
Proof.
  intros Hr.
  destruct (t_runs_inv unacknowledged env (first_contract (sd_frameworkInfo d) (sd_failover d))
    (λ fuel g d' _, driver_go_first env _ _ fuel g d')
    (λ i d' Hl, input_first env _ _ i d' (proj1 (negb_true_iff _) (proj2 (proj1 (andb_true_iff _ _) Hl))))
    (mkTSystem d [] []) sys) as (Hi & _ & w & Hw & He); [by split; [|constructor]|done|].
  destruct (ti_inv _ _ _ Hi) as [H1 H2]. split_and!; try done. cbn in Hw. by rewrite Hw.
Qed.

(** C9: A scheduler that restarts takes its framework over.  If [main] gets as far
    as its driver and the driver is created, the driver carries the framework's
    name, checkpointing, and the identifier that ZooKeeper answered with, or none when there
    was none.  In every run of that driver, as long as no master has acknowledged a
    registration, each registration it sends is a re-registration marked as a failover
    under that identifier, or, without an identifier, a registration as a new framework; and
    the registration goroutine does send it in every reached state that runs, has a master,
    is authenticated if it must be and is not connected. *)
Theorem restart_takes_over os fl env h cfg fwid weburi cred binding pub timeout user hostname d env' sys :
  (scheduler_main os fl env h).1 = MainRuns cfg fwid weburi cred binding pub →
  run_driver (scheduler_main os fl env h).1 timeout user hostname None None = Some (Returns d) →
  t_runs unacknowledged env' (mkTSystem d [] []) sys →
  let info := sd_frameworkInfo d in
  let first := match fwid with
               | None | Some "" => RegisterFrameworkMessage info
               | Some _ => ReregisterFrameworkMessage info true
               end in
  FIName info = fl_frameworkName fl ∧ FICheckpoint info = true ∧ FIId info = fwid ∧
  (∃ h0, let prev := (GetPreviousFrameworkID (ZkServers cfg) (ZkChroot cfg) (fl_frameworkName fl) env h0).1 in
     (prev.2 = None ∧ fwid = Some prev.1) ∨ (prev.2 = Some ErrZkNoNode ∧ fwid = None)) ∧
  (∀ to m, EvSend to m ∈ ts_hist sys → is_registration m = true → m = first) ∧
  ∀ master h', sd_masterPid (ts_state sys) = Some master → sd_status (ts_state sys) = DRIVER_RUNNING →
    sd_connected (ts_state sys) = false → (sd_credential (ts_state sys) = true → sd_authenticated (ts_state sys) = true) →
    ∃ k, run_alone 2 env' h' (ts_state sys) registerOnce = Done k (ts_state sys) [EvSend (Some master) first] [].
Proof.
  intros Hm Hd Hr. destruct (first_contact _ _ _ Hr) as (Hi & Hf & He). cbv zeta.
  rewrite Hm in Hd. cbn [run_driver] in Hd.
  destruct (scheduler_main_config _ _ _ _ _ _ _ _ _ _ Hm) as (_ & uris & servers & chroot & h0 & -> & _ & _ & Hprev).
  unfold NewMesosSchedulerDriver in Hd. cbn [dc_scheduler dc_master dc_framework dc_credential dc_withAuthContext negb] in Hd.
  case_bool_decide; [done|]. rewrite andb_false_r in Hd. injection Hd as Hd.
  assert (Hmsg : registration_message (sd_failover d) (sd_frameworkInfo d) =
    match fwid with
    | None | Some "" => RegisterFrameworkMessage (sd_frameworkInfo d)
    | Some _ => ReregisterFrameworkMessage (sd_frameworkInfo d) true
    end) by (rewrite <- Hd; by destruct fwid as [[|c f]|]).
  rewrite <- Hmsg. split_and!; try (rewrite <- Hd; done); [by exists h0| |].
  - intros to m Hin Hreg. by apply (proj1 (Forall_forall _ _) He _ Hin).
  - intros master h' Hmp Hst Hco Hau. unfold registerOnce, registration. cbn [mbind proc_bind proc_bind_go atomic run_alone proc_step].
    rewrite crit_bind_run. cbn. unfold stopped. rewrite Hmp, Hst, Hco, bool_decide_eq_true_2 by done. cbn.
    assert ((sd_credential (ts_state sys) && negb (sd_authenticated (ts_state sys))) = false) as ->.
    { destruct (sd_credential (ts_state sys)); [|done]. by rewrite Hau. }
    cbn. rewrite Hf, Hi. eexists. reflexivity.
Qed.

(** ZooKeeper holds the identifier of an earlier run. *)
Definition stored : list Event := [EvZkSet (framework_id_path "/etcd" "etcd") "fw-7"].

Definition restarted : Driver :=
  match run_driver (scheduler_main os1 flags1 zk0 stored).1 604800 "root" "host" None None with
  | Some (Returns d) => d | _ => test_driver
  end.

(** The new driver starts, detects a master and registers. *)
Definition restarted_system : DSystem :=
  default (mkTSystem restarted [] []) (t_moves unacknowledged quiet_env 2 (take 6 connect_moves) (mkTSystem restarted [] [])).

Lemma restarted_runs : t_runs unacknowledged quiet_env (mkTSystem restarted [] []) restarted_system.
Proof.
  destruct (t_moves unacknowledged quiet_env 2 (take 6 connect_moves) (mkTSystem restarted [] [])) as [sys|] eqn:E.
  - apply (t_moves_runs unacknowledged quiet_env 2 (take 6 connect_moves)). unfold restarted_system. by rewrite E.
  - exfalso. revert E. by vm_compute.
Qed.

Lemma restarted_run :
  run_driver (scheduler_main os1 flags1 zk0 stored).1 604800 "root" "host" None None = Some (Returns restarted).
Proof. by_compute. Qed.

Lemma restart_takes_over_witness :
  ts_hist restarted_system = [EvMessengerStart; EvDetect;
    EvSend (Some test_master) (ReregisterFrameworkMessage (sd_frameworkInfo restarted) true)] ∧
  FIId (sd_frameworkInfo restarted) = Some "fw-7" ∧
  ∃ fwid, FIId (sd_frameworkInfo restarted) = fwid ∧
    ∀ to m, EvSend to m ∈ ts_hist restarted_system → is_registration m = true →
      m = match fwid with
          | None | Some "" => RegisterFrameworkMessage (sd_frameworkInfo restarted)
          | Some _ => ReregisterFrameworkMessage (sd_frameworkInfo restarted) true
          end.
Proof.
  split; [by_compute|]. split; [by_compute|].
  assert (Hr : main_runs (scheduler_main os1 flags1 zk0 stored).1 = true) by by_compute.
  destruct ((scheduler_main os1 flags1 zk0 stored).1) as [| | |cfg fwid weburi cred binding pub] eqn:Hm; [discriminate Hr..|].
  destruct (restart_takes_over os1 flags1 zk0 stored cfg fwid weburi cred binding pub 604800 "root" "host" restarted
    quiet_env restarted_system Hm restarted_run restarted_runs) as (_ & _ & Hi & _ & Hs & _).
  exists fwid. split; [exact Hi|exact Hs].
Defined.

(** The scheduler started without a master panics at the end of [main], after it
    has logged the error. *)
Definition flags_no_master : Flags :=
  mkFlags "etcd" "" "zk://h:2181/etcd" 3 23400 240 true 12300 1 1 1 "./bin/ex" "./bin/etcd" "./bin/etcdctl"
    "host" "" 0 "" "" 15 true "".

Lemma missing_master_panics :
  run_driver (scheduler_main os1 flags_no_master zk0 []).1 604800 "root" "host" None None = Some Panics.
Proof. by_compute. Qed.

(** ** The executor's main and its driver *)

(** [main] after the flags: an error of the constructor is only logged, and [Start] is
    called on the nil pointer; after a start without error [main] joins the driver. *)
Definition executor_run (m : option (option string * Z * Executor)) (newMessenger : option error)
    (resolve : string → option error) (getenv : Environ) : option (go (ExecDriver * EP unit)) :=
  match m with
  | None => None
  | Some _ =>
      Some (match NewMesosExecutorDriver true newMessenger resolve getenv with
            | Err _ => Panics
            | Ok d => Returns (d, r ← atomic ExecDriver.Start;
                                  match r.2 with
                                  | Some _ => mret tt
                                  | None => ignore ExecDriver.Join
                                  end)
            end)
  end.

(** The executor that a slave starts registers with that slave, under the identifiers of its
    environment, and then waits: it ends only when its driver is stopped. *)
Lemma executor_registers m getenv env h d p pid :
  executor_run m None (net_resolve (env_net env)) getenv = Some (Returns (d, p)) →
  net_start (env_net env) h = Ok pid → (∀ h to msg, net_send (env_net env) h to msg = None) →
  ∃ slave d' p', Upid.Parse (net_resolve (env_net env)) (getenv "MESOS_SLAVE_PID") = Ok slave ∧
    run_alone 2 env h d p = Done p' d' [EvMessengerStart;
      EvSend (Some slave) (RegisterExecutorMessage (getenv "MESOS_FRAMEWORK_ID") (getenv "MESOS_EXECUTOR_ID"))] [] ∧
    ed_status d' = DRIVER_RUNNING ∧ ∀ h', proc_step env h' d' p' = Blocked.
Proof.
  intros Hrun Hstart Hsend. destruct m as [m|]; [|done]. cbn in Hrun. unfold parseEnviroments in Hrun.
  case_bool_decide; [done|]. destruct (Upid.Parse _ _) as [slave|] eqn:Hp; [|done]. injection Hrun as <- <-.
  exists slave. eexists _, _. split; [done|].
  cbn [mbind proc_bind proc_bind_go atomic run_alone proc_step].
  unfold ExecDriver.Start, ExecDriver.start. rewrite crit_bind_run. cbn.
  rewrite bool_decide_eq_true_2 by done. cbn [negb]. rewrite crit_bind_run. cbn. rewrite app_nil_r, Hstart.
  do 2 (rewrite crit_bind_run; cbn). rewrite Hsend. split_and!; [reflexivity|reflexivity|done].
Qed.

Lemma executor_without_slave_panics :
  executor_run (executor_main Some "" 240 31003) None (λ _, None) (λ _, "") = Some Panics.
Proof. reflexivity. Qed.
