(* ===== verification/DetectorEnd.v ===== *)
(** * The detector and the scheduler driver together

    The driver starts the detector ([EvDetect]) and cancels it; the detector tells
    the driver's listener of a master, which routes a message to the driver
    itself, handled in a goroutine of its own (mesos-go/messenger/messenger.go,
    [Route]).  The joint system runs the detector of ZooDetector.v beside the driver
    of DriverSys.v, each with its own history; its theorem discharges the
    assumption of the driver's system that every master it hears of has a process identifier
    that parses. *)

From stdpp Require Import base strings list gmap relations.
From S2P Require Import Prelude GoStd Errors Upid Json Config Codec Mesos World Rpc Zk ZooDetector Detector.
From S2P Require Import Goroutine Threads SchedDriver DriverSys.

(** The listener of the driver: it starts a goroutine and returns. *)
Definition driver_listener : Listener := mkListener "driver" false (λ _, false) (λ _, false).

(** [master.GetPid()]. *)
Definition GetPid (mi : MasterInfo) : string := default "" (MIPid mi).

(** [Route] to the driver itself: one new goroutine for each message. *)
Definition Route (mi : option MasterInfo) (ds : DSystem) : DSystem :=
  match sd_self (ts_state ds) with
  | Some self => mkTSystem (ts_state ds) (ts_hist ds)
                   (ts_threads ds ++ [input (InMasterChanged self (GetPid <$> mi))])
  | None => ds
  end.

(** What the driver's events do to the detector. *)
Definition react (proto_unmarshal : decoder) (env : Env) (zs : ZSystem) (e : Event) : ZSystem :=
  match e with
  | EvDetect => default zs (z_move proto_unmarshal env (ZDetect (Some driver_listener)) zs)
  | EvDetectCancel => default zs (z_move proto_unmarshal env ZCancel zs)
  | _ => zs
  end.

(** Messages of others and calls; a master change comes from the detector only. *)
Definition outside (i : Input) : bool := match i with InMasterChanged _ _ => false | _ => true end.

Section Joint.
Context (proto_unmarshal : decoder) (env : Env).

Inductive joint_step : ZSystem * DSystem → ZSystem * DSystem → Prop :=
  | joint_thread zs s h ts i p p' s' w gs fuel :
      ts !! i = Some p → proc_step env h s p = Done p' s' w gs →
      joint_step (zs, mkTSystem s h ts)
        (foldl (react proto_unmarshal env) zs w,
         mkTSystem s' (h ++ w) (<[i := p']> ts ++ (driver_go fuel <$> gs)))
  | joint_input zs s h ts i :
      outside i = true → joint_step (zs, mkTSystem s h ts) (zs, mkTSystem s h (ts ++ [input i]))
  | joint_detector zs zs' ds m w :
      z_move proto_unmarshal env m zs = Some zs' → zs_hist zs' = zs_hist zs ++ w →
      joint_step (zs, ds) (zs', foldl (λ ds mi, Route mi ds) ds (told w)).

(** From a new detector and a new driver. *)
Definition joint_reach (zs : ZSystem) (ds : DSystem) : Prop :=
  ∃ url_Parse spec options md config user hostname d,
    NewMasterDetector url_Parse spec options = Returns md ∧
    NewMesosSchedulerDriver config user hostname None None = Ok d ∧
    rtc joint_step (mkZSystem md [] [], mkTSystem d [] []) (zs, ds).

Definition pid_ok (mi : option MasterInfo) : Prop :=
  match mi with
  | Some i => ∃ u, Upid.Parse (net_resolve (env_net env)) (GetPid i) = Ok u
  | None => True
  end.

(** What the masters register carries a process identifier that parses. *)
Definition registered_pids : Prop :=
  ∀ h path data mi, env_zk_get env h path = Ok data →
    proto_unmarshal data = Ok mi ∨ json_master_info data = Ok mi → pid_ok (Some mi).

(** What some read of the node gave. *)
Definition reports (path n : string) (mi : option MasterInfo) : Prop :=
  ∃ h, mi = (leader_info proto_unmarshal path n (node_codec n) env h).1.

Lemma reports_pid_ok path n mi : registered_pids → reports path n mi → pid_ok mi.
Proof.
  intros Hreg [h ->]. unfold leader_info. case_bool_decide; [done|]. rewrite bind_run. cbn [mret IO_ret fst].
  assert (Hp : ∀ dec what, dec = proto_unmarshal ∨ dec = json_master_info →
    pid_ok match (pull dec what path n env h).1 with Ok mi => Some mi | Err _ => None end).
  { intros dec what Hdec. unfold pull. rewrite bind_run. cbn [zk_get act fst snd].
    destruct (env_zk_get env h (path +:+ "/" +:+ n)) as [data|e] eqn:Hg; [|done].
    destruct (dec data) as [mi|e] eqn:Hd; [|done]. cbn. apply (Hreg _ _ _ _ Hg).
    destruct Hdec as [<-|<-]; auto. }
  destruct (node_codec n); cbn [codec_of]; apply Hp; auto.
Qed.

Lemma children_reports path cs f md h :
  Forall (λ mi, ∃ n, reports path n mi) (told (childrenChanged proto_unmarshal path cs f md env h).2).
Proof.
  destruct (childrenChanged_told proto_unmarshal env path cs f md h) as [_ Ha]. cbn zeta in Ha.
  eapply Forall_impl; [by eapply announced_read|]. intros mi (n & h' & ->). by exists n, h'.
Qed.

Lemma detect_step_reports f s md p step h :
  detect_step proto_unmarshal f s md p = Some step →
  Forall (λ mi, ∃ path n, reports path n mi) (told (step env h).2).
Proof.
  assert (Hw : ∀ path cs md h, Forall (λ mi, ∃ path n, reports path n mi)
    (told (childrenChanged proto_unmarshal path cs f md env h).2)).
  { intros path cs md' h'. eapply Forall_impl; [apply children_reports|]. intros mi [n Hn]. by exists path, n. }
  assert (Hnone : ∃ path n, reports path n None) by (exists "", ""; by exists h).
  destruct p as [|path|path rewatch| |], s as [|cs|tie| |]; cbn [detect_step]; try done.
  - intros [= <-]. destruct (md_done md); [by apply Forall_nil|]. destruct (md_client md); by apply Forall_nil.
  - intros [= <-]. rewrite bind_run. cbn [snd mret IO_ret]. by rewrite app_nil_r.
  - intros [= <-]. rewrite bind_run. cbn [snd]. rewrite told_app. apply Forall_app. split.
    + destruct tie; [apply Hw|by apply Forall_nil].
    + generalize ((match tie with Some cs => childrenChanged proto_unmarshal path cs f md | None => mret md end) env h).
      intros [md1 w1]. cbn [fst snd]. destruct (md_done md1); [by apply Forall_nil|].
      case_bool_decide; [by apply Forall_nil|]. by repeat constructor.
  - intros [= <-]. by apply Forall_nil.
  - destruct (md_done md); [|done]. intros [= <-]. by apply Forall_nil.
Qed.

Lemma Detect_silent f md h : told (Detect f md env h).2 = [].
Proof.
  unfold Detect, callBootstrap, bootstrapFunc. rewrite !bind_run. cbn [snd fst mret IO_ret].
  assert (Hc : told (match md_client md with
    | NoClient => connect2 (md_hosts md) (md_path md) | c => mret (c, None) end env h).2 = []).
  { destruct (md_client md); [|done..]. unfold connect2. rewrite bind_run. cbn [zk_connect act fst snd].
    by destruct (env_zk_connect _ _ _). }
  rewrite !told_app, Hc. repeat case_match; by simplify_eq/=.
Qed.

Lemma z_move_told m zs zs' w :
  z_move proto_unmarshal env m zs = Some zs' → zs_hist zs' = zs_hist zs ++ w →
  Forall (λ mi, ∃ path n, reports path n mi) (told w).
Proof.
  destruct zs as [md ts h]. destruct m as [f| |i s|]; cbn [z_move].
  - pose proof (Detect_silent f md h) as Hs. destruct (Detect f md env h) as [[[md' l] e] w']. intros [= <-].
    cbn [zs_hist snd] in *. intros <-%app_inv_head. rewrite Hs. constructor.
  - intros [= <-] Hw. cbn in Hw. rewrite <- (app_nil_r h) in Hw at 1. apply app_inv_head in Hw as <-. constructor.
  - intros (t & _ & (step & Hs & Hr)%bind_Some)%bind_Some. pose proof (detect_step_reports _ _ _ _ _ h Hs) as Hrep.
    destruct (step env h) as [[md' p'] w']. injection Hr as <-. cbn. intros ->%app_inv_head. exact Hrep.
  - intros Hm Hw. repeat case_match; simplify_eq/=. rewrite <- (app_nil_r h) in Hw at 1. apply app_inv_head in Hw as <-. constructor.
Qed.

(** Messages that are routed are steps of the driver's system. *)
Lemma Route_runs mis ds :
  Forall pid_ok mis → ds_runs env ds (foldl (λ ds mi, Route mi ds) ds mis).
Proof.
  intros Hok. revert ds. induction Hok as [|mi mis Hmi _ IH]; intros ds; [done|]. cbn [foldl].
  etrans; [|apply IH]. unfold Route. destruct (sd_self (ts_state ds)) as [self|]; [|done].
  destruct ds as [s h ts]. apply rtc_once. cbn. apply (t_input scheduler_driver env s h ts (InMasterChanged self (GetPid <$> mi))).
  cbn. destruct mi as [i|]; [|done]. destruct Hmi as [u Hu]. cbn. by rewrite Hu.
Qed.

Lemma joint_driver_runs zs ds zs' ds' :
  registered_pids → rtc joint_step (zs, ds) (zs', ds') → ds_runs env ds ds'.
Proof.
  intros Hreg. remember (zs, ds) as a eqn:Ha. remember (zs', ds') as b eqn:Hb. intros Hr. revert zs ds Ha.
  induction Hr as [|x y z Hs _ IH]; intros zs ds ->; [by simplify_eq|]. specialize (IH Hb).
  destruct y as [zs1 ds1]. etrans; [|by eapply IH].
  inversion Hs as [? s h ts i p p' s' w gs fuel Hi Hp|? s h ts i Ho|? ? ? m w Hm Hw]; subst.
  - apply rtc_once. by apply (t_thread scheduler_driver env s h ts i p p' s' w gs fuel).
  - apply rtc_once. apply (t_input scheduler_driver env s h ts i). by destruct i.
  - apply Route_runs. eapply Forall_impl; [by eapply z_move_told|]. intros mi (path & n & Hn). by eapply reports_pid_ok.
Qed.

(** C25: The detector keeps the driver's assumption.  Let the driver run with the
    ZooKeeper detector it starts, in any interleaving of the detector's goroutine,
    of the messages and calls, and of the goroutines that handle the routed
    master changes, in any order.  When the masters register process identifiers
    that parse, the driver stays within the states of its own system; so every
    invariant of that system holds, and no thread panics over a master's
    identifier: a panic is only possible where the driver is already authenticated. *)
Theorem detector_drives_driver_safely zs ds :
  registered_pids → joint_reach zs ds →
  ds_reach env ds ∧ dinv (ts_state ds) ∧
  ∀ i p, ts_threads ds !! i = Some p → proc_step env (ts_hist ds) (ts_state ds) p = Crashed →
    sd_authenticated (ts_state ds) = true.
Proof.
  intros Hreg (up & spec & opts & md & config & user & hostname & d & _ & Hd & Hr).
  assert (Hreach : ds_reach env ds) by (exists config, user, hostname, d; split; [done|by eapply joint_driver_runs]).
  split; [done|]. pose proof (ds_reach_inv _ _ Hreach) as Hinv. split; [apply Hinv|].
  intros i p. exact (t_inv_crash env driver_contract ds i p Hinv).
Qed.

(** *** Runs that can be computed *)

Inductive jmove := JThread (i : nat) | JInput (i : Input) | JDetector (m : zmove).

Definition joint_move (fuel : nat) (m : jmove) (sys : ZSystem * DSystem) : option (ZSystem * DSystem) :=
  let '(zs, ds) := sys in
  match m with
  | JThread i =>
      match ts_threads ds !! i with
      | Some p =>
          match proc_step env (ts_hist ds) (ts_state ds) p with
          | Done p' s' w gs =>
              Some (foldl (react proto_unmarshal env) zs w,
                    mkTSystem s' (ts_hist ds ++ w) (<[i := p']> (ts_threads ds) ++ (driver_go fuel <$> gs)))
          | _ => None
          end
      | None => None
      end
  | JInput i =>
      if outside i then Some (zs, mkTSystem (ts_state ds) (ts_hist ds) (ts_threads ds ++ [input i])) else None
  | JDetector m =>
      zs' ← z_move proto_unmarshal env m zs;
      Some (zs', foldl (λ ds mi, Route mi ds) ds (told (drop (length (zs_hist zs)) (zs_hist zs'))))
  end.

Fixpoint joint_moves (fuel : nat) (ms : list jmove) (sys : ZSystem * DSystem) : option (ZSystem * DSystem) :=
  match ms with
  | [] => Some sys
  | m :: ms => sys ← joint_move fuel m sys; joint_moves fuel ms sys
  end.

Lemma z_move_hist m zs zs' : z_move proto_unmarshal env m zs = Some zs' → ∃ w, zs_hist zs' = zs_hist zs ++ w.
Proof.
  destruct zs as [md ts h]. destruct m as [f| |i s|]; cbn [z_move].
  - destruct (Detect f md env h) as [[[md' l] e] w']. intros [= <-]. by eexists.
  - intros [= <-]. exists []. by rewrite app_nil_r.
  - intros (t & _ & (step & _ & Hr)%bind_Some)%bind_Some. destruct (step env h) as [[md' p'] w'].
    injection Hr as <-. by eexists.
  - intros Hm. repeat case_match; simplify_eq. exists []. by rewrite app_nil_r.
Qed.

Lemma joint_move_step fuel m sys sys' : joint_move fuel m sys = Some sys' → joint_step sys sys'.
Proof.
  destruct sys as [zs ds], m as [i|i|m]; cbn [joint_move].
  - destruct ds as [s h ts]. cbn. destruct (ts !! i) as [p|] eqn:Hi; [|done].
    destruct (proc_step env h s p) as [| |p' s' w gs] eqn:Hp; [done..|]. intros [= <-]. by econstructor.
  - destruct (outside i) eqn:Ho; [|done]. intros [= <-]. destruct ds as [s h ts]. by constructor.
  - intros (zs' & Hm & Hr)%bind_Some. destruct (z_move_hist _ _ _ Hm) as [w Hw].
    rewrite Hw, drop_app_length in Hr. injection Hr as <-. by apply (joint_detector zs zs' ds m w).
Qed.

Lemma joint_moves_runs fuel ms sys sys' : joint_moves fuel ms sys = Some sys' → rtc joint_step sys sys'.
Proof.
  revert sys. induction ms as [|m ms IH]; intros sys; cbn; [by intros [= <-]|].
  intros (sys1 & Hm & Hr)%bind_Some. eapply rtc_l; [by eapply joint_move_step|by apply IH].
Qed.
End Joint.

(** ** Concrete runs *)

(** A ZooKeeper whose nodes hold the given documents. *)
Definition dir_env (files : list (string * string)) : Env := {|
  env_http := env_http quiet_env;
  env_etcd_sync := env_etcd_sync quiet_env;
  env_etcd_get := env_etcd_get quiet_env;
  env_zk_connect _ _ := None;
  env_zk_create := env_zk_create quiet_env;
  env_zk_set := env_zk_set quiet_env;
  env_zk_get _ path := match snd <$> (snd <$> list_find (λ f, f.1 = path) files) with
                       | Some d => Ok d
                       | None => Err ErrZkNoNode
                       end;
  env_zk_delete := env_zk_delete quiet_env;
  env_zk_children := env_zk_children quiet_env;
  env_reconcile := env_reconcile quiet_env;
  env_status := env_status quiet_env;
  env_exec := env_exec quiet_env;
  env_fs := env_fs quiet_env;
  env_clock := env_clock quiet_env;
  env_net := env_net quiet_env;
  env_range := env_range quiet_env;
  env_range_perm := env_range_perm quiet_env;
|}.

Definition pid_doc (pid : string) : string := print (JObj [("pid", JStr pid)]).

Definition two_nodes : list (string * string) :=
  [("/mesos/json.info_0000000001", pid_doc "master@10.0.0.1:5050");
   ("/mesos/json.info_0000000002", pid_doc "master@10.0.0.2:5050")].

Definition no_proto : decoder := λ _, Err ErrProto.
Definition zk_url (s : string) : result URL :=
  if HasPrefix s "zk://h:2181" then Ok (mkURL "zk" "h:2181" (drop_bytes 11 s)) else Err (ErrNew "url").

Definition new_detector : MasterDetector :=
  mkMD ["h:2181"] "/mesos" false NoClient false false "" defaultMinDetectorCyclePeriod.
Definition new_joint : ZSystem * DSystem := (mkZSystem new_detector [] [], new_system).

Definition started : list jmove := [JInput CallStart; JThread 0; JDetector (ZThread 0 Proceed)].

Lemma joint_moves_reach files fuel ms (P : ZSystem * DSystem → Prop) :
  match joint_moves no_proto (dir_env files) fuel ms new_joint with Some sys => P sys | None => False end →
  ∃ zs ds, joint_reach no_proto (dir_env files) zs ds ∧ P (zs, ds).
Proof.
  destruct (joint_moves no_proto (dir_env files) fuel ms new_joint) as [[zs ds]|] eqn:Hm; [|done]. intros HP.
  exists zs, ds. split; [|done]. exists zk_url, "zk://h:2181/mesos", [], new_detector, test_config, "root", "host", test_driver.
  split; [reflexivity|]. split; [reflexivity|]. by eapply joint_moves_runs.
Qed.

(** From the node in ZooKeeper to the registration with that master. *)
Definition first_leader : list jmove :=
  started ++ [JDetector (ZThread 0 (Children ["json.info_0000000001"])); JThread 1; JThread 2; JThread 2].

Lemma first_leader_run : ∃ zs ds, joint_reach no_proto (dir_env two_nodes) zs ds ∧
  md_leaderNode (zs_md zs) = "json.info_0000000001" ∧
  last (ts_hist ds) = Some (EvSend (Some test_master) (RegisterFrameworkMessage test_framework)).
Proof.
  apply (joint_moves_reach two_nodes 2 first_leader
    (λ s, md_leaderNode (zs_md s.1) = "json.info_0000000001" ∧
          last (ts_hist s.2) = Some (EvSend (Some test_master) (RegisterFrameworkMessage test_framework)))).
  vm_compute. by split.
Qed.

Lemma two_nodes_pids : registered_pids no_proto (dir_env two_nodes).
Proof.
  intros h path data mi Hg Hd. cbn [env_zk_get dir_env] in Hg.
  destruct (list_find (λ f, f.1 = path) two_nodes) as [[i f]|] eqn:Hf; [|done]. cbn in Hg. injection Hg as <-.
  apply list_find_Some in Hf as (Hi & _ & _). destruct Hd as [Hd|Hd]; [done|].
  destruct i as [|[|i]]; [injection Hi as <-..|done]; revert Hd; vm_compute; intros [= <-]; by eexists.
Qed.

Lemma detector_drives_driver_safely_witness : ∃ zs (ds : DSystem),
  md_leaderNode (zs_md zs) = "json.info_0000000001" ∧ ds_reach (dir_env two_nodes) ds ∧ dinv (ts_state ds).
Proof.
  destruct first_leader_run as (zs & ds & Hr & Hl & _). exists zs, ds. split; [exact Hl|].
  destruct (detector_drives_driver_safely no_proto (dir_env two_nodes) zs ds two_nodes_pids Hr) as (H1 & H2 & _).
  by split.
Defined.

(** Two leaders, one after the other, whose messages are handled in the other
    order. *)
Definition swapped_changes : list jmove :=
  started ++
  [JDetector (ZThread 0 (Children ["json.info_0000000001"; "json.info_0000000002"])); JDetector (ZThread 0 Timer);
   JDetector (ZThread 0 (Children ["json.info_0000000002"])); JThread 2; JThread 1].

Definition finished (i : nat) (ds : DSystem) : bool :=
  match ts_threads ds !! i with Some (Ret _) => true | _ => false end.

(** Master changes can overtake one another.  The detector tells the driver of
    one leader and then of the next, but each message is handled in a goroutine
    of its own: when the second runs first, the driver ends with the process
    identifier of the old leader, although the detector has the new one on record
    and both messages are handled. *)
Theorem master_changes_overtake : ∃ zs (ds : DSystem),
  joint_reach no_proto (dir_env two_nodes) zs ds ∧
  md_leaderNode (zs_md zs) = "json.info_0000000002" ∧
  told (zs_hist zs) = [Some (mkMasterInfo None None None None None (Some "master@10.0.0.1:5050") None);
                       Some (mkMasterInfo None None None None None (Some "master@10.0.0.2:5050") None)] ∧
  sd_masterPid (ts_state ds) = Some (mkUPID "master" "10.0.0.1" "5050") ∧
  finished 1 ds = true ∧ finished 2 ds = true.
Proof.
  apply (joint_moves_reach two_nodes 2 swapped_changes (λ s,
    md_leaderNode (zs_md s.1) = "json.info_0000000002" ∧
    told (zs_hist s.1) = [Some (mkMasterInfo None None None None None (Some "master@10.0.0.1:5050") None);
                          Some (mkMasterInfo None None None None None (Some "master@10.0.0.2:5050") None)] ∧
    sd_masterPid (ts_state s.2) = Some (mkUPID "master" "10.0.0.1" "5050") ∧
    finished 1 s.2 = true ∧ finished 2 s.2 = true)).
  vm_compute. by split_and!.
Qed.

(** Without the assumption the driver's process dies: a registration without a
    process identifier panics in the handler. *)
Lemma missing_pid_panics : ∃ zs (ds : DSystem),
  joint_reach no_proto (dir_env [("/mesos/json.info_0000000001", "{}")]) zs ds ∧
  panics (dir_env [("/mesos/json.info_0000000001", "{}")]) 1 ds = true ∧ sd_authenticated (ts_state ds) = false.
Proof.
  apply (joint_moves_reach [("/mesos/json.info_0000000001", "{}")] 2
    (started ++ [JDetector (ZThread 0 (Children ["json.info_0000000001"]))])
    (λ s, panics (dir_env [("/mesos/json.info_0000000001", "{}")]) 1 s.2 = true ∧ sd_authenticated (ts_state s.2) = false)).
  vm_compute. by split.
Qed.

(** ** The standalone detector *)

(** What the standalone detector tells of a master names that master for the
    driver too, when its identifier is free of the characters that structure an
    address. *)
Lemma standalone_pid_ok L resolve u mi :
  wf_upid u → resolve (PidHost u +:+ ":" +:+ PidPort u) = None → CreateMasterInfo L (Some u) = Some mi →
  Upid.Parse resolve (GetPid mi) = Ok u.
Proof.
  intros Hu Hres (Hp & _)%CreateMasterInfo_fields. unfold GetPid. rewrite Hp. by apply (upid_round_trip resolve u u).
Qed.

(** A resolver that accepts whatever [net.SplitHostPort] can split. *)
Definition splits (addr : string) : option error :=
  match SplitHostPort addr with Some _ => None | None => Some (ErrNew "too many colons in address") end.

(** An IPv6 master is accepted on the command line, but its identifier is printed
    without the brackets, and the driver's handler panics on it. *)
Lemma ipv6_master_unparsable :
  let u := mkUPID "master" "::1" "5050" in
  let mi := mkMasterInfo (Some "master") (Some 0%Z) (Some 5050%Z) (Some "::1") None (Some "master@::1:5050") None in
  Upid.Parse splits "master@[::1]:5050" = Ok u ∧ CreateMasterInfo (λ _, Ok []) (Some u) = Some mi ∧
  Upid.Parse splits (GetPid mi) = Err (ErrNew "too many colons in address").
Proof. split_and!; by_compute. Qed.
