(* ===== verification/Messenger.v ===== *)
(** * The libprocess messenger (mesos-go/messenger, vendored)

    messenger.go, message.go and the life cycle and both ends of http_transporter.go:
    the queue of outgoing messages and the goroutine that sends them, the queue of
    incoming ones and the goroutine that hands them to the handlers, and the
    stop of both.  The system ([m_move]) interleaves them in any order, one step
    at a time; what the network answers, and when messages arrive, is
    part of the moves.  The requests of a connection are read by HttpDecoder.v; the
    HTTP server and the protocol buffer encoding are not modelled: a message is its
    name and its bytes. *)

From Stdlib Require Import Ascii.
From stdpp Require Import base strings list gmap relations.
From S2P Require Import Prelude GoStd Errors Upid Mesos World Zk ZooDetector Detector.

(** ** Messages and addresses *)

Definition isV1API (name : string) : bool := negb (HasPrefix name "mesos.internal").

Definition RequestURI (to : UPID) (name : string) : string :=
  if isV1API name then "/api/v1/" +:+ name else "/" +:+ PidID to +:+ "/" +:+ name.

(** [None] is an index out of range. *)
Definition extractNameFromRequestURI (uri : string) : option string := Split uri "/" !! 2.

(** The URL a message is posted to. *)
Definition hostport (to : UPID) : string :=
  if negb (has_no ":" (PidHost to)) || negb (has_no "%" (PidHost to))
  then "[" +:+ PidHost to +:+ "]:" +:+ PidPort to else PidHost to +:+ ":" +:+ PidPort to.
Definition targetURL (to : UPID) (name : string) : string := "http://" +:+ hostport to +:+ RequestURI to name.

(** The dotted form of an address, or the text that package [net] gives another one
    ([v6_text]). *)
Definition IP_String (v6_text : IP → string) (ip : IP) : string :=
  match To4 ip with
  | Some ip4 => Join (FormatUint <$> ip4) "."
  | None => v6_text ip
  end.

Definition UPIDBindingAddress (v6_text : IP → string) (LookupIP : resolver) (hostname : string) (bindingAddress : option IP)
    : result string :=
  let text := IP_String v6_text in
  match (ip ← bindingAddress; if bool_decide (text ip = "0.0.0.0") then None else Some (text ip)) with
  | Some host => Ok host
  | None =>
      if bool_decide (hostname = "") || bool_decide (hostname = "0.0.0.0") then Err (ErrNew "invalid hostname") else
      match ParseIP hostname ≫= To4 with
      | Some ip => Ok (text ip)
      | None =>
          match LookupIP hostname with
          | Err e => Err e
          | Ok ips =>
              match head (omap To4 ips), ips with
              | Some ip, _ => Ok (text ip)
              | None, ip :: _ => Ok (text ip)
              | None, [] => Err (ErrNew "failed to determine IP address for host")
              end
          end
      end
  end.

(** [ForHostname]: the identifier of the messenger and the address to bind. *)
Definition ForHostname (v6_text : IP → string) (LookupIP : resolver) (label hostname : string) (bindingAddress : option IP)
    (port : Z) (publishedAddress : option IP) : result (UPID * option IP) :=
  match UPIDBindingAddress v6_text LookupIP hostname bindingAddress with
  | Err e => Err e
  | Ok host =>
      match publishedAddress with
      | None => Ok (mkUPID label host (FormatUint port), bindingAddress)
      | Some p =>
          match UPIDBindingAddress v6_text LookupIP hostname (Some p) with
          | Err e => Err e
          | Ok published => Ok (mkUPID label (if bool_decide (published = "") then host else published)
                                  (FormatUint port), bindingAddress)
          end
      end
  end.

(** The agent after [libprocess/] in the first such [User-Agent]. *)
Definition parseLibprocessAgent (agents : list string) : option string :=
  drop_bytes 11 <$> (snd <$> list_find (λ a, HasPrefix a "libprocess/" = true) agents).

(** Who sent a request: its method, [User-Agent] and [Libprocess-From] headers. *)
Definition getLibprocessFrom (resolve : string → option error) (method : string) (agents from : list string) : result UPID :=
  if negb (bool_decide (method = "POST")) then Err (ErrNew "Not a POST request") else
  match parseLibprocessAgent agents with
  | Some agent => Upid.Parse resolve agent
  | None =>
      match from with
      | lf :: _ => Upid.Parse resolve lf
      | [] => Err (ErrNew "Cannot find 'User-Agent' or 'Libprocess-From'")
      end
  end.

(** The headers of a request that are looked at: [User-Agent] and
    [Libprocess-From], each with its values. *)
Record Request := mkRequest {
  req_method : string;
  req_url : string;
  req_uri : string;
  req_agents : list string;
  req_from : list string;
  req_body : string;
}.

(** The bytes that a URL keeps as they are in a segment of its path and in its
    host. *)
Definition alnum (a : ascii) : bool :=
  is_digit a || ((65 <=? byte a) && (byte a <=? 90) || (97 <=? byte a) && (byte a <=? 122))%N.
Definition one_of (s : string) (a : ascii) : bool := negb (has_no a s).
Definition plain_segment (s : string) : bool := all_bytes (λ a, alnum a || one_of "-_.~$&+,;=:@()!*'" a) s.
Definition plain_host (s : string) : bool := all_bytes (λ a, alnum a || one_of "-_.:" a) s.

(** The URL of a message needs neither escapes nor a check of its host. *)
Definition plain_target (to : UPID) (name : string) : bool :=
  plain_host (PidHost to) && all_bytes is_digit (PidPort to) && plain_segment (PidID to) && plain_segment name.

(** [http.NewRequest]: the URI that is requested for a URL, or the error of its
    parser.  A plain path is requested as it is written; what package [net/url] makes
    of another URL is [odd]. *)
Definition NewRequest (odd : string → result string) (to : UPID) (name : string) : result string :=
  if plain_target to name then Ok (RequestURI to name) else odd (targetURL to name).

(** The request that carries a message; the agent is the one package [net/http]
    puts ([agent]). *)
Definition makeLibprocessRequest (odd : string → result string) (agent : string) (self to : UPID) (name bytes : string)
    : result Request :=
  match NewRequest odd to name with
  | Err e => Err e
  | Ok uri => Ok (mkRequest "POST" (targetURL to name) uri [agent] (if isV1API name then [] else [PidString self]) bytes)
  end.

(** The path under which a name is bound. *)
Definition install_path (self : UPID) (name : string) : string := "/" +:+ PidID self +:+ "/" +:+ name.

Record Outgoing := mkOut { out_to : UPID; out_name : string; out_session : option string; out_bytes : string }.
Record Incoming := mkIn { in_from : UPID; in_name : string; in_bytes : string }.

(** The message of a request whose body is there; [None] is an index out of range. *)
Definition request_message (from : UPID) (r : Request) : option Incoming :=
  (λ name, mkIn from name (req_body r)) <$> extractNameFromRequestURI (req_uri r).

(** Whether the request is answered with 202: not when libprocess sent it. *)
Definition answers_request (r : Request) : bool := bool_decide (parseLibprocessAgent (req_agents r) = None).

(** ** State *)

Definition defaultQueueSize : nat := 1024.

(** The errors of the transporter that are told apart. *)
Inductive tr_error :=
  | errNotStarted
  | errTerminal
  | errAlreadyRunning
  | discardOnStop
  | networkError (cause : error)
  | mesosError (code : Z)
  | otherError (e : error).

Inductive tr_state := TNotStarted | TRunning | TStopped.

#[export] Instance tr_state_eq_dec : EqDecision tr_state.
Proof. solve_decision. Defined.

(** Where the goroutine of [sendLoop] is: in its [select], with a message to give to
    the transporter, in [send] of the running transporter, waiting for the answer to a
    request, waiting for a cancelled request to return, or returned. *)
Inductive send_pc :=
  SIdle | SHave (o : Outgoing) | SSend (o : Outgoing) | SWait (o : Outgoing) | SCut (o : Outgoing) | SExited.

(** Where the goroutine of [decodeLoop] is: before the check of [stop], before the
    state of the transporter is looked at, in the two [select]s of [recv], with
    a message to hand over, inside a handler, returned, or dead of the panic for an
    unexpected error. *)
Inductive decode_pc := DTop | DRecv | DSelect | DWait | DHave (m : Incoming) | DHandler | DExited | DPanicked.

(** [stop] is nil before [Start]; [stopOnce] is unused, inside its function, or
    done. *)
Inductive stop_pc := StopUnused | StopInside | StopOver.

(** A network error that is routed to the messenger's own process. *)
Record Routed := mkRouted { rt_pid : string; rt_session : option string }.

(** The messenger, its transporter ([t_]) and its goroutines ([m_sending],
    [m_decode]). *)
Record Messenger := mkMessenger {
  m_upid : UPID;
  m_installed : gset string;
  m_sendingQueue : list Outgoing;
  m_stop : option bool;
  m_stopOnce : stop_pc;
  m_sending : send_pc;
  m_decode : decode_pc;
  t_upid : UPID;
  t_state : tr_state;
  t_listening : bool;
  t_shouldQuit : bool;
  t_messageQueue : list Incoming;
}.

Definition with_installed (g : gset string) (m : Messenger) : Messenger :=
  mkMessenger (m_upid m) g (m_sendingQueue m) (m_stop m) (m_stopOnce m) (m_sending m) (m_decode m)
    (t_upid m) (t_state m) (t_listening m) (t_shouldQuit m) (t_messageQueue m).
Definition with_upid (u : UPID) (m : Messenger) : Messenger :=
  mkMessenger u (m_installed m) (m_sendingQueue m) (m_stop m) (m_stopOnce m) (m_sending m) (m_decode m)
    (t_upid m) (t_state m) (t_listening m) (t_shouldQuit m) (t_messageQueue m).
Definition with_sending (p : send_pc) (q : list Outgoing) (m : Messenger) : Messenger :=
  mkMessenger (m_upid m) (m_installed m) q (m_stop m) (m_stopOnce m) p (m_decode m)
    (t_upid m) (t_state m) (t_listening m) (t_shouldQuit m) (t_messageQueue m).
Definition with_decode (p : decode_pc) (q : list Incoming) (m : Messenger) : Messenger :=
  mkMessenger (m_upid m) (m_installed m) (m_sendingQueue m) (m_stop m) (m_stopOnce m) (m_sending m) p
    (t_upid m) (t_state m) (t_listening m) (t_shouldQuit m) q.
Definition with_stop (s : option bool) (o : stop_pc) (m : Messenger) : Messenger :=
  mkMessenger (m_upid m) (m_installed m) (m_sendingQueue m) s o (m_sending m) (m_decode m)
    (t_upid m) (t_state m) (t_listening m) (t_shouldQuit m) (t_messageQueue m).
Definition with_transport (u : UPID) (s : tr_state) (listening quit : bool) (m : Messenger) : Messenger :=
  mkMessenger (m_upid m) (m_installed m) (m_sendingQueue m) (m_stop m) (m_stopOnce m) (m_sending m) (m_decode m)
    u s listening quit (t_messageQueue m).

(** What has happened: the messages that were accepted, those that were given to the
    transporter with its answer, the network errors that were routed; the messages
    that arrived, those taken from the queue, those handed to a handler. *)
Record Trace := mkTrace {
  accepted : list Outgoing;
  attempted : list (Outgoing * option tr_error);
  routed : list Routed;
  arrived : list Incoming;
  taken : list Incoming;
  handled : list Incoming;
}.

(** ** Operations *)

(** A messenger over a new transporter; its own identifier is set by [Start]. *)
Definition New (u : UPID) : Messenger :=
  mkMessenger (mkUPID "" "" "") ∅ [] None StopUnused SExited DExited u TNotStarted false false [].

(** [Install] for a message type that is a pointer. *)
Definition Install (name : string) (m : Messenger) : Messenger * option error :=
  if bool_decide (name ∈ m_installed m) then (m, Some (ErrNew ("Message " +:+ name +:+ " is already installed")))
  else (with_installed ({[name]} ∪ m_installed m) m, None).

(** [Send] of a message that encodes, on a context that is never done (the ones of the
    drivers are not): whether the message is put into the queue; [None] when the call
    waits for room. *)
Definition Send (to : option UPID) (o : UPID → Outgoing) (m : Messenger) : option (go (Messenger * option error)) :=
  match to with
  | None => Some Panics
  | Some u =>
      if bool_decide (u = m_upid m) then Some (Returns (m, Some (ErrNew "Send the message to self")))
      else if bool_decide (length (m_sendingQueue m) < defaultQueueSize)
      then Some (Returns (with_sending (m_sending m) (m_sendingQueue m ++ [o u]) m, None))
      else None
  end.

(** [listen]: the address that is listened on, and the identifier after it; [Listen]
    gives the host and port of the listener. *)
Definition listen (v6_text : IP → string) (Listen : string → string → result (string * string)) (address : option IP)
    (u : UPID) : result UPID :=
  let host := match address with Some ip => IP_String v6_text ip | None => PidHost u end in
  let port := if bool_decide (PidPort u = "") then "0" else PidPort u in
  match Listen host port with
  | Err e => Err e
  | Ok (h, p) =>
      Ok (mkUPID (PidID u) (if bool_decide (PidHost u = "") then h else PidHost u)
            (if bool_decide (PidPort u = "") || bool_decide (PidPort u = "0") then p else PidPort u))
  end.

(** [Start] of the transporter in its three states; [ln] is [listen] on its
    identifier.  A transporter whose [listen] fails is running without a listener. *)
Definition tr_Start (ln : UPID → result UPID) (m : Messenger) : Messenger * result UPID :=
  match t_state m with
  | TNotStarted =>
      match ln (t_upid m) with
      | Ok u => (with_transport u TRunning true (t_shouldQuit m) m, Ok u)
      | Err e => (with_transport (t_upid m) TRunning false (t_shouldQuit m) m, Err e)
      end
  | TRunning => (m, Err (ErrNew "HTTP transport is already running"))
  | TStopped => (m, Err (ErrNew "HTTP transport is terminated"))
  end.

(** [Stop] of the transporter; closing the listener succeeds or fails, and without one
    it is a nil dereference. *)
Definition tr_Stop (close_err : option error) (m : Messenger) : go (Messenger * option tr_error) :=
  match t_state m with
  | TNotStarted => Returns (m, Some errNotStarted)
  | TStopped => Returns (m, Some errTerminal)
  | TRunning =>
      if t_listening m then Returns (with_transport (t_upid m) TStopped true true m, otherError <$> close_err) else Panics
  end.

Definition Start (ln : UPID → result UPID) (m : Messenger) : Messenger * option error :=
  let m := with_stop (Some false) (m_stopOnce m) m in
  let '(m, r) := tr_Start ln m in
  match r with
  | Err e => (m, Some e)
  | Ok pid => (with_decode DTop (t_messageQueue m) (with_sending SIdle (m_sendingQueue m) (with_upid pid m)), None)
  end.

(** What [send] makes of the answer to its request. *)
Definition send_result (resp : HttpResult) : option tr_error :=
  match resp with
  | HttpFail e => Some (networkError e)
  | HttpResp code _ => if bool_decide (code = 200%Z) || bool_decide (code = 202%Z) then None else Some (mesosError code)
  end.

Definition network_error_name : string := "mesos.internal.InternalNetworkError".

(** The error handler of [sendLoop]: what it routes. *)
Definition on_send_error (installed : gset string) (o : Outgoing) (err : option tr_error) : list Routed :=
  match err with
  | Some (networkError _) =>
      if bool_decide (network_error_name ∈ installed) then [mkRouted (PidString (out_to o)) (out_session o)] else []
  | _ => []
  end.

(** ** The system *)

Inductive mmove :=
  | MSend (o : Outgoing)
  | MSendTake
  | MSendGo
  | MSendDone (resp : HttpResult)
  | MSendCut
  | MSendReturns
  | MSendExit
  | MArrive (i : Incoming)
  | MDecode
  | MDecodeQuit
  | MHandlerReturns
  | MStopBegin (close_err : option error)
  | MStopEnd
  | MServerEnds.

(** What the messenger gets from outside: whether the bytes of a message decode, what
    becomes of a URL that is not plain, and the agent of its requests. *)
Record Wire := mkWire {
  decodes : Incoming → bool;
  odd_url : string → result string;
  user_agent : string;
}.

(** Whether a message that was taken is handed to a handler: its name is bound
    and its bytes decode. *)
Definition deliverable (w : Wire) (installed : gset string) (i : Incoming) : bool :=
  bool_decide (in_name i ∈ installed) && decodes w i.

(** A message has its answer. *)
Definition answered (o : Outgoing) (err : option tr_error) (m : Messenger) (t : Trace) : Messenger * Trace :=
  (with_sending SIdle (m_sendingQueue m) m,
   mkTrace (accepted t) (attempted t ++ [(o, err)]) (routed t ++ on_send_error (m_installed m) o err) (arrived t)
     (taken t) (handled t)).

(** One step of [sendLoop]: the [select]; the state of the transporter; the making of
    the request and the check of [httpDo]; the answer; the stop of the transporter
    while it is awaited, which cancels the request; the return of a cancelled request,
    whenever that is. *)
Definition send_step (w : Wire) (mv : mmove) (m : Messenger) (t : Trace) : option (Messenger * Trace) :=
  match mv, m_sending m with
  | MSendTake, SIdle =>
      match m_sendingQueue m with
      | o :: q => Some (with_sending (SHave o) q m, t)
      | [] => None
      end
  | MSendExit, SIdle =>
      if bool_decide (m_stop m = Some true) then Some (with_sending SExited (m_sendingQueue m) m, t) else None
  | MSendGo, SHave o =>
      match t_state m with
      | TNotStarted => Some (answered o (Some errNotStarted) m t)
      | TStopped => Some (answered o (Some errTerminal) m t)
      | TRunning => Some (with_sending (SSend o) (m_sendingQueue m) m, t)
      end
  | MSendGo, SSend o =>
      match makeLibprocessRequest (odd_url w) (user_agent w) (t_upid m) (out_to o) (out_name o) (out_bytes o) with
      | Err e => Some (answered o (Some (otherError e)) m t)
      | Ok _ =>
          if t_shouldQuit m then Some (answered o (Some discardOnStop) m t)
          else Some (with_sending (SWait o) (m_sendingQueue m) m, t)
      end
  | MSendDone resp, SWait o => Some (answered o (send_result resp) m t)
  | MSendCut, SWait o => if t_shouldQuit m then Some (with_sending (SCut o) (m_sendingQueue m) m, t) else None
  | MSendReturns, SCut o => Some (answered o (Some discardOnStop) m t)
  | _, _ => None
  end.

(** One step of [decodeLoop]; a handler is entered here and returns by a step of its
    own. *)
Definition decode_step (w : Wire) (m : Messenger) (t : Trace) : option (Messenger * Trace) :=
  match m_decode m with
  | DTop => Some (with_decode (if bool_decide (m_stop m = Some true) then DExited else DRecv) (t_messageQueue m) m, t)
  | DRecv => Some (with_decode (match t_state m with TRunning => DSelect | _ => DPanicked end) (t_messageQueue m) m, t)
  | DSelect => Some (with_decode (if t_shouldQuit m then DExited else DWait) (t_messageQueue m) m, t)
  | DWait =>
      match t_messageQueue m with
      | i :: q => Some (with_decode (DHave i) q m,
                        mkTrace (accepted t) (attempted t) (routed t) (arrived t) (taken t ++ [i]) (handled t))
      | [] => None
      end
  | DHave i =>
      Some (if deliverable w (m_installed m) i
            then (with_decode DHandler (t_messageQueue m) m,
                  mkTrace (accepted t) (attempted t) (routed t) (arrived t) (taken t) (handled t ++ [i]))
            else (with_decode DTop (t_messageQueue m) m, t))
  | DHandler | DExited | DPanicked => None
  end.

(** [Stop] up to the close of [stop], in its [Once]. *)
Definition stop_begin (close_err : option error) (m : Messenger) : option (go Messenger) :=
  match m_stopOnce m with
  | StopUnused =>
      match tr_Stop close_err m with
      | Returns (m, _) => Some (Returns (with_stop (m_stop m) StopInside m))
      | Panics => Some Panics
      end
  | _ => None
  end.

(** The deferred close of [stop]; closing a nil channel panics. *)
Definition stop_end (m : Messenger) : option (go Messenger) :=
  match m_stopOnce m with
  | StopInside =>
      match m_stop m with
      | Some _ => Some (Returns (with_stop (Some true) StopOver m))
      | None => Some Panics
      end
  | _ => None
  end.

(** A message that arrives is queued when there is room; without, the handler of its
    request waits, or drops it when the transporter stops. *)
Definition m_move (w : Wire) (mv : mmove) (m : Messenger) (t : Trace) : option (Messenger * Trace) :=
  match mv with
  | MSend o =>
      match Send (Some (out_to o)) (λ _, o) m with
      | Some (Returns (m', None)) =>
          Some (m', mkTrace (accepted t ++ [o]) (attempted t) (routed t) (arrived t) (taken t) (handled t))
      | _ => None
      end
  | MSendTake | MSendGo | MSendDone _ | MSendCut | MSendReturns | MSendExit => send_step w mv m t
  | MArrive i =>
      if bool_decide (t_state m = TNotStarted) || negb (bool_decide (length (t_messageQueue m) < defaultQueueSize)) then None
      else Some (with_decode (m_decode m) (t_messageQueue m ++ [i]) m,
                 mkTrace (accepted t) (attempted t) (routed t) (arrived t ++ [i]) (taken t) (handled t))
  | MDecode => decode_step w m t
  | MDecodeQuit =>
      match m_decode m with
      | DWait => if t_shouldQuit m then Some (with_decode DExited (t_messageQueue m) m, t) else None
      | _ => None
      end
  | MHandlerReturns =>
      match m_decode m with DHandler => Some (with_decode DTop (t_messageQueue m) m, t) | _ => None end
  | MStopBegin close_err =>
      match stop_begin close_err m with Some (Returns m') => Some (m', t) | _ => None end
  | MStopEnd =>
      match stop_end m with Some (Returns m') => Some (m', t) | _ => None end
  | MServerEnds =>
      match t_state m, tr_Stop None m with TRunning, Returns (m', _) => Some (m', t) | _, _ => None end
  end.

Inductive m_step (w : Wire) : Messenger * Trace → Messenger * Trace → Prop :=
  | m_step_move mv m t m' t' : m_move w mv m t = Some (m', t') → m_step w (m, t) (m', t').

Fixpoint m_moves (w : Wire) (ms : list mmove) (m : Messenger) (t : Trace) : option (Messenger * Trace) :=
  match ms with
  | [] => Some (m, t)
  | mv :: ms => r ← m_move w mv m t; m_moves w ms r.1 r.2
  end.

Lemma m_moves_runs w ms m t m' t' :
  m_moves w ms m t = Some (m', t') → rtc (m_step w) (m, t) (m', t').
Proof.
  revert m t. induction ms as [|mv ms IH]; intros m t; cbn; [by intros [= -> ->]|].
  intros ([m1 t1] & Hm & Hr)%bind_Some. eapply rtc_l; [by econstructor|by apply IH].
Qed.

(** ** The invariant *)

Definition no_trace : Trace := mkTrace [] [] [] [] [] [].

(** A messenger that has started: any bindings, nothing sent or received. *)
Definition started (installed : gset string) (u : UPID) : Messenger :=
  mkMessenger u installed [] (Some false) StopUnused SIdle DTop u TRunning true false [].

Lemma Start_started u pid ln installed :
  ln u = Ok pid → Start ln (with_installed installed (New u)) = (started installed pid, None).
Proof. intros Hl. cbv -[started]. by rewrite Hl. Qed.

(** The message the sender has taken and not got an answer for. *)
Definition in_flight (m : Messenger) : list Outgoing :=
  match m_sending m with SHave o | SSend o | SWait o | SCut o => [o] | _ => [] end.

Section Runs.
Context (w : Wire) (installed : gset string) (u : UPID).

Definition m_reach (m : Messenger) (t : Trace) : Prop :=
  rtc (m_step w) (started installed u, no_trace) (m, t).

(** The messages taken whose handling is over. *)
Definition settled (m : Messenger) (t : Trace) (done_ : list Incoming) : Prop :=
  match m_decode m with DHave i => taken t = done_ ++ [i] | _ => taken t = done_ end.

Record m_inv (m : Messenger) (t : Trace) : Prop := {
  mi_installed : m_installed m = installed;
  mi_sent : accepted t = (attempted t).*1 ++ in_flight m ++ m_sendingQueue m;
  mi_routed : routed t = attempted t ≫= λ a, on_send_error installed a.1 a.2;
  mi_arrived : arrived t = taken t ++ t_messageQueue m;
  mi_handled : ∃ done_, settled m t done_ ∧ handled t = filter (λ i, deliverable w installed i = true) done_;
  mi_out_bound : length (m_sendingQueue m) ≤ defaultQueueSize;
  mi_in_bound : length (t_messageQueue m) ≤ defaultQueueSize;
  mi_quit : t_state m = TStopped ↔ t_shouldQuit m = true;
  mi_panicked : m_decode m = DPanicked → t_state m = TStopped;
  mi_started : t_state m ≠ TNotStarted;
  mi_listening : t_listening m = true;
  mi_once : match m_stopOnce m with
            | StopUnused => m_stop m = Some false
            | StopInside => m_stop m = Some false ∧ t_state m = TStopped
            | StopOver => m_stop m = Some true ∧ t_state m = TStopped
            end;
}.

Lemma started_inv : m_inv (started installed u) no_trace.
Proof. split; try done; [by exists []|cbn; lia|cbn; lia]. Qed.

Lemma m_inv_stop m t s o :
  m_inv m t → t_state m = TStopped → (o = StopInside ∧ s = Some false) ∨ (o = StopOver ∧ s = Some true) →
  m_inv (with_stop s o m) t.
Proof. by intros [] ? [[-> ->]|[-> ->]]; split. Qed.

Lemma m_inv_tr_Stop m t e m' r :
  m_inv m t → tr_Stop e m = Returns (m', r) →
  m_inv m' t ∧ t_state m' = TStopped ∧ m_stop m' = m_stop m.
Proof.
  intros Hi. unfold tr_Stop. destruct (t_state m) eqn:Hs.
  - by destruct (mi_started _ _ Hi).
  - destruct (t_listening m); [|done]. intros [= <- _]. destruct Hi; split; [split|]; try done. revert mi_once0. cbn. destruct (m_stopOnce m); naive_solver.
  - by intros [= <- _].
Qed.

Lemma m_inv_answered m t o err r :
  m_inv m t → in_flight m = [o] → Some (answered o err m t) = Some r → m_inv r.1 r.2.
Proof.
  intros [] Ho [= <-]. rewrite Ho in mi_sent0. split; try done; cbn.
  - by rewrite mi_sent0, fmap_app, <- app_assoc.
  - by rewrite bind_app, mi_routed0, mi_installed0; cbn; rewrite app_nil_r.
Qed.

Lemma m_inv_send mv m t m' t' : m_inv m t → send_step w mv m t = Some (m', t') → m_inv m' t'.
Proof.
  intros Hi. unfold send_step.
  assert (Ha : ∀ o err, in_flight m = [o] → Some (answered o err m t) = Some (m', t') → m_inv m' t').
  { intros o err Ho. by apply (m_inv_answered _ _ _ _ (m', t')). }
  assert (Hk : ∀ o p, in_flight m = [o] → p = SSend o ∨ p = SWait o ∨ p = SCut o →
    Some (with_sending p (m_sendingQueue m) m, t) = Some (m', t') → m_inv m' t').
  { intros o p Ho Hp [= <- <-]. destruct Hi. split; try done. rewrite mi_sent0, Ho. by destruct Hp as [-> |[-> | ->]]. }
  destruct mv; try done; destruct (m_sending m) as [|o|o|o|o|] eqn:Hp; try done;
    unfold in_flight in *; rewrite Hp in *.
  - destruct (m_sendingQueue m) as [|o q] eqn:Hq; [done|]. intros [= <- <-]. destruct Hi.
    split; try done; cbn in *; [|rewrite Hq in *; cbn in *; lia].
    rewrite mi_sent0. unfold in_flight. by rewrite Hp, Hq.
  - destruct (t_state m); [by apply Ha|apply (Hk o); auto|by apply Ha].
  - destruct (makeLibprocessRequest _ _ _ _ _ _); [|by apply Ha].
    destruct (t_shouldQuit m); [by apply Ha|apply (Hk o); auto].
  - by apply Ha.
  - destruct (t_shouldQuit m); [apply (Hk o); auto|done].
  - by apply Ha.
  - case_bool_decide; [|done]. intros [= <- <-]. destruct Hi. split; try done. rewrite mi_sent0. unfold in_flight. by rewrite Hp.
Qed.

(** Steps of the decoder that take and finish nothing. *)
Lemma m_inv_decode_pc m t p :
  m_inv m t → (∀ i, m_decode m ≠ DHave i) → (∀ i, p ≠ DHave i) → (p = DPanicked → t_state m = TStopped) →
  m_inv (with_decode p (t_messageQueue m) m) t.
Proof.
  intros [] Hm Hp Hs. split; try done. destruct mi_handled0 as (d & Hd & Hh). exists d. split; [|done].
  unfold settled in *. cbn. destruct (m_decode m) as [| | | |i| | |]; try (by destruct (Hm i));
    destruct p as [| | | |j| | |]; try done; by destruct (Hp j).
Qed.

Lemma m_inv_decode m t m' t' : m_inv m t → decode_step w m t = Some (m', t') → m_inv m' t'.
Proof.
  intros Hi Hd. unfold decode_step in Hd. destruct (m_decode m) as [| | | |i| | |] eqn:Hp; try done.
  - injection Hd as <- <-. apply m_inv_decode_pc; rewrite ?Hp; try done; by case_bool_decide.
  - injection Hd as <- <-. pose proof (mi_started _ _ Hi).
    apply m_inv_decode_pc; rewrite ?Hp; try done; by destruct (t_state m).
  - injection Hd as <- <-. apply m_inv_decode_pc; rewrite ?Hp; try done; by destruct (t_shouldQuit m).
  - destruct (t_messageQueue m) as [|i q] eqn:Hq; [done|]. injection Hd as <- <-. destruct Hi.
    split; try done; cbn in *; [| |rewrite Hq in *; cbn in *; lia].
    + by rewrite mi_arrived0, Hq, <- app_assoc.
    + destruct mi_handled0 as (d & Hd & Hh). unfold settled in *. rewrite Hp in Hd. exists d. cbn. by rewrite Hd.
  - destruct Hi. rewrite mi_installed0 in Hd. destruct mi_handled0 as (d & Hs & Hh). unfold settled in Hs.
    rewrite Hp in Hs.
    destruct (deliverable w installed i) eqn:He; injection Hd as <- <-; split; try done; cbn; exists (d ++ [i]); (split; [done|]);
      rewrite filter_app, Hh; [by rewrite filter_cons_True, filter_nil|by rewrite filter_cons_False, filter_nil, app_nil_r by by rewrite He].
Qed.

Lemma m_inv_move mv m t m' t' : m_inv m t → m_move w mv m t = Some (m', t') → m_inv m' t'.
Proof.
  intros Hi. destruct mv as [o| | | | | | |i| | | |e| |]; cbn [m_move]; try (by apply m_inv_send).
  - unfold Send. case_bool_decide; [done|]. case_bool_decide as Hl; [|done]. intros [= <- <-]. destruct Hi.
    split; try done; cbn; [by rewrite mi_sent0, <- !app_assoc|rewrite length_app; cbn; lia].
  - case_bool_decide; [done|]. cbn. case_bool_decide as Hl; [|done]. intros [= <- <-]. destruct Hi.
    split; try done; cbn; [by rewrite mi_arrived0, <- app_assoc|rewrite length_app; cbn; lia].
  - by apply m_inv_decode.
  - destruct (m_decode m) eqn:Hp; try done. destruct (t_shouldQuit m); [|done]. intros [= <- <-].
    by apply m_inv_decode_pc; rewrite ?Hp.
  - destruct (m_decode m) eqn:Hp; try done. intros [= <- <-]. by apply m_inv_decode_pc; rewrite ?Hp.
  - unfold stop_begin. pose proof (mi_once _ _ Hi) as Ho. destruct (m_stopOnce m); try done.
    destruct (tr_Stop e m) as [[m1 r]|] eqn:Hs; [|done]. intros [= <- <-].
    destruct (m_inv_tr_Stop _ _ _ _ _ Hi Hs) as (Hi' & Ht & He). apply m_inv_stop; [done|done|left; by rewrite He].
  - unfold stop_end. pose proof (mi_once _ _ Hi) as Ho. destruct (m_stopOnce m); try done. destruct (m_stop m); [|done].
    intros [= <- <-]. apply m_inv_stop; [done|apply Ho|by right].
  - destruct (t_state m); try done. destruct (tr_Stop None m) as [[m1 r]|] eqn:Hs; [|done]. intros [= <- <-].
    by eapply m_inv_tr_Stop.
Qed.

Lemma m_reach_inv m t : m_reach m t → m_inv m t.
Proof.
  intros Hr. change (m_inv (m, t).1 (m, t).2). revert Hr. unfold m_reach. generalize (m, t) as b.
  assert (Hi : m_inv (started installed u, no_trace).1 (started installed u, no_trace).2) by apply started_inv.
  revert Hi. generalize (started installed u, no_trace) as a. intros a Hi b Hr.
  induction Hr as [x|x y z Hs _ IH]; [done|]. apply IH. destruct Hs. by eapply m_inv_move.
Qed.

(** Taking a prefix of the messages takes a prefix of the deliverable ones. *)
Lemma handled_prefix m t : m_inv m t → handled t `prefix_of` filter (λ i, deliverable w installed i = true) (arrived t).
Proof.
  intros []. destruct mi_handled0 as (d & Hd & ->).
  assert (∃ k, arrived t = d ++ k) as [k ->]; [|by rewrite filter_app; apply prefix_app_r].
  rewrite mi_arrived0. unfold settled in Hd. destruct (m_decode m); rewrite Hd; rewrite <- ?app_assoc; eauto.
Qed.

End Runs.

(** ** Properties *)

(** C28: Messages keep their order and none is lost or doubled inside the messenger.
    However senders, the network, the receiving handlers and the stop
    interleave, from a started messenger: the messages that were accepted are, in order,
    those given to the transporter, the one in flight and those in the queue; for each
    that failed on the network, and for no other, a network error with its
    destination and session is routed to the process (when it is bound); what
    arrived is, in order, what the decoder took and what is queued; and
    the handlers have been called, in order, on the first of the bound and
    decodable messages that arrived.  Neither queue passes its size. *)
Theorem messages_in_order w installed u m t :
  m_reach w installed u m t →
  accepted t = (attempted t).*1 ++ in_flight m ++ m_sendingQueue m ∧
  routed t = (attempted t ≫= λ a, on_send_error installed a.1 a.2) ∧
  arrived t = taken t ++ t_messageQueue m ∧
  handled t `prefix_of` filter (λ i, deliverable w installed i = true) (arrived t) ∧
  length (m_sendingQueue m) ≤ defaultQueueSize ∧ length (t_messageQueue m) ≤ defaultQueueSize.
Proof.
  intros Hi%m_reach_inv. pose proof (handled_prefix _ _ _ _ Hi). by destruct Hi.
Qed.

(** The decoder can die of a stop.  [Stop] stops the transporter before it closes
    [stop], and a decoder that has passed the check of [stop] and not yet asked the
    transporter ends in the panic for an unexpected transport error; it panics in no
    other way, and the panic is reachable while [stop] is still open. *)
Theorem stop_may_kill_decoder w installed u :
  (∀ m t, m_reach w installed u m t → m_decode m = DPanicked → t_state m = TStopped) ∧
  (∃ m t, m_reach w installed u m t ∧ m_stopOnce m = StopInside ∧ m_stop m = Some false ∧ m_decode m = DPanicked).
Proof.
  split.
  - intros m t Hi%m_reach_inv. by destruct Hi.
  - do 2 eexists. split; [apply (m_moves_runs _ [MDecode; MStopBegin None; MDecode]); reflexivity|done].
Qed.

(** A plain segment has no slash. *)
Lemma plain_segment_no_slash s : plain_segment s = true → has_no "/" s = true.
Proof.
  unfold plain_segment, has_no. apply all_bytes_impl. intros a Ha. apply negb_true_iff, bool_decide_eq_false_2. by intros ->.
Qed.

(** C29: A message crosses the wire.  When the sender's identifier is well formed and
    resolves, and the agent is not libprocess's, then of every request that is made for a
    message of an internal type the receiver finds the sender in its header and answers
    202, and the sender takes that as success; a message of another type carries no
    sender, and the receiver refuses it.  When the host, port and identifier of the
    destination and the name have only bytes that a URL keeps, the request is made, and
    one of an internal type is posted under the path where the receiver binds that name
    and gives back the sender, name and bytes. *)
Theorem message_crosses_wire odd resolve agent self to name bytes :
  wf_upid self → resolve (PidHost self +:+ ":" +:+ PidPort self) = None →
  HasPrefix agent "libprocess/" = false →
  let made := makeLibprocessRequest odd agent self to name bytes in
  (∀ r, made = Ok r →
     let from := getLibprocessFrom resolve (req_method r) (req_agents r) (req_from r) in
     if isV1API name then from = Err (ErrNew "Cannot find 'User-Agent' or 'Libprocess-From'")
     else from = Ok self ∧ answers_request r = true ∧ send_result (HttpResp 202 (Ok "")) = None) ∧
  (plain_target to name = true →
     ∃ r, made = Ok r ∧ req_url r = targetURL to name ∧ req_uri r = RequestURI to name ∧
       (isV1API name = false →
        req_uri r = install_path to name ∧ request_message self r = Some (mkIn self name bytes))).
Proof.
  intros Hw Hr Ha made.
  assert (Hag : parseLibprocessAgent [agent] = None) by (unfold parseLibprocessAgent, list_find; destruct (decide _); [congruence|done]).
  split.
  - unfold made, makeLibprocessRequest. intros r Hm. destruct (NewRequest odd to name); [|done]. injection Hm as <-.
    cbn [req_method req_agents req_from]. unfold getLibprocessFrom. rewrite bool_decide_eq_true_2, Hag by done. cbn [negb].
    destruct (isV1API name); [done|]. split_and!; [by apply Parse_PidString|by apply bool_decide_eq_true_2|done].
  - intros Hp. unfold made, makeLibprocessRequest, NewRequest. rewrite Hp. eexists. split_and!; [done..|]. intros Hn.
    assert (Hu : RequestURI to name = install_path to name) by (unfold RequestURI; by rewrite Hn). split; [done|].
    unfold plain_target in Hp. rewrite !andb_true_iff in Hp. destruct Hp as [[_ Hi%plain_segment_no_slash] Hna%plain_segment_no_slash].
    unfold request_message, extractNameFromRequestURI. cbn [req_uri req_body]. rewrite Hu. unfold install_path.
    change ("/" +:+ PidID to +:+ "/" +:+ name) with (("" : string) +:+ String "/" (PidID to +:+ String "/" name)).
    rewrite Split_app by done. rewrite Split_app by done. by rewrite Split_no.
Qed.

(** One message that fails on the network and one that is delivered; then one arrives
    and is handled, and the messenger stops. *)
Definition demo_self : UPID := mkUPID "scheduler(1)" "10.0.0.7" "40000".
Definition demo_out (n : string) : Outgoing := mkOut (mkUPID "master" "10.0.0.1" "5050") n (Some "session") "bytes".
Definition demo_in : Incoming := mkIn (mkUPID "master" "10.0.0.1" "5050") "mesos.internal.FrameworkRegisteredMessage" "bytes".
Definition demo_installed : gset string := {[network_error_name; in_name demo_in]}.
Definition demo_moves : list mmove :=
  [MSend (demo_out "a"); MSendTake; MSendGo; MSendGo; MSend (demo_out "b"); MSendDone (HttpFail (ErrNew "refused"));
   MSendTake; MSendGo; MSendGo; MSendDone (HttpResp 202 (Ok "")); MArrive demo_in; MDecode; MDecode; MDecode; MDecode;
   MDecode; MHandlerReturns; MSend (demo_out "d"); MSendTake; MSendGo; MSendGo; MStopBegin None; MSendCut; MSendReturns;
   MSend (demo_out "c"); MSendTake; MSendGo; MStopEnd].
Definition demo_wire : Wire := mkWire (λ _, true) (λ _, Err (ErrNew "invalid URL")) "Go 1.1 package http".

Lemma demo_runs :
  ∃ m t, m_moves demo_wire demo_moves (started demo_installed demo_self) no_trace = Some (m, t) ∧
    m_stopOnce m = StopOver ∧ handled t = [demo_in] ∧ routed t = [mkRouted "master@10.0.0.1:5050" (Some "session")] ∧
    (attempted t).*2 = [Some (networkError (ErrNew "refused")); None; Some discardOnStop; Some errTerminal].
Proof. do 2 eexists. split; [vm_compute; reflexivity|done]. Qed.

Lemma messages_in_order_witness :
  ∃ m t, m_reach demo_wire demo_installed demo_self m t ∧ accepted t = [demo_out "a"; demo_out "b"; demo_out "d"; demo_out "c"] ∧
    accepted t = (attempted t).*1 ++ in_flight m ++ m_sendingQueue m.
Proof.
  assert (H : is_Some (m_moves demo_wire demo_moves (started demo_installed demo_self) no_trace)) by (apply is_Some_alt; vm_compute; exact I).
  destruct (m_moves demo_wire demo_moves (started demo_installed demo_self) no_trace) as [[m t]|] eqn:E; [|by destruct H].
  exists m, t. pose proof (m_moves_runs _ _ _ _ _ _ E) as Hr. split_and!; [exact Hr| |].
  - vm_compute in E. by injection E as _ <-.
  - apply (messages_in_order demo_wire demo_installed demo_self m t Hr).
Defined.

Lemma message_crosses_wire_witness :
  let made := makeLibprocessRequest (odd_url demo_wire) (user_agent demo_wire) demo_self (mkUPID "master" "10.0.0.1" "5050")
    "mesos.internal.RegisterFrameworkMessage" "bytes" in
  ∃ r, made = Ok r ∧ getLibprocessFrom (λ _, None) (req_method r) (req_agents r) (req_from r) = Ok demo_self ∧
    req_uri r = "/master/mesos.internal.RegisterFrameworkMessage" ∧
    request_message demo_self r = Some (mkIn demo_self "mesos.internal.RegisterFrameworkMessage" "bytes").
Proof.
  destruct (message_crosses_wire (odd_url demo_wire) (λ _, None) (user_agent demo_wire) demo_self (mkUPID "master" "10.0.0.1" "5050")
    "mesos.internal.RegisterFrameworkMessage" "bytes") as [Hall Hplain];
    [vm_compute; by split_and!|reflexivity|reflexivity|].
  destruct Hplain as (r & Hr & _ & Hu & Hm); [reflexivity|]. exists r. split; [exact Hr|]. split; [by apply (Hall r Hr)|].
  split; [exact Hu|]. by apply Hm.
Defined.

(** ** Life cycle errors *)

(** [Stop] on a messenger that never started closes a nil channel. *)
Lemma stop_before_start_panics u m : stop_begin None (New u) = Some (Returns m) → stop_end m = Some Panics.
Proof. by intros [= <-]. Qed.

(** After a [Start] that could not listen, the transporter counts as running: a second
    [Start] is refused and [Stop] dereferences the listener that is not there. *)
Lemma failed_listen_poisons u e :
  let m := (Start (λ _, Err e) (New u)).1 in
  (Start (λ _, Err e) (New u)).2 = Some e ∧
  (∀ ln, (Start ln m).2 = Some (ErrNew "HTTP transport is already running")) ∧ stop_begin None m = Some Panics.
Proof. done. Qed.

(** A listener on any port gives the messenger the port it was given. *)
Lemma listen_any_port v6 Listen address id host h p :
  host ≠ "" → (∀ a, Listen a "0" = Ok (h, p)) → listen v6 Listen address (mkUPID id host "0") = Ok (mkUPID id host p).
Proof. intros Hh Hl. unfold listen. cbn. by rewrite Hl, bool_decide_eq_false_2 by done. Qed.
