(* ===== verification/HttpDecoder.v ===== *)
(** * The request decoder of the messenger (mesos-go/messenger/decoder.go, vendored)

    A connection is taken over from [net/http] after the first request was read up to
    its headers; a state machine then reads its body and the requests that follow,
    hands each to the transporter and waits for the answer.  The connection is what it
    will deliver: bytes, stalls longer than the read timeout, failures; its end is the end
    of the stream.  The readers of [bufio], [net/textproto] and [bytes] are
    written out on it, since the decoder depends on what they do with half a
    line.  The machine ([d_move]) is driven by one step at a time; what the consumer
    of the requests does and when the decoder is cancelled is part of the moves.
    The goroutine that writes the answers is left out: it takes them in order.  Lines
    are shorter than the buffer of [bufio]. *)

From Stdlib Require Import Ascii HexadecimalString HexadecimalN.
From stdpp Require Import base strings list gmap relations.
From S2P Require Import Prelude GoStd Errors Upid Mesos World Zk ZooDetector Detector Messenger.

(** ** The connection *)

Inductive item := B (a : ascii) | Stall | Broken (e : error).
Abbreviation wire := (list item).

(** The errors of a read that are told apart. *)
Inductive read_error := Timeout | EOF | Failed (e : error).

Definition lf : ascii := "010".
Definition cr : ascii := "013".
Definition crlf : string := String cr (String lf "").

(** [bufio.Reader.ReadSlice] up to the end of a line. *)
Fixpoint read_slice (w : wire) : string * option read_error * wire :=
  match w with
  | [] => ("", Some EOF, [])
  | Stall :: w => ("", Some Timeout, w)
  | Broken e :: w => ("", Some (Failed e), w)
  | B a :: w =>
      if bool_decide (a = lf) then (String a "", None, w)
      else let '(l, e, w') := read_slice w in (String a l, e, w')
  end.

Fixpoint strip_eol (s : string) : string :=
  match s with
  | "" => ""
  | String a s' => if bool_decide (s = crlf) || bool_decide (s = String lf "") then "" else String a (strip_eol s')
  end.

(** [ReadLine]: a line that an error cuts short is answered like a whole one, and
    the error is dropped. *)
Definition ReadLine (w : wire) : string * option read_error * wire :=
  let '(l, e, w') := read_slice w in
  if bool_decide (l = "") then ("", e, w') else (strip_eol l, None, w').

(** [bytes.Buffer.ReadFrom] of an [io.LimitedReader] with [n] bytes left: what was read,
    what is left, the error; the end of the stream is none. *)
Fixpoint ReadFrom (w : wire) (n : Z) : string * Z * option read_error * wire :=
  if bool_decide (n ≤ 0)%Z then ("", n, None, w) else
  match w with
  | [] => ("", n, None, [])
  | Stall :: w => ("", n, Some Timeout, w)
  | Broken e :: w => ("", n, Some (Failed e), w)
  | B a :: w => let '(s, n', e, w') := ReadFrom w (n - 1) in (String a s, n', e, w')
  end.

(** [Peek(2)]: two bytes, or the error; the bytes stay. *)
Definition Peek2 (w : wire) : (ascii * ascii) + (read_error * wire) :=
  match w with
  | B a :: B b :: _ => inl (a, b)
  | B a :: Stall :: w => inr (Timeout, B a :: w)
  | B a :: Broken e :: w => inr (Failed e, B a :: w)
  | [B a] => inr (EOF, [B a])
  | Stall :: w => inr (Timeout, w)
  | Broken e :: w => inr (Failed e, w)
  | [] => inr (EOF, [])
  end.

(** ** Headers ([net/textproto]) *)

Definition blank (a : ascii) : bool := bool_decide (a = " "%char) || bool_decide (a = "009"%char).

Fixpoint trim_l (s : string) : string :=
  match s with String a s' => if blank a then trim_l s' else s | "" => "" end.
Fixpoint trim_r (s : string) : string :=
  match s with
  | "" => ""
  | String a s' => let t := trim_r s' in if bool_decide (t = "") && blank a then "" else String a t
  end.
Definition trim (s : string) : string := trim_r (trim_l s).

(** [skipSpace]: whether there was any; an error of the read is dropped. *)
Fixpoint skip_space (w : wire) : bool * wire :=
  match w with
  | B a :: w' => if blank a then (true, (skip_space w').2) else (false, w)
  | Stall :: w' | Broken _ :: w' => (false, w')
  | [] => (false, [])
  end.

(** [readContinuedLineSlice] after the first line. *)
Fixpoint continued (fuel : nat) (w : wire) (buf : string) : string * wire :=
  match fuel with
  | O => (buf, w)
  | S fuel =>
      let '(some, w) := skip_space w in
      if negb some then (buf, w) else
      match ReadLine w with
      | (_, Some _, w) => (buf, w)
      | (l, None, w) => continued fuel w (buf +:+ " " +:+ trim l)
      end
  end.

Definition readContinuedLine (w : wire) : string * option read_error * wire :=
  match ReadLine w with
  | (_, Some e, w) => ("", Some e, w)
  | ("", None, w) => ("", None, w)
  | (l, None, w) => let '(buf, w) := continued (S (length w)) w (trim l) in (buf, None, w)
  end.

Definition to_upper (a : ascii) : ascii :=
  if ((97 <=? byte a) && (byte a <=? 122))%N then ascii_of_N (byte a - 32) else a.
Definition to_lower (a : ascii) : ascii :=
  if ((65 <=? byte a) && (byte a <=? 90))%N then ascii_of_N (byte a + 32) else a.

Definition is_alpha (a : ascii) : bool := (((97 <=? byte a) && (byte a <=? 122)) || ((65 <=? byte a) && (byte a <=? 90)))%N.
Definition token_byte (a : ascii) : bool :=
  is_alpha a || is_digit a ||
  bool_decide (a ∈ ["!"; "#"; "$"; "%"; "&"; "'"; "*"; "+"; "-"; "."; "^"; "_"; "`"; "|"; "~"]%char).

Fixpoint canonical_loop (upper : bool) (s : string) : string :=
  match s with
  | "" => ""
  | String a s => String (if upper then to_upper a else to_lower a) (canonical_loop (bool_decide (a = "-"%char)) s)
  end.
Definition canonicalMIMEHeaderKey (s : string) : string :=
  if all_bytes token_byte s then canonical_loop true s else s.

(** The part before the first [c], and the part after it. *)
Fixpoint cut (c : ascii) (s : string) : option (string * string) :=
  match s with
  | "" => None
  | String a s => if bool_decide (a = c) then Some ("", s) else '(l, r) ← cut c s; Some (String a l, r)
  end.

Fixpoint trim_spaces_r (s : string) : string :=
  match s with
  | "" => ""
  | String a s' => let t := trim_spaces_r s' in if bool_decide (t = "") && bool_decide (a = " "%char) then "" else String a t
  end.

(** [ReadMIMEHeader]: the fields that were read, and the error that ended them. *)
Fixpoint ReadMIMEHeader (fuel : nat) (w : wire) : list (string * string) * option read_error * wire :=
  match fuel with
  | O => ([], None, w)
  | S fuel =>
      match readContinuedLine w with
      | ("", e, w) => ([], e, w)
      | (kv, _, w) =>
          match cut ":" kv with
          | None => ([], Some (Failed (ErrNew "malformed MIME header line")), w)
          | Some (k, v) =>
              let key := canonicalMIMEHeaderKey (trim_spaces_r k) in
              let '(fields, e, w) := ReadMIMEHeader fuel w in
              ((if bool_decide (key = "") then [] else [(key, trim_l v)]) ++ fields, e, w)
          end
      end
  end.

Abbreviation Header := (gmap string (list string)).

Definition Header_Get (h : Header) (k : string) : string := default "" (head (default [] (h !! k))).
Definition header_add (kv : string * string) (h : Header) : Header := <[kv.1 := default [] (h !! kv.1) ++ [kv.2]]> h.

(** ** Numbers and versions *)

Fixpoint lower (s : string) : string :=
  match s with "" => "" | String a s => String (to_lower a) (lower s) end.

(** [strconv.ParseInt(s, 16, 64)]. *)
Definition ParseHex (s : string) : option Z :=
  let '(neg, digits) :=
    match s with
    | String "-" r => (true, r)
    | String "+" r => (false, r)
    | _ => (false, s)
    end in
  match digits with
  | "" => None
  | _ =>
      d ← HexadecimalString.NilEmpty.uint_of_string (lower digits);
      let n := Z.of_N (N.of_hex_uint d) in
      if negb neg && bool_decide (2 ^ 63 ≤ n)%Z then None
      else if neg && bool_decide (2 ^ 63 < n)%Z then None
      else Some (if neg then - n else n)%Z
  end.

Definition small_version (s : string) : bool :=
  match ParseInt s with Some n => bool_decide (0 ≤ n ≤ 1000000)%Z | None => false end.

Definition ParseHTTPVersion (vers : string) : bool :=
  if HasPrefix vers "HTTP/" then
    match cut "." (drop_bytes 5 vers) with
    | Some (major, minor) => small_version major && small_version minor
    | None => false
    end
  else false.

(** ** The decoder *)

(** A request as the decoder keeps it. *)
Record HReq := mkHReq {
  h_Method : string;
  h_RequestURI : string;
  h_Proto : string;
  h_Header : Header;
  h_Host : string;
  h_ContentLength : Z;
}.

Record Response := mkResp { code : Z; reason : string }.

(** The decoder: [d_errs] what was sent to [errCh], [d_closed] whether [msg] and [errCh]
    are closed, [d_given] the requests the consumer took, [d_out] the answers that
    were given to the writer. *)
Record Decoder := mkDecoder {
  d_req : HReq;
  d_kalive : bool;
  d_chunked : bool;
  d_buf : string;
  d_lrc : Z;
  d_shouldQuit : bool;
  d_forceQuit : bool;
  d_wire : wire;
  d_errs : list error;
  d_closed : bool;
  d_con : bool;
  d_given : list Request;
  d_out : list string;
}.

Definition with_req (r : HReq) (d : Decoder) : Decoder :=
  mkDecoder r (d_kalive d) (d_chunked d) (d_buf d) (d_lrc d) (d_shouldQuit d) (d_forceQuit d) (d_wire d) (d_errs d)
    (d_closed d) (d_con d) (d_given d) (d_out d).
Definition with_mode (kalive chunked : bool) (d : Decoder) : Decoder :=
  mkDecoder (d_req d) kalive chunked (d_buf d) (d_lrc d) (d_shouldQuit d) (d_forceQuit d) (d_wire d) (d_errs d)
    (d_closed d) (d_con d) (d_given d) (d_out d).
Definition with_buf (buf : string) (lrc : Z) (w : wire) (d : Decoder) : Decoder :=
  mkDecoder (d_req d) (d_kalive d) (d_chunked d) buf lrc (d_shouldQuit d) (d_forceQuit d) w (d_errs d)
    (d_closed d) (d_con d) (d_given d) (d_out d).
Definition with_quit (quit force : bool) (d : Decoder) : Decoder :=
  mkDecoder (d_req d) (d_kalive d) (d_chunked d) (d_buf d) (d_lrc d) quit force (d_wire d) (d_errs d)
    (d_closed d) (d_con d) (d_given d) (d_out d).
Definition with_errs (errs : list error) (d : Decoder) : Decoder :=
  mkDecoder (d_req d) (d_kalive d) (d_chunked d) (d_buf d) (d_lrc d) (d_shouldQuit d) (d_forceQuit d) (d_wire d) errs
    (d_closed d) (d_con d) (d_given d) (d_out d).
Definition with_ends (closed con : bool) (d : Decoder) : Decoder :=
  mkDecoder (d_req d) (d_kalive d) (d_chunked d) (d_buf d) (d_lrc d) (d_shouldQuit d) (d_forceQuit d) (d_wire d) (d_errs d)
    closed con (d_given d) (d_out d).
Definition with_traffic (given : list Request) (out : list string) (d : Decoder) : Decoder :=
  mkDecoder (d_req d) (d_kalive d) (d_chunked d) (d_buf d) (d_lrc d) (d_shouldQuit d) (d_forceQuit d) (d_wire d) (d_errs d)
    (d_closed d) (d_con d) given out.
Abbreviation with_wire w d := (with_buf (d_buf d) (d_lrc d) w d).

(** [httpState]: the functions, the three [select]s of [generateRequest], and
    [finished] for nil. *)
Inductive httpState :=
  | readChunkHeaderState
  | readChunkState
  | readEndOfChunkState
  | readEndOfChunkStreamState
  | readBodyState
  | awaitRequestState
  | readHeaderState
  | offering (r : Request)
  | replying
  | shipping (out : string)
  | terminateState
  | gracefulTerminateState
  | finished.

(** A step ends, waits for room in a channel, or panics. *)
Definition step_result : Type := option (go (httpState * Decoder)).

Definition Cancel (graceful : bool) (d : Decoder) : Decoder :=
  with_quit true (d_forceQuit d || negb graceful) d.

(** [sendError] followed by [terminateState]; [errCh] has room for one error. *)
Definition fail (e : error) (d : Decoder) : step_result :=
  if bool_decide (length (d_errs d) < 1) then Some (Returns (terminateState, with_errs (d_errs d ++ [e]) d)) else None.

Definition updateForRequest (bootstrapping : bool) (d : Decoder) : Decoder :=
  let chunked := bool_decide ("chunked" ∈ default [] (h_Header (d_req d) !! "Transfer-Encoding")) in
  let unknown := negb chunked && bool_decide (h_ContentLength (d_req d) < 0)%Z in
  let r := d_req d in
  let r := if unknown && negb bootstrapping
           then mkHReq (h_Method r) (h_RequestURI r) (h_Proto r) (h_Header r) (h_Host r) 0 else r in
  with_mode (bool_decide (Header_Get (h_Header r) "Connection" = "Keep-Alive")) (chunked || (unknown && bootstrapping))
    (with_req r d).

Definition readBodyContent (d : Decoder) : httpState * Decoder :=
  if d_chunked d then (readChunkHeaderState, with_buf "" (d_lrc d) (d_wire d) d)
  else (readBodyState, with_buf "" (h_ContentLength (d_req d)) (d_wire d) d).

(** The request that is handed over: its body is the buffer. *)
Definition built_request (d : Decoder) : Request :=
  let r := d_req d in
  mkRequest (h_Method r) "" (h_RequestURI r) (default [] (h_Header r !! "User-Agent"))
    (default [] (h_Header r !! "Libprocess-From")) (d_buf d).

Definition generateRequest (d : Decoder) : httpState := offering (built_request d).

Definition buildResponseEntity (d : Decoder) (resp : Response) : string :=
  "HTTP/1.1 " +:+ FormatInt (code resp) +:+ " " +:+ reason resp +:+ crlf +:+ "Content-Length: 0" +:+ crlf +:+
  (if d_shouldQuit d then "Connection: Close" +:+ crlf else "") +:+ crlf.

(** The end of [generateRequest]. *)
Definition next_request (d : Decoder) : httpState * Decoder :=
  if d_kalive d then (awaitRequestState, with_req (mkHReq "" "" "" ∅ "" (-1)) d) else (gracefulTerminateState, d).

(** [checkTimeoutOrFail] for an error; when both channels are closed the [select] takes
    either ([coin]). *)
Definition checkTimeoutOrFail (coin : bool) (e : read_error) (again : httpState) (d : Decoder) : step_result :=
  match e with
  | Timeout =>
      Some (Returns (if d_forceQuit d && (coin || negb (d_shouldQuit d)) then terminateState
                     else if d_shouldQuit d then gracefulTerminateState else again, d))
  | EOF => fail (ErrRead "EOF") d
  | Failed e => fail e d
  end.

(** Whether the state sets a read deadline first. *)
Definition sets_deadline (st : httpState) (d : Decoder) : bool :=
  match st with
  | readChunkHeaderState | readChunkState | readEndOfChunkState | readEndOfChunkStreamState | awaitRequestState
  | readHeaderState => true
  | readBodyState => bool_decide (0 < d_lrc d)%Z
  | _ => false
  end.

(** The end of a chunk and of the stream of chunks: a line end, then [next]. *)
Definition read_crlf (coin : bool) (again : httpState) (next : Decoder → httpState) (d : Decoder) : step_result :=
  match Peek2 (d_wire d) with
  | inl (a, b) =>
      if bool_decide (String a (String b "") = crlf)
      then let d := with_wire (drop 2 (d_wire d)) d in Some (Returns (next d, d))
      else fail (ErrNew "unexpected data at end-of-chunk marker") d
  | inr (e, w) => checkTimeoutOrFail coin e again (with_wire w d)
  end.

Section Machine.
Context (ParseRequestURI : string → option error).

(** The request line, once it is read. *)
Definition request_line (line : string) (d : Decoder) : step_result :=
  match ('(meth, rest) ← cut " " line; '(uri, proto) ← cut " " rest; Some (meth, uri, proto)) with
  | None => fail (ErrNew "illegal request line") d
  | Some (meth, uri, proto) =>
      match ParseRequestURI uri with
      | Some e => fail e d
      | None =>
          if ParseHTTPVersion proto
          then let r := d_req d in
               Some (Returns (readHeaderState,
                 with_req (mkHReq meth uri proto (h_Header r) (h_Host r) (h_ContentLength r)) d))
          else fail (ErrNew "malformed HTTP version") d
      end
  end.

(** The special headers and the start of the body. *)
Definition header_read (d : Decoder) : step_result :=
  let r := d_req d in
  let host := Header_Get (h_Header r) "Host" in
  let cl := Header_Get (h_Header r) "Content-Length" in
  let content l :=
    Some (Returns (readBodyContent (updateForRequest false
      (with_req (mkHReq (h_Method r) (h_RequestURI r) (h_Proto r) (h_Header r) host l) d)))) in
  if bool_decide (cl = "") then content (h_ContentLength r) else
  match ParseInt cl with
  | None => fail (ErrNew "strconv.ParseInt") d
  | Some l => content (if bool_decide (-1 < l)%Z then l else h_ContentLength r)
  end.

(** A step of the machine in a state that reads, once the deadline is set. *)
Definition read_step (coin : bool) (st : httpState) (d : Decoder) : step_result :=
  match st with
  | readChunkHeaderState =>
      match ReadLine (d_wire d) with
      | (_, Some e, w) => checkTimeoutOrFail coin e st (with_wire w d)
      | (hexlen, None, w) =>
          let d := with_wire w d in
          match ParseHex hexlen with
          | None => fail (ErrNew "strconv.ParseInt") d
          | Some clen =>
              if bool_decide (clen = 0)%Z then Some (Returns (readEndOfChunkStreamState, d))
              else Some (Returns (readChunkState, with_buf (d_buf d) clen w d))
          end
      end
  | readChunkState =>
      let '(s, n, e, w) := ReadFrom (d_wire d) (d_lrc d) in
      let d := with_buf (d_buf d +:+ s) n w d in
      match e with
      | Some e => checkTimeoutOrFail coin e st d
      | None => Some (Returns (readEndOfChunkState, d))
      end
  | readEndOfChunkState => read_crlf coin st (λ _, readChunkHeaderState) d
  | readEndOfChunkStreamState => read_crlf coin st generateRequest d
  | readBodyState =>
      let '(s, n, e, w) := ReadFrom (d_wire d) (d_lrc d) in
      let d := with_buf (d_buf d +:+ s) n w d in
      if bool_decide (n ≤ 0)%Z then Some (Returns (generateRequest d, d)) else
      match e with
      | Some e => checkTimeoutOrFail coin e st d
      | None => Some (Returns (readBodyState, d))
      end
  | awaitRequestState =>
      match ReadLine (d_wire d) with
      | (_, Some EOF, w) => Some (Returns (gracefulTerminateState, with_wire w d))
      | (_, Some e, w) => checkTimeoutOrFail coin e st (with_wire w d)
      | (line, None, w) => request_line line (with_wire w d)
      end
  | readHeaderState =>
      let '(fields, e, w) := ReadMIMEHeader (S (length (d_wire d))) (d_wire d) in
      let r := d_req d in
      let h := foldl (λ h kv, header_add kv h) (h_Header r) fields in
      let d := with_wire w (with_req (mkHReq (h_Method r) (h_RequestURI r) (h_Proto r) h (h_Host r) (h_ContentLength r)) d) in
      match e with
      | Some e => checkTimeoutOrFail coin e st d
      | None => header_read d
      end
  | _ => None
  end.

(** Closing a channel a second time panics. *)
Definition terminate (graceful : bool) (d : Decoder) : step_result :=
  if d_closed d then Some Panics
  else Some (Returns (finished, Cancel graceful (with_ends true (d_con d && graceful) d))).

Inductive dmove :=
  | DRead (deadline : option error) (coin : bool)
  | DTerminate
  | DTake
  | DReply (resp : option Response)
  | DShip
  | DForced
  | DCancel (graceful : bool).

Definition is_read (st : httpState) : bool :=
  match st with
  | readChunkHeaderState | readChunkState | readEndOfChunkState | readEndOfChunkStreamState | readBodyState
  | awaitRequestState | readHeaderState => true
  | _ => false
  end.

Definition d_move (mv : dmove) (st : httpState) (d : Decoder) : step_result :=
  match mv, st with
  | DRead deadline coin, _ =>
      if is_read st then
        match (if sets_deadline st d then deadline else None) with
        | Some e => fail e d
        | None => read_step coin st d
        end
      else None
  | DTerminate, terminateState => terminate false d
  | DTerminate, gracefulTerminateState => terminate true d
  | DTake, offering r => Some (Returns (replying, with_traffic (d_given d ++ [r]) (d_out d) d))
  | DReply (Some resp), replying => Some (Returns (shipping (buildResponseEntity d resp), d))
  | DReply None, replying => Some (Returns (next_request d))
  | DShip, shipping out => Some (Returns (next_request (with_traffic (d_given d) (d_out d ++ [out]) d)))
  | DForced, (offering _ | replying | shipping _) => if d_forceQuit d then Some (Returns (terminateState, d)) else None
  | DCancel graceful, _ => Some (Returns (st, Cancel graceful d))
  | _, _ => None
  end.

Fixpoint d_moves (ms : list dmove) (st : httpState) (d : Decoder) : step_result :=
  match ms with
  | [] => Some (Returns (st, d))
  | mv :: ms =>
      match d_move mv st d with
      | Some (Returns (st, d)) => d_moves ms st d
      | r => r
      end
  end.

(** [DecodeHTTP] and [bootstrapState]: the decoder of a connection whose first request [r]
    is read up to its headers; taking the connection over may fail. *)
Definition DecodeHTTP (r : HReq) (w : wire) : Decoder :=
  mkDecoder r false false "" 0 false false w [] false false [] [].
Definition bootstrapState (hijack : bool) (d : Decoder) : step_result :=
  let d := updateForRequest true d in
  if negb hijack then fail (ErrNew "failed to hijack http connection") d
  else Some (Returns (readBodyContent (with_ends (d_closed d) true d))).
End Machine.

(** ** What senders put on the wire *)

Fixpoint bytes (s : string) : wire := match s with "" => [] | String a s => B a :: bytes s end.

(** The bytes of [s], with stalls before any of them. *)
Inductive Data : wire → string → Prop :=
  | data_nil : Data [] ""
  | data_stall w a s : Data w (String a s) → Data (Stall :: w) (String a s)
  | data_byte w a s : Data w s → Data (B a :: w) (String a s).

(** A line, with stalls before it but not inside. *)
Definition Line (w : wire) (l : string) : Prop := ∃ k, w = replicate k Stall ++ bytes (l +:+ crlf).

Definition FormatHex (n : N) : string := HexadecimalString.NilEmpty.string_of_uint (N.to_hex_uint n).

(** A stream of chunks. *)
Inductive Chunks : wire → list string → Prop :=
  | chunks_end wl wc : Line wl "0" → Data wc crlf → Chunks (wl ++ wc) []
  | chunks_cons wl wd wc w c cs :
      c ≠ "" → Line wl (FormatHex (N.of_nat (String.length c))) → Data wd c → Data wc crlf → Chunks w cs →
      Chunks (wl ++ wd ++ wc ++ w) (c :: cs).

Definition Body (chunked : bool) (w : wire) (body : string) : Prop :=
  if chunked then ∃ cs, Chunks w cs ∧ body = Join cs "" else Data w body.

(** A header field that is printed as it is read. *)
Definition ok_field (kv : string * string) : Prop :=
  canonicalMIMEHeaderKey kv.1 = kv.1 ∧ kv.1 ≠ "" ∧ all_bytes token_byte kv.1 = true ∧
  kv.2 ≠ "" ∧ trim_l kv.2 = kv.2 ∧ trim_r kv.2 = kv.2 ∧ has_no lf kv.2 = true.

Definition field_line (kv : string * string) : string := kv.1 +:+ ": " +:+ kv.2.

Inductive Headers : wire → list (string * string) → Prop :=
  | headers_end : Headers (bytes crlf) []
  | headers_stall w fs : Headers w fs → Headers (Stall :: w) fs
  | headers_line w kv fs : ok_field kv → Headers w fs → Headers (bytes (field_line kv +:+ crlf) ++ w) (kv :: fs).

(** ** Readers on what was sent *)

Lemma bytes_app s t : bytes (s +:+ t) = bytes s ++ bytes t.
Proof. induction s as [|a s IH]; [done|]. rewrite sapp_cons. cbn. by rewrite IH. Qed.

Lemma read_slice_line l rest :
  has_no lf l = true → read_slice (bytes (l +:+ crlf) ++ rest) = (l +:+ crlf, None, rest).
Proof.
  unfold has_no. induction l as [|a l IH]; [done|]. rewrite sapp_cons. cbn [bytes app read_slice all_bytes].
  rewrite andb_true_iff, negb_true_iff. intros [-> Hl]. by rewrite (IH Hl).
Qed.

Lemma crlf_tail l : l +:+ crlf ≠ String lf "" ∧ ∀ a, String a l +:+ crlf ≠ crlf.
Proof.
  split; [by destruct l as [|a [|b l]]|]. intros a H. rewrite sapp_cons in H. injection H as _ H.
  by destruct l as [|b [|c l]].
Qed.

Lemma strip_eol_line l : strip_eol (l +:+ crlf) = l.
Proof.
  induction l as [|a l IH]; [done|]. rewrite sapp_cons. cbn [strip_eol].
  rewrite (bool_decide_eq_false_2 (_ = crlf)), (bool_decide_eq_false_2 (_ = String lf "")), IH; [done| |].
  - intros [= _ H]. by destruct l.
  - rewrite <- sapp_cons. apply (crlf_tail l).
Qed.

Lemma ReadLine_line l rest : has_no lf l = true → ReadLine (bytes (l +:+ crlf) ++ rest) = (l, None, rest).
Proof.
  intros Hl. unfold ReadLine. rewrite read_slice_line by done.
  rewrite bool_decide_eq_false_2 by by destruct l. by rewrite strip_eol_line.
Qed.

Lemma ReadFrom_bytes s rest :
  ReadFrom (bytes s ++ rest) (Z.of_nat (String.length s)) = (s, 0%Z, None, rest).
Proof.
  induction s as [|a s IH]; [by destruct rest as [|[]]|]. cbn [bytes app ReadFrom String.length].
  rewrite bool_decide_eq_false_2 by lia. replace (_ - 1)%Z with (Z.of_nat (String.length s)) by lia. by rewrite IH.
Qed.

Lemma ReadFrom_stalled s w n :
  (Z.of_nat (String.length s) < n)%Z →
  ReadFrom (bytes s ++ Stall :: w) n = (s, (n - Z.of_nat (String.length s))%Z, Some Timeout, w).
Proof.
  revert n. induction s as [|a s IH]; intros n Hn; cbn [bytes app ReadFrom String.length] in *.
  - rewrite bool_decide_eq_false_2 by lia. by rewrite Z.sub_0_r.
  - rewrite bool_decide_eq_false_2 by lia. rewrite IH by lia. do 3 f_equal. lia.
Qed.

Lemma Data_split w s : Data w s →
  w = bytes s ∨ ∃ s1 s2 w2, w = bytes s1 ++ Stall :: w2 ∧ s = s1 +:+ s2 ∧ s2 ≠ "" ∧ Data w2 s2.
Proof.
  induction 1 as [|w a s Hd IH|w a s Hd IH]; [by left| |].
  - right. by exists "", (String a s), w.
  - destruct IH as [-> |(s1 & s2 & w2 & -> & -> & Hne & Hd2)]; [by left|].
    right. exists (String a s1), s2, w2. by rewrite sapp_cons.
Qed.

Lemma length_app_string s t : String.length (s +:+ t) = String.length s + String.length t.
Proof. induction s as [|a s IH]; [done|]. rewrite sapp_cons. cbn. by rewrite IH. Qed.

(** *** Numbers *)

Definition hex_byte (a : ascii) : bool := is_digit a || ((97 <=? byte a) && (byte a <=? 102))%N.

Lemma FormatHex_bytes n : all_bytes hex_byte (FormatHex n) = true.
Proof. unfold FormatHex. induction (N.to_hex_uint n); cbn; auto. Qed.

Lemma hex_lower s : all_bytes hex_byte s = true → lower s = s.
Proof.
  induction s as [|a s IH]; [done|]. cbn. rewrite andb_true_iff. intros [Ha Hs]. rewrite IH by done. f_equal.
  unfold hex_byte, is_digit in Ha. rewrite orb_true_iff, !andb_true_iff, !N.leb_le in Ha. unfold to_lower.
  replace ((65 <=? byte a) && (byte a <=? 90))%N with false; [done|].
  symmetry. apply andb_false_iff. rewrite !N.leb_gt. lia.
Qed.

Lemma hex_unsigned s : all_bytes hex_byte s = true →
  match s with String "-" r => (true, r) | String "+" r => (false, r) | _ => (false, s) end = (false, s).
Proof. destruct s as [|[[] [] [] [] [] [] [] []] s]; done. Qed.

Lemma FormatHex_nonempty n : FormatHex n ≠ "".
Proof.
  assert (N.to_hex_uint n ≠ Hexadecimal.Nil).
  { intros E. pose proof (HexadecimalN.Unsigned.of_to n) as H. rewrite E in H. by subst n. }
  unfold FormatHex. by destruct (N.to_hex_uint n).
Qed.

Lemma ParseHex_FormatHex n : (Z.of_N n < 2 ^ 63)%Z → ParseHex (FormatHex n) = Some (Z.of_N n).
Proof.
  intros Hn. unfold ParseHex. pose proof (FormatHex_bytes n) as Hb. rewrite hex_unsigned, hex_lower by done.
  unfold FormatHex at 2. rewrite HexadecimalString.NilEmpty.usu. cbn [mbind option_bind]. rewrite HexadecimalN.Unsigned.of_to.
  destruct (FormatHex n) eqn:E; [by destruct (FormatHex_nonempty n)|]. cbn [negb andb].
  by rewrite bool_decide_eq_false_2 by lia.
Qed.

Lemma FormatHex_line n : has_no lf (FormatHex n) = true.
Proof.
  unfold has_no. eapply all_bytes_impl; [|apply FormatHex_bytes]. intros a. unfold hex_byte, is_digit.
  intros Ha. apply negb_true_iff, bool_decide_eq_false. intros ->. done.
Qed.

(** ** Reading a body *)

Section Reads.
Context (ParseRequestURI : string → option error).

Abbreviation moves := (d_moves ParseRequestURI).
Abbreviation reading := (DRead None true).

(** Reads alone lead from one state to another. *)
Definition reads (st : httpState) (d : Decoder) (st' : httpState) (d' : Decoder) : Prop :=
  ∃ n, moves (replicate n reading) st d = Some (Returns (st', d')).

Lemma d_moves_app ms ms' st d st1 d1 :
  moves ms st d = Some (Returns (st1, d1)) → moves (ms ++ ms') st d = moves ms' st1 d1.
Proof.
  revert st d. induction ms as [|mv ms IH]; intros st d; cbn [d_moves app]; [by intros [= -> ->]|].
  destruct (d_move ParseRequestURI mv st d) as [[[st2 d2]|]|]; [apply IH|done|done].
Qed.

Lemma reads_refl st d : reads st d st d.
Proof. by exists 0. Qed.

Lemma reads_trans st d st1 d1 st2 d2 : reads st d st1 d1 → reads st1 d1 st2 d2 → reads st d st2 d2.
Proof. intros [n Hn] [m Hm]. exists (n + m). rewrite replicate_add. by rewrite (d_moves_app _ _ _ _ _ _ Hn). Qed.

Lemma reads_step st d st1 d1 st2 d2 :
  is_read st = true → read_step ParseRequestURI true st d = Some (Returns (st1, d1)) → reads st1 d1 st2 d2 →
  reads st d st2 d2.
Proof.
  intros Hr Hs. apply reads_trans. exists 1. cbn. rewrite Hr. destruct (sets_deadline st d); by rewrite Hs.
Qed.

(** Not cancelled. *)
Definition live (d : Decoder) : Prop := d_shouldQuit d = false ∧ d_forceQuit d = false.

Lemma live_timeout d st : live d → checkTimeoutOrFail true Timeout st d = Some (Returns (st, d)).
Proof. intros [Hq Hf]. unfold checkTimeoutOrFail. by rewrite Hf, Hq. Qed.

(** Both ways of reading what is left of a body or a chunk: [next] is where it ends. *)
Lemma data_read st next w s rest d :
  (st = readBodyState ∧ next = generateRequest) ∨ (st = readChunkState ∧ next = λ _, readEndOfChunkState) →
  live d → Data w s → d_wire d = w ++ rest → d_lrc d = Z.of_nat (String.length s) →
  let d' := with_buf (d_buf d +:+ s) 0 rest d in reads st d (next d') d'.
Proof.
  intros Hst. remember (length w) as n eqn:Hn. revert w s d Hn.
  induction (lt_wf n) as [n _ IH]. intros w s d -> Hl Hd Hw Hlrc.
  destruct (Data_split _ _ Hd) as [-> |(s1 & s2 & w2 & -> & -> & Hne & Hd2)].
  - eapply reads_step; [by destruct Hst as [[-> _]|[-> _]]| |apply reads_refl].
    destruct Hst as [[-> ->]|[-> ->]]; cbn [read_step]; by rewrite Hw, Hlrc, ReadFrom_bytes.
  - assert (Hlen : 0 < String.length s2) by (destruct s2; [done|cbn; lia]).
    rewrite <- app_assoc in Hw. cbn [app] in Hw. rewrite length_app_string in Hlrc.
    set (d1 := with_buf (d_buf d +:+ s1) (Z.of_nat (String.length s2)) (w2 ++ rest) d).
    assert (Hs : read_step ParseRequestURI true st d = Some (Returns (st, d1))).
    { destruct Hst as [[-> _]|[-> _]]; cbn [read_step]; rewrite Hw, Hlrc, ReadFrom_stalled by lia;
        replace (_ - _)%Z with (Z.of_nat (String.length s2)) by lia;
        [rewrite bool_decide_eq_false_2 by lia|]; by rewrite live_timeout. }
    eapply reads_step; [by destruct Hst as [[-> _]|[-> _]]|exact Hs|].
    replace (with_buf (d_buf d +:+ s1 +:+ s2) 0 rest d) with (with_buf (d_buf d1 +:+ s2) 0 rest d1)
      by (unfold d1; cbn; by rewrite string_app_assoc).
    eapply (IH (length w2)); [rewrite length_app; cbn; lia|done|done|done|done|done].
Qed.

(** The end of a chunk or of the chunks. *)
Lemma crlf_read st next w rest d :
  (st = readEndOfChunkState ∧ next = λ _, readChunkHeaderState) ∨ (st = readEndOfChunkStreamState ∧ next = generateRequest) →
  live d → Data w crlf → d_wire d = w ++ rest →
  let d' := with_wire rest d in reads st d (next d') d'.
Proof.
  intros Hst. remember (length w) as n eqn:Hn. revert w d Hn.
  induction (lt_wf n) as [n _ IH]. intros w d -> Hl Hd Hw.
  assert (Hstep : read_step ParseRequestURI true st d = read_crlf true st next d) by by destruct Hst as [[-> ->]|[-> ->]].
  assert (Hr : is_read st = true) by by destruct Hst as [[-> _]|[-> _]].
  assert (Hretry : ∀ w', length w' < length w → Data w' crlf → Peek2 (d_wire d) = inr (Timeout, w' ++ rest) →
    reads st d (next (with_wire rest d)) (with_wire rest d)).
  { intros w' Hlt Hd' Hp. eapply reads_step; [done| |apply (IH (length w') Hlt w' (with_wire (w' ++ rest) d)); done].
    rewrite Hstep. unfold read_crlf. rewrite Hp. by apply live_timeout. }
  unfold crlf in Hd. inversion Hd as [|w1 a s Hd1|w1 a s Hd1]; subst.
  - apply (Hretry w1); [cbn; lia|done|by rewrite Hw].
  - inversion Hd1 as [|w2 a s Hd2|w2 a s Hd2]; subst.
    + apply (Hretry (B cr :: w2)); [cbn; lia|by constructor|by rewrite Hw].
    + inversion Hd2; subst. eapply reads_step; [done| |apply reads_refl]. rewrite Hstep. unfold read_crlf. rewrite Hw. cbn [app Peek2].
      by rewrite bool_decide_eq_true_2.
Qed.

(** Stalls before a line cost a step each. *)
Lemma stalled_line st k w d :
  st = readChunkHeaderState ∨ st = awaitRequestState → live d → d_wire d = replicate k Stall ++ w →
  reads st d st (with_wire w d).
Proof.
  intros Hst. revert d. induction k as [|k IH]; intros d Hl Hw.
  - cbn in Hw. subst w. destruct d. apply reads_refl.
  - eapply reads_step; [by destruct Hst as [-> | ->]| |apply (IH (with_wire (replicate k Stall ++ w) d)); done].
    destruct Hst as [-> | ->]; cbn [read_step]; rewrite Hw; cbn [replicate app ReadLine read_slice]; by apply live_timeout.
Qed.

Lemma chunk_header_read wl n rest d :
  live d → Line wl (FormatHex n) → (Z.of_N n < 2 ^ 63)%Z → d_wire d = wl ++ rest →
  reads readChunkHeaderState d (if bool_decide (n = 0%N) then readEndOfChunkStreamState else readChunkState)
    (with_buf (d_buf d) (if bool_decide (n = 0%N) then d_lrc d else Z.of_N n) rest d).
Proof.
  intros Hl [k ->] Hn Hw. rewrite <- app_assoc in Hw.
  eapply reads_trans; [apply (stalled_line _ k); [by left|done|exact Hw]|].
  eapply reads_step; [done| |apply reads_refl]. cbn [read_step with_buf d_wire].
  rewrite ReadLine_line, ParseHex_FormatHex by (done || apply FormatHex_line).
  destruct (decide (n = 0%N)) as [-> |Hz]; [done|].
  rewrite !(bool_decide_eq_false_2 (n = _)), bool_decide_eq_false_2 by (done || lia). done.
Qed.

Lemma chunks_read w cs rest d :
  live d → Chunks w cs → Forall (λ c, Z.of_nat (String.length c) < 2 ^ 63)%Z cs → d_wire d = w ++ rest →
  ∃ n, let d' := with_buf (d_buf d +:+ Join cs "") n rest d in reads readChunkHeaderState d (generateRequest d') d'.
Proof.
  intros Hl Hc. revert d Hl. induction Hc as [wl wc Hline Hcr|wl wd wc w c cs Hne Hline Hd Hcr Hc IH]; intros d Hl Hf Hw.
  - exists (d_lrc d). rewrite <- app_assoc in Hw. cbn [Join]. rewrite string_app_nil.
    eapply reads_trans; [apply (chunk_header_read wl 0%N (wc ++ rest) d Hl); done|].
    by apply (crlf_read readEndOfChunkStreamState generateRequest wc rest (with_buf (d_buf d) (d_lrc d) (wc ++ rest) d)); [right| | |].
  - inversion Hf as [|c' cs' Hcl Hf']; subst. rewrite <- !app_assoc in Hw.
    set (n := N.of_nat (String.length c)).
    assert (Hn : n ≠ 0%N) by (subst n; destruct c; [done|cbn; lia]).
    pose proof (chunk_header_read wl n _ d Hl Hline ltac:(subst n; lia) Hw) as H1.
    rewrite !bool_decide_eq_false_2 in H1 by done.
    pose proof (data_read readChunkState (λ _, readEndOfChunkState) wd c (wc ++ w ++ rest)
      (with_buf (d_buf d) (Z.of_N n) (wd ++ wc ++ w ++ rest) d) ltac:(by right) Hl Hd eq_refl ltac:(subst n; cbn; lia)) as H2.
    pose proof (crlf_read readEndOfChunkState (λ _, readChunkHeaderState) wc (w ++ rest)
      (with_buf (d_buf d +:+ c) 0 (wc ++ w ++ rest) d) ltac:(by left) Hl Hcr eq_refl) as H3.
    destruct (IH (with_buf (d_buf d +:+ c) 0 (w ++ rest) d) Hl Hf' eq_refl) as [m H4]. exists m.
    replace (Join (c :: cs) "") with (c +:+ Join cs "") by (destruct cs; cbn; by rewrite ?string_app_nil).
    rewrite <- string_app_assoc. eapply reads_trans; [exact H1|]. eapply reads_trans; [exact H2|]. eapply reads_trans; [exact H3|exact H4].
Qed.

(** ** Reading a request line and headers *)

Lemma token_is_not a c : token_byte a = true → token_byte c = false → bool_decide (a = c) = false.
Proof. intros Ha Hc. apply bool_decide_eq_false. intros ->. congruence. Qed.

Lemma token_no c s : all_bytes token_byte s = true → token_byte c = false → has_no c s = true.
Proof. intros Hs Hc. unfold has_no. eapply all_bytes_impl; [|exact Hs]. intros a Ha. by rewrite token_is_not. Qed.

Lemma token_blank a : token_byte a = true → blank a = false.
Proof. intros Ha. unfold blank. by rewrite !token_is_not. Qed.

Lemma cut_app c s t : has_no c s = true → cut c (s +:+ String c t) = Some (s, t).
Proof.
  unfold has_no. induction s as [|a s IH]; [by intros _; rewrite sapp_nil_l; cbn [cut]; rewrite bool_decide_eq_true_2|].
  rewrite sapp_cons. cbn. rewrite andb_true_iff, negb_true_iff. intros [-> Hs]. by rewrite IH.
Qed.

Lemma trim_spaces_no s : has_no " " s = true → trim_spaces_r s = s.
Proof.
  unfold has_no. induction s as [|a s IH]; [done|]. cbn. rewrite andb_true_iff, negb_true_iff. intros [-> Hs].
  by rewrite IH, andb_false_r.
Qed.

Lemma trim_r_app s t : t ≠ "" → trim_r t = t → trim_r (s +:+ t) = s +:+ t.
Proof.
  intros Hne Ht. induction s as [|a s IH]; [done|]. rewrite sapp_cons. cbn. rewrite IH.
  by rewrite (bool_decide_eq_false_2 (s +:+ t = "")) by by destruct s.
Qed.

Lemma field_line_ok kv : ok_field kv →
  field_line kv ≠ "" ∧ has_no lf (field_line kv) = true ∧ trim (field_line kv) = field_line kv ∧
  cut ":" (field_line kv) = Some (kv.1, " " +:+ kv.2) ∧ trim_spaces_r kv.1 = kv.1 ∧ trim_l (" " +:+ kv.2) = kv.2.
Proof.
  destruct kv as [k v]. intros (_ & Hk & Ht & Hv & Hl & Hr & Hlf). unfold field_line. cbn [fst snd] in *.
  split_and!.
  - by destruct k.
  - rewrite !has_no_app, Hlf, token_no by done. done.
  - destruct k as [|a k]; [done|]. rewrite sapp_cons. unfold trim. cbn [trim_l].
    cbn in Ht. apply andb_true_iff in Ht as [Ha _]. rewrite token_blank by done.
    rewrite <- sapp_cons, <- string_app_assoc. by apply trim_r_app.
  - rewrite (sapp_cons ":" " "). apply cut_app. by apply token_no.
  - apply trim_spaces_no. by apply token_no.
  - done.
Qed.

(** The reader of continued lines drops one stall after a line. *)
Definition next_line (w : wire) : wire := match w with Stall :: w => w | _ => w end.

Lemma headers_start w fs rest : Headers w fs → skip_space (w ++ rest) = (false, next_line w ++ rest).
Proof.
  intros [|w' fs' H|w' kv fs' Hk H]; [done|done|].
  destruct kv as [k v]. destruct Hk as (_ & Hk & Ht & _). cbn in *. unfold field_line. cbn. destruct k as [|a k]; [done|].
  cbn in Ht. apply andb_true_iff in Ht as [Ha _]. rewrite !sapp_cons. cbn. by rewrite token_blank.
Qed.

Lemma headers_next w fs : Headers w fs → Headers (next_line w) fs.
Proof. intros H. inversion H as [|w' fs' H'|w' kv fs' Hk H']; subst; [done|done|].
  destruct kv as [k v]. destruct Hk as (? & Hk & ?). cbn in *. unfold field_line in *. cbn in *. by destruct k. Qed.

Lemma next_line_length w : length (next_line w) ≤ length w.
Proof. destruct w as [|[] w]; cbn; lia. Qed.

Lemma readContinuedLine_field kv w fs rest : ok_field kv → Headers w fs →
  readContinuedLine (bytes (field_line kv +:+ crlf) ++ w ++ rest) = (field_line kv, None, next_line w ++ rest).
Proof.
  intros Hk Hw. destruct (field_line_ok _ Hk) as (Hne & Hlf & Ht & _). unfold readContinuedLine. rewrite ReadLine_line by done.
  destruct (field_line kv) as [|a l]; [done|]. rewrite Ht. cbn [continued]. by rewrite (headers_start _ _ _ Hw).
Qed.

Lemma ReadMIMEHeader_headers w fs rest fuel : Headers w fs → length w < fuel →
  ReadMIMEHeader fuel (w ++ rest) = (fs, None, rest) ∨
  ∃ fs1 fs2 w2, ReadMIMEHeader fuel (w ++ rest) = (fs1, Some Timeout, w2 ++ rest) ∧ fs = fs1 ++ fs2 ∧ Headers w2 fs2 ∧
    length w2 < length w.
Proof.
  remember (length w) as n eqn:Hn. revert w fs fuel Hn. induction (lt_wf n) as [n _ IH]. intros w fs fuel -> Hw Hf.
  destruct fuel as [|fuel]; [lia|]. destruct Hw as [|w fs Hw|w kv fs Hk Hw].
  - by left.
  - right. exists [], fs, w. split_and!; [done|done|done|cbn; lia].
  - rewrite <- app_assoc. cbn [ReadMIMEHeader]. rewrite (readContinuedLine_field _ _ _ _ Hk Hw).
    destruct (field_line_ok _ Hk) as (Hne & _ & _ & Hc & Hs & Hv). destruct (field_line kv) as [|a l] eqn:El; [done|].
    rewrite Hc, Hs, (proj1 Hk), Hv, bool_decide_eq_false_2 by apply Hk.
    assert (Hlt : length (next_line w) < length (bytes (String a l +:+ crlf) ++ w)).
    { pose proof (next_line_length w). rewrite length_app, sapp_cons. cbn. lia. }
    replace (kv.1, kv.2) with kv by by destruct kv.
    destruct (IH _ Hlt (next_line w) fs fuel eq_refl (headers_next _ _ Hw) ltac:(lia))
      as [-> |(fs1 & fs2 & w2 & -> & -> & Hw2 & Hl2)]; [by left|].
    right. exists (kv :: fs1), fs2, w2. split_and!; [done|done|done|lia].
Qed.

(** The decoder with header fields added to its request. *)
Definition add_fields (fs : list (string * string)) (w : wire) (d : Decoder) : Decoder :=
  let r := d_req d in
  with_wire w (with_req (mkHReq (h_Method r) (h_RequestURI r) (h_Proto r) (foldl (λ h kv, header_add kv h) (h_Header r) fs)
    (h_Host r) (h_ContentLength r)) d).

Lemma headers_read w fs rest d st' d' :
  live d → Headers w fs → d_wire d = w ++ rest → header_read (add_fields fs rest d) = Some (Returns (st', d')) →
  reads readHeaderState d st' d'.
Proof.
  remember (length w) as n eqn:Hn. revert w fs d Hn. induction (lt_wf n) as [n _ IH]. intros w fs d -> Hl Hw Hd Hh.
  destruct (ReadMIMEHeader_headers w fs rest (S (length (d_wire d))) Hw) as [E|(fs1 & fs2 & w2 & E & -> & Hw2 & Hlt)].
  { rewrite Hd, length_app. lia. }
  - eapply reads_step; [done| |apply reads_refl]. cbn [read_step]. rewrite <- Hd in E. by rewrite E.
  - eapply reads_step; [done| |].
    { cbn [read_step]. rewrite <- Hd in E. rewrite E. by apply live_timeout. }
    apply (IH (length w2) Hlt w2 fs2 (add_fields fs1 (w2 ++ rest) d)); [done|done|done|done|].
    rewrite <- Hh. unfold add_fields. cbn. by rewrite foldl_app.
Qed.

(** ** Whole requests *)

(** A request as a sender means it. *)
Record Sent := mkSent {
  s_method : string;
  s_uri : string;
  s_fields : list (string * string);
  s_chunked : bool;
  s_body : string;
}.

Definition body_length (s : string) : Z := Z.of_nat (String.length s).
Definition header_of (fs : list (string * string)) : Header := foldl (λ h kv, header_add kv h) ∅ fs.

(** The headers keep the connection and say how the body is framed. *)
Definition framing (h : Header) (chunked : bool) (body : string) : Prop :=
  Header_Get h "Connection" = "Keep-Alive" ∧
  bool_decide ("chunked" ∈ default [] (h !! "Transfer-Encoding")) = chunked ∧
  Header_Get h "Content-Length" = (if chunked then "" else FormatInt (body_length body)) ∧
  (body_length body < 2 ^ 63)%Z.

Definition ok_sent (q : Sent) : Prop :=
  has_no " " (s_method q) = true ∧ has_no lf (s_method q) = true ∧ has_no " " (s_uri q) = true ∧ has_no lf (s_uri q) = true ∧
  ParseRequestURI (s_uri q) = None ∧ framing (header_of (s_fields q)) (s_chunked q) (s_body q).

Definition sent_line (q : Sent) : string := s_method q +:+ " " +:+ s_uri q +:+ " HTTP/1.1".

Definition SentWire (w : wire) (q : Sent) : Prop :=
  ∃ wl wh wb, w = wl ++ wh ++ wb ∧ Line wl (sent_line q) ∧ Headers wh (s_fields q) ∧ Body (s_chunked q) wb (s_body q).

Inductive Pipeline : wire → list Sent → Prop :=
  | pipeline_nil : Pipeline [] []
  | pipeline_cons w q ws qs : ok_sent q → SentWire w q → Pipeline ws qs → Pipeline (w ++ ws) (q :: qs).

(** The request that is handed over for it. *)
Definition request_of (meth uri : string) (h : Header) (body : string) : Request :=
  mkRequest meth "" uri (default [] (h !! "User-Agent")) (default [] (h !! "Libprocess-From")) body.
Definition sent_request (q : Sent) : Request := request_of (s_method q) (s_uri q) (header_of (s_fields q)) (s_body q).

(** What reading leaves alone. *)
Definition same_side (d d' : Decoder) : Prop :=
  d_shouldQuit d' = d_shouldQuit d ∧ d_forceQuit d' = d_forceQuit d ∧ d_errs d' = d_errs d ∧ d_closed d' = d_closed d ∧
  d_given d' = d_given d ∧ d_out d' = d_out d.

Lemma same_side_trans d d1 d2 : same_side d d1 → same_side d1 d2 → same_side d d2.
Proof. unfold same_side. naive_solver congruence. Qed.

Lemma Join_length cs : Forall (λ c, String.length c ≤ String.length (Join cs "")) cs.
Proof.
  induction cs as [|c cs IH]; [done|]. assert (Hj : Join (c :: cs) "" = c +:+ Join cs "") by (destruct cs; cbn; by rewrite ?string_app_nil).
  rewrite Hj. constructor; [rewrite length_app_string; lia|]. eapply Forall_impl; [exact IH|]. cbn. intros x Hx.
  rewrite length_app_string. lia.
Qed.

Lemma body_read chunked wb body rest d :
  live d → d_chunked d = chunked → (if chunked then True else h_ContentLength (d_req d) = body_length body) →
  (body_length body < 2 ^ 63)%Z → Body chunked wb body → d_wire d = wb ++ rest →
  ∃ n, let d' := with_buf body n rest d in
    reads (readBodyContent d).1 (readBodyContent d).2 (offering (built_request d')) d'.
Proof.
  intros Hl Hc Hcl Hlen Hb Hw. unfold readBodyContent. rewrite Hc. destruct chunked; cbn [fst snd].
  - destruct Hb as (cs & Hcs & ->). pose proof (Join_length cs) as Hj.
    destruct (chunks_read wb cs rest (with_buf "" (d_lrc d) (d_wire d) d) Hl Hcs) as [n H]; [|exact Hw|by exists n].
    eapply Forall_impl; [exact Hj|]. cbn. unfold body_length in Hlen. lia.
  - exists 0%Z. apply (data_read readBodyState generateRequest wb body rest (with_buf "" (h_ContentLength (d_req d)) (d_wire d) d));
      [by left|done|done|done|done].
Qed.

(** A request line, headers and a body make a request. *)
Lemma request_read w q rest d :
  live d → d_req d = mkHReq "" "" "" ∅ "" (-1) → ok_sent q → SentWire w q → d_wire d = w ++ rest →
  ∃ d', reads awaitRequestState d (offering (sent_request q)) d' ∧ d_wire d' = rest ∧ d_kalive d' = true ∧ same_side d d'.
Proof.
  intros Hl Hreq (Hm & Hml & Hu & Hul & Hp & Hk & Hch & Hcl & Hlen) (wl & wh & wb & -> & [k ->] & Hh & Hb) Hw.
  rewrite <- !app_assoc in Hw.
  pose proof (stalled_line awaitRequestState k _ d ltac:(by right) Hl Hw) as H1.
  set (d1 := with_wire (wh ++ wb ++ rest) (with_req (mkHReq (s_method q) (s_uri q) "HTTP/1.1" ∅ "" (-1)) d)).
  assert (H2 : reads awaitRequestState (with_wire (bytes (sent_line q +:+ crlf) ++ wh ++ wb ++ rest) d) readHeaderState d1).
  { eapply reads_step; [done| |apply reads_refl]. cbn [read_step with_buf d_wire].
    rewrite ReadLine_line by (unfold sent_line; rewrite !has_no_app, Hml, Hul; done). unfold request_line, sent_line.
    rewrite (sapp_cons " " ""), sapp_nil_l, cut_app by done. cbn [mbind option_bind].
    change (" HTTP/1.1") with (String " " "HTTP/1.1"). rewrite cut_app by done. cbn [mbind option_bind]. rewrite Hp.
    replace (ParseHTTPVersion "HTTP/1.1") with true by by vm_compute. cbn. by rewrite Hreq. }
  set (h := header_of (s_fields q)) in *.
  set (d2 := updateForRequest false (with_req (mkHReq (s_method q) (s_uri q) "HTTP/1.1" h (Header_Get h "Host")
    (if s_chunked q then -1 else body_length (s_body q))) (with_wire (wb ++ rest) d1))).
  assert (H3 : reads readHeaderState d1 (readBodyContent d2).1 (readBodyContent d2).2).
  { apply (headers_read wh (s_fields q) (wb ++ rest) d1); [done|done|done|]. unfold header_read.
    change (d_req (add_fields (s_fields q) (wb ++ rest) d1)) with (mkHReq (s_method q) (s_uri q) "HTTP/1.1" h "" (-1)).
    cbn [h_Header h_Method h_RequestURI h_Proto h_ContentLength]. rewrite Hcl.
    destruct (s_chunked q) eqn:Ec.
    - rewrite bool_decide_eq_true_2 by done. by rewrite <- surjective_pairing.
    - assert (Hne : FormatInt (body_length (s_body q)) ≠ "").
      { unfold FormatInt, body_length. rewrite bool_decide_eq_false_2 by lia. apply FormatUint_nonempty. }
      rewrite bool_decide_eq_false_2 by done. rewrite ParseInt_FormatInt by (unfold is_i64, body_length in *; lia).
      rewrite (bool_decide_eq_true_2 (-1 < _)%Z) by (unfold body_length; lia). by rewrite <- surjective_pairing. }
  assert (Hc2 : d_chunked d2 = s_chunked q).
  { unfold d2, updateForRequest. cbn. rewrite Hch. by destruct (s_chunked q); rewrite ?andb_false_r, ?orb_false_r. }
  assert (Hr2 : d_req d2 = mkHReq (s_method q) (s_uri q) "HTTP/1.1" h (Header_Get h "Host")
    (if s_chunked q then -1 else body_length (s_body q))).
  { unfold d2, updateForRequest. cbn. rewrite Hch. destruct (s_chunked q); [done|]. cbn.
    by rewrite bool_decide_eq_false_2 by (unfold body_length; lia). }
  destruct (body_read (s_chunked q) wb (s_body q) rest d2) as [n H4];
    [done|done|by rewrite Hr2; destruct (s_chunked q)|done|done|done|].
  exists (with_buf (s_body q) n rest d2). split_and!; [|done| |done].
  - assert (Hq : built_request (with_buf (s_body q) n rest d2) = sent_request q) by (unfold built_request; cbn [with_buf d_req d_buf]; by rewrite Hr2).
    cbn zeta in H4. rewrite Hq in H4. eapply reads_trans; [exact H1|]. eapply reads_trans; [exact H2|]. eapply reads_trans; [exact H3|exact H4].
  - unfold d2, updateForRequest. cbn. rewrite Hch. apply bool_decide_eq_true_2. by destruct (_ && _ : bool).
Qed.

(** ** A connection from its start to its end *)

Context (reply : Request → option Response).

(** What a consumer that answers does, and the machine. *)
Definition prompt (mv : dmove) : bool :=
  match mv with DRead None true | DTerminate | DTake | DReply _ | DShip => true | _ => false end.

Definition served (st : httpState) (d : Decoder) (st' : httpState) (d' : Decoder) : Prop :=
  ∃ ms, forallb prompt ms = true ∧ moves ms st d = Some (Returns (st', d')).

Lemma served_trans st d st1 d1 st2 d2 : served st d st1 d1 → served st1 d1 st2 d2 → served st d st2 d2.
Proof.
  intros (m1 & Hp1 & H1) (m2 & Hp2 & H2). exists (m1 ++ m2). rewrite forallb_app, Hp1, Hp2. split; [done|].
  by rewrite (d_moves_app _ _ _ _ _ _ H1).
Qed.

Lemma reads_served st d st' d' : reads st d st' d' → served st d st' d'.
Proof. intros [n H]. exists (replicate n reading). split; [|done]. clear H. by induction n. Qed.

(** The answer of a decoder that is not cancelled. *)
Definition answer (resp : Response) : string :=
  "HTTP/1.1 " +:+ FormatInt (code resp) +:+ " " +:+ reason resp +:+ crlf +:+ "Content-Length: 0" +:+ crlf +:+ "" +:+ crlf.
Definition answers (rs : list Request) : list string := omap (λ r, answer <$> reply r) rs.

Definition new_req : HReq := mkHReq "" "" "" ∅ "" (-1).

(** A request is taken, answered if the consumer wants, and the next one awaited. *)
Lemma taken_served r d :
  live d → d_kalive d = true →
  served (offering r) d awaitRequestState (with_req new_req (with_traffic (d_given d ++ [r]) (d_out d ++ answers [r]) d)).
Proof.
  intros [Hq Hf] Hk. unfold answers. destruct (reply r) as [resp|] eqn:Hr; cbn [omap list_omap]; rewrite Hr; cbn.
  - exists [DTake; DReply (Some resp); DShip]. split; [done|]. cbn. unfold next_request. cbn. rewrite Hk.
    unfold buildResponseEntity. cbn. by rewrite Hq.
  - exists [DTake; DReply None]. split; [done|]. cbn. unfold next_request. cbn. by rewrite Hk, app_nil_r.
Qed.

Lemma pipeline_served w qs d :
  live d → d_req d = new_req → d_closed d = false → Pipeline w qs → d_wire d = w →
  ∃ d', served awaitRequestState d finished d' ∧ d_given d' = d_given d ++ (sent_request <$> qs) ∧
    d_out d' = d_out d ++ answers (sent_request <$> qs) ∧ d_errs d' = d_errs d.
Proof.
  intros Hl Hr Hc Hp. revert d Hl Hr Hc. induction Hp as [|w q ws qs Hq Hw Hp IH]; intros d Hl Hr Hc Hd.
  - eexists. split.
    { apply (served_trans _ _ gracefulTerminateState (with_wire [] d)).
      - apply reads_served. eapply reads_step; [done| |apply reads_refl]. cbn [read_step]. by rewrite Hd.
      - exists [DTerminate]. split; [done|]. cbn. unfold terminate. cbn. by rewrite Hc. }
    cbn. by rewrite !app_nil_r.
  - destruct (request_read w q ws d Hl Hr Hq Hw Hd) as (d1 & H1 & Hw1 & Hk1 & Hq1 & Hf1 & He1 & Hc1 & Hg1 & Ho1).
    assert (Hl1 : live d1) by (destruct Hl; split; congruence).
    destruct (IH (with_req new_req (with_traffic (d_given d1 ++ [sent_request q]) (d_out d1 ++ answers [sent_request q]) d1)))
      as (d2 & H2 & Hg2 & Ho2 & He2); [done|done|cbn; congruence|done|].
    exists d2. split_and!.
    + eapply served_trans; [apply reads_served, H1|]. eapply served_trans; [by apply taken_served|exact H2].
    + rewrite Hg2. cbn. by rewrite Hg1, <- app_assoc.
    + rewrite Ho2. cbn [with_req with_traffic d_out]. rewrite Ho1, <- app_assoc. unfold answers.
      change (sent_request <$> q :: qs) with ([sent_request q] ++ (sent_request <$> qs)). by rewrite omap_app.
    + rewrite He2. cbn. by rewrite He1.
Qed.

(** The first request, whose headers [net/http] has read: it keeps the connection, and its
    body is chunked, of unknown length, or of the length it says. *)
Definition first_ok (r : HReq) (chunked : bool) (body : string) : Prop :=
  Header_Get (h_Header r) "Connection" = "Keep-Alive" ∧
  chunked = bool_decide ("chunked" ∈ default [] (h_Header r !! "Transfer-Encoding")) || bool_decide (h_ContentLength r < 0)%Z ∧
  (if chunked then True else h_ContentLength r = body_length body) ∧ (body_length body < 2 ^ 63)%Z.

Definition first_request (r : HReq) (body : string) : Request := request_of (h_Method r) (h_RequestURI r) (h_Header r) body.

Lemma bootstrap_served r chunked body wb rest :
  first_ok r chunked body → Body chunked wb body →
  ∃ st d d', bootstrapState true (DecodeHTTP r (wb ++ rest)) = Some (Returns (st, d)) ∧
    served st d (offering (first_request r body)) d' ∧ d_wire d' = rest ∧ d_kalive d' = true ∧
    same_side (DecodeHTTP r (wb ++ rest)) d'.
Proof.
  intros (Hk & Hch & Hcl & Hlen) Hb.
  set (d0 := with_ends false true (updateForRequest true (DecodeHTTP r (wb ++ rest)))).
  assert (Hr0 : d_req d0 = r) by (unfold d0, updateForRequest; cbn; by rewrite andb_false_r).
  assert (Hc0 : d_chunked d0 = chunked).
  { unfold d0, updateForRequest. cbn. rewrite andb_true_r, Hch. by destruct (bool_decide ("chunked" ∈ _)). }
  destruct (body_read chunked wb body rest d0) as [n H]; [done|done|by rewrite Hr0|done|done|done|].
  exists (readBodyContent d0).1, (readBodyContent d0).2, (with_buf body n rest d0). split_and!; [| |done| |done].
  - unfold bootstrapState. cbn [negb]. by rewrite <- surjective_pairing.
  - apply reads_served. assert (Hq : built_request (with_buf body n rest d0) = first_request r body)
      by (unfold built_request; cbn [with_buf d_req d_buf]; by rewrite Hr0). cbn zeta in H. by rewrite Hq in H.
  - unfold d0, updateForRequest. cbn. rewrite andb_false_r. by apply bool_decide_eq_true_2.
Qed.
End Reads.

(** ** Properties *)

(** C30: A connection delivers the requests that were sent on it.  When the sender keeps
    the connection, frames its bodies by their length or in chunks, and then
    closes it, the decoder hands over exactly these requests, in order, with their
    methods, paths, senders and bodies, passes on the answers of the consumer
    in order, reports no error and ends.  Stalls longer than the read timeout may come
    before any line and anywhere in bodies, chunks and their ends; only
    inside a line they may not. *)
Theorem decoder_round_trip ParseRequestURI reply r chunked body wb ws qs :
  first_ok r chunked body → Body chunked wb body → Pipeline ParseRequestURI ws qs →
  ∃ st d d', bootstrapState true (DecodeHTTP r (wb ++ ws)) = Some (Returns (st, d)) ∧
    served ParseRequestURI st d finished d' ∧
    d_given d' = first_request r body :: (sent_request <$> qs) ∧
    d_out d' = answers reply (first_request r body :: (sent_request <$> qs)) ∧ d_errs d' = [].
Proof.
  intros Hf Hb Hp.
  destruct (bootstrap_served ParseRequestURI r chunked body wb ws Hf Hb)
    as (st & d & d1 & Hs & H1 & Hw1 & Hk1 & Hq1 & Hf1 & He1 & Hc1 & Hg1 & Ho1).
  exists st, d. assert (Hl1 : live d1) by done.
  destruct (pipeline_served ParseRequestURI reply ws qs (with_req new_req (with_traffic (d_given d1 ++ [first_request r body])
    (d_out d1 ++ answers reply [first_request r body]) d1))) as (d2 & H2 & Hg2 & Ho2 & He2); [done|done|done|done|done|].
  exists d2. split_and!; [done| | | |].
  - eapply served_trans; [exact H1|]. eapply served_trans; [by apply (taken_served _ reply)|exact H2].
  - rewrite Hg2. cbn. by rewrite Hg1.
  - rewrite Ho2. cbn [with_req with_traffic d_out]. rewrite Ho1. unfold answers.
    change (first_request r body :: (sent_request <$> qs)) with ([first_request r body] ++ (sent_request <$> qs)).
    by rewrite omap_app.
  - by rewrite He2.
Qed.

(** A sender that closes the connection inside a body keeps the decoder busy for
    ever.  From a decoder that reads a body of which fewer bytes will come than it
    expects, every sequence of reads and cancellations, graceful or forced, of any
    length, leaves it reading that body, with no error; no other step is possible. *)
Theorem truncated_body_spins ParseRequestURI s d ms :
  d_wire d = bytes s → (body_length s < d_lrc d)%Z →
  (∀ mv, mv ∈ ms → (∃ coin, mv = DRead None coin) ∨ ∃ graceful, mv = DCancel graceful) →
  ∃ d', d_moves ParseRequestURI ms readBodyState d = Some (Returns (readBodyState, d')) ∧ d_errs d' = d_errs d ∧
    ∀ mv, (∀ e coin, mv ≠ DRead e coin) → (∀ graceful, mv ≠ DCancel graceful) →
      d_move ParseRequestURI mv readBodyState d' = None.
Proof.
  revert s d. induction ms as [|mv ms IH]; intros s d Hw Hn Hms.
  - exists d. split_and!; [done|done|]. intros mv H1 H2. destruct mv as [e coin| | |[]| | |g]; try done; [by destruct (H1 e coin)|by destruct (H2 g)].
  - assert (Hall : ∀ mv', mv' ∈ ms → (∃ coin, mv' = DRead None coin) ∨ ∃ graceful, mv' = DCancel graceful)
      by (intros mv' H; apply Hms; by right).
    assert (Hfrom : ReadFrom (bytes s) (d_lrc d) = (s, d_lrc d - body_length s, None, [])%Z).
    { clear -Hn. unfold body_length in *. revert Hn. generalize (d_lrc d) as n. induction s as [|a s IH]; intros n Hn; cbn in *.
      - rewrite bool_decide_eq_false_2 by lia. by rewrite Z.sub_0_r.
      - rewrite bool_decide_eq_false_2 by lia. rewrite IH by lia. do 3 f_equal. lia. }
    cbn [d_moves]. destruct (Hms mv ltac:(by left)) as [[coin ->]|[graceful ->]].
    + cbn [d_move is_read]. assert (Hdl : (if sets_deadline readBodyState d then @None error else None) = None) by by case_match.
      rewrite Hdl. cbn [read_step]. rewrite Hw, Hfrom, bool_decide_eq_false_2 by lia.
      apply (IH "" (with_buf (d_buf d +:+ s) (d_lrc d - body_length s) [] d)); [done|unfold body_length in *; cbn; lia|done].
    + cbn [d_move]. by apply (IH s (Cancel graceful d)).
Qed.

(** When the consumer has gone and cancels gracefully, a decoder with a request to hand
    over waits for ever: only a forced cancellation, which nobody makes, would end it. *)
Lemma graceful_cancel_strands ParseRequestURI r d mv :
  d_forceQuit d = false → mv ≠ DTake → (∀ graceful, mv ≠ DCancel graceful) →
  d_move ParseRequestURI mv (offering r) (Cancel true d) = None.
Proof. intros Hf Ht Hc. destruct mv as [| | |[]| | |g]; try done; cbn; [by rewrite Hf|by destruct (Hc g)]. Qed.

(** ** The machine is safe *)

(** Nothing was reported and nothing is closed. *)
Definition untouched (d : Decoder) : Prop := d_errs d = [] ∧ d_closed d = false.

(** A step goes on, or has reported one error and terminates next. *)
Definition good (r : step_result) : Prop :=
  ∃ st d, r = Some (Returns (st, d)) ∧ st ≠ finished ∧ d_closed d = false ∧
    (d_errs d = [] ∨ st = terminateState ∧ length (d_errs d) = 1).

Lemma goes_on st d : untouched d → st ≠ finished → good (Some (Returns (st, d))).
Proof. intros [He Hc] Hs. exists st, d. split_and!; [done|done|done|by left]. Qed.

Lemma fail_good e d : untouched d → good (fail e d).
Proof. intros [He Hc]. unfold fail. rewrite He. cbn. eexists _, _. split_and!; [done|done|done|by right]. Qed.

Lemma check_good coin e st d : untouched d → st ≠ finished → good (checkTimeoutOrFail coin e st d).
Proof. intros Hu Hs. destruct e; cbn; [|by apply fail_good..]. apply goes_on; [done|]. by repeat case_match. Qed.

#[local] Hint Resolve goes_on fail_good check_good : core.

Lemma crlf_good coin st next d : untouched d → st ≠ finished → (∀ d, next d ≠ finished) → good (read_crlf coin st next d).
Proof. intros Hu Hs Hn. unfold read_crlf. destruct (Peek2 _) as [[a b]|[e w]]; [case_bool_decide|]; auto. Qed.

Lemma body_content_good d : untouched d → good (Some (Returns (readBodyContent d))).
Proof. intros Hu. unfold readBodyContent. destruct (d_chunked d); auto. Qed.

Lemma read_good ParseRequestURI coin st d : is_read st = true → untouched d → good (read_step ParseRequestURI coin st d).
Proof.
  intros Hr Hu. destruct st; try done; cbn [read_step].
  - destruct (ReadLine (d_wire d)) as [[l [e|]] w]; [by apply check_good|].
    destruct (ParseHex l); [|by apply fail_good]. case_bool_decide; by apply goes_on.
  - destruct (ReadFrom _ _) as [[[s n] [e|]] w]; [by apply check_good|by apply goes_on].
  - by apply crlf_good.
  - by apply crlf_good.
  - destruct (ReadFrom _ _) as [[[s n] e] w]. case_bool_decide; [by apply goes_on|].
    destruct e; [by apply check_good|by apply goes_on].
  - destruct (ReadLine (d_wire d)) as [[l [[]|]] w]; try (by apply check_good); [by apply goes_on|].
    unfold request_line. destruct (_ ≫= _) as [[[m u] p]|]; [|by apply fail_good].
    destruct (ParseRequestURI u); [by apply fail_good|]. destruct (ParseHTTPVersion p); [by apply goes_on|by apply fail_good].
  - destruct (ReadMIMEHeader _ _) as [[fs [e|]] w]; [by apply check_good|].
    unfold header_read. case_bool_decide; [by apply body_content_good|].
    destruct (ParseInt _); [by apply body_content_good|by apply fail_good].
Qed.

Definition d_inv (st : httpState) (d : Decoder) : Prop :=
  (st = finished ∧ d_closed d = true ∧ length (d_errs d) ≤ 1) ∨
  (st ≠ finished ∧ d_closed d = false ∧ (d_errs d = [] ∨ st = terminateState ∧ length (d_errs d) = 1)).

Lemma good_inv r st d : good r → r = Some (Returns (st, d)) → d_inv st d.
Proof. intros (st' & d' & -> & ?) [= -> ->]. by right. Qed.

Lemma d_inv_reading st d : d_inv st d → is_read st = true → untouched d.
Proof. intros [(-> & _)|(_ & Hc & [He|[-> _]])]; done. Qed.

Lemma d_inv_move ParseRequestURI mv st d : d_inv st d →
  d_move ParseRequestURI mv st d = None ∨
  ∃ st' d', d_move ParseRequestURI mv st d = Some (Returns (st', d')) ∧ d_inv st' d'.
Proof.
  intros Hi. destruct mv as [e coin| | |resp| | |g]; cbn [d_move].
  - destruct (is_read st) eqn:Hr; [|by left]. right. pose proof (d_inv_reading _ _ Hi Hr) as Hu.
    assert (Hg : good (match (if sets_deadline st d then e else None) with
      | Some e => fail e d | None => read_step ParseRequestURI coin st d end)).
    { destruct (if sets_deadline st d then e else None); [by apply fail_good|by apply read_good]. }
    destruct Hg as (st' & d' & E & H). exists st', d'. split; [done|]. by right.
  - destruct Hi as [(-> & _)|(Hs & Hc & He)]; [by left|].
    destruct st; try (by left); right; unfold terminate; rewrite Hc; eexists _, _; (split; [done|]); left; cbn;
      (split_and!; [done|done|]); destruct He as [-> |[_ ->]]; cbn; lia.
  - destruct st; try (by left). right. eexists _, _. split; [done|]. destruct Hi as [(? & _)|(_ & Hc & [He|[? _]])]; try done.
    right. by split_and!; [| |left].
  - destruct resp, st; try (by left); right; (destruct Hi as [(? & _)|(_ & Hc & [He|[? _]])]; [done| |done]).
    + eexists _, _. split; [done|]. right. by split_and!; [| |left].
    + unfold next_request. destruct (d_kalive d); eexists _, _; (split; [done|]); right; by split_and!; [| |left].
  - destruct st; try (by left). right. destruct Hi as [(? & _)|(_ & Hc & [He|[? _]])]; try done. unfold next_request. cbn.
    destruct (d_kalive d); eexists _, _; (split; [done|]); right; by split_and!; [| |left].
  - destruct st; try (by left); (destruct (d_forceQuit d); [right|by left]); eexists _, _; (split; [done|]);
      destruct Hi as [(? & _)|(_ & Hc & [He|[? _]])]; try done; right; by split_and!; [| |left].
  - right. assert (d_inv st (Cancel g d)) by done. destruct st; eauto.
Qed.

Lemma d_inv_moves ParseRequestURI ms st d : d_inv st d →
  d_moves ParseRequestURI ms st d = None ∨
  ∃ st' d', d_moves ParseRequestURI ms st d = Some (Returns (st', d')) ∧ d_inv st' d'.
Proof.
  revert st d. induction ms as [|mv ms IH]; intros st d Hi; [by right; exists st, d|]. cbn [d_moves].
  destruct (d_inv_move ParseRequestURI mv st d Hi) as [-> |(st' & d' & -> & Hi')]; [by left|by apply IH].
Qed.

Lemma bootstrap_inv hijack r w st d : bootstrapState hijack (DecodeHTTP r w) = Some (Returns (st, d)) → d_inv st d.
Proof.
  apply good_inv. unfold bootstrapState. destruct hijack; cbn [negb]; [by apply body_content_good|by apply fail_good].
Qed.

(** In every run of the decoder, whatever the connection delivers and whenever it is
    cancelled: at most one error is reported, so that reporting it never blocks;
    the channels are closed once, so that closing them never panics; and in a state that
    reads, the next read always leads on. *)
Theorem decoder_safe ParseRequestURI hijack r w ms st d :
  bootstrapState hijack (DecodeHTTP r w) = Some (Returns (st, d)) →
  d_moves ParseRequestURI ms st d ≠ Some Panics ∧
  ∀ st' d', d_moves ParseRequestURI ms st d = Some (Returns (st', d')) →
    length (d_errs d') ≤ 1 ∧
    (is_read st' = true → ∀ e coin, ∃ next, d_move ParseRequestURI (DRead e coin) st' d' = Some (Returns next)).
Proof.
  intros Hi%bootstrap_inv. destruct (d_inv_moves ParseRequestURI ms st d Hi) as [-> |(st1 & d1 & -> & Hi1)]; [done|].
  split; [done|]. intros st' d' [= <- <-]. split.
  - destruct Hi1 as [(_ & _ & ?)|(_ & _ & [-> |[_ ->]])]; cbn; lia.
  - intros Hr e coin. pose proof (d_inv_reading _ _ Hi1 Hr) as Hu. cbn [d_move]. rewrite Hr.
    destruct (if sets_deadline st1 d1 then e else None) as [e'|].
    + destruct (fail_good e' d1 Hu) as (s2 & d2 & -> & _). eauto.
    + destruct (read_good ParseRequestURI coin st1 d1 Hr Hu) as (s2 & d2 & -> & _). eauto.
Qed.

(** ** Messages of a connection *)

(** The requests of a pipeline to the paths of internal messages become the messages
    of the transporter, in order. *)
Lemma pipeline_messages from (ms : list (string * Sent)) :
  Forall (λ m, ∃ id, s_uri m.2 = "/" +:+ id +:+ "/" +:+ m.1 ∧ has_no "/" id = true ∧ has_no "/" m.1 = true) ms →
  omap (request_message from) (sent_request <$> ms.*2) = (λ m, mkIn from m.1 (s_body m.2)) <$> ms.
Proof.
  induction 1 as [|[name q] ms (id & Hu & Hid & Hn) _ IH]; [done|]. cbn [fmap list_fmap omap list_omap fst snd] in *.
  unfold request_message at 1, extractNameFromRequestURI. cbn [sent_request request_of req_uri req_body]. rewrite Hu.
  change ("/" +:+ id +:+ "/" +:+ name) with (("" : string) +:+ String "/" (id +:+ String "/" name)).
  rewrite Split_app by done. rewrite Split_app by done. rewrite Split_no by done. cbn. by rewrite IH.
Qed.

(** ** Runs *)

Definition any_uri (_ : string) : option error := None.

(** Two messages of a master: the first in chunks, the second with its length, with
    stalls between lines, inside a chunk and inside a line end. *)
Definition demo_first : HReq :=
  mkHReq "POST" "/scheduler(1)/mesos.internal.FrameworkRegisteredMessage" "HTTP/1.1"
    {["Connection" := ["Keep-Alive"]; "User-Agent" := ["libprocess/master@10.0.0.1:5050"]]} "10.0.0.7:40000" (-1).
Definition demo_body : wire :=
  [Stall] ++ bytes ("5" +:+ crlf) ++ bytes "he" ++ [Stall; Stall] ++ bytes "llo" ++ [B cr; Stall; B lf] ++
  bytes ("0" +:+ crlf) ++ bytes crlf.
Definition demo_second : Sent :=
  mkSent "POST" "/scheduler(1)/mesos.internal.StatusUpdateMessage"
    [("Connection", "Keep-Alive"); ("User-Agent", "libprocess/master@10.0.0.1:5050"); ("Content-Length", "3")] false "abc".
Definition demo_second_wire : wire :=
  bytes (sent_line demo_second +:+ crlf) ++ bytes ("Connection: Keep-Alive" +:+ crlf) ++ [Stall; Stall] ++
  bytes ("User-Agent: libprocess/master@10.0.0.1:5050" +:+ crlf) ++ bytes ("Content-Length: 3" +:+ crlf) ++ bytes crlf ++
  bytes "ab" ++ [Stall] ++ bytes "c".

Lemma demo_body_ok : Body true demo_body "hello".
Proof.
  exists ["hello"]. split; [|done].
  apply (chunks_cons ([Stall] ++ bytes ("5" +:+ crlf)) (bytes "he" ++ [Stall; Stall] ++ bytes "llo") [B cr; Stall; B lf]
    (bytes ("0" +:+ crlf) ++ bytes crlf)); [done|by exists 1|by repeat constructor|by repeat constructor|].
  apply (chunks_end (bytes ("0" +:+ crlf)) (bytes crlf)); [by exists 0|by repeat constructor].
Qed.

Lemma demo_second_ok : Pipeline any_uri demo_second_wire [demo_second].
Proof.
  rewrite <- (app_nil_r demo_second_wire). constructor; [| |constructor].
  - split_and!; try by_compute; split_and!; by_compute.
  - exists (bytes (sent_line demo_second +:+ crlf)),
      (bytes ("Connection: Keep-Alive" +:+ crlf) ++ [Stall; Stall] ++ bytes ("User-Agent: libprocess/master@10.0.0.1:5050" +:+ crlf) ++
        bytes ("Content-Length: 3" +:+ crlf) ++ bytes crlf), (bytes "ab" ++ [Stall] ++ bytes "c").
    split_and!; [by_compute|by exists 0| |by repeat constructor].
    apply (headers_line ([Stall; Stall] ++ _) ("Connection", "Keep-Alive")); [by vm_compute; split_and!|].
    do 2 apply headers_stall.
    apply (headers_line _ ("User-Agent", "libprocess/master@10.0.0.1:5050")); [by vm_compute; split_and!|].
    apply (headers_line _ ("Content-Length", "3")); [by vm_compute; split_and!|]. constructor.
Qed.

Lemma decoder_round_trip_witness : ∃ st d d',
  bootstrapState true (DecodeHTTP demo_first (demo_body ++ demo_second_wire)) = Some (Returns (st, d)) ∧
  served any_uri st d finished d' ∧ req_body <$> d_given d' = ["hello"; "abc"] ∧ d_out d' = [] ∧ d_errs d' = [].
Proof.
  destruct (decoder_round_trip any_uri (λ _, None) demo_first true "hello" demo_body demo_second_wire [demo_second])
    as (st & d & d' & H1 & H2 & H3 & H4 & H5); [by vm_compute; split_and!|exact demo_body_ok|exact demo_second_ok|].
  exists st, d, d'. by rewrite H3.
Defined.

(** A stall inside a line is taken for its end.  Of a chunk of sixteen bytes, announced by
    [10], the length is read as 1 when the sender stalls between the digits; the
    decoder then hands over a body that was never sent. *)
Definition split_length : wire :=
  [B "1"; Stall] ++ bytes ("0" +:+ crlf) ++ bytes ("0" +:+ crlf +:+ crlf +:+ "POST / HTTP") ++ bytes crlf ++
  bytes ("0" +:+ crlf +:+ crlf).

Lemma stall_corrupts_body : ∃ st d d',
  bootstrapState true (DecodeHTTP demo_first split_length) = Some (Returns (st, d)) ∧
  d_moves any_uri (replicate 5 (DRead None true) ++ [DTake; DReply None]) st d = Some (Returns (awaitRequestState, d')) ∧
  req_body <$> d_given d' = ["0"].
Proof. do 3 eexists. split; [vm_compute; reflexivity|]. split; [vm_compute; reflexivity|]. by_compute. Qed.

Lemma truncated_body_spins_witness :
  ∃ d', d_moves any_uri [DRead None true; DRead None true; DCancel true; DCancel false; DRead None true] readBodyState
      (with_buf "" 10 (bytes "abc") (DecodeHTTP demo_first [])) = Some (Returns (readBodyState, d')).
Proof.
  destruct (truncated_body_spins any_uri "abc" (with_buf "" 10 (bytes "abc") (DecodeHTTP demo_first []))
    [DRead None true; DRead None true; DCancel true; DCancel false; DRead None true]) as (d' & H & _);
    [done|done| |by exists d'].
  intros mv Hmv. apply list_elem_of_In in Hmv. cbn in Hmv. naive_solver.
Defined.
