(* ===== verification/Sasl.v ===== *)
(** * Authentication (mesos-go/auth, vendored)

    login.go and interface.go (the providers), callback and scheduler/handler.go (the
    credentials), sasl/mech with the CRAM-MD5 mechanism, and
    sasl/authenticatee.go: the process that talks to the authenticator of a master.
    Two goroutines share it: the caller of [Authenticate], which sends the
    first message and then waits for the end or for its context, and the
    messenger's decoder, which runs the handlers one after the other.  They
    meet in the status, which is read and swapped atomically, and in the end of the
    process, whose channel is closed by whoever swaps the status to a final
    one.  The system ([s_move]) interleaves them step by step; what arrives,
    whether a send fails and when the context ends is part of the moves. *)

From Stdlib Require Import Ascii.
From stdpp Require Import base strings list gmap relations.
From S2P Require Import Prelude GoStd Errors Upid Md5 Mesos World SchedDriver Messenger.

(** ** Callbacks and credentials *)

(** What a handler is asked for, with the value it sets. *)
Inductive Callback :=
  | CbName (name : string)
  | CbPassword (password : string)
  | CbInterprocess (server client : UPID)
  | CbOther.

Definition zero_upid : UPID := mkUPID "" "" "".
Definition NewName : Callback := CbName "".
Definition NewPassword : Callback := CbPassword "".
Definition NewInterprocess : Callback := CbInterprocess zero_upid zero_upid.

(** A handler answers the callbacks in order up to one it does not know. *)
Definition Handler : Type := list Callback → go (list Callback * option error).

Record Credential := mkCredential { Principal : string; Secret : string }.
Record CredentialHandler := mkCredentialHandler {
  ch_pid : option UPID;
  ch_client : option UPID;
  ch_credential : option Credential;
}.

Definition unsupported : error := ErrNew "Unsupported callback".

Fixpoint Handle (h : CredentialHandler) (callbacks : list Callback) : go (list Callback * option error) :=
  match callbacks with
  | [] => Returns ([], None)
  | cb :: rest =>
      let go_on cb := match Handle h rest with Returns (cbs, e) => Returns (cb :: cbs, e) | Panics => Panics end in
      match cb with
      | CbName _ => go_on (CbName (default "" (Principal <$> ch_credential h)))
      | CbPassword _ => go_on (CbPassword (default "" (Secret <$> ch_credential h)))
      | CbInterprocess _ _ =>
          match ch_pid h, ch_client h with
          | Some pid, Some client => go_on (CbInterprocess pid client)
          | _, _ => Panics
          end
      | CbOther => Returns (cb :: rest, Some unsupported)
      end
  end.

(** ** Mechanisms *)

(** The step functions: the ones of CRAM-MD5, [IllegalState], and nil. *)
Inductive StepFunc := InitStep | ChallengeResponse | IllegalState | NilStep.

Definition IllegalStateErr : error := ErrNew "illegal mechanism state".
Definition challengeDataRequired : error := ErrNew "challenge data may not be empty".

(** The answer to a challenge. *)
Definition response (user secret challenge : string) : string :=
  user +:+ " " +:+ EncodeToString (hmac_md5 (string_bytes secret) (string_bytes challenge)).

Definition challengeResponse (h : Handler) (data : string) : go (StepFunc * string * option error) :=
  if bool_decide (data = "") then Returns (IllegalState, "", Some challengeDataRequired) else
  match h [NewName; NewPassword] with
  | Panics => Panics
  | Returns (_, Some e) => Returns (IllegalState, "", Some e)
  | Returns (cbs, None) =>
      match cbs with
      | [CbName user; CbPassword secret] => Returns (NilStep, response user secret data, None)
      | _ => Panics
      end
  end.

(** A step function on its mechanism, whose handler is [h]; calling nil panics. *)
Definition run_step (f : StepFunc) (h : Handler) (data : string) : go (StepFunc * string * option error) :=
  match f with
  | InitStep => Returns (ChallengeResponse, "", None)
  | ChallengeResponse => challengeResponse h data
  | IllegalState => Returns (IllegalState, "", Some IllegalStateErr)
  | NilStep => Panics
  end.

Definition Factory : Type := Handler → result StepFunc.
Definition newInstance : Factory := λ _, Ok InitStep.
Abbreviation mechanisms_map := (gmap string Factory).

Definition Register (name : string) (f : Factory) (supported : mechanisms_map) : mechanisms_map * option error :=
  if bool_decide (is_Some (supported !! name))
  then (supported, Some (ErrNew ("Mechanism registered twice: " +:+ name))) else (<[name := f]> supported, None).

(** The first of the mechanisms that is supported. *)
Fixpoint SelectSupported (supported : mechanisms_map) (mechanisms : list string) : option (string * Factory) :=
  match mechanisms with
  | [] => None
  | m :: rest => match supported !! m with Some f => Some (m, f) | None => SelectSupported supported rest end
  end.

Definition crammd5_Name : string := "CRAM-MD5".
Definition crammd5_init (supported : mechanisms_map) : mechanisms_map := (Register crammd5_Name newInstance supported).1.

(** ** The process *)

Inductive statusType :=
  | statusReady | statusStarting | statusStepping | statusCompleted | statusFailed | statusError | statusDiscarded.

#[export] Instance statusType_eq_dec : EqDecision statusType.
Proof. solve_decision. Defined.

(** [_statusTerminal] is passed. *)
Definition terminal (s : statusType) : bool :=
  match s with statusReady | statusStarting | statusStepping => false | _ => true end.

Definition UnexpectedAuthenticationMechanisms : error := ErrNew "Unexpected authentication 'mechanisms' received".
Definition UnexpectedAuthenticationStep : error := ErrNew "Unexpected authentication 'step' received".
Definition UnexpectedAuthenticationCompleted : error := ErrNew "Unexpected authentication 'completed' received".
Definition UnexpectedAuthenticatorPid : error := ErrNew "Unexpected authentator pid".
Definition UnsupportedMechanism : error := ErrNew "failed to identify a compatible mechanism".
Definition AuthenticationFailed : error := ErrNew "authentication failed".

(** Messages of the authenticator, and to it. *)
Inductive AuthIn :=
  | MechanismsMessage (mechanisms : list string)
  | StepMessage (data : string)
  | CompletedMessage
  | FailedMessage
  | ErrorMessage (text : string).
Inductive AuthOut :=
  | AuthenticateMessage (pid : string)
  | StartMessage (mechanism data : string)
  | StepReply (data : string).

Record Process := mkProcess {
  p_client : UPID;
  p_status : statusType;
  p_done : bool;
  p_err : option error;
  p_stepFn : StepFunc;
  p_from : option UPID;
}.

Definition with_status (s : statusType) (p : Process) : Process :=
  mkProcess (p_client p) s (p_done p) (p_err p) (p_stepFn p) (p_from p).
Definition with_end (e : option error) (p : Process) : Process :=
  mkProcess (p_client p) (p_status p) true e (p_stepFn p) (p_from p).
Definition with_stepFn (f : StepFunc) (p : Process) : Process :=
  mkProcess (p_client p) (p_status p) (p_done p) (p_err p) f (p_from p).
Definition with_mech (f : StepFunc) (from : UPID) (p : Process) : Process :=
  mkProcess (p_client p) (p_status p) (p_done p) (p_err p) f (Some from).

(** [swap]: whether the status was [old], and the process after it. *)
Definition swap (old new : statusType) (p : Process) : bool * Process :=
  if negb (bool_decide (old = new)) && bool_decide (p_status p = old) then (true, with_status new p) else (false, p).

(** What a handler does to the status in the end: [terminate], a swap, nothing. *)
Inductive act := Terminate (old new : statusType) (err : option error) | Swap (old new : statusType) | NoAct.

(** A handler up to that end: the process, what was sent, the end. *)
Definition handled_result : Type := go (Process * list (UPID * AuthOut) * act).

Section Handlers.
Context (supported : mechanisms_map) (handler : Handler).

(** [mechanisms]; [send_err] is the answer of the transport to the message. *)
Definition mechanisms (status : statusType) (from : UPID) (mechanisms : list string) (send_err : option error) (p : Process)
    : handled_result :=
  let fails e := Returns (p, [], Terminate status statusError (Some e)) in
  if negb (bool_decide (status = statusStarting)) then fails UnexpectedAuthenticationMechanisms else
  match SelectSupported supported mechanisms with
  | None => fails UnsupportedMechanism
  | Some (selectedMech, factory) =>
      if bool_decide (selectedMech = "") then fails UnsupportedMechanism else
      match factory handler with
      | Err e => fails e
      | Ok f =>
          let p := with_mech f from p in
          match run_step f handler "" with
          | Panics => Panics
          | Returns (_, _, Some e) => Returns (p, [], Terminate status statusError (Some e))
          | Returns (nextf, data, None) =>
              let p := with_stepFn nextf p in
              match send_err with
              | Some e => Returns (p, [], Terminate status statusError (Some e))
              | None => Returns (p, [(from, StartMessage selectedMech data)], Swap status statusStepping)
              end
          end
      end
  end.

Definition step (status : statusType) (from : UPID) (input : string) (send_err : option error) (p : Process) : handled_result :=
  if negb (bool_decide (status = statusStepping))
  then Returns (p, [], Terminate status statusError (Some UnexpectedAuthenticationStep)) else
  match run_step (p_stepFn p) handler input with
  | Panics => Panics
  | Returns (_, _, Some e) => Returns (p, [], Terminate status statusError (Some (ErrNew "failed to perform authentication step")))
  | Returns (fn, output, None) =>
      let p := with_stepFn fn p in
      match send_err with
      | Some e => Returns (p, [], Terminate status statusError (Some e))
      | None => Returns (p, [(from, StepReply output)], NoAct)
      end
  end.

Definition completed (status : statusType) (p : Process) : handled_result :=
  if negb (bool_decide (status = statusStepping))
  then Returns (p, [], Terminate status statusError (Some UnexpectedAuthenticationCompleted))
  else Returns (p, [], Terminate status statusCompleted None).

Definition failed (status : statusType) (p : Process) : handled_result :=
  Returns (p, [], Terminate status statusFailed (Some AuthenticationFailed)).

Definition errored (status : statusType) (text : string) (p : Process) : handled_result :=
  Returns (p, [], Terminate status statusError (Some (ErrNew ("Authentication error: " +:+ text)))).

(** [withContext]: the status is read, and the sender compared, before the handler. *)
Definition with_context (from : UPID) (m : AuthIn) (send_err : option error) (p : Process) : handled_result :=
  let status := p_status p in
  if bool_decide (p_from p ≠ None) && negb (Equal (p_from p) (Some from))
  then Returns (p, [], Terminate status statusError (Some UnexpectedAuthenticatorPid)) else
  match m with
  | MechanismsMessage ms => mechanisms status from ms send_err p
  | StepMessage data => step status from data send_err p
  | CompletedMessage => completed status p
  | FailedMessage => failed status p
  | ErrorMessage text => errored status text p
  end.
End Handlers.

(** ** The system *)

(** The caller: before [Send], before the swap to [statusStarting], before the swap
    after a failed send, closing [done] after it, waiting, in [discard] with the
    status it knows, closing [done] there, returned. *)
Inductive caller_pc :=
  | CSend
  | CStart
  | CFail (e : error)
  | CFailClose (e : error)
  | CWait
  | CDiscard (known : statusType) (e : error)
  | CDiscardClose (e : error)
  | CReturned (e : option error).

(** The decoder: idle, in the end of a handler, closing [done]. *)
Inductive handler_pc := HIdle | HEnd (a : act) | HClose (e : option error).

(** With what was sent and what was handled; [y_late] notes that a handler has ended a
    process that had ended before. *)
Record System := mkSystem {
  y_proc : Process;
  y_caller : caller_pc;
  y_handler : handler_pc;
  y_transport : bool;
  y_sent : list (UPID * AuthOut);
  y_got : list (UPID * AuthIn);
  y_late : bool;
}.

Inductive smove :=
  | YSend (send_err : option error)
  | YCaller
  | YContext (e : error)
  | YDone
  | YMessage (from : UPID) (m : AuthIn) (send_err : option error)
  | YHandler
  | YStop.

Definition with_caller (p : Process) (c : caller_pc) (y : System) : System :=
  mkSystem p c (y_handler y) (y_transport y) (y_sent y) (y_got y) (y_late y).
Definition with_handler (p : Process) (h : handler_pc) (y : System) : System :=
  mkSystem p (y_caller y) h (y_transport y) (y_sent y) (y_got y) (y_late y).

(** The end of [terminate]: closing a closed channel panics. *)
Definition close_done (e : option error) (p : Process) : go Process := if p_done p then Panics else Returns (with_end e p).

(** A step of the caller: [authenticate] after its send, [discard]. *)
Definition caller_step (y : System) : option (go System) :=
  let p := y_proc y in
  match y_caller y with
  | CStart => Some (Returns (with_caller (swap statusReady statusStarting p).2 CWait y))
  | CFail e =>
      let '(ok, p) := swap statusReady statusError p in Some (Returns (with_caller p (if ok then CFailClose e else CWait) y))
  | CFailClose e =>
      match close_done (Some e) p with Returns p => Some (Returns (with_caller p CWait y)) | Panics => Some Panics end
  | CDiscard known e =>
      if terminal known then Some (Returns (with_caller p (CReturned (Some e)) y)) else
      let '(ok, p) := swap known statusDiscarded p in
      Some (Returns (with_caller p (if ok then CDiscardClose e else CDiscard (p_status p) e) y))
  | CDiscardClose e =>
      match close_done (Some e) p with
      | Returns p => Some (Returns (with_caller p (CReturned (Some e)) y))
      | Panics => Some Panics
      end
  | _ => None
  end.

(** A step of the decoder at the end of a handler. *)
Definition handler_step (y : System) : option (go System) :=
  let p := y_proc y in
  match y_handler y with
  | HEnd (Terminate old new e) =>
      let '(ok, p) := swap old new p in
      Some (Returns (mkSystem p (y_caller y) (if ok then HClose e else HIdle) (y_transport y) (y_sent y) (y_got y)
                       (y_late y || (ok && terminal old))))
  | HEnd (Swap old new) => Some (Returns (with_handler (swap old new p).2 HIdle y))
  | HEnd NoAct => Some (Returns (with_handler p HIdle y))
  | HClose e => match close_done e p with Returns p => Some (Returns (with_handler p HIdle y)) | Panics => Some Panics end
  | HIdle => None
  end.

Section Run.
Context (supported : mechanisms_map) (handler : Handler) (server : UPID).

Definition s_move (mv : smove) (y : System) : option (go System) :=
  let p := y_proc y in
  match mv with
  | YSend send_err =>
      match y_caller y, send_err with
      | CSend, None =>
          Some (Returns (mkSystem p CStart (y_handler y) (y_transport y)
                 (y_sent y ++ [(server, AuthenticateMessage (PidString (p_client p)))]) (y_got y) (y_late y)))
      | CSend, Some e => Some (Returns (with_caller p (CFail e) y))
      | _, _ => None
      end
  | YCaller => caller_step y
  | YContext e => match y_caller y with CWait => Some (Returns (with_caller p (CDiscard statusReady e) y)) | _ => None end
  | YDone =>
      match y_caller y with
      | CWait => if p_done p then Some (Returns (with_caller p (CReturned (p_err p)) y)) else None
      | _ => None
      end
  | YMessage from m send_err =>
      match y_handler y with
      | HIdle =>
          if y_transport y then
            match with_context supported handler from m send_err p with
            | Returns (p, sent, a) =>
                Some (Returns (mkSystem p (y_caller y) (HEnd a) (y_transport y) (y_sent y ++ sent) (y_got y ++ [(from, m)])
                                 (y_late y)))
            | Panics => Some Panics
            end
          else None
      | _ => None
      end
  | YHandler => handler_step y
  | YStop =>
      if p_done p && y_transport y
      then Some (Returns (mkSystem p (y_caller y) (y_handler y) false (y_sent y) (y_got y) (y_late y))) else None
  end.

Inductive s_step : System → System → Prop :=
  | s_step_move mv y y' : s_move mv y = Some (Returns y') → s_step y y'.

Fixpoint s_moves (ms : list smove) (y : System) : option (go System) :=
  match ms with
  | [] => Some (Returns y)
  | mv :: ms => match s_move mv y with Some (Returns y) => s_moves ms y | r => r end
  end.

(** [newAuthenticatee]: [start] is the answer of installing the handlers and
    starting the transport. *)
Definition newAuthenticatee (start : option error) (client : UPID) : System :=
  let p := mkProcess client statusReady false None NilStep None in
  match start with
  | None => mkSystem p CSend HIdle true [] [] false
  | Some e => mkSystem (with_end (Some e) (with_status statusError p)) CSend HIdle false [] [] false
  end.
End Run.

(** ** Providers and logins *)

(** The values of a context that are looked at. *)
Record Context := mkContext { ctx_provider : option string; ctx_parent : option UPID; ctx_timeout : option Z }.

Definition NoLoginProviderName : error := ErrNew "missing login provider name in context".

Section Login.
Context {provider : Type}.

Definition RegisterAuthenticateeProvider (name : string) (a : provider) (ps : gmap string provider)
    : gmap string provider * option error :=
  if bool_decide (is_Some (ps !! name)) then (ps, Some (ErrNew ("authentication provider already registered: " +:+ name)))
  else (<[name := a]> ps, None).

(** [Login] up to the call of the provider. *)
Definition Login (ps : gmap string provider) (ctx : Context) : result provider :=
  match ctx_provider ctx with
  | None => Err NoLoginProviderName
  | Some name =>
      match ps !! name with
      | None => Err (ErrNew ("unrecognized login provider name in context: " +:+ name))
      | Some a => Ok a
      end
  end.
End Login.

Definition process_label (kind : string) (n : Z) : string := kind +:+ "(" +:+ FormatUint n +:+ ")".

(** The identifier of the transport, from the [n]th process of the program; without a
    parent in the context the program ends. *)
Definition makeTransport (ctx : Context) (n : Z) : go UPID :=
  match ctx_parent ctx with
  | Some parent => Returns (mkUPID (process_label "sasl_authenticatee" n) (PidHost parent) "")
  | None => Panics
  end.

(** [makeAuthenticatee] up to its closure: the transport, the server and the client. *)
Definition makeAuthenticatee (handler : Handler) (ctx : Context) (n : Z) : go (result (UPID * UPID * UPID)) :=
  match handler [NewInterprocess] with
  | Panics => Panics
  | Returns (_, Some e) => Returns (Err e)
  | Returns (cbs, None) =>
      match cbs, makeTransport ctx n with
      | [CbInterprocess server client], Returns tpid => Returns (Ok (tpid, server, client))
      | _, _ => Panics
      end
  end.

(** ** In the driver *)

(** What ended the wait of the driver's [authenticate]. *)
Inductive auth_end := LoginEnds (e : option error) | TimedOut | AttemptCancelled.

Definition errAuthenticationCanceled : error := ErrNew "authentication canceled".

Definition driver_authenticate (w : auth_end) : option error :=
  match w with
  | LoginEnds e => e
  | TimedOut => Some (ErrNew "context deadline exceeded")
  | AttemptCancelled => Some errAuthenticationCanceled
  end.

(** The outcome that the goroutine of [tryAuthentication] reports. *)
Definition auth_outcome (e : option error) : AuthOutcome :=
  match e with
  | None => AuthSuccess
  | Some e => if bool_decide (e = AuthenticationFailed) then AuthRefused else AuthIncomplete
  end.

(** ** What holds in every run *)

Section Invariant.
Context (supported : mechanisms_map) (handler : Handler) (server client : UPID).

(** The authenticator [f] offered a mechanism that is supported, and was sent the start of
    it. *)
Definition offered (y : System) (f : UPID) : Prop :=
  ∃ ms m d, (f, MechanismsMessage ms) ∈ y_got y ∧ m ∈ ms ∧ is_Some (supported !! m) ∧ (f, StartMessage m d) ∈ y_sent y.

Definition asked (y : System) : Prop := (server, AuthenticateMessage (PidString client)) ∈ y_sent y.

(** The whole exchange took place, with one authenticator. *)
Definition proven (y : System) : Prop := asked y ∧ ∃ f, offered y f ∧ (f, CompletedMessage) ∈ y_got y.

Record y_inv (y : System) : Prop := {
  yi_client : p_client (y_proc y) = client;
  yi_start : y_caller y = CStart → asked y;
  yi_starting : p_status (y_proc y) = statusStarting ∨ p_status (y_proc y) = statusStepping → asked y;
  yi_stepping : p_status (y_proc y) = statusStepping → ∃ f, p_from (y_proc y) = Some f ∧ offered y f;
  yi_swap : ∀ old new, y_handler y = HEnd (Swap old new) →
    old = statusStarting ∧ new = statusStepping ∧ asked y ∧ ∃ f, p_from (y_proc y) = Some f ∧ offered y f;
  yi_term : ∀ old new e, y_handler y = HEnd (Terminate old new e) → terminal new = true ∧ (e = None → proven y);
  yi_close : y_handler y = HClose None → proven y;
  yi_done : p_done (y_proc y) = true → p_err (y_proc y) = None → proven y;
  yi_returned : y_caller y = CReturned None → proven y;
}.

(** The logs only grow. *)
Definition extends (y y' : System) : Prop := y_sent y ⊆ y_sent y' ∧ y_got y ⊆ y_got y'.

Lemma asked_mono y y' : extends y y' → asked y → asked y'.
Proof. intros [Hs _]. unfold asked. auto. Qed.
Lemma offered_mono y y' f : extends y y' → offered y f → offered y' f.
Proof. intros [Hs Hg] (ms & m & d & ? & ? & ? & ?). exists ms, m, d. auto. Qed.
Lemma proven_mono y y' : extends y y' → proven y → proven y'.
Proof. intros He [Ha (f & Ho & Hg)]. split; [by eapply asked_mono|]. exists f. split; [by eapply offered_mono|]. by apply He. Qed.

#[local] Hint Resolve asked_mono offered_mono proven_mono : core.

Lemma SelectSupported_spec ms m f : SelectSupported supported ms = Some (m, f) → m ∈ ms ∧ supported !! m = Some f.
Proof.
  induction ms as [|m' ms IH]; cbn; [done|]. destruct (supported !! m') as [f'|] eqn:E.
  - intros [= <- <-]. by split; [left|].
  - intros H. destruct (IH H). by split; [right|].
Qed.

(** A handler keeps the status and the end; what it sends and how it ends. *)
Definition handled_ok (from : UPID) (m : AuthIn) (p : Process) (r : handled_result) : Prop :=
  ∀ p' sent a, r = Returns (p', sent, a) →
    p_client p' = p_client p ∧ p_status p' = p_status p ∧ p_done p' = p_done p ∧ p_err p' = p_err p ∧
    (p_status p = statusStepping → p_from p' = p_from p) ∧
    match a with
    | Terminate old new e =>
        old = p_status p ∧ terminal new = true ∧ (e = None → m = CompletedMessage ∧ p_status p = statusStepping ∧
          (p_from p = None ∨ p_from p = Some from))
    | Swap old new => old = p_status p ∧ old = statusStarting ∧ new = statusStepping ∧ p_from p' = Some from ∧
        ∃ ms x d, m = MechanismsMessage ms ∧ x ∈ ms ∧ is_Some (supported !! x) ∧ sent = [(from, StartMessage x d)]
    | NoAct => True
    end.

Lemma mechanisms_ok from ms e p : handled_ok from (MechanismsMessage ms) p (mechanisms supported handler (p_status p) from ms e p).
Proof.
  unfold mechanisms. case_bool_decide as Hs; cbn [negb]; [|by intros p' sent a [= <- <- <-]].
  destruct (SelectSupported supported ms) as [[x f]|] eqn:Ex; [|by intros p' sent a [= <- <- <-]].
  case_bool_decide; [by intros p' sent a [= <- <- <-]|]. destruct (f handler) as [fn|err]; [|by intros p' sent a [= <- <- <-]].
  assert (Hn : statusStarting ≠ statusStepping) by done. rewrite <- Hs in Hn.
  destruct (run_step fn handler "") as [[[nf d] [err|]]|]; [by intros p' sent a [= <- <- <-]| |done].
  destruct e as [err|]; intros p' sent a [= <- <- <-]; split_and!; try done.
  destruct (SelectSupported_spec _ _ _ Ex). exists ms, x, d. split_and!; eauto.
Qed.

Lemma step_ok from data e p : handled_ok from (StepMessage data) p (step handler (p_status p) from data e p).
Proof.
  unfold step. case_bool_decide; cbn [negb]; [|by intros p' sent a [= <- <- <-]].
  destruct (run_step (p_stepFn p) handler data) as [[[nf d] [err|]]|]; [by intros p' sent a [= <- <- <-]| |done].
  by destruct e as [err|]; intros p' sent a [= <- <- <-].
Qed.

Lemma with_context_ok from m e p : handled_ok from m p (with_context supported handler from m e p).
Proof.
  unfold with_context. destruct (bool_decide (p_from p ≠ None) && negb (Equal (p_from p) (Some from))) eqn:Hf.
  { by intros p' sent a [= <- <- <-]. }
  destruct m as [ms|data| | |text]; [apply mechanisms_ok|apply step_ok| | |].
  - unfold completed. destruct (decide (p_status p = statusStepping)) as [Hs|Hs];
      [rewrite (bool_decide_eq_true_2 (p_status p = _)) by done|rewrite (bool_decide_eq_false_2 (p_status p = _)) by done];
      cbn [negb]; intros p' sent a [= <- <- <-]; [|done]. split_and!; try done.
    intros _. split_and!; [done|done|]. apply andb_false_iff in Hf as [Hf|Hf].
    + left. apply bool_decide_eq_false in Hf. destruct (p_from p); [by destruct Hf|done].
    + right. unfold Equal in Hf. by apply negb_false_iff, bool_decide_eq_true in Hf.
  - by intros p' sent a [= <- <- <-].
  - by intros p' sent a [= <- <- <-].
Qed.

Lemma swap_cases old new p :
  (swap old new p).1 = true ∧ p_status p = old ∧ (swap old new p).2 = with_status new p ∨
  (swap old new p).1 = false ∧ (swap old new p).2 = p.
Proof. unfold swap. do 2 case_bool_decide; cbn; auto. Qed.

(** A step of the caller that keeps the logs and the handler: the process changes its status or
    ends with an error. *)
Lemma y_inv_caller y p c :
  y_inv y → p_client p = p_client (y_proc y) → p_from p = p_from (y_proc y) →
  (p_status p = p_status (y_proc y) ∨ (p_status p = statusStarting ∧ asked y) ∨ terminal (p_status p) = true) →
  (p_done p = true → p_err p = None → p_done (y_proc y) = true ∧ p_err (y_proc y) = None) →
  (c = CStart → asked y) → (c = CReturned None → proven y) → y_inv (with_caller p c y).
Proof.
  intros [] Hc Hf Hs Hd Hst Hr. split; cbn; try done.
  - by rewrite Hc.
  - intros Hp. destruct Hs as [Hs|[[_ Ha]|Hs]]; [rewrite Hs in Hp; auto|done|by destruct Hp as [E|E]; rewrite E in Hs].
  - intros Hp. rewrite Hf. destruct Hs as [Hs|[[E _]|Hs]]; [rewrite Hs in Hp; auto|congruence|by rewrite Hp in Hs].
  - rewrite Hf. done.
  - intros H1 H2. destruct (Hd H1 H2). auto.
Qed.

Lemma swap_fields old new p :
  p_client (swap old new p).2 = p_client p ∧ p_from (swap old new p).2 = p_from p ∧ p_done (swap old new p).2 = p_done p ∧
  p_err (swap old new p).2 = p_err p.
Proof. unfold swap. by destruct (_ && _). Qed.

Lemma caller_step_inv y y' : y_inv y → caller_step y = Some (Returns y') → y_inv y'.
Proof.
  intros Hi. unfold caller_step. destruct (y_caller y) as [| |e|e| |known e|e|e] eqn:Hc; try done.
  - intros [= <-]. destruct (swap_fields statusReady statusStarting (y_proc y)) as (H1 & H2 & H3 & H4).
    apply y_inv_caller; [done|done|done| |by rewrite H3, H4|done|done].
    destruct (swap_cases statusReady statusStarting (y_proc y)) as [(_ & _ & ->)|(_ & ->)]; [|by left].
    right; left. by split; [|apply (yi_start _ Hi)].
  - destruct (swap_fields statusReady statusError (y_proc y)) as (H1 & H2 & H3 & H4).
    pose proof (swap_cases statusReady statusError (y_proc y)) as Hsw.
    destruct (swap statusReady statusError (y_proc y)) as [ok p]. cbn in *. intros [= <-].
    apply y_inv_caller; [done|done|done| |by rewrite H3, H4|by destruct ok|by destruct ok].
    destruct Hsw as [(_ & _ & ->)|(_ & ->)]; [by right; right|by left].
  - unfold close_done. destruct (p_done (y_proc y)); [done|]. intros [= <-]. apply y_inv_caller; try done. by left.
  - destruct (terminal known) eqn:Ht; [intros [= <-]; apply y_inv_caller; try done; by left|].
    destruct (swap_fields known statusDiscarded (y_proc y)) as (H1 & H2 & H3 & H4).
    pose proof (swap_cases known statusDiscarded (y_proc y)) as Hsw.
    destruct (swap known statusDiscarded (y_proc y)) as [ok p]. cbn in *. intros [= <-].
    apply y_inv_caller; [done|done|done| |by rewrite H3, H4|by destruct ok|by destruct ok].
    destruct Hsw as [(_ & _ & ->)|(_ & ->)]; [by right; right|by left].
  - unfold close_done. destruct (p_done (y_proc y)); [done|]. intros [= <-]. apply y_inv_caller; try done. by left.
Qed.

Lemma handler_step_inv y y' : y_inv y → handler_step y = Some (Returns y') → y_inv y'.
Proof.
  intros Hi. unfold handler_step. destruct (y_handler y) as [|[old new e|old new|]|e] eqn:Hh; try done.
  - destruct (yi_term _ Hi _ _ _ Hh) as [Ht He].
    destruct (swap_fields old new (y_proc y)) as (H1 & H2 & H3 & H4). pose proof (swap_cases old new (y_proc y)) as Hsw.
    destruct (swap old new (y_proc y)) as [ok p]. cbn in *. intros [= <-]. destruct Hi.
    destruct Hsw as [(-> & _ & ->)|(-> & ->)]; split; cbn; try done.
    + intros [E|E]; by rewrite E in Ht.
    + intros E. by rewrite E in Ht.
    + intros [= ->]. by apply He.
  - destruct (yi_swap _ Hi _ _ Hh) as (-> & -> & Ha & Hf). intros [= <-]. destruct Hi.
    destruct (swap_cases statusStarting statusStepping (y_proc y)) as [(_ & _ & ->)|(_ & ->)]; by split.
  - intros [= <-]. by destruct Hi; split.
  - unfold close_done. destruct (p_done (y_proc y)); [done|]. intros [= <-]. destruct Hi. split; cbn; try done.
    intros _ ->. by apply yi_close0.
Qed.

Lemma message_inv y from m e p sent a :
  y_inv y → with_context supported handler from m e (y_proc y) = Returns (p, sent, a) →
  y_inv (mkSystem p (y_caller y) (HEnd a) (y_transport y) (y_sent y ++ sent) (y_got y ++ [(from, m)]) (y_late y)).
Proof.
  intros Hi Hw. destruct (with_context_ok from m e (y_proc y) p sent a Hw) as (H1 & H2 & H3 & H4 & H5 & Ha).
  set (y' := mkSystem p (y_caller y) (HEnd a) (y_transport y) (y_sent y ++ sent) (y_got y ++ [(from, m)]) (y_late y)).
  assert (He : extends y y') by (split; cbn; set_solver).
  assert (Hg : (from, m) ∈ y_got y') by (cbn; set_solver).
  assert (Has : asked y → asked y') by (by apply asked_mono). assert (Hpr : proven y → proven y') by (by apply proven_mono).
  destruct Hi. split; subst y'; cbn in *; rewrite ?H1, ?H2, ?H3, ?H4; auto.
  - intros Hs. destruct (yi_stepping0 Hs) as (f & Hf & Ho). exists f. rewrite H5 by done. split; [done|]. by eapply offered_mono.
  - intros old new [= ->]. destruct Ha as (-> & Hst & -> & Hf & ms & x & d & -> & Hx & Hsup & ->). split_and!; [done|done|auto|].
    exists from. split; [done|]. exists ms, x, d. cbn. split_and!; [set_solver|done|done|set_solver].
  - intros old new e' [= ->]. destruct Ha as (-> & Ht & Hn). split; [done|]. intros ->. destruct (Hn eq_refl) as (-> & Hs & Hf).
    destruct (yi_stepping0 Hs) as (f & Hf' & Ho). split; [auto|]. exists f. split; [by eapply offered_mono|].
    assert (from = f) as -> by (destruct Hf; congruence). done.
  - done.
Qed.

Lemma y_inv_move mv y y' : y_inv y → s_move supported handler server mv y = Some (Returns y') → y_inv y'.
Proof.
  intros Hi. destruct mv as [e| |e| |from m e| |]; cbn [s_move].
  - destruct (y_caller y) eqn:Hc; try done. destruct e as [e|]; intros [= <-].
    + by apply y_inv_caller; auto.
    + set (y1 := mkSystem _ _ _ _ _ _ _). assert (He : extends y y1) by (split; cbn; set_solver).
      assert (Has : asked y1) by (unfold asked; cbn; rewrite (yi_client _ Hi); set_solver).
      assert (Hpr : proven y → proven y1) by (by apply proven_mono).
      destruct Hi. split; try done; subst y1; cbn in *; auto.
      * intros Hs. destruct (yi_stepping0 Hs) as (f & Hf & Ho). exists f. split; [done|]. by eapply offered_mono.
      * intros old new Hh. destruct (yi_swap0 _ _ Hh) as (-> & -> & _ & f & Hf & Ho). split_and!; [done|done|done|].
        exists f. split; [done|]. by eapply offered_mono.
      * intros old new e Hh. destruct (yi_term0 _ _ _ Hh). split; [done|auto].
  - by apply caller_step_inv.
  - destruct (y_caller y) eqn:Hc; try done. intros [= <-]. by apply y_inv_caller; auto.
  - destruct (y_caller y) eqn:Hc; try done. destruct (p_done (y_proc y)) eqn:Hd; [|done]. intros [= <-].
    apply y_inv_caller; auto; [done|]. intros [= Hn]. by apply (yi_done _ Hi).
  - destruct (y_handler y) eqn:Hh; try done. destruct (y_transport y) eqn:Ht; [|done].
    destruct (with_context supported handler from m e (y_proc y)) as [[[p sent] a]|] eqn:Hw; [|done]. intros [= <-].
    rewrite <- Ht. by eapply message_inv.
  - by apply handler_step_inv.
  - destruct (_ && _); [|done]. intros [= <-]. by destruct Hi; split.
Qed.

Definition y_reach (start : option error) (y : System) : Prop :=
  rtc (s_step supported handler server) (newAuthenticatee start client) y.

Lemma new_inv start : y_inv (newAuthenticatee start client).
Proof. destruct start; split; try done; cbn; naive_solver. Qed.

Lemma y_reach_inv start y : y_reach start y → y_inv y.
Proof.
  intros Hr. pose proof (new_inv start) as Hi. unfold y_reach in Hr. revert Hi.
  induction Hr as [x|x z y Hs _ IH]; [done|]. intros Hi. apply IH. destruct Hs. by eapply y_inv_move.
Qed.
End Invariant.

(** ** Panics *)

Section Panics.
Context (h : CredentialHandler) (server client : UPID).

Abbreviation mechs := (crammd5_init ∅).
Abbreviation inv := (y_inv mechs server client).
Abbreviation move := (s_move mechs (Handle h) server).

(** How often [done] is closed or about to be. *)
Definition closers (y : System) : nat :=
  (if p_done (y_proc y) then 1 else 0) +
  (match y_caller y with CFailClose _ | CDiscardClose _ => 1 | _ => 0 end) +
  (match y_handler y with HClose _ => 1 | _ => 0 end).

Definition ended_once (y : System) : Prop :=
  y_late y = false → closers y = if terminal (p_status (y_proc y)) then 1 else 0.

Lemma close_panics y e : ended_once y → p_done (y_proc y) = true →
  (∃ e, y_caller y = CFailClose e ∨ y_caller y = CDiscardClose e) ∨ y_handler y = HClose e → y_late y = true.
Proof.
  unfold ended_once, closers. intros Ho Hd Hc. destruct (y_late y); [done|]. specialize (Ho eq_refl). rewrite Hd in Ho.
  destruct (terminal (p_status (y_proc y))), Hc as [[e' [Hc|Hc]]|Hc]; rewrite Hc in Ho; repeat case_match; lia.
Qed.

Lemma caller_step_once y y' : ended_once y → caller_step y = Some (Returns y') → ended_once y'.
Proof.
  unfold ended_once, caller_step. intros Ho. destruct (y_caller y) as [| |e|e| |known e|e|e] eqn:Hc; try done; unfold closers in *; rewrite Hc in *.
  - intros [= <-] Hl. destruct (swap_fields statusReady statusStarting (y_proc y)) as (_ & _ & H3 & _).
    destruct (swap_cases statusReady statusStarting (y_proc y)) as [(_ & Hs & Hp)|(_ & Hp)]; cbn; rewrite Hp; [|auto].
    specialize (Ho Hl). by rewrite Hs in Ho.
  - pose proof (swap_cases statusReady statusError (y_proc y)) as Hsw.
    destruct (swap statusReady statusError (y_proc y)) as [ok p]. cbn in Hsw. intros [= <-] Hl. specialize (Ho Hl).
    destruct Hsw as [(-> & Hs & ->)|(-> & ->)]; cbn; [|lia]. rewrite Hs in Ho. cbn in *. lia.
  - unfold close_done. destruct (p_done (y_proc y)); [done|]. intros [= <-] Hl. specialize (Ho Hl). cbn in *. lia.
  - destruct (terminal known) eqn:Ht; [intros [= <-] Hl; specialize (Ho Hl); cbn; lia|].
    pose proof (swap_cases known statusDiscarded (y_proc y)) as Hsw.
    destruct (swap known statusDiscarded (y_proc y)) as [ok p]. cbn in Hsw. intros [= <-] Hl. specialize (Ho Hl).
    destruct Hsw as [(-> & Hs & ->)|(-> & ->)]; cbn; [|lia]. rewrite Hs, Ht in Ho. cbn in *. lia.
  - unfold close_done. destruct (p_done (y_proc y)); [done|]. intros [= <-] Hl. specialize (Ho Hl). cbn in *. lia.
Qed.

Lemma handler_step_once y y' : inv y → ended_once y → handler_step y = Some (Returns y') → ended_once y'.
Proof.
  unfold ended_once, handler_step. intros Hi Ho. destruct (y_handler y) as [|[old new e|old new|]|e] eqn:Hh; try done; unfold closers in *; rewrite Hh in *.
  - destruct (yi_term _ _ _ _ Hi _ _ _ Hh) as [Ht _]. pose proof (swap_cases old new (y_proc y)) as Hsw.
    destruct (swap old new (y_proc y)) as [ok p]. cbn in Hsw. intros [= <-]. cbn. intros [Hl Hok]%orb_false_iff. specialize (Ho Hl).
    destruct Hsw as [(-> & Hs & ->)|(-> & ->)]; cbn in *; [|lia]. rewrite Hs, Hok in Ho. rewrite Ht. lia.
  - destruct (yi_swap _ _ _ _ Hi _ _ Hh) as (-> & -> & _). intros [= <-] Hl. specialize (Ho Hl). cbn.
    destruct (swap_cases statusStarting statusStepping (y_proc y)) as [(_ & Hs & ->)|(_ & ->)]; [|lia].
    rewrite Hs in Ho. cbn in *. lia.
  - intros [= <-] Hl. specialize (Ho Hl). cbn. lia.
  - unfold close_done. destruct (p_done (y_proc y)); [done|]. intros [= <-] Hl. specialize (Ho Hl). cbn in *. lia.
Qed.

Lemma move_once mv y y' : inv y → ended_once y → move mv y = Some (Returns y') → ended_once y'.
Proof.
  intros Hi Ho. destruct mv as [e| |e| |from m e| |]; cbn [s_move].
  - unfold ended_once, closers in *. destruct (y_caller y) eqn:Hc; try done. destruct e; intros [= <-]; cbn; auto.
  - by apply caller_step_once.
  - unfold ended_once, closers in *. destruct (y_caller y) eqn:Hc; try done. intros [= <-]. cbn. auto.
  - unfold ended_once, closers in *. destruct (y_caller y) eqn:Hc; try done. destruct (p_done (y_proc y)) eqn:Hd; [|done].
    intros [= <-]. cbn. rewrite Hd. auto.
  - destruct (y_handler y) eqn:Hh; try done. destruct (y_transport y); [|done].
    destruct (with_context mechs (Handle h) from m e (y_proc y)) as [[[p sent] a]|] eqn:Hw; [|done]. intros [= <-].
    destruct (with_context_ok _ _ from m e (y_proc y) p sent a Hw) as (_ & H2 & H3 & _).
    unfold ended_once, closers in *. rewrite Hh in Ho. cbn. by rewrite H2, H3.
  - by apply handler_step_once.
  - destruct (_ && _); [|done]. by intros [= <-].
Qed.

Lemma reach_once start y : y_reach mechs (Handle h) server client start y → inv y ∧ ended_once y.
Proof.
  intros Hr. pose proof (new_inv mechs server client start) as Hi.
  assert (Ho : ended_once (newAuthenticatee start client)) by by destruct start.
  unfold y_reach in Hr. revert Hi Ho. induction Hr as [x|x z y Hs _ IH]; [done|]. intros Hi Ho.
  destruct Hs as [mv x z Hm]. apply IH; [by eapply y_inv_move|by eapply move_once].
Qed.

Lemma challenge_returns data : is_Some (match challengeResponse (Handle h) data with Returns r => Some r | Panics => None end).
Proof. unfold challengeResponse. case_bool_decide; cbn; eauto. Qed.

Lemma crammd5_only : mechs = {[crammd5_Name := newInstance]}.
Proof. done. Qed.

Lemma with_context_panics from m e p : with_context mechs (Handle h) from m e p = Panics →
  ∃ data, m = StepMessage data ∧ p_status p = statusStepping ∧ p_stepFn p = NilStep.
Proof.
  unfold with_context. destruct (_ && _); [done|]. destruct m as [ms|data| | |text]; try done.
  - unfold mechanisms. destruct (negb _); [done|]. destruct (SelectSupported mechs ms) as [[x f]|] eqn:Ex; [|done].
    destruct (SelectSupported_spec _ _ _ _ Ex) as [_ Hf]. destruct (bool_decide (x = "")); [done|].
    rewrite crammd5_only in Hf. apply lookup_singleton_Some in Hf as [_ <-].
    cbn. by destruct e.
  - unfold step. destruct (bool_decide (p_status p = statusStepping)) eqn:Hs; [|done]. cbn [negb].
    apply bool_decide_eq_true in Hs. destruct (p_stepFn p) eqn:Hf; cbn.
    + by destruct e.
    + pose proof (challenge_returns data) as Hr. destruct (challengeResponse (Handle h) data) as [[[nf d] [err|]]|]; [done|by destruct e|by destruct Hr].
    + done.
    + by exists data.
  - unfold completed. by destruct (negb _).
Qed.
End Panics.

Lemma s_moves_runs supported handler server ms y y' :
  s_moves supported handler server ms y = Some (Returns y') → rtc (s_step supported handler server) y y'.
Proof.
  revert y. induction ms as [|mv ms IH]; intros y; cbn; [by intros [= ->]|].
  destruct (s_move supported handler server mv y) as [[y1|]|] eqn:Hm; try done. intros Hr.
  eapply rtc_l; [by econstructor|by apply IH].
Qed.

(** ** Runs with CRAM-MD5 *)

Definition a_server : UPID := mkUPID "master" "10.0.0.1" "5050".
Definition a_client : UPID := mkUPID "scheduler(1)" "10.0.0.7" "40000".
Definition a_auth : UPID := mkUPID "crammd5_authenticator(1)" "10.0.0.1" "5050".
Definition a_handler : CredentialHandler :=
  mkCredentialHandler (Some a_server) (Some a_client) (Some (mkCredential "tim" "tanstaaftanstaaf")).
Definition a_challenge : string := "<1896.697170952@postoffice.reston.mci.net>".

Abbreviation a_moves ms := (s_moves (crammd5_init ∅) (Handle a_handler) a_server ms (newAuthenticatee None a_client)).

Definition up_to_step : list smove :=
  [YSend None; YCaller; YMessage a_auth (MechanismsMessage ["GSSAPI"; "CRAM-MD5"]) None; YHandler;
   YMessage a_auth (StepMessage a_challenge) None; YHandler].
Definition whole_login : list smove :=
  up_to_step ++ [YMessage a_auth CompletedMessage None; YHandler; YHandler; YDone].

(** The exchange of RFC 2195. *)
Lemma login_run : ∃ y, a_moves whole_login = Some (Returns y) ∧ y_caller y = CReturned None ∧
  y_sent y = [(a_server, AuthenticateMessage "scheduler(1)@10.0.0.7:40000"); (a_auth, StartMessage "CRAM-MD5" "");
              (a_auth, StepReply "tim b913a602c7eda7a495b4e6e7334d3890")].
Proof. eexists. split; [vm_compute; reflexivity|by vm_compute]. Qed.

(** ** Properties *)

(** C31: The driver takes a master as having authenticated it only after a whole exchange.
    In every interleaving of the caller, the messages of others and the end
    of the context, when the login's answer makes the driver report success, the
    server was asked to authenticate this client, and one and the same authenticator offered
    a supported mechanism, was sent its start, and declared it completed. *)
Theorem authentication_sound supported handler server client start y e :
  y_reach supported handler server client start y → y_caller y = CReturned e →
  auth_outcome (driver_authenticate (LoginEnds e)) = AuthSuccess →
  (server, AuthenticateMessage (PidString client)) ∈ y_sent y ∧
  ∃ f ms m d, (f, MechanismsMessage ms) ∈ y_got y ∧ m ∈ ms ∧ is_Some (supported !! m) ∧ (f, StartMessage m d) ∈ y_sent y ∧
    (f, CompletedMessage) ∈ y_got y.
Proof.
  intros Hi%y_reach_inv Hc Ho. assert (e = None) as -> by (destruct e; cbn in Ho; [by case_bool_decide|done]).
  destruct (yi_returned _ _ _ _ Hi Hc) as [Ha (f & (ms & m & d & ?) & ?)]. split; [done|]. exists f, ms, m, d. naive_solver.
Qed.

Lemma authentication_sound_witness : ∃ y, y_caller y = CReturned None ∧
  (a_server, AuthenticateMessage (PidString a_client)) ∈ y_sent y.
Proof.
  destruct (s_moves (crammd5_init ∅) (Handle a_handler) a_server whole_login (newAuthenticatee None a_client)) as [[y|]|] eqn:E;
    [|exfalso; vm_compute in E; discriminate E..].
  assert (Hc : y_caller y = CReturned None) by (vm_compute in E; by injection E as <-).
  exists y. split; [exact Hc|].
  apply (authentication_sound (crammd5_init ∅) (Handle a_handler) a_server a_client None y None);
    [exact (s_moves_runs _ _ _ _ _ _ E)|exact Hc|reflexivity].
Defined.

(** Two things crash a login with CRAM-MD5, and only these: a message that is handled
    after the login has ended, whose handler swaps one final status for another and
    closes the closed channel; and a second step of the authenticator, for which the
    mechanism has left a nil function.  Both happen in runs: a late error message after the
    context ended, and a second step after the answer to the challenge. *)
Theorem authentication_panics h server client start :
  (∀ y mv, y_reach (crammd5_init ∅) (Handle h) server client start y →
     s_move (crammd5_init ∅) (Handle h) server mv y = Some Panics →
     y_late y = true ∨
     ∃ from data e, mv = YMessage from (StepMessage data) e ∧ p_status (y_proc y) = statusStepping ∧
       p_stepFn (y_proc y) = NilStep) ∧
  a_moves [YSend None; YCaller; YContext (ErrNew "context deadline exceeded"); YCaller; YCaller; YCaller;
           YMessage a_auth (ErrorMessage "late") None; YHandler; YHandler] = Some Panics ∧
  a_moves (up_to_step ++ [YMessage a_auth (StepMessage "again") None]) = Some Panics.
Proof.
  split; [|split; by vm_compute].
  intros y mv Hr Hm. destruct (reach_once h server client start y Hr) as [Hi Ho].
  destruct mv as [e| |e| |from m e| |]; cbn [s_move] in Hm.
  - by destruct (y_caller y), e.
  - left. unfold caller_step, close_done in Hm. destruct (p_done (y_proc y)) eqn:Hd; destruct (y_caller y) as [| |e|e| |k e|e|e] eqn:Hc; try done;
      repeat case_match; try done; (eapply (close_panics y None); [done|done|left; eauto]).
  - by destruct (y_caller y).
  - by destruct (y_caller y), (p_done (y_proc y)).
  - right. destruct (y_handler y); try done. destruct (y_transport y); [|done].
    destruct (with_context _ _ from m e (y_proc y)) as [[[p sent] a]|] eqn:Hw; [done|].
    destruct (with_context_panics h from m e (y_proc y) Hw) as (data & -> & ?). by exists from, data, e.
  - left. unfold handler_step, close_done in Hm. destruct (y_handler y) as [|[old new e|old new|]|e] eqn:Hh; try done.
    + by destruct (swap old new (y_proc y)).
    + destruct (p_done (y_proc y)) eqn:Hd; [|done]. eapply (close_panics y e); [done|done|by right].
  - by destruct (_ && _).
Qed.

(** An authenticator that answers before the caller has noted that it asked is taken
    for an intruder: the login fails although every message is as it should be. *)
Lemma prompt_authenticator_refused : ∃ y,
  a_moves [YSend None; YMessage a_auth (MechanismsMessage ["CRAM-MD5"]) None; YHandler; YHandler; YCaller; YDone] = Some (Returns y) ∧
  y_caller y = CReturned (Some UnexpectedAuthenticationMechanisms).
Proof. eexists. split; [vm_compute; reflexivity|done]. Qed.

(** A caller whose context has ended returns after at most three steps of its own, unless
    a late message interferes. *)
Lemma discard_returns h server y known e :
  ended_once y → y_late y = false → y_caller y = CDiscard known e →
  ∃ n y', n ≤ 3 ∧ s_moves (crammd5_init ∅) (Handle h) server (replicate n YCaller) y = Some (Returns y') ∧
    y_caller y' = CReturned (Some e).
Proof.
  intros Ho Hl Hc.
  assert (Hfinal : ∀ y s, ended_once y → y_late y = false → y_caller y = CDiscard s e → (terminal s = true ∨ p_status (y_proc y) = s) →
    ∃ n y', n ≤ 2 ∧ s_moves (crammd5_init ∅) (Handle h) server (replicate n YCaller) y = Some (Returns y') ∧
      y_caller y' = CReturned (Some e)).
  { clear. intros y s Ho Hl Hc Hs. destruct (terminal s) eqn:Ht.
    - exists 1, (with_caller (y_proc y) (CReturned (Some e)) y). split_and!; [lia| |done]. cbn. unfold caller_step. by rewrite Hc, Ht.
    - destruct Hs as [|Hs]; [done|]. unfold ended_once, closers in Ho. rewrite Hl, Hc, Hs, Ht in Ho. specialize (Ho eq_refl).
      assert (Hd : p_done (y_proc y) = false) by (destruct (p_done (y_proc y)); [cbn in Ho; lia|done]).
      eexists 2, _. split_and!; [lia| |]; [|].
      + cbn. unfold caller_step at 1. rewrite Hc, Ht. unfold swap. rewrite (bool_decide_eq_true_2 (_ = s)) by done.
        rewrite bool_decide_eq_false_2 by by intros ->. cbn. unfold caller_step. cbn. unfold close_done. cbn. by rewrite Hd.
      + done. }
  destruct (terminal known) eqn:Ht.
  { destruct (Hfinal y known Ho Hl Hc ltac:(by left)) as (n & y' & Hn & H). exists n, y'. split; [lia|done]. }
  destruct (decide (p_status (y_proc y) = known)) as [Hs|Hs].
  { destruct (Hfinal y known Ho Hl Hc ltac:(by right)) as (n & y' & Hn & H). exists n, y'. split; [lia|done]. }
  set (y1 := with_caller (y_proc y) (CDiscard (p_status (y_proc y)) e) y).
  assert (H1 : s_move (crammd5_init ∅) (Handle h) server YCaller y = Some (Returns y1)).
  { cbn. unfold caller_step. rewrite Hc, Ht. unfold swap. by rewrite (bool_decide_eq_false_2 (p_status _ = known)), andb_false_r by done. }
  destruct (Hfinal y1 (p_status (y_proc y))) as (n & y' & Hn & H & Hr).
  - unfold ended_once, closers in *. by rewrite Hc in Ho.
  - done.
  - done.
  - by right.
  - exists (S n), y'. split_and!; [lia| |done]. cbn [replicate s_moves]. by rewrite H1.
Qed.
