(* ===== verification/EtcdClient.v ===== *)
(** * The etcd client (coreos/go-etcd/etcd, vendored)

    cluster.go, client.go, requests.go, response.go, options.go, error.go and the
    operations of get.go, set_update_create.go, delete.go, compare_and_swap.go,
    compare_and_delete.go and add_child.go: the HTTP client of etcd that the health
    check uses.  The requests are the HTTP events of World.v.  The headers of an
    answer, the random numbers, [url.Parse] with [URL.String], the check of a URL
    by [http.NewRequest] and the decoder of a response (ugorji/go/codec) are
    parameters.  Requests that can be cancelled, credentials, TLS, cURL tracing and
    the persistence of the configuration are left out: the client of the health
    check has none of them. *)

From Stdlib Require Import Ascii.
From stdpp Require Import base strings list gmap sorting.
From S2P Require Import Prelude GoStd Errors Upid Json Config Codec Mesos World Rpc ZooDetector.

(** ** Strings, paths and escaping *)

Fixpoint trim_left (skip : nat) (s : string) : string :=
  match s with
  | "" => ""
  | String _ s' =>
      match skip with
      | S k => trim_left k s'
      | O => match space_width s with O => s | S k => trim_left k s' end
      end
  end.

Fixpoint trim_right (s : string) : string :=
  match s with
  | "" => ""
  | String a s' => if bool_decide (trim_left 0 s = "") then "" else String a (trim_right s')
  end.

Definition TrimSpace (s : string) : string := trim_right (trim_left 0 s).

(** [path.Clean] on the components: a stack, the last component first. *)
Fixpoint clean_parts (rooted : bool) (parts stack : list string) : list string :=
  match parts with
  | [] => reverse stack
  | p :: ps =>
      if bool_decide (p = "") || bool_decide (p = ".") then clean_parts rooted ps stack
      else if bool_decide (p = "..") then
        match stack with
        | top :: rest => if bool_decide (top = "..") then clean_parts rooted ps (".." :: stack)
                         else clean_parts rooted ps rest
        | [] => clean_parts rooted ps (if rooted then [] else [".."])
        end
      else clean_parts rooted ps (p :: stack)
  end.

Definition Clean (path : string) : string :=
  let rooted := HasPrefix path "/" in
  let joined := Join (clean_parts rooted (Split path "/") []) "/" in
  if rooted then "/" +:+ joined else if bool_decide (joined = "") then "." else joined.

(** [path.Join]: the empty elements are left out. *)
Definition path_Join (elems : list string) : string :=
  match filter (λ e, e ≠ "") elems with
  | [] => ""
  | es => Clean (Join es "/")
  end.

Definition hex_char (n : N) : ascii := ascii_of_N (if (n <? 10)%N then 48 + n else 55 + n)%N.

Definition unreserved (a : ascii) : bool :=
  let n := byte a in
  is_digit a || ((65 <=? n) && (n <=? 90) || (97 <=? n) && (n <=? 122))%N ||
  bool_decide (a ∈ ["-"; "_"; "."; "~"]%char).

(** [url.QueryEscape]. *)
Fixpoint QueryEscape (s : string) : string :=
  match s with
  | "" => ""
  | String a s' =>
      if unreserved a then String a (QueryEscape s')
      else if bool_decide (a = " "%char) then String "+" (QueryEscape s')
      else String "%" (String (hex_char (byte a / 16)) (String (hex_char (byte a mod 16)) (QueryEscape s')))
  end.

(** [strings.Replace(s, "%2F", "/", -1)]. *)
Fixpoint unescape_slash (s : string) : string :=
  match s with
  | "" => ""
  | String "%" (String "2" (String "F" s')) => String "/" (unescape_slash s')
  | String a s' => String a (unescape_slash s')
  end.

Definition keyToPath (key : string) : string :=
  let p := unescape_slash (QueryEscape (path_Join ["keys"; key])) in
  if bool_decide (p = "keys") then "keys/" else p.

(** ** Options *)

Inductive OptValue := OptBool (b : bool) | OptUint (n : Z) | OptString (s : string).
Inductive Kind := KBool | KUint64 | KString.

#[export] Instance Kind_eq_dec : EqDecision Kind.
Proof. solve_decision. Defined.

Definition kind_of (v : OptValue) : Kind :=
  match v with OptBool _ => KBool | OptUint _ => KUint64 | OptString _ => KString end.
Definition opt_text (v : OptValue) : string :=
  match v with OptBool b => if b then "true" else "false" | OptUint n => FormatUint n | OptString s => s end.

Abbreviation Options := (gmap string OptValue).
Abbreviation validOptions := (gmap string Kind).

Definition VALID_GET_OPTIONS : validOptions :=
  list_to_map [("recursive", KBool); ("quorum", KBool); ("sorted", KBool); ("wait", KBool); ("waitIndex", KUint64)].
Definition VALID_PUT_OPTIONS : validOptions :=
  list_to_map [("prevValue", KString); ("prevIndex", KUint64); ("prevExist", KBool); ("dir", KBool)].
Definition VALID_DELETE_OPTIONS : validOptions :=
  list_to_map [("recursive", KBool); ("dir", KBool); ("prevValue", KString); ("prevIndex", KUint64)].

(** [url.Values.Encode]: by key. *)
Definition Encode (m : gmap string string) : string :=
  let keys := merge_sort String.le ((map_to_list m).*1) in
  Join ((λ k, QueryEscape k +:+ "=" +:+ QueryEscape (default "" (m !! k))) <$> keys) "&".

(** An option is valid when it is known and has the right kind. *)
Definition valid_option (validOps : validOptions) (kv : string * OptValue) : bool :=
  bool_decide (validOps !! kv.1 = Some (kind_of kv.2)).

(** [toParameters]; nil options are [None].  Which of several wrong options the error
    names depends on the order of the map and is left out. *)
Definition toParameters (ops : option Options) (validOps : validOptions) : result string :=
  match ops with
  | None => Ok ""
  | Some ops =>
      if forallb (valid_option validOps) (map_to_list ops) then Ok ("?" +:+ Encode (opt_text <$> ops))
      else Err (ErrNew "Invalid option")
  end.

Definition buildValues (value : string) (ttl : Z) : gmap string string :=
  let v := if bool_decide (value = "") then ∅ else {["value" := value]} in
  if bool_decide (0 < ttl)%Z then <["ttl" := FormatUint ttl]> v else v.

(** ** Clusters *)

Record Cluster := mkCluster { Machines : list string; picked : nat }.

Definition failure (cl : Cluster) : Cluster :=
  mkCluster (Machines cl) ((picked cl + 1) mod length (Machines cl)).

(** [None] is an index out of range. *)
Definition pick (cl : Cluster) : option string := Machines cl !! picked cl.

(** A new client: the consistency, of which only the weak one is the default, and
    the cluster. *)
Definition STRONG_CONSISTENCY : string := "STRONG".
Definition WEAK_CONSISTENCY : string := "WEAK".

Record Client := mkClient { Consistency : string; DialTimeout : Z; cluster : Cluster }.

Definition SetConsistency (consistency : string) (c : Client) : Client * option error :=
  if bool_decide (consistency = STRONG_CONSISTENCY) || bool_decide (consistency = WEAK_CONSISTENCY)
  then (mkClient consistency (DialTimeout c) (cluster c), None)
  else (c, Some (ErrNew "The argument must be either STRONG_CONSISTENCY or WEAK_CONSISTENCY.")).

Definition SetDialTimeout (d : Z) (c : Client) : Client := mkClient (Consistency c) d (cluster c).

Definition with_cluster (cl : Cluster) (c : Client) : Client := mkClient (Consistency c) (DialTimeout c) cl.

(** ** Requests and answers *)

Record RawRequest := mkRaw {
  Method_ : Method;
  RelativePath : string;
  Values : option (gmap string string);
}.

Record RawResponse := mkRawResponse {
  StatusCode : Z;
  Body : string;
  Header : string → string;
}.

(** [EtcdError], or an error of another kind. *)
Inductive etcd_error :=
  | EtcdError (ErrorCode : Z) (Message : string)
  | OtherError (e : error).

Definition ErrCodeEtcdNotReachable : Z := 501.
Definition ErrCodeUnhandledHTTPStatus : Z := 502.

Definition errorMap (code : Z) : string :=
  if bool_decide (code = ErrCodeEtcdNotReachable) then "All the given peers are not reachable" else "".

Definition newError (errorCode : Z) : etcd_error := EtcdError errorCode (errorMap errorCode).

Definition validHttpStatusCode (code : Z) : bool :=
  bool_decide (code ∈ [201; 200; 400; 404; 412; 403; 401]%Z).

(** How a request ends; [SendSpins] is a loop that has not ended within the fuel. *)
Inductive sent (A : Type) :=
  | SendOk (a : A)
  | SendErr (e : etcd_error)
  | SendPanics
  | SendSpins.
Arguments SendOk {A}.
Arguments SendErr {A}.
Arguments SendPanics {A}.
Arguments SendSpins {A}.

Definition millisecond : Z := 1000000.

Definition isEmptyResponse (code : Z) : bool := bool_decide (code = 0%Z).
Definition shouldRetry (code : Z) : bool := bool_decide (code = 500%Z).

(** [DefaultCheckRetry] with the status of the last response, 0 when there was
    none. *)
Definition DefaultCheckRetry (cl : Cluster) (numReqs : nat) (lastCode : Z) : IO (option etcd_error) :=
  if bool_decide (2 * length (Machines cl) < numReqs) then mret (Some (newError ErrCodeEtcdNotReachable))
  else if isEmptyResponse lastCode then mret None
  else if negb (shouldRetry lastCode) then mret (Some (newError ErrCodeUnhandledHTTPStatus))
  else _ ← Sleep (200 * millisecond); mret None.

(** The fields of an error document; the cause and the index are only checked. *)
Definition dec_int (old : Z) (v : json) : option Z :=
  match v with JNum l => ParseInt l | JNull => Some old | _ => None end.

Definition set_etcd_error (e : Z * string) (k : string) (v : json) : option (Z * string) :=
  if bool_decide (k = "errorcode") then x ← dec_int e.1 v; Some (x, e.2)
  else if bool_decide (k = "message") then x ← dec_string e.2 v; Some (e.1, x)
  else if bool_decide (k = "cause") then _ ← dec_string "" v; Some e
  else if bool_decide (k = "index") then _ ← dec_u64 0 v; Some e
  else Some e.

Definition handleError (b : string) : etcd_error :=
  match v ← parse b; dec_struct set_etcd_error (0%Z, "") v with
  | Some (code, message) => EtcdError code message
  | None => OtherError ErrJson
  end.

(** The value of [strconv.ParseUint] when its error is dropped. *)
Definition header_uint (s : string) : Z :=
  match ParseUint s with
  | Some n => n
  | None => if bool_decide (s = "") || negb (all_bytes is_digit s) then 0%Z else MaxUint64
  end.

Record Response := mkResponse { EtcdIndex : Z; RespRaftIndex : Z; RespRaftTerm : Z }.

Section EtcdClient.
Context (header : list Event → Request → string → string).
Context (Location : list Event → Request → option string).
Context (Intn : list Event → nat → nat).
Context (url_Parse : string → result URL) (url_String : URL → string).
Context (NewRequest : string → option error).
Context (decodes : string → bool).

(** ** The cluster *)

Definition shuffleStringSlice (cards : list string) : IO (list string) :=
  ask (λ env h, if bool_decide (length cards ≤ 1) then cards else env_range env _ h cards).

Definition new_picked (machines : list string) : IO Cluster :=
  ask (λ _ h, mkCluster machines (Intn h (length machines))).

Definition NewCluster (machines : list string) : IO Cluster :=
  let machines := if bool_decide (machines = []) then ["http://127.0.0.1:4001"] else machines in
  machines ← shuffleStringSlice machines;
  new_picked machines.

Definition updateFromStr (machines : string) : IO Cluster :=
  machines ← shuffleStringSlice (TrimSpace <$> Split machines ",");
  new_picked machines.

Definition NewClient (machines : list string) : IO Client :=
  cl ← NewCluster machines; mret (mkClient WEAK_CONSISTENCY second cl).

Definition createHttpPath (serverName path : string) : go string :=
  match url_Parse serverName with
  | Err _ => Panics
  | Ok u =>
      Returns (url_String (mkURL (if bool_decide (urlScheme u = "") then "http" else urlScheme u) (urlHost u)
                             (path_Join [urlPath u; path])))
  end.

(** The members that one machine reports: [None] to try the next one. *)
Definition ask_members (machine : string) : IO (go (option string)) :=
  match createHttpPath machine (path_Join ["v2"; "members"]) with
  | Panics => mret Panics
  | Returns httpPath =>
      resp ← http_get httpPath;
      match resp with
      | HttpFail _ => mret (Returns None)
      | HttpResp code body =>
          if negb (bool_decide (code = 200%Z)) then
            match createHttpPath machine (path_Join ["v2"; "machines"]) with
            | Panics => mret Panics
            | Returns httpPath =>
                resp ← http_get httpPath;
                match resp with
                | HttpFail _ | HttpResp _ (Err _) => mret (Returns None)
                | HttpResp _ (Ok b) => mret (Returns (Some b))
                end
            end
          else match body with
               | Err _ => mret (Returns None)
               | Ok b => match Unmarshal_members b with
                         | None => mret (Returns None)
                         | Some ms => mret (Returns (Some (Join (Config.Members ms ≫= ClientURLs) ",")))
                         end
               end
      end
  end.

Fixpoint sync_loop (machines : list string) (c : Client) : IO (go (Client * bool)) :=
  match machines with
  | [] => mret (Returns (c, false))
  | machine :: rest =>
      r ← ask_members machine;
      match r with
      | Panics => mret Panics
      | Returns None => sync_loop rest c
      | Returns (Some members) =>
          if bool_decide (members = "") then sync_loop rest c
          else cl ← updateFromStr members; mret (Returns (with_cluster cl c, true))
      end
  end.

Definition internalSyncCluster (machines : list string) (c : Client) : IO (go (Client * bool)) := sync_loop machines c.
Definition SetCluster (machines : list string) (c : Client) : IO (go (Client * bool)) := internalSyncCluster machines c.
Definition SyncCluster (c : Client) : IO (go (Client * bool)) := internalSyncCluster (Machines (cluster c)) c.

(** ** Sending *)

(** [getHttpPath] for one segment. *)
Definition getHttpPath (cl : Cluster) (seg : string) : option string :=
  (λ m, m +:+ "/v2/" +:+ seg) <$> pick cl.

Definition maxSleep : Z := second.

Definition unexpectedEOF : error := ErrRead "unexpected EOF".

(** The loop of [SendRequest]; [attempt] is whether there was an attempt before,
    [httpPath] the target of a redirection or the empty text. *)
Fixpoint send_loop (fuel : nat) (rr : RawRequest) (attempt : bool) (sleep : Z) (numReqs : nat) (httpPath : string)
    (cl : Cluster) : IO (Cluster * sent RawResponse) :=
  match fuel with
  | O => mret (cl, SendSpins)
  | S fuel =>
      _ ← (if attempt then Sleep sleep else mret tt);
      let sleep := if attempt then Z.min (sleep * 2) maxSleep else sleep in
      match (if bool_decide (httpPath = "") then getHttpPath cl (RelativePath rr) else Some httpPath) with
      | None => mret (cl, SendPanics)
      | Some httpPath =>
          match NewRequest httpPath with
          | Some e => mret (cl, SendErr (OtherError e))
          | None =>
              let req := mkRequest (Method_ rr) httpPath (match Values rr with Some v => Encode v | None => "" end) in
              headers ← ask (λ _ h, (header h req, Location h req));
              resp ← http_do req;
              let numReqs := S numReqs in
              match resp with
              | HttpFail _ =>
                  checkErr ← DefaultCheckRetry cl numReqs 0;
                  match checkErr with
                  | Some e => mret (cl, SendErr e)
                  | None => send_loop fuel rr true sleep numReqs "" (failure cl)
                  end
              | HttpResp code body =>
                  let read := if validHttpStatusCode code then
                                match body with
                                | Ok b => Some b
                                | Err e => if bool_decide (e = unexpectedEOF) then Some "" else None
                                end
                              else None in
                  match read with
                  | Some b => mret (cl, SendOk (mkRawResponse code b headers.1))
                  | None =>
                      if bool_decide (code = 307%Z) then
                        send_loop fuel rr true sleep numReqs (default "" headers.2) cl
                      else
                        checkErr ← DefaultCheckRetry cl numReqs code;
                        match checkErr with
                        | Some e => mret (cl, SendErr e)
                        | None => send_loop fuel rr true sleep numReqs "" cl
                        end
                  end
              end
          end
      end
  end.

Definition SendRequest (fuel : nat) (rr : RawRequest) (c : Client) : IO (Client * sent RawResponse) :=
  r ← send_loop fuel rr false (25 * millisecond) 1 "" (cluster c);
  mret (with_cluster r.1 c, r.2).

(** ** Operations *)

Definition request (fuel : nat) (m : Method) (key : string) (ops : result string) (values : option (gmap string string))
    (c : Client) : IO (Client * sent RawResponse) :=
  match pick (cluster c) with
  | None => mret (c, SendPanics)
  | Some _ =>
      match ops with
      | Err e => mret (c, SendErr (OtherError e))
      | Ok str => SendRequest fuel (mkRaw m (keyToPath key +:+ str) values) c
      end
  end.

Definition get (fuel : nat) (key : string) (ops : option Options) : Client → IO (Client * sent RawResponse) :=
  request fuel GET key (toParameters ops VALID_GET_OPTIONS) None.
Definition put (fuel : nat) (key value : string) (ttl : Z) (ops : option Options) : Client → IO (Client * sent RawResponse) :=
  request fuel PUT key (toParameters ops VALID_PUT_OPTIONS) (Some (buildValues value ttl)).
Definition post (fuel : nat) (key value : string) (ttl : Z) : Client → IO (Client * sent RawResponse) :=
  request fuel POST key (Ok "") (Some (buildValues value ttl)).
Definition delete_ (fuel : nat) (key : string) (ops : option Options) : Client → IO (Client * sent RawResponse) :=
  request fuel DELETE key (toParameters ops VALID_DELETE_OPTIONS) None.

Definition RawGet (fuel : nat) (key : string) (sort recursive : bool) (c : Client) : IO (Client * sent RawResponse) :=
  let q := bool_decide (Consistency c = STRONG_CONSISTENCY) in
  get fuel key (Some (list_to_map [("recursive", OptBool recursive); ("sorted", OptBool sort); ("quorum", OptBool q)])) c.
Definition RawSet (fuel : nat) (key value : string) (ttl : Z) : Client → IO (Client * sent RawResponse) :=
  put fuel key value ttl None.
Definition RawSetDir (fuel : nat) (key : string) (ttl : Z) : Client → IO (Client * sent RawResponse) :=
  put fuel key "" ttl (Some (list_to_map [("dir", OptBool true)])).
Definition RawUpdate (fuel : nat) (key value : string) (ttl : Z) : Client → IO (Client * sent RawResponse) :=
  put fuel key value ttl (Some (list_to_map [("prevExist", OptBool true)])).
Definition RawCreate (fuel : nat) (key value : string) (ttl : Z) : Client → IO (Client * sent RawResponse) :=
  put fuel key value ttl (Some (list_to_map [("prevExist", OptBool false)])).
Definition RawUpdateDir (fuel : nat) (key : string) (ttl : Z) : Client → IO (Client * sent RawResponse) :=
  put fuel key "" ttl (Some (list_to_map [("prevExist", OptBool true); ("dir", OptBool true)])).
Definition RawCreateDir (fuel : nat) (key : string) (ttl : Z) : Client → IO (Client * sent RawResponse) :=
  put fuel key "" ttl (Some (list_to_map [("prevExist", OptBool false); ("dir", OptBool true)])).
Definition RawCreateInOrder (fuel : nat) (dir value : string) (ttl : Z) : Client → IO (Client * sent RawResponse) :=
  post fuel dir value ttl.
Definition RawDelete (fuel : nat) (key : string) (recursive dir : bool) : Client → IO (Client * sent RawResponse) :=
  delete_ fuel key (Some (list_to_map [("recursive", OptBool recursive); ("dir", OptBool dir)])).

(** The options of the two conditional operations. *)
Definition compare_options (prevValue : string) (prevIndex : Z) : option Options :=
  if bool_decide (prevValue = "") && bool_decide (prevIndex = 0%Z) then None
  else Some ((if bool_decide (prevValue = "") then id else insert "prevValue" (OptString prevValue))
               (if bool_decide (prevIndex = 0%Z) then ∅ else {["prevIndex" := OptUint prevIndex]})).

Definition no_condition (c : Client) : IO (Client * sent RawResponse) :=
  mret (c, SendErr (OtherError (ErrNew "You must give either prevValue or prevIndex."))).

Definition RawCompareAndSwap (fuel : nat) (key value : string) (ttl : Z) (prevValue : string) (prevIndex : Z)
    : Client → IO (Client * sent RawResponse) :=
  match compare_options prevValue prevIndex with
  | None => no_condition
  | Some options => put fuel key value ttl (Some options)
  end.
Definition RawCompareAndDelete (fuel : nat) (key prevValue : string) (prevIndex : Z)
    : Client → IO (Client * sent RawResponse) :=
  match compare_options prevValue prevIndex with
  | None => no_condition
  | Some options => delete_ fuel key (Some options)
  end.

Definition Unmarshal (rr : RawResponse) : etcd_error + Response :=
  if negb (bool_decide (StatusCode rr = 200%Z)) && negb (bool_decide (StatusCode rr = 201%Z)) then inl (handleError (Body rr))
  else if decodes (Body rr) then
    inr (mkResponse (header_uint (Header rr "X-Etcd-Index")) (header_uint (Header rr "X-Raft-Index"))
           (header_uint (Header rr "X-Raft-Term")))
  else inl (OtherError ErrJson).

(** [Get], [Set], ... are the raw operations followed by [Unmarshal]. *)
Definition unmarshalled (op : Client → IO (Client * sent RawResponse)) (c : Client) : IO (Client * sent Response) :=
  r ← op c;
  mret (r.1, match r.2 with
             | SendOk raw => match Unmarshal raw with inr resp => SendOk resp | inl e => SendErr e end
             | SendErr e => SendErr e
             | SendPanics => SendPanics
             | SendSpins => SendSpins
             end).

Definition Get (fuel : nat) (key : string) (sort recursive : bool) : Client → IO (Client * sent Response) :=
  unmarshalled (RawGet fuel key sort recursive).
Definition Set_ (fuel : nat) (key value : string) (ttl : Z) : Client → IO (Client * sent Response) :=
  unmarshalled (RawSet fuel key value ttl).
Definition SetDir (fuel : nat) (key : string) (ttl : Z) : Client → IO (Client * sent Response) :=
  unmarshalled (RawSetDir fuel key ttl).
Definition CreateDir (fuel : nat) (key : string) (ttl : Z) : Client → IO (Client * sent Response) :=
  unmarshalled (RawCreateDir fuel key ttl).
Definition UpdateDir (fuel : nat) (key : string) (ttl : Z) : Client → IO (Client * sent Response) :=
  unmarshalled (RawUpdateDir fuel key ttl).
Definition Create (fuel : nat) (key value : string) (ttl : Z) : Client → IO (Client * sent Response) :=
  unmarshalled (RawCreate fuel key value ttl).
Definition CreateInOrder (fuel : nat) (dir value : string) (ttl : Z) : Client → IO (Client * sent Response) :=
  unmarshalled (RawCreateInOrder fuel dir value ttl).
Definition Update (fuel : nat) (key value : string) (ttl : Z) : Client → IO (Client * sent Response) :=
  unmarshalled (RawUpdate fuel key value ttl).
Definition Delete (fuel : nat) (key : string) (recursive : bool) : Client → IO (Client * sent Response) :=
  unmarshalled (RawDelete fuel key recursive false).
Definition DeleteDir (fuel : nat) (key : string) : Client → IO (Client * sent Response) :=
  unmarshalled (RawDelete fuel key false true).
Definition CompareAndSwap (fuel : nat) (key value : string) (ttl : Z) (prevValue : string) (prevIndex : Z)
    : Client → IO (Client * sent Response) :=
  unmarshalled (RawCompareAndSwap fuel key value ttl prevValue prevIndex).
Definition CompareAndDelete (fuel : nat) (key prevValue : string) (prevIndex : Z) : Client → IO (Client * sent Response) :=
  unmarshalled (RawCompareAndDelete fuel key prevValue prevIndex).
Definition AddChildDir (fuel : nat) (key : string) (ttl : Z) : Client → IO (Client * sent Response) :=
  unmarshalled (post fuel key "" ttl).
Definition AddChild (fuel : nat) (key value : string) (ttl : Z) : Client → IO (Client * sent Response) :=
  unmarshalled (post fuel key value ttl).
End EtcdClient.

(** ** Properties *)

(** *** Paths *)

(** What may stand in a path without changing its meaning. *)
Definition path_byte (a : ascii) : bool := unreserved a || bool_decide (a ∈ ["%"; "+"; "/"]%char).

Lemma hex_char_byte n : (n < 16)%N → unreserved (hex_char n) = true.
Proof.
  intros Hn. unfold hex_char. destruct n as [|p]; [done|].
  do 4 (try (destruct p as [p|p|]; try done; try lia)).
Qed.

Lemma QueryEscape_bytes s : all_bytes path_byte (QueryEscape s) = true.
Proof.
  induction s as [|a s IH]; [done|]. cbn [QueryEscape]. destruct (unreserved a) eqn:Ha.
  - cbn [all_bytes]. unfold path_byte at 1. by rewrite Ha, IH.
  - case_bool_decide; cbn [all_bytes]; [by rewrite IH|].
    assert (Hb : (byte a < 256)%N) by apply N_ascii_bounded.
    unfold path_byte at 2 3. rewrite !hex_char_byte; [by rewrite IH|..].
    + apply N.mod_lt. lia.
    + apply N.Div0.div_lt_upper_bound. lia.
Qed.

Lemma unescape_slash_bytes s : all_bytes path_byte s = true → all_bytes path_byte (unescape_slash s) = true.
Proof.
  revert s. fix IH 1. intros [|a s]; [done|]. intros Has.
  assert (Hgen : all_bytes path_byte (String a (unescape_slash s)) = true).
  { cbn [all_bytes] in *. apply andb_true_iff in Has as [-> Hs]. by apply IH. }
  destruct a as [[] [] [] [] [] [] [] []]; try exact Hgen.
  destruct s as [|b s]; [exact Hgen|]. destruct b as [[] [] [] [] [] [] [] []]; try exact Hgen.
  destruct s as [|c s]; [exact Hgen|]. destruct c as [[] [] [] [] [] [] [] []]; try exact Hgen.
Qed.

(** Whatever the key, its path consists of bytes that cannot end the path of a URL:
    no question mark, number sign, blank or control byte. *)
Lemma keyToPath_safe key : all_bytes path_byte (keyToPath key) = true.
Proof.
  unfold keyToPath. case_bool_decide; [by_compute|]. apply unescape_slash_bytes, QueryEscape_bytes.
Qed.

Example keyToPath_examples :
  keyToPath "/" = "keys/" ∧ keyToPath "/foo" = "keys/foo" ∧ keyToPath "/%z" = "keys/%25z" ∧
  keyToPath "a b/c?d" = "keys/a+b/c%3Fd" ∧ keyToPath "../members" = "members".
Proof. split_and!; by_compute. Qed.

(** *** The machine list *)

Definition wf_cluster (cl : Cluster) : Prop := picked cl < length (Machines cl).

Lemma failure_wf cl : wf_cluster cl → wf_cluster (failure cl).
Proof. unfold wf_cluster, failure. cbn. intros H. apply Nat.mod_upper_bound. lia. Qed.

Lemma wf_pick cl : wf_cluster cl → ∃ m, pick cl = Some m.
Proof. unfold wf_cluster, pick. intros [m Hm]%lookup_lt_is_Some_2. by exists m. Qed.

Section Clients.
Context (header : list Event → Request → string → string).
Context (Location : list Event → Request → option string).
Context (Intn : list Event → nat → nat) (Intn_lt : ∀ h n, 0 < n → Intn h n < n).
Context (url_Parse : string → result URL) (url_String : URL → string).
Context (NewRequest : string → option error).
Context (env : Env).

Lemma shuffle_perm l h : (shuffleStringSlice l env h).1 ≡ₚ l.
Proof. unfold shuffleStringSlice, ask. cbn. case_bool_decide; [done|apply env_range_perm]. Qed.

(** A shuffled list of at least one machine, and one of them picked. *)
Lemma shuffled_wf l h : l ≠ [] →
  let r := (ms ← shuffleStringSlice l; new_picked Intn ms) env h in
  wf_cluster r.1 ∧ Machines r.1 ≡ₚ l ∧ r.2 = [].
Proof.
  intros Hl. cbn zeta. rewrite bind_run. cbn [fst snd]. pose proof (shuffle_perm l h) as Hp.
  set (ms := (shuffleStringSlice l env h).1) in *. split_and!; [|done|done].
  unfold wf_cluster, new_picked, ask. cbn [fst picked Machines]. apply Intn_lt. rewrite Hp. destruct l; [done|]. cbn. lia.
Qed.

Lemma NewCluster_wf machines h : wf_cluster (NewCluster Intn machines env h).1.
Proof. unfold NewCluster. apply (shuffled_wf _ h). by case_bool_decide. Qed.

Lemma updateFromStr_wf s h :
  wf_cluster (updateFromStr Intn s env h).1 ∧ Machines (updateFromStr Intn s env h).1 ≡ₚ TrimSpace <$> Split s ",".
Proof.
  destruct (shuffled_wf (TrimSpace <$> Split s ",") h) as (H1 & H2 & _); [|by split].
  pose proof (Split_nonempty s ","). by destruct (Split s ",").
Qed.

Abbreviation sync := (EtcdClient.SyncCluster Intn url_Parse url_String).

Lemma sync_loop_result ms c h :
  match (sync_loop Intn url_Parse url_String ms c env h).1 with
  | Panics => True
  | Returns (c', false) => c' = c
  | Returns (c', true) =>
      wf_cluster (cluster c') ∧ Consistency c' = Consistency c ∧
      ∃ members, members ≠ "" ∧ Machines (cluster c') ≡ₚ TrimSpace <$> Split members ","
  end.
Proof.
  revert h. induction ms as [|m ms IH]; intros h; [done|]. cbn [sync_loop]. rewrite bind_run. cbn [fst].
  destruct (ask_members _ _ m env h) as [[[members|]|] w]; cbn [fst snd]; [|apply IH|done].
  case_bool_decide; [apply IH|]. rewrite bind_run. cbn [fst mret IO_ret].
  destruct (updateFromStr_wf members (h ++ w)). by split_and!; [|done|exists members].
Qed.

(** Synchronisation never empties the machine list.  [SyncCluster] of a client
    whose picked machine exists answers false and leaves the client as it
    was, or answers true after it took the members of some machine's non-empty
    answer, shuffled, with one of them picked; an index out of range or an empty list is
    not possible afterwards. *)
Theorem SyncCluster_keeps_machines c h :
  wf_cluster (cluster c) →
  match (sync c env h).1 with
  | Panics => True
  | Returns (c', ok) =>
      wf_cluster (cluster c') ∧ Machines (cluster c') ≠ [] ∧ Consistency c' = Consistency c ∧
      (ok = false → c' = c) ∧
      (ok = true → ∃ members, members ≠ "" ∧ Machines (cluster c') ≡ₚ TrimSpace <$> Split members ",")
  end.
Proof using Intn_lt.
  intros Hwf. assert (Hne : ∀ cl, wf_cluster cl → Machines cl ≠ []) by (intros cl Hc E; unfold wf_cluster in Hc; rewrite E in Hc; cbn in Hc; lia).
  pose proof (sync_loop_result (Machines (cluster c)) c h) as Hr. unfold EtcdClient.SyncCluster, internalSyncCluster.
  destruct (sync_loop _ _ _ _ c env h).1 as [[c' []]|]; [| |done].
  - destruct Hr as (H1 & H2 & H3). by split_and!; [|apply Hne|..].
  - subst c'. by split_and!; [|apply Hne|..].
Qed.

(** *** Sending *)

Definition https (w : list Event) : list Request := omap (λ e, match e with EvHttp r => Some r | _ => None end) w.

Lemma https_app w w' : https (w ++ w') = https w ++ https w'.
Proof. apply omap_app. Qed.

Abbreviation send := (send_loop header Location NewRequest).

Lemma DefaultCheckRetry_run cl n code h :
  https (DefaultCheckRetry cl n code env h).2 = [] ∧
  ((DefaultCheckRetry cl n code env h).1 = None → n ≤ 2 * length (Machines cl)).
Proof.
  unfold DefaultCheckRetry. case_bool_decide; [done|]. split.
  - destruct (isEmptyResponse code); [done|]. by destruct (shouldRetry code).
  - intros _. lia.
Qed.

(** What holds of a run of the loop that may send [left_] more requests. *)
Definition send_ok (cl : Cluster) (left_ : nat) (r : Cluster * sent RawResponse) (w : list Event) : Prop :=
  Machines r.1 = Machines cl ∧ wf_cluster r.1 ∧ length (https w) ≤ left_ ∧ r.2 ≠ SendPanics ∧ r.2 ≠ SendSpins.

(** A retry after one request and events that are no requests. *)
Lemma send_ok_retry cl cl' left_ r w0 req w1 w :
  https w0 = [] → https w1 = [] → Machines cl' = Machines cl → 1 ≤ left_ →
  send_ok cl' (left_ - 1) r w → send_ok cl left_ r (w0 ++ EvHttp req :: w1 ++ w).
Proof.
  intros H0 H1 Hm Hl (R1 & R2 & R3 & R4 & R5). split_and!; [congruence|done| |done..].
  rewrite https_app, H0. change (S (length (https (w1 ++ w))) ≤ left_). rewrite https_app, H1. cbn. lia.
Qed.

(** Nothing answers with a redirection. *)
Definition no_redirect : Prop := ∀ h r body, env_http env h r ≠ HttpResp 307 body.

Lemma send_loop_bounded fuel rr att sleep n path cl h :
  no_redirect → wf_cluster cl → n ≤ 2 * length (Machines cl) → 2 * length (Machines cl) + 1 - n ≤ fuel →
  ensures env h (send fuel rr att sleep n path cl) (send_ok cl (2 * length (Machines cl) + 1 - n)).
Proof.
  intros Hred. revert att sleep n path cl h. induction fuel as [|fuel IH]; intros att sleep n path cl h Hwf Hn Hfuel; [lia|].
  cbn [send_loop]. apply (ensures_bind env _ _ _ _ (λ _ w, https w = [])); [by destruct att|]. intros _ w0 Hw0.
  assert (Hret : ∀ s, s ≠ SendPanics → s ≠ SendSpins → send_ok cl (2 * length (Machines cl) + 1 - n) (cl, s) (w0 ++ [])).
  { intros s H1 H2. rewrite app_nil_r. split_and!; [done|done| |done..]. rewrite Hw0. cbn. lia. }
  assert (Hpath : ∃ p, (if bool_decide (path = "") then getHttpPath cl (RelativePath rr) else Some path) = Some p).
  { case_bool_decide; [|by eexists]. destruct (wf_pick cl Hwf) as [m Hm]. unfold getHttpPath. rewrite Hm. by eexists. }
  destruct Hpath as [p ->]. destruct (NewRequest p) as [e|]; [by apply ensures_ret, Hret|].
  apply ensures_bind_ask, ensures_bind_act.
  assert (Hone : ∀ s w1, https w1 = [] → s ≠ SendPanics → s ≠ SendSpins → ∀ req,
    send_ok cl (2 * length (Machines cl) + 1 - n) (cl, s) (w0 ++ EvHttp req :: w1)).
  { intros s w1 Hw1 H1 H2 req. split_and!; [done|done| |done..]. rewrite https_app, Hw0.
    change (S (length (https w1)) ≤ 2 * length (Machines cl) + 1 - n). rewrite Hw1. cbn. lia. }
  assert (Hretry : ∀ code cl' req sl h', wf_cluster cl' → Machines cl' = Machines cl →
    ensures env h' (checkErr ← DefaultCheckRetry cl (S n) code;
                    match checkErr with
                    | Some e => mret (cl, SendErr e)
                    | None => send fuel rr true sl (S n) "" cl'
                    end) (λ b w', send_ok cl (2 * length (Machines cl) + 1 - n) b (w0 ++ EvHttp req :: w'))).
  { intros code cl' req sl h' Hwf' Hm. destruct (DefaultCheckRetry_run cl (S n) code h') as [Hq Hle].
    apply (ensures_bind env _ _ _ _ (λ r w, https w = [] ∧ (r = None → S n ≤ 2 * length (Machines cl)))); [by split|].
    intros [e|] w1 [Hw1 Hle1]; [apply ensures_ret; rewrite app_nil_r; by apply Hone|].
    specialize (Hle1 eq_refl). rewrite <- Hm in Hle1, Hfuel.
    eapply ensures_mono; [apply (IH true sl (S n) "" cl'); [done|lia|lia]|]. rewrite Hm. intros r w Hr.
    apply (send_ok_retry cl cl'); [done..|lia|]. by replace (2 * length (Machines cl) + 1 - n - 1) with (2 * length (Machines cl) + 1 - S n) by lia. }
  destruct (env_http _ _ _) as [e|code body] eqn:Hresp; [apply Hretry; [by apply failure_wf|done]|].
  destruct (if validHttpStatusCode code then _ else _) as [b|]; [apply ensures_ret; by apply Hone|].
  case_bool_decide as Hc; [|by apply Hretry]. subst code. by apply Hred in Hresp.
Qed.

Lemma SendRequest_ok fuel rr c h :
  no_redirect → wf_cluster (cluster c) → 2 * length (Machines (cluster c)) ≤ fuel →
  let r := SendRequest header Location NewRequest fuel rr c env h in
  r.1.2 ≠ SendPanics ∧ r.1.2 ≠ SendSpins ∧ length (https r.2) ≤ 2 * length (Machines (cluster c)) ∧
  Machines (cluster r.1.1) = Machines (cluster c) ∧ wf_cluster (cluster r.1.1).
Proof.
  intros Hred Hwf Hf r. unfold wf_cluster in Hwf.
  pose proof (send_loop_bounded fuel rr false (25 * millisecond) 1 "" (cluster c) h Hred Hwf
    ltac:(lia) ltac:(lia)) as (H1 & H2 & H3 & H4 & H5).
  unfold r, SendRequest. rewrite bind_run. cbn [fst snd mret IO_ret with_cluster cluster]. rewrite app_nil_r.
  split_and!; [done|done| |done|done]. lia.
Qed.

(** A request ends.  When no machine answers with a redirection, [SendRequest]
    of a client with [n] machines returns an answer or an error after at most
    [2 * n] HTTP requests (that many rounds of fuel are enough), whatever the
    machines answer; it does not index out of range, and the machine list
    is unchanged with one of its machines picked. *)
Theorem SendRequest_bounded rr c h :
  no_redirect → wf_cluster (cluster c) →
  let n := length (Machines (cluster c)) in
  let r := SendRequest header Location NewRequest (2 * n) rr c env h in
  r.1.2 ≠ SendPanics ∧ r.1.2 ≠ SendSpins ∧ length (https r.2) ≤ 2 * n ∧
  Machines (cluster r.1.1) = Machines (cluster c) ∧ wf_cluster (cluster r.1.1).
Proof. intros Hred Hwf n r. by apply SendRequest_ok. Qed.

(** A read returns too. *)
Lemma Get_ok decodes fuel key sort recursive c h :
  no_redirect → wf_cluster (cluster c) → 2 * length (Machines (cluster c)) ≤ fuel →
  let r := Get header Location NewRequest decodes fuel key sort recursive c env h in
  r.1.2 ≠ SendPanics ∧ r.1.2 ≠ SendSpins ∧
  Machines (cluster r.1.1) = Machines (cluster c) ∧ wf_cluster (cluster r.1.1).
Proof.
  intros Hred Hwf Hf. cbn zeta. unfold Get, unmarshalled, RawGet, get, request. rewrite bind_run. cbn [fst snd mret IO_ret].
  destruct (wf_pick _ Hwf) as [m ->]. destruct (toParameters _ _) as [str|e]; [|done].
  destruct (SendRequest_ok fuel (mkRaw GET (keyToPath key +:+ str) None) c h Hred Hwf Hf) as (H1 & H2 & _ & H3 & H4).
  destruct (SendRequest _ _ _ _ _ _ env h) as [[c' s] w]. cbn [fst snd] in *. destruct s as [raw|e| |]; [|done..].
  by destruct (Unmarshal decodes raw).
Qed.

(** *** Failing machines *)

(** The request that goes to the [i]-th machine after the picked one. *)
Definition request_to (rr : RawRequest) (cl : Cluster) (i : nat) : Request :=
  mkRequest (Method_ rr)
    (default "" (Machines cl !! ((picked cl + i) mod length (Machines cl))) +:+ "/v2/" +:+ RelativePath rr)
    (match Values rr with Some v => Encode v | None => "" end).

Lemma request_to_failure rr cl i : request_to rr (failure cl) i = request_to rr cl (S i).
Proof.
  unfold request_to, failure. cbn [Machines picked]. rewrite Nat.Div0.add_mod_idemp_l.
  by replace (picked cl + 1 + i) with (picked cl + S i) by lia.
Qed.

Lemma refused_loop fuel rr att sleep n cl h :
  (∀ h r, ∃ e, env_http env h r = HttpFail e) → (∀ p, NewRequest p = None) → wf_cluster cl →
  n ≤ 2 * length (Machines cl) → 2 * length (Machines cl) + 1 - n ≤ fuel →
  ensures env h (send fuel rr att sleep n "" cl) (λ r w,
    r.2 = SendErr (newError ErrCodeEtcdNotReachable) ∧
    https w = request_to rr cl <$> seq 0 (2 * length (Machines cl) + 1 - n)).
Proof.
  intros Hf Hnr. revert att sleep n cl h. induction fuel as [|fuel IH]; intros att sleep n cl h Hwf Hn Hfuel; [lia|].
  cbn [send_loop]. apply (ensures_bind env _ _ _ _ (λ _ w, https w = [])); [by destruct att|]. intros _ w0 Hw0.
  destruct (wf_pick cl Hwf) as [m Hm]. rewrite bool_decide_eq_true_2 by done. unfold getHttpPath. rewrite Hm. cbn [fmap option_fmap option_map].
  rewrite Hnr. apply ensures_bind_ask, ensures_bind_act. match goal with |- context [env_http env ?a ?b] => destruct (Hf a b) as [e ->] end.
  assert (Hreq : mkRequest (Method_ rr) (m +:+ "/v2/" +:+ RelativePath rr) (match Values rr with Some v => Encode v | None => "" end)
    = request_to rr cl 0).
  { unfold request_to. rewrite Nat.add_0_r, Nat.mod_small by done. unfold pick in Hm. by rewrite Hm. }
  rewrite Hreq. unfold DefaultCheckRetry. case_bool_decide as Hd.
  - apply ensures_bind_run with (a := Some (newError ErrCodeEtcdNotReachable)) (w := []); [done|]. apply ensures_ret.
    split; [done|]. replace (2 * length (Machines cl) + 1 - n) with 1 by lia. rewrite https_app, Hw0. done.
  - apply ensures_bind_run with (a := None) (w := []); [done|].
    eapply ensures_mono; [apply (IH true _ (S n) (failure cl)); [by apply failure_wf|cbn; lia|cbn; lia]|].
    intros r w [Hr Hw]. split; [done|]. rewrite https_app, Hw0. change (request_to rr cl 0 :: https w = request_to rr cl <$> seq 0 (2 * length (Machines cl) + 1 - n)).
    rewrite Hw. cbn [Machines failure]. replace (2 * length (Machines cl) + 1 - n) with (S (2 * length (Machines cl) + 1 - S n)) by lia.
    cbn [seq fmap list_fmap]. f_equal. rewrite <- fmap_S_seq, <- list_fmap_compose. apply list_fmap_ext. intros i j _. apply request_to_failure.
Qed.

(** When no machine can be reached, each one is tried exactly twice, in the order
    of the list from the picked one on, and the error says so. *)
Lemma SendRequest_tries_all rr c h :
  (∀ h r, ∃ e, env_http env h r = HttpFail e) → (∀ p, NewRequest p = None) → wf_cluster (cluster c) →
  let n := length (Machines (cluster c)) in
  let r := SendRequest header Location NewRequest (2 * n) rr c env h in
  r.1.2 = SendErr (newError ErrCodeEtcdNotReachable) ∧ https r.2 = request_to rr (cluster c) <$> seq 0 (2 * n).
Proof.
  intros Hf Hnr Hwf n r. unfold wf_cluster in Hwf.
  pose proof (refused_loop (2 * n) rr false (25 * millisecond) 1 (cluster c) h Hf Hnr Hwf
    ltac:(unfold n in *; lia) ltac:(unfold n in *; lia)) as [H1 H2].
  unfold r, SendRequest. rewrite bind_run. cbn [fst snd mret IO_ret]. rewrite app_nil_r. split; [done|].
  rewrite H2. unfold n. by replace (2 * length (Machines (cluster c)) + 1 - 1) with (2 * length (Machines (cluster c))) by lia.
Qed.

(** A redirection is followed outside the bound on retries: machines that only
    redirect keep the request in its loop, whatever the fuel. *)
Lemma redirects_spin fuel rr att sleep n path cl h :
  (∀ h r, ∃ body, env_http env h r = HttpResp 307 body) → (∀ p, NewRequest p = None) → wf_cluster cl →
  (send fuel rr att sleep n path cl env h).1.2 = SendSpins.
Proof.
  intros Hf Hnr Hwf. revert att sleep n path h. induction fuel as [|fuel IH]; intros att sleep n path h; [done|].
  cbn [send_loop]. rewrite bind_run. cbn [fst].
  destruct (wf_pick cl Hwf) as [m Hm]. unfold getHttpPath. rewrite Hm. cbn [fmap option_fmap option_map].
  assert (Hp : ∃ p, (if bool_decide (path = "") then Some (m +:+ "/v2/" +:+ RelativePath rr) else Some path) = Some p)
    by (case_bool_decide; by eexists).
  destruct Hp as [p ->]. rewrite Hnr. rewrite bind_run. cbn [ask fst snd]. rewrite bind_run. cbn [http_do act fst snd].
  match goal with |- context [env_http env ?a ?b] => destruct (Hf a b) as [body ->] end. apply IH.
Qed.

(** *** Where an answer comes from *)

(** A request for the path of [rr] at a machine of the list, or at the target of a
    redirection. *)
Definition addressed (rr : RawRequest) (machines : list string) (req : Request) : Prop :=
  ReqMethod req = Method_ rr ∧
  ((∃ m, m ∈ machines ∧ ReqUrl req = m +:+ "/v2/" +:+ RelativePath rr) ∨ ∃ h r, Location h r = Some (ReqUrl req)).

(** The raw answer is the one of the last request. *)
Definition raw_answer (rr : RawRequest) (machines : list string) h (w : list Event) (raw : RawResponse) : Prop :=
  ∃ w1 req body, w = w1 ++ [EvHttp req] ∧ addressed rr machines req ∧
    env_http env (h ++ w1) req = HttpResp (StatusCode raw) body ∧ Header raw = header (h ++ w1) req ∧
    (body = Ok (Body raw) ∨ body = Err unexpectedEOF ∧ Body raw = "").

Lemma raw_answer_later rr ms h w0 w raw : raw_answer rr ms (h ++ w0) w raw → raw_answer rr ms h (w0 ++ w) raw.
Proof.
  intros (w1 & req & body & -> & Ha & He & Hh & Hb). exists (w0 ++ w1), req, body.
  rewrite !app_assoc in *. by split_and!.
Qed.

Lemma send_loop_answered fuel rr att sleep n path cl h :
  path = "" ∨ (∃ h r, Location h r = Some path) →
  ensures env h (send fuel rr att sleep n path cl) (λ r w,
    Machines r.1 = Machines cl ∧ ∀ raw, r.2 = SendOk raw → raw_answer rr (Machines cl) h w raw).
Proof.
  revert att sleep n path cl h. induction fuel as [|fuel IH]; intros att sleep n path cl h Hp; [by apply ensures_ret|].
  cbn [send_loop]. apply (ensures_bind env _ _ _ _ (λ _ _, True)); [by destruct att|]. intros _ w0 _.
  destruct (if bool_decide (path = "") then _ else _) as [p|] eqn:Epath; [|by apply ensures_ret].
  destruct (NewRequest p) as [e|]; [by apply ensures_ret|]. apply ensures_bind_ask, ensures_bind_act.
  set (req := mkRequest (Method_ rr) p _).
  assert (Haddr : addressed rr (Machines cl) req).
  { split; [done|]. case_bool_decide as Hpe.
    - left. unfold getHttpPath, pick in Epath. destruct (Machines cl !! picked cl) as [m|] eqn:Em; [|done].
      exists m. split; [by eapply list_elem_of_lookup_2|]. cbn in Epath. by injection Epath as <-.
    - injection Epath as <-. right. by destruct Hp. }
  assert (Hgo : ∀ cl' sl n' path' w1 h1, h1 = ((h ++ w0) ++ [EvHttp req]) ++ w1 → Machines cl' = Machines cl →
    path' = "" ∨ (∃ h r, Location h r = Some path') →
    ensures env h1 (send fuel rr true sl n' path' cl') (λ r w,
      Machines r.1 = Machines cl ∧ ∀ raw, r.2 = SendOk raw → raw_answer rr (Machines cl) h (w0 ++ EvHttp req :: w1 ++ w) raw)).
  { intros cl' sl n' path' w1 h1 -> Hm Hp'. eapply ensures_mono; [by apply IH|]. intros r w [H1 H2].
    split; [congruence|]. intros raw Hr. rewrite <- Hm. apply raw_answer_later.
    change (EvHttp req :: w1 ++ w) with ([EvHttp req] ++ w1 ++ w). do 2 apply raw_answer_later. by apply H2. }
  assert (Hretry : ∀ code cl' sl, Machines cl' = Machines cl →
    ensures env ((h ++ w0) ++ [EvHttp req]) (checkErr ← DefaultCheckRetry cl (S n) code;
                    match checkErr with
                    | Some e => mret (cl, SendErr e)
                    | None => send fuel rr true sl (S n) "" cl'
                    end) (λ r w, Machines r.1 = Machines cl ∧
                                 ∀ raw, r.2 = SendOk raw → raw_answer rr (Machines cl) h (w0 ++ EvHttp req :: w) raw)).
  { intros code cl' sl Hm. apply (ensures_bind env _ _ _ _ (λ _ _, True)); [done|].
    intros [e|] w1 _; [by apply ensures_ret|]. by apply Hgo; [..|left]. }
  destruct (env_http _ _ _) as [e|code body] eqn:Hresp; [by apply Hretry|].
  destruct (if validHttpStatusCode code then _ else _) as [b|] eqn:Hb.
  - apply ensures_ret. split; [done|]. intros raw [= <-]. exists w0, req, body. split_and!; try done.
    destruct (validHttpStatusCode code); [|done]. destruct body as [b'|e]; [left; cbn; congruence|].
    destruct (bool_decide (e = unexpectedEOF)) eqn:Hu; [|done]. apply bool_decide_eq_true in Hu.
    right. split; [congruence|]. cbn. congruence.
  - destruct (bool_decide (code = 307%Z)); [|by apply Hretry]. apply (Hgo cl _ _ _ []); [by rewrite app_nil_r|done|].
    cbn [snd]. destruct (Location _ _) eqn:El; [right; eauto|by left].
Qed.

(** The read behind the answer of [Get]: the last request was for the key, at a machine of
    the list or where a machine redirected to, and its answer was a success whose headers
    carry the index and the term. *)
Definition read_answer decodes (key : string) (machines : list string) h (w : list Event) (resp : Response) : Prop :=
  ∃ w1 req code body, w = w1 ++ [EvHttp req] ∧
    (∃ options, addressed (mkRaw GET (keyToPath key +:+ options) None) machines req) ∧
    env_http env (h ++ w1) req = HttpResp code body ∧ (code = 200 ∨ code = 201)%Z ∧
    (∃ b, decodes b = true ∧ (body = Ok b ∨ body = Err unexpectedEOF ∧ b = "")) ∧
    RespRaftIndex resp = header_uint (header (h ++ w1) req "X-Raft-Index") ∧
    RespRaftTerm resp = header_uint (header (h ++ w1) req "X-Raft-Term").

Lemma Get_answered decodes fuel key sort recursive c h :
  let r := Get header Location NewRequest decodes fuel key sort recursive c env h in
  Machines (cluster r.1.1) = Machines (cluster c) ∧
  ∀ resp, r.1.2 = SendOk resp → read_answer decodes key (Machines (cluster c)) h r.2 resp.
Proof.
  cbn zeta. unfold Get, unmarshalled, RawGet, get, request. rewrite bind_run. cbn [fst snd mret IO_ret].
  destruct (pick (cluster c)); [|done]. destruct (toParameters _ _) as [str|e]; [|done].
  unfold SendRequest. rewrite bind_run. cbn [fst snd mret IO_ret]. rewrite !app_nil_r.
  destruct (send_loop_answered fuel (mkRaw GET (keyToPath key +:+ str) None) false (25 * millisecond) 1 "" (cluster c) h (or_introl eq_refl))
    as [H1 H2]. destruct (send_loop _ _ _ _ _ _ _ _ _ _ env h) as [[cl ans] w]. cbn [fst snd cluster with_cluster] in *.
  split; [done|]. intros resp Hr. destruct ans as [raw| | |]; try done.
  destruct (Unmarshal decodes raw) as [e|resp'] eqn:Hu; [done|]. injection Hr as ->.
  destruct (H2 raw eq_refl) as (w1 & req & body & -> & Ha & He & Hh & Hb). exists w1, req, (StatusCode raw), body.
  unfold Unmarshal in Hu. destruct (negb (bool_decide (StatusCode raw = 200%Z)) && _) eqn:Hc; [done|].
  destruct (decodes (Body raw)) eqn:Hdec; [|done]. injection Hu as <-. cbn [RespRaftIndex RespRaftTerm]. rewrite Hh.
  split_and!; try done; [by exists str| |by exists (Body raw)].
  apply andb_false_iff in Hc as [Hc|Hc]; apply negb_false_iff, bool_decide_eq_true in Hc; auto.
Qed.
End Clients.
