(* ===== verification/EtcdRpc.v ===== *)
(** * The health check and the ranking over the etcd client

    src/rpc/healthcheck.go and src/rpc/reseed.go with the client of EtcdClient.v in
    place of the two answers ([env_etcd_sync], [env_etcd_get]) that World.v
    leaves to the environment.  A run over the client is a run of Rpc.v in an environment that
    answers the same HTTP requests; over the client it also shows which member a
    read is sent to. *)

From Stdlib Require Import Ascii.
From stdpp Require Import base strings list gmap sorting.
From S2P Require Import Prelude GoStd Errors Upid Json Config Codec Mesos World ZooDetector EtcdClient Rpc.

(** How a call ends: it returns, panics in the client, or has not left a loop of
    the client within the fuel. *)
Inductive client_failure := ClientPanics | ClientSpins.
Definition ends (A : Type) : Type := client_failure + A.

Section Over.
Context (header : list Event → Request → string → string).
Context (Location : list Event → Request → option string).
Context (Intn : list Event → nat → nat).
Context (url_Parse : string → result URL) (url_String : URL → string).
Context (NewRequest : string → option error).
Context (decodes : string → bool).

Abbreviation client_sync := (EtcdClient.SyncCluster Intn url_Parse url_String).
Abbreviation client_get fuel := (EtcdClient.Get header Location NewRequest decodes fuel "/" false false).

(** healthcheck.go from the valid endpoint on. *)
Definition health_reads (fuel : nat) (validEndpoint : string) : IO (ends (option error)) :=
  client ← NewClient Intn [validEndpoint];
  r ← client_sync (SetDialTimeout RPC_TIMEOUT client);
  match r with
  | Panics => mret (inl ClientPanics)
  | Returns (_, false) => mret (inr (Some ErrEtcdConnection))
  | Returns (client, true) =>
      r1 ← client_get fuel client;
      match r1.2 with
      | SendPanics => mret (inl ClientPanics)
      | SendSpins => mret (inl ClientSpins)
      | SendErr _ => mret (inr (Some ErrEtcdEndpoint))
      | SendOk resp1 =>
          _ ← Sleep second;
          r2 ← client_get fuel r1.1;
          match r2.2 with
          | SendPanics => mret (inl ClientPanics)
          | SendSpins => mret (inl ClientSpins)
          | SendErr _ => mret (inr (Some ErrEtcdEndpoint))
          | SendOk resp2 =>
              mret (inr (if negb (bool_decide (RespRaftTerm resp1 = RespRaftTerm resp2))
                               then Some ErrEtcdRaftTermInstability
                               else if bool_decide (RespRaftIndex resp1 = RespRaftIndex resp2)
                               then Some ErrEtcdRaftStall else None))
          end
      end
  end.

Definition HealthCheck_http (fuel : nat) (running : gmap string Node) : IO (ends (option error)) :=
  if bool_decide (size running = 0) then mret (inr None) else
  order ← range running;
  found ← for_each order leader_query tt;
  match found with
  | inr _ => mret (inr (Some ErrNoLeader))
  | inl validEndpoint => health_reads fuel validEndpoint
  end.

(** reseed.go: one candidate, and the ranking. *)
Definition rank_query_http (fuel : nat) (entry : string * Node) (acc : list nodeIndex)
    : IO (ends (list nodeIndex)) :=
  let '(id, args) := entry in
  client ← NewClient Intn [http_url (Host args) (ClientPort args)];
  r ← client_sync client;
  match r with
  | Panics => mret (inl ClientPanics)
  | Returns (_, false) => mret (inr acc)
  | Returns (client, true) =>
      r ← client_get fuel client;
      match r.2 with
      | SendPanics => mret (inl ClientPanics)
      | SendSpins => mret (inl ClientSpins)
      | SendErr _ => mret (inr acc)
      | SendOk resp => mret (inr (acc ++ [mkNodeIndex (RespRaftIndex resp) id]))
      end
  end.

Definition RankReseedCandidates_http (fuel : nat) (running : gmap string Node) : IO (ends (list nodeIndex)) :=
  order ← range running;
  r ← for_each order (rank_query_http fuel) [];
  mret match r with inl f => inl f | inr indices => inr (merge_sort ni_le indices) end.

Lemma HealthCheck_http_found fuel running env h :
  size running ≠ 0 →
  (HealthCheck_http fuel running env h).1 =
  match for_each (env_range env _ h (map_to_list running)) leader_query tt env h with
  | (inl ep, w) => (health_reads fuel ep env (h ++ w)).1
  | (inr _, _) => inr (Some ErrNoLeader)
  end.
Proof.
  intros Hsz. unfold HealthCheck_http. rewrite bool_decide_eq_false_2 by done. rewrite bind_run. unfold range, ask.
  cbn [fst snd]. rewrite app_nil_r, bind_run. by destruct (for_each _ _ _ env h) as [[ep|] w].
Qed.

(** ** What a nil result shows *)

(** The new client knows one machine. *)
Lemma NewClient_machines ep env h :
  Machines (cluster (SetDialTimeout RPC_TIMEOUT (NewClient Intn [ep] env h).1)) = [ep] ∧
  (NewClient Intn [ep] env h).2 = [].
Proof. done. Qed.

(** After a synchronisation that succeeded the machines are those that the endpoint reports. *)
Lemma sync_reported ep env h c :
  let c0 := SetDialTimeout RPC_TIMEOUT (NewClient Intn [ep] env h).1 in
  (client_sync c0 env h).1 = Returns (c, true) →
  ∃ members, ask_members url_Parse url_String ep env h = (Returns (Some members), (client_sync c0 env h).2) ∧
    members ≠ "" ∧ Machines (cluster c) ≡ₚ TrimSpace <$> Split members ",".
Proof.
  cbv zeta. unfold EtcdClient.SyncCluster, internalSyncCluster.
  rewrite (proj1 (NewClient_machines ep env h)). cbn [sync_loop]. rewrite bind_run. cbn [fst snd].
  destruct (ask_members url_Parse url_String ep env h) as [[[members|]|] w]; cbn [fst snd mret IO_ret]; [|done..].
  case_bool_decide as Hm; [done|]. rewrite bind_run. cbn [fst snd mret IO_ret with_cluster cluster]. intros [= <-].
  exists members. cbn [cluster with_cluster]. split_and!; [|done|].
  - unfold updateFromStr. rewrite bind_run. cbn. by rewrite app_nil_r.
  - exact (shuffle_perm env (TrimSpace <$> Split members ",") (h ++ w)).
Qed.

Lemma health_reads_sound fuel ep env h :
  (health_reads fuel ep env h).1 = inr None →
  ∃ members machines ws w1 w2 resp1 resp2,
    (health_reads fuel ep env h).2 = ws ++ w1 ++ EvSleep second :: w2 ∧
    ask_members url_Parse url_String ep env h = (Returns (Some members), ws) ∧
    members ≠ "" ∧ machines ≡ₚ TrimSpace <$> Split members "," ∧
    read_answer header Location env decodes "/" machines (h ++ ws) w1 resp1 ∧
    read_answer header Location env decodes "/" machines (h ++ ws ++ w1 ++ [EvSleep second]) w2 resp2 ∧
    RespRaftTerm resp1 = RespRaftTerm resp2 ∧ RespRaftIndex resp1 ≠ RespRaftIndex resp2.
Proof.
  unfold health_reads. rewrite bind_run. cbn [fst snd]. rewrite (proj2 (NewClient_machines ep env h)), app_nil_r.
  rewrite bind_run. cbn [fst snd app]. set (c0 := SetDialTimeout _ _).
  pose proof (sync_reported ep env h) as Hsync. fold c0 in Hsync. cbv zeta in Hsync.
  destruct (client_sync c0 env h) as [[[c []]|] ws]; cbn [fst snd] in *; [|done..].
  destruct (Hsync c eq_refl) as (members & Hm & Hne & Hms).
  rewrite bind_run. cbn [fst snd].
  destruct (Get_answered header Location NewRequest env decodes fuel "/" false false c (h ++ ws)) as [M1 A1].
  destruct (client_get fuel c env (h ++ ws)) as [[c1 [resp1|e1| |]] w1]; cbn [fst snd] in *; [|done..].
  rewrite bind_run. cbn [Sleep act fst snd]. rewrite bind_run. cbn [fst snd].
  destruct (Get_answered header Location NewRequest env decodes fuel "/" false false c1 (((h ++ ws) ++ w1) ++ [EvSleep second])) as [M2 A2].
  destruct (client_get fuel c1 env _) as [[c2 [resp2|e2| |]] w2]; cbn [fst snd mret IO_ret] in *; [|done..].
  rewrite app_nil_r. case_bool_decide as Ht; cbn [negb]; [|done]. case_bool_decide as Hi; [done|]. intros _.
  exists members, (Machines (cluster c)), ws, w1, w2, resp1, resp2. split_and!; try done; [by apply A1|].
  rewrite M1 in A2. rewrite <- !app_assoc in A2. by apply A2.
Qed.

(** The loop over the members found an endpoint. *)
Lemma leader_loop_sound order env h ep w :
  for_each order leader_query tt env h = (inl ep, w) →
  ∃ id n w0 status body ls, (id, n) ∈ order ∧ ep = http_url (Host n) (ClientPort n) ∧
    w = w0 ++ [EvHttp (mkRequest GET (ep +:+ "/v2/stats/leader") "")] ∧
    env_http env (h ++ w0) (mkRequest GET (ep +:+ "/v2/stats/leader") "") = HttpResp status (Ok body) ∧
    Unmarshal_leader body = Some ls.
Proof.
  revert h w. induction order as [|[id n] order IH]; intros h w; [done|]. cbn [for_each].
  set (req := mkRequest GET (http_url (Host n) (ClientPort n) +:+ "/v2/stats/leader") "").
  assert (E : leader_query (id, n) tt env h =
    (match env_http env h req with
     | HttpResp _ (Ok body) =>
         match Unmarshal_leader body with Some _ => inl (http_url (Host n) (ClientPort n)) | None => inr tt end
     | _ => inr tt
     end, [EvHttp req])).
  { unfold leader_query. rewrite bind_run. cbn [http_get http_do act fst snd]. fold req.
    destruct (env_http env h req) as [e|st [body|e]]; [done| |done]. by destruct (Unmarshal_leader body). }
  rewrite bind_run, E. clear E. cbn [fst snd].
  assert (Hnext : ∀ w1, for_each order leader_query tt env (h ++ [EvHttp req]) = (inl ep, w1) → w = [EvHttp req] ++ w1 →
    ∃ id0 n0 w0 status body ls, (id0, n0) ∈ (id, n) :: order ∧ ep = http_url (Host n0) (ClientPort n0) ∧
      w = w0 ++ [EvHttp (mkRequest GET (ep +:+ "/v2/stats/leader") "")] ∧
      env_http env (h ++ w0) (mkRequest GET (ep +:+ "/v2/stats/leader") "") = HttpResp status (Ok body) ∧
      Unmarshal_leader body = Some ls).
  { intros w1 (id1 & n1 & w0 & st & b & ls & H1 & H2 & -> & H4 & H5)%IH ->.
    exists id1, n1, ([EvHttp req] ++ w0), st, b, ls. rewrite app_assoc. split_and!; try done.
    - by right.
    - by rewrite app_assoc. }
  destruct (env_http env h req) as [e|st [body|e]] eqn:He; cbn [fst snd mret IO_ret].
  1,3: destruct (for_each order leader_query tt env (h ++ [EvHttp req])) as [r w1] eqn:Hf; cbn [fst snd];
    intros [= -> <-]; by eapply Hnext.
  destruct (Unmarshal_leader body) as [ls|] eqn:Hu; cbn [fst snd mret IO_ret].
  - intros [= <- <-]. exists id, n, [], st, body, ls. rewrite app_nil_r. split_and!; try done. by left.
  - destruct (for_each order leader_query tt env (h ++ [EvHttp req])) as [r w1] eqn:Hf; cbn [fst snd].
    intros [= -> <-]. by eapply Hnext.
Qed.

(** C17: What a nil health check is evidence of, down to the HTTP requests.  When the check
    of a non-empty set of members returns nil, the last member asked for leader statistics
    is a running one and answered with them; the same member then reported a machine list,
    not empty; and two reads of the root key followed, a second apart, each answered with
    success by some machine of that list, or by one it redirected to, where the two answers
    carry the same Raft term and different Raft indices.  (The two machines need not be the
    same one: see [stalled_cluster_healthy].) *)
Theorem HealthCheck_http_sound fuel running env h :
  running ≠ ∅ → (HealthCheck_http fuel running env h).1 = inr None →
  ∃ id n wl status body ls members machines ws w1 w2 resp1 resp2,
    let ep := http_url (Host n) (ClientPort n) in
    let leader := mkRequest GET (ep +:+ "/v2/stats/leader") "" in
    let h1 := (h ++ wl) ++ [EvHttp leader] in
    (HealthCheck_http fuel running env h).2 = wl ++ EvHttp leader :: ws ++ w1 ++ EvSleep second :: w2 ∧
    running !! id = Some n ∧
    env_http env (h ++ wl) leader = HttpResp status (Ok body) ∧ Unmarshal_leader body = Some ls ∧
    ask_members url_Parse url_String ep env h1 = (Returns (Some members), ws) ∧
    members ≠ "" ∧ machines ≡ₚ TrimSpace <$> Split members "," ∧
    read_answer header Location env decodes "/" machines (h1 ++ ws) w1 resp1 ∧
    read_answer header Location env decodes "/" machines (h1 ++ ws ++ w1 ++ [EvSleep second]) w2 resp2 ∧
    RespRaftTerm resp1 = RespRaftTerm resp2 ∧ RespRaftIndex resp1 ≠ RespRaftIndex resp2.
Proof.
  intros Hne. unfold HealthCheck_http.
  rewrite bool_decide_eq_false_2 by (intros E; apply Hne; by apply map_size_empty_inv).
  rewrite bind_run. unfold range at 1 2 3, ask. cbn [fst snd]. rewrite app_nil_r, bind_run.
  destruct (for_each _ leader_query tt env h) as [[ep|u] w] eqn:Hl; cbn [fst snd]; [|done]. intros Hr.
  destruct (leader_loop_sound _ _ _ _ _ Hl) as (id & n & wl & st & body & ls & Hin & -> & -> & He & Hu).
  destruct (health_reads_sound _ _ _ _ Hr) as (members & machines & ws & w1 & w2 & r1 & r2 & Hw & Hrest).
  exists id, n, wl, st, body, ls, members, machines, ws, w1, w2, r1, r2. cbv zeta.
  unfold range, ask. cbn [fst snd]. rewrite app_nil_r, bind_run, Hl. cbn [fst snd app].
  rewrite Hw. rewrite (env_range_perm env) in Hin. apply elem_of_map_to_list in Hin.
  rewrite <- !app_assoc in *. cbn [app] in *. by split_and!; try apply Hrest.
Qed.

(** ** Termination *)

Section Returns.
Context (Intn_lt : ∀ h n, 0 < n → Intn h n < n).
Context (env : Env) (Hred : no_redirect env).

Lemma sync_no_panic ms c h :
  Forall (λ m, ∃ u, url_Parse m = Ok u) ms → (sync_loop Intn url_Parse url_String ms c env h).1 ≠ Panics.
Proof.
  intros Hms. revert h. induction Hms as [|m ms [u Hu] _ IH]; intros h; [done|]. cbn [sync_loop]. rewrite bind_run. cbn [fst].
  assert (Hm : (ask_members url_Parse url_String m env h).1 ≠ Panics).
  { unfold ask_members, createHttpPath. rewrite Hu. rewrite bind_run. cbn [http_get http_do act fst snd].
    destruct (env_http env h _) as [|code body]; [done|]. case_bool_decide; cbn [negb].
    - destruct body as [b|]; [|done]. by destruct (Unmarshal_members b).
    - rewrite bind_run. cbn [http_get http_do act fst snd]. by destruct (env_http env _ _) as [|? []]. }
  destruct (ask_members url_Parse url_String m env h) as [[[members|]|] w]; cbn [fst snd] in *; [|apply IH|done].
  case_bool_decide; [apply IH|]. rewrite bind_run. done.
Qed.

Lemma health_reads_returns ep h :
  ∃ least, ∀ fuel, least ≤ fuel →
    (∃ e, (health_reads fuel ep env h).1 = inr e) ∨
    ((health_reads fuel ep env h).1 = inl ClientPanics ∧ ∃ e, url_Parse ep = Err e).
Proof using Intn_lt Hred.
  unfold health_reads. setoid_rewrite bind_run. cbn [fst].
  set (c0 := SetDialTimeout _ _). set (h0 := h ++ _).
  assert (Hms : Machines (cluster c0) = [ep]) by done.
  destruct (url_Parse ep) as [u|e] eqn:Hu.
  2:{ exists 0. intros fuel _. right. split; [|by eexists]. rewrite bind_run. cbn [fst].
      unfold EtcdClient.SyncCluster, internalSyncCluster. rewrite Hms. cbn [sync_loop]. rewrite bind_run.
      unfold ask_members, createHttpPath. by rewrite Hu. }
  assert (Hsync : (client_sync c0 env h0).1 ≠ Panics).
  { apply sync_no_panic. rewrite Hms. apply Forall_singleton. by exists u. }
  assert (Hwf0 : wf_cluster (cluster c0)) by (unfold c0, NewClient; rewrite bind_run; cbn; apply NewCluster_wf, Intn_lt).
  pose proof (sync_loop_result Intn Intn_lt url_Parse url_String env (Machines (cluster c0)) c0 h0) as Hres.
  unfold EtcdClient.SyncCluster, internalSyncCluster in *.
  setoid_rewrite bind_run. cbn [fst].
  destruct (sync_loop _ _ _ _ c0 env h0) as [[[c []]|] w0]; cbn [fst snd] in *; [| |done].
  2:{ exists 0. intros fuel _. left. by eexists. }
  destruct Hres as [Hwf _]. exists (2 * length (Machines (cluster c))). intros fuel Hf. left. rewrite bind_run. cbn [fst].
  destruct (Get_ok header Location NewRequest env decodes fuel "/" false false c (h0 ++ w0) Hred Hwf Hf) as (P1 & S1 & M1 & W1).
  destruct (client_get fuel c env (h0 ++ w0)) as [[c1 s1] w1]. cbn [fst snd] in *.
  destruct s1 as [resp1|e1| |]; [|by eexists|done|done]. rewrite !bind_run. cbn [fst].
  destruct (Get_ok header Location NewRequest env decodes fuel "/" false false c1 (((h0 ++ w0) ++ w1) ++ (Sleep second env ((h0 ++ w0) ++ w1)).2) Hred W1 ltac:(by rewrite M1))
    as (P2 & S2 & _).
  destruct (client_get fuel c1 env _) as [[c2 s2] w2]. cbn [fst snd] in *.
  destruct s2 as [resp2|e2| |]; [by eexists|by eexists|done|done].
Qed.

(** C27: The health check ends.  When no member answers with a redirection, the health check
    of any map of members over the client ends, with all fuel from some amount on: it
    returns a result, or it panics in the client because the URL of a running member
    does not parse.  Neither the retries of the client nor its machine list can hold it up. *)
Theorem HealthCheck_http_returns running h :
  ∃ least, ∀ fuel, least ≤ fuel →
    (∃ e, (HealthCheck_http fuel running env h).1 = inr e) ∨
    ((HealthCheck_http fuel running env h).1 = inl ClientPanics ∧
     ∃ id n e, running !! id = Some n ∧ url_Parse (http_url (Host n) (ClientPort n)) = Err e).
Proof using Intn_lt Hred.
  destruct (decide (size running = 0)) as [Hsz|Hsz].
  { exists 0. intros fuel _. unfold HealthCheck_http. rewrite bool_decide_eq_true_2 by done. left. by eexists. }
  setoid_rewrite HealthCheck_http_found; [|done..].
  destruct (for_each _ leader_query tt env h) as [[ep|u] w] eqn:Hl; [|exists 0; intros fuel _; left; by eexists].
  destruct (health_reads_returns ep (h ++ w)) as [least Hleast]. exists least. intros fuel Hf.
  destruct (Hleast fuel Hf) as [He|[He (e & Hu)]]; [by left|]. right. split; [done|].
  destruct (leader_loop_sound _ _ _ _ _ Hl) as (id & n & _ & _ & _ & _ & Hin & -> & _).
  rewrite (env_range_perm env) in Hin. apply elem_of_map_to_list in Hin. by exists id, n, e.
Qed.
End Returns.
End Over.

(** ** Concrete runs *)

(** A cluster of two members, [a] and [b], at these URLs. *)
Definition node_a : Node := mkNode "etcd-1" "a" 2380 1 0 "new" "s1".
Definition node_b : Node := mkNode "etcd-2" "b" 2380 2 0 "existing" "s2".
Definition two_members : gmap string Node := {["etcd-1" := node_a; "etcd-2" := node_b]}.

Definition members_doc : string :=
  print (JObj [("members", JArr [JObj [("clientURLs", JArr [JStr "http://a:1"])];
                                 JObj [("clientURLs", JArr [JStr "http://b:2"])]])]).

(** Each member answers for itself: its index is a constant, the term is the same. *)
Definition index_header (_ : list Event) (r : Request) (name : string) : string :=
  if bool_decide (name = "X-Raft-Index") then (if HasPrefix (ReqUrl r) "http://a:1" then "10" else "5")
  else if bool_decide (name = "X-Raft-Term") then "3" else "".

Definition member_http (fails : list Event → Request → bool) (h : list Event) (r : Request) : HttpResult :=
  if fails h r then HttpFail (ErrHttp "connection refused")
  else if HasPrefix (drop_bytes 10 (ReqUrl r)) "/v2/members" then HttpResp 200 (Ok members_doc)
  else HttpResp 200 (Ok "{}").

(** The scheme, the host with its port of one digit, and the path of these URLs. *)
Definition short_url (s : string) : result URL :=
  if HasPrefix s "http://" then Ok (mkURL "http" (TrimPrefix s "http://") "") else Err (ErrNew "url").
Definition url_text (u : URL) : string := urlScheme u +:+ "://" +:+ urlHost u +:+ "/" +:+ urlPath u.

Definition no_location (_ : list Event) (_ : Request) : option string := None.
Definition any_url (_ : string) : option error := None.
Definition any_body (_ : string) : bool := true.

(** Random numbers: the second of two machines after an answer of [a], the first
    one otherwise. *)
Definition crossed (h : list Event) (n : nat) : nat :=
  match last h with
  | Some (EvHttp r) => if HasPrefix (ReqUrl r) "http://a:1" then 1 mod n else 0
  | _ => 0
  end.
Definition first_one (_ : list Event) (n : nat) : nat := 0.

Definition members_env (fails : list Event → Request → bool) : Env :=
  etcd_env (member_http fails) (env_etcd_get quiet_env).

(** A candidate's index may be that of another member.  [RankReseedCandidates]
    makes a client for each node, but the synchronisation replaces the client's machine by all
    members, shuffled, and the read goes to a random one of them.  So with two
    members, whose own indices are 10 and 5 throughout, the ranking can
    name the second one first with index 10 and the first one last with index 5:
    the member with the older log is reseeded from. *)
Theorem ranking_reads_random_member :
  (∀ h r, HasPrefix (ReqUrl r) "http://a:1" = true → index_header h r "X-Raft-Index" = "10") ∧
  (∀ h r, HasPrefix (ReqUrl r) "http://b:2" = true → index_header h r "X-Raft-Index" = "5") ∧
  (RankReseedCandidates_http index_header no_location crossed short_url url_text any_url any_body 4 two_members
     (members_env (λ _ _, false)) []).1 = inr [mkNodeIndex 10 "etcd-2"; mkNodeIndex 5 "etcd-1"].
Proof.
  split; [|split].
  - intros h r Hr. unfold index_header. by rewrite Hr.
  - intros h r Hr. unfold index_header. apply HasPrefix_true in Hr. rewrite Hr. done.
  - by_compute.
Qed.

(** The health check takes two members for progress: when the member of the first
    read does not answer the second one, the read goes to the other member, and
    a cluster in which no index ever changes is reported healthy. *)
Definition fails_later (h : list Event) (r : Request) : bool :=
  HasPrefix (ReqUrl r) "http://a:1/v2/keys" &&
  existsb (λ e, match e with EvSleep d => bool_decide (d = second) | _ => false end) h.

Lemma stalled_cluster_healthy :
  (HealthCheck_http index_header no_location first_one short_url url_text any_url any_body 4 two_members
     (members_env fails_later) []).1 = inr None.
Proof. by_compute. Qed.

(** The answer of the old endpoint is taken whatever its status: an error page
    becomes the machine list. *)
Lemma sync_takes_error_page :
  let env := etcd_env (λ _ _, HttpResp 500 (Ok "Internal Server Error")) (env_etcd_get quiet_env) in
  (EtcdClient.SyncCluster first_one short_url url_text (mkClient WEAK_CONSISTENCY second (mkCluster ["http://a:1"] 0)) env []).1
  = Returns (mkClient WEAK_CONSISTENCY second (mkCluster ["Internal Server Error"] 0), true).
Proof. by_compute. Qed.

Definition client_ab : Client := mkClient WEAK_CONSISTENCY second (mkCluster ["http://a:1"; "http://b:2"] 1).

Lemma first_one_lt h n : 0 < n → first_one h n < n.
Proof. done. Qed.

Lemma members_no_redirect fails : no_redirect (members_env fails).
Proof. intros h r body. cbn. unfold member_http. by repeat case_match. Qed.

Lemma SyncCluster_keeps_machines_witness :
  match (EtcdClient.SyncCluster first_one short_url url_text client_ab (members_env (λ _ _, false)) []).1 with
  | Panics => False
  | Returns (c', ok) => ok = true ∧ Machines (cluster c') ≠ []
  end.
Proof.
  pose proof (SyncCluster_keeps_machines first_one first_one_lt short_url url_text (members_env (λ _ _, false)) client_ab []
    ltac:(unfold wf_cluster; cbn; lia)) as H.
  destruct (EtcdClient.SyncCluster first_one short_url url_text client_ab (members_env (λ _ _, false)) []).1 as [[c' ok]|] eqn:E.
  - split; [|apply H]. revert E. vm_compute. by intros [= <- <-].
  - revert E. by vm_compute.
Defined.

Lemma SendRequest_bounded_witness :
  let r := SendRequest index_header no_location any_url 4 (mkRaw GET "keys/" None) client_ab
             (members_env (λ _ _, true)) [] in
  r.1.2 ≠ SendSpins ∧ length (https r.2) ≤ 4.
Proof.
  destruct (SendRequest_bounded index_header no_location any_url (members_env (λ _ _, true)) (mkRaw GET "keys/" None) client_ab []
    (members_no_redirect _) ltac:(unfold wf_cluster; cbn; lia)) as (_ & H1 & H2 & _). by split.
Defined.

(** A cluster that makes progress: the index grows with the history. *)
Definition moving_header (h : list Event) (_ : Request) (name : string) : string :=
  if bool_decide (name = "X-Raft-Index") then FormatUint (Z.of_nat (length h)) else "3".

Lemma HealthCheck_http_sound_witness :
  (HealthCheck_http moving_header no_location first_one short_url url_text any_url any_body 4 two_members
     (members_env (λ _ _, false)) []).1 = inr None ∧
  ∃ resp1 resp2, RespRaftTerm resp1 = RespRaftTerm resp2 ∧ RespRaftIndex resp1 ≠ RespRaftIndex resp2.
Proof.
  assert (Hnil : (HealthCheck_http moving_header no_location first_one short_url url_text any_url any_body 4 two_members
     (members_env (λ _ _, false)) []).1 = inr None) by by_compute.
  split; [exact Hnil|].
  destruct (HealthCheck_http_sound moving_header no_location first_one short_url url_text any_url any_body 4 two_members
    (members_env (λ _ _, false)) [] ltac:(discriminate) Hnil)
    as (? & ? & ? & ? & ? & ? & ? & ? & ? & ? & ? & r1 & r2 & _ & _ & _ & _ & _ & _ & _ & _ & _ & Ht & Hi).
  exists r1, r2. exact (conj Ht Hi).
Defined.

Lemma HealthCheck_http_returns_witness : ∃ least, ∀ fuel, least ≤ fuel →
  (∃ e, (HealthCheck_http index_header no_location first_one short_url url_text any_url any_body fuel two_members
     (members_env fails_later) []).1 = inr e) ∨
  ((HealthCheck_http index_header no_location first_one short_url url_text any_url any_body fuel two_members
     (members_env fails_later) []).1 = inl ClientPanics ∧
   ∃ id n e, two_members !! id = Some n ∧ short_url (http_url (Host n) (ClientPort n)) = Err e).
Proof.
  exact (HealthCheck_http_returns index_header no_location first_one short_url url_text any_url any_body first_one_lt
    (members_env fails_later) (members_no_redirect _) two_members []).
Defined.
