(* ===== verification/ZkWire.v ===== *)
(** * The packets of the ZooKeeper client (samuel/go-zookeeper/zk, vendored)

    structs.go: the encoder and the decoder, which walk over a value by reflection.
    [ty] has the kinds of fields they handle, [den] the values of a kind, and the structs
    of structs.go and the tables of constants.go follow.  [wire] is the format on the
    network, to which the encoder and the decoder are related.  Errors are values; a
    slice out of range and an index out of range are the two panics of Bytes.v, of which
    [encodePacket] and [decodePacket] recover the first (go1.5, whose text they
    compare).  An allocation of a size that the packet names is asked of the machine
    ([Memory]), before the size is compared with the bytes that are there, and one that is
    refused ends the process.  Callers pass non-nil pointers.  What a failed decode leaves in the
    value is not modelled. *)

From Stdlib Require Import Ascii.
From stdpp Require Import base strings list numbers gmap.
From S2P Require Import Prelude GoStd Md5 Bytes.

Open Scope Z_scope.

(** ** Errors (constants.go, structs.go, conn.go) *)

Inductive zkError :=
  | ErrConnectionClosed | ErrUnknown | ErrAPIError | ErrNoNode | ErrNoAuth | ErrBadVersion
  | ErrNoChildrenForEphemerals | ErrNodeExists | ErrNotEmpty | ErrSessionExpired | ErrInvalidACL
  | ErrAuthFailed | ErrClosing | ErrNothing | ErrSessionMoved
  | ErrUnhandledFieldType | ErrPtrExpected | ErrShortBuffer
  | ErrNoServer | ErrInvalidPath
  | ErrNet (what : string).

#[export] Instance zkError_eq_dec : EqDecision zkError.
Proof. solve_decision. Defined.

(** [errCodeToError] and [ErrCode.toError]; [None] is the nil error. *)
Definition errCodeToError (e : Z) : option (option zkError) :=
  if e =? 0 then Some None
  else if e =? -100 then Some (Some ErrAPIError)
  else if e =? -101 then Some (Some ErrNoNode)
  else if e =? -102 then Some (Some ErrNoAuth)
  else if e =? -103 then Some (Some ErrBadVersion)
  else if e =? -108 then Some (Some ErrNoChildrenForEphemerals)
  else if e =? -110 then Some (Some ErrNodeExists)
  else if e =? -111 then Some (Some ErrNotEmpty)
  else if e =? -112 then Some (Some ErrSessionExpired)
  else if e =? -114 then Some (Some ErrInvalidACL)
  else if e =? -115 then Some (Some ErrAuthFailed)
  else if e =? -116 then Some (Some ErrClosing)
  else if e =? -117 then Some (Some ErrNothing)
  else if e =? -118 then Some (Some ErrSessionMoved)
  else None.

Definition toError (e : Z) : option zkError := default (Some ErrUnknown) (errCodeToError e).

(** ** Operations, events and states (constants.go) *)

Definition opNotify : Z := 0.
Definition opCreate : Z := 1.
Definition opDelete : Z := 2.
Definition opExists : Z := 3.
Definition opGetData : Z := 4.
Definition opSetData : Z := 5.
Definition opGetAcl : Z := 6.
Definition opSetAcl : Z := 7.
Definition opGetChildren : Z := 8.
Definition opSync : Z := 9.
Definition opPing : Z := 11.
Definition opGetChildren2 : Z := 12.
Definition opCheck : Z := 13.
Definition opMulti : Z := 14.
Definition opClose : Z := -11.
Definition opSetAuth : Z := 100.
Definition opSetWatches : Z := 101.
Definition opWatcherEvent : Z := -2.

Definition EventNodeCreated : Z := 1.
Definition EventNodeDeleted : Z := 2.
Definition EventNodeDataChanged : Z := 3.
Definition EventNodeChildrenChanged : Z := 4.
Definition EventSession : Z := -1.
Definition EventNotWatching : Z := -2.

Definition StateDisconnected : Z := 0.
Definition StateConnecting : Z := 1.
Definition StateExpired : Z := -112.
Definition StateConnected : Z := 100.
Definition StateHasSession : Z := 101.

Definition FlagEphemeral : Z := 1.
Definition FlagSequence : Z := 2.

(** ** Kinds of fields and their values *)

Inductive ty := TBool | TInt32 | TInt64 | TString | TBytes | TSlice (t : ty) | TStruct (fs : fields)
with fields := FNil | FCons (t : ty) (fs : fields).

Scheme ty_mind := Induction for ty Sort Prop with fields_mind := Induction for fields Sort Prop.
Combined Scheme ty_fields_ind from ty_mind, fields_mind.

(** A nil [[]byte] is [None]. *)
Fixpoint den (t : ty) : Type :=
  match t with
  | TBool => bool
  | TInt32 | TInt64 => Z
  | TString => string
  | TBytes => option (list Z)
  | TSlice t => list (den t)
  | TStruct fs => dens fs
  end
with dens (fs : fields) : Type :=
  match fs with FNil => unit | FCons t fs => (den t * dens fs)%type end.

Fixpoint struct (ts : list ty) : fields := match ts with [] => FNil | t :: ts => FCons t (struct ts) end.

(** ** The encoder *)

Abbreviation zres := (res zkError).

(** [n2, err := encode(buf[n:], v); n += n2]. *)
Definition enc_at (enc : slice → zres (slice * Z)) (b : slice) (n : Z) : zres (slice * Z) :=
  s ← from b n; r ← enc s; Got (join b n r.1, n + r.2).

Fixpoint enc_list {A} (enc : A → slice → zres (slice * Z)) (l : list A) (b : slice) (n : Z) : zres (slice * Z) :=
  match l with
  | [] => Got (b, n)
  | x :: l => r ← enc_at (enc x) b n; enc_list enc l r.1 r.2
  end.

Definition enc_block (bs : list Z) (b : slice) : zres (slice * Z) :=
  b ← put b 0 (be_bytes 4 (u32 (Z.of_nat (length bs))));
  b ← put b 4 bs;
  Got (b, 4 + Z.of_nat (length bs)).

Fixpoint encodePacketValue (t : ty) : den t → slice → zres (slice * Z) :=
  match t with
  | TBool => λ v b, b ← set_index b 0 (if v then 1 else 0); Got (b, 1)
  | TInt32 => λ v b, b ← put b 0 (be_bytes 4 (u32 v)); Got (b, 4)
  | TInt64 => λ v b, b ← put b 0 (be_bytes 8 (u64 v)); Got (b, 8)
  | TString => λ v b, enc_block (string_bytes v) b
  | TBytes => λ v b,
      match v with
      | None => b ← put b 0 (be_bytes 4 0xffffffff); Got (b, 4)
      | Some bs => enc_block bs b
      end
  | TSlice t => λ v b,
      r ← enc_list (encodePacketValue t) v b 4;
      b ← put r.1 0 (be_bytes 4 (u32 (Z.of_nat (length v))));
      Got (b, r.2)
  | TStruct fs => λ v b, encode_fields fs v b 0
  end
with encode_fields (fs : fields) : dens fs → slice → Z → zres (slice * Z) :=
  match fs with
  | FNil => λ _ b n, Got (b, n)
  | FCons t fs => λ v b n, r ← enc_at (encodePacketValue t v.1) b n; encode_fields fs v.2 r.1 r.2
  end.

(** ** The decoder *)

Definition dec_at {A} (dec : slice → zres (A * Z)) (b : slice) (n : Z) : zres (A * Z) :=
  s ← from b n; r ← dec s; Got (r.1, n + r.2).

(** [binary.BigEndian.Uint32]. *)
Definition dec_u32 (b : slice) : zres Z := (λ x, u32 (be_value x)) <$> sub b 0 4.

(** Whether the machine has the memory for a slice of a type ([[]byte] or a slice of other
    elements) with so many elements. *)
Class Memory := granted : ty → Z → bool.

(** [make] and [reflect.MakeSlice]: without the memory the process ends, which no
    [recover] stops. *)
Definition make {mem : Memory} (t : ty) (n : Z) : zres unit := if granted t n then Got tt else NoMemory.

Section Decoder.
Context {mem : Memory}.

Fixpoint decodePacketValue (t : ty) : slice → zres (den t * Z) :=
  match t with
  | TBool => λ b, x ← index b 0; Got (negb (x =? 0), 1)
  | TInt32 => λ b, x ← dec_u32 b; Got (i32 x, 4)
  | TInt64 => λ b, x ← sub b 0 8; Got (i64 (be_value x), 8)
  | TString => λ b, ln ← dec_u32 b; bs ← sub b 4 (4 + ln); Got (string_of_bytes bs, 4 + ln)
  | TBytes => λ b,
      ln ← i32 <$> dec_u32 b;
      if ln <? 0 then Got (None, 4)
      else _ ← make TBytes ln; bs ← sub b 4 (4 + ln); Got (Some bs, 4 + ln)
  | TSlice t => λ b,
      count ← dec_u32 b;
      _ ← make (TSlice t) count;
      r ← loop count (λ s, r ← dec_at (decodePacketValue t) b s.2; Got (r.1 :: s.1, r.2)) ([], 4);
      Got (rev r.1, r.2)
  | TStruct fs => λ b, decode_fields fs b 0
  end
with decode_fields (fs : fields) : slice → Z → zres (dens fs * Z) :=
  match fs with
  | FNil => λ b n, Got (tt, n)
  | FCons t fs => λ b n,
      r ← dec_at (decodePacketValue t) b n; q ← decode_fields fs b r.2; Got ((r.1, q.1), q.2)
  end.
End Decoder.

(** ** The structs (structs.go) *)

Definition ACL : ty := TStruct (struct [TInt32; TString; TString]).
Definition Stat : ty :=
  TStruct (struct [TInt64; TInt64; TInt64; TInt64; TInt32; TInt32; TInt32; TInt64; TInt32; TInt32; TInt64]).
Definition requestHeader : ty := TStruct (struct [TInt32; TInt32]).
Definition responseHeader : ty := TStruct (struct [TInt32; TInt64; TInt32]).
Definition multiHeader : ty := TStruct (struct [TInt32; TBool; TInt32]).
Definition auth : ty := TStruct (struct [TInt32; TString; TBytes]).
Definition pathRequest : ty := TStruct (struct [TString]).
Definition PathVersionRequest : ty := TStruct (struct [TString; TInt32]).
Definition pathWatchRequest : ty := TStruct (struct [TString; TBool]).
Definition pathResponse : ty := TStruct (struct [TString]).
Definition statResponse : ty := TStruct (struct [Stat]).
Definition CheckVersionRequest : ty := PathVersionRequest.
Definition closeRequest : ty := TStruct FNil.
Definition closeResponse : ty := TStruct FNil.
Definition connectRequest : ty := TStruct (struct [TInt32; TInt64; TInt32; TInt64; TBytes]).
Definition connectResponse : ty := TStruct (struct [TInt32; TInt32; TInt64; TBytes]).
Definition CreateRequest : ty := TStruct (struct [TString; TBytes; TSlice ACL; TInt32]).
Definition createResponse : ty := pathResponse.
Definition DeleteRequest : ty := PathVersionRequest.
Definition deleteResponse : ty := TStruct FNil.
Definition existsRequest : ty := pathWatchRequest.
Definition existsResponse : ty := statResponse.
Definition getAclRequest : ty := pathRequest.
Definition getAclResponse : ty := TStruct (struct [TSlice ACL; Stat]).
Definition getChildrenRequest : ty := pathRequest.
Definition getChildrenResponse : ty := TStruct (struct [TSlice TString]).
Definition getChildren2Request : ty := pathWatchRequest.
Definition getChildren2Response : ty := TStruct (struct [TSlice TString; Stat]).
Definition getDataRequest : ty := pathWatchRequest.
Definition getDataResponse : ty := TStruct (struct [TBytes; Stat]).
Definition pingRequest : ty := TStruct FNil.
Definition pingResponse : ty := TStruct FNil.
Definition setAclRequest : ty := TStruct (struct [TString; TSlice ACL; TInt32]).
Definition setAclResponse : ty := statResponse.
Definition SetDataRequest : ty := TStruct (struct [TString; TBytes; TInt32]).
Definition setDataResponse : ty := statResponse.
Definition setWatchesRequest : ty :=
  TStruct (struct [TInt64; TSlice TString; TSlice TString; TSlice TString]).
Definition setWatchesResponse : ty := TStruct FNil.
Definition syncRequest : ty := pathRequest.
Definition syncResponse : ty := pathResponse.
Definition setAuthRequest : ty := auth.
Definition setAuthResponse : ty := TStruct FNil.
Definition watcherEvent : ty := TStruct (struct [TInt32; TInt32; TString]).

(** *** Multi-operation packets *)

(** [Op interface{}]: a struct of any kind. *)
Record multiRequestOp := mkMRO { mro_Header : den multiHeader; mro_t : ty; mro_Op : den mro_t }.
Arguments mkMRO mro_Header {mro_t} mro_Op.
Record multiRequest := mkMultiRequest { mr_Ops : list multiRequestOp; mr_DoneHeader : den multiHeader }.

Record multiResponseOp := mkMRes { mrs_Header : den multiHeader; mrs_String : string; mrs_Stat : option (den Stat) }.
Record multiResponse := mkMultiResponse { ms_Ops : list multiResponseOp; ms_DoneHeader : den multiHeader }.

Definition header_Type (h : den multiHeader) : Z := h.1.
Definition header_Done (h : den multiHeader) : bool := h.2.1.
Definition with_Done (d : bool) (h : den multiHeader) : den multiHeader := (h.1, (d, h.2.2)).

Definition encode_op (op : multiRequestOp) : slice → zres (slice * Z) :=
  encodePacketValue (TStruct (FCons multiHeader (FCons (mro_t op) FNil)))
    (with_Done false (mro_Header op), (mro_Op op, tt)).

Definition multiRequest_Encode (r : multiRequest) (b : slice) : zres (slice * Z) :=
  q ← enc_list encode_op (mr_Ops r) b 0;
  enc_at (encodePacketValue multiHeader (with_Done true (mr_DoneHeader r))) q.1 q.2.

(** [requestStructForOp] without its last case: a multi request inside a multi request,
    which [Multi] refuses to build, is read as an unknown operation. *)
Definition requestStructForOp (op : Z) : option ty :=
  if op =? opClose then Some closeRequest
  else if op =? opCreate then Some CreateRequest
  else if op =? opDelete then Some DeleteRequest
  else if op =? opExists then Some existsRequest
  else if op =? opGetAcl then Some getAclRequest
  else if op =? opGetChildren then Some getChildrenRequest
  else if op =? opGetChildren2 then Some getChildren2Request
  else if op =? opGetData then Some getDataRequest
  else if op =? opPing then Some pingRequest
  else if op =? opSetAcl then Some setAclRequest
  else if op =? opSetData then Some SetDataRequest
  else if op =? opSetWatches then Some setWatchesRequest
  else if op =? opSync then Some syncRequest
  else if op =? opSetAuth then Some setAuthRequest
  else if op =? opCheck then Some CheckVersionRequest
  else None.

(** What a loop of [Decode] does in a turn: stop at a done header, or go on. *)
Inductive turn (A : Type) := Stop (h : den multiHeader) (n : Z) | More (a : A) (n : Z).
Arguments Stop {A}.
Arguments More {A}.

(** The loop of [Decode] has no bound; a turn reads at least the nine bytes of a header, so
    that two turns more than there are bytes are enough ([multi_decodes_end]). *)
Fixpoint multi_loop {A} (fuel : nat) (one : Z → zres (turn A)) (acc : list A) (n : Z)
    : option (zres (list A * den multiHeader * Z)) :=
  match fuel with
  | O => None
  | S fuel =>
      match one n with
      | Got (Stop h n) => Some (Got (rev acc, h, n))
      | Got (More a n) => multi_loop fuel one (a :: acc) n
      | Failed e => Some (Failed e)
      | SliceBounds => Some SliceBounds
      | IndexRange => Some IndexRange
      | NoMemory => Some NoMemory
      end
  end.

Definition request_turn {mem : Memory} (b : slice) (n : Z) : zres (turn multiRequestOp) :=
  h ← dec_at (decodePacketValue multiHeader) b n;
  if header_Done h.1 then Got (Stop h.1 h.2) else
  match requestStructForOp (header_Type h.1) with
  | None => Failed ErrAPIError
  | Some t => r ← dec_at (decodePacketValue t) b h.2; Got (More (mkMRO h.1 r.1) r.2)
  end.

Definition response_turn {mem : Memory} (b : slice) (n : Z) : zres (turn multiResponseOp) :=
  h ← dec_at (decodePacketValue multiHeader) b n;
  if header_Done h.1 then Got (Stop h.1 h.2) else
  if header_Type h.1 =? opCreate then
    r ← dec_at (decodePacketValue TString) b h.2; Got (More (mkMRes h.1 r.1 None) r.2)
  else if header_Type h.1 =? opSetData then
    r ← dec_at (decodePacketValue Stat) b h.2; Got (More (mkMRes h.1 "" (Some r.1)) r.2)
  else if (header_Type h.1 =? opCheck) || (header_Type h.1 =? opDelete) then
    Got (More (mkMRes h.1 "" None) h.2)
  else Failed ErrAPIError.

Definition run_multi {A} (one : slice → Z → zres (turn A)) (b : slice) : option (zres (list A * den multiHeader * Z)) :=
  multi_loop (S (S (length (arr b)))) (one b) [] 0.

Definition multiRequest_Decode {mem : Memory} (b : slice) : option (zres (multiRequest * Z)) :=
  (λ m, r ← m; Got (mkMultiRequest r.1.1 r.1.2, r.2)) <$> run_multi request_turn b.

Definition multiResponse_Decode {mem : Memory} (b : slice) : option (zres (multiResponse * Z)) :=
  (λ m, r ← m; Got (mkMultiResponse r.1.1 r.1.2, r.2)) <$> run_multi response_turn b.

(** *** What a request carries, and what its answer is decoded into *)

Inductive packet := Pkt (t : ty) (v : den t) | PktMulti (r : multiRequest).
Inductive target := TgtTy (t : ty) | TgtMulti.

Definition tden (g : target) : Type := match g with TgtTy t => den t | TgtMulti => multiResponse end.

(** The deferred [recover] of [encodePacket] and [decodePacket]. *)
Definition recovered {A} (m : zres A) : zres A :=
  match m with SliceBounds => Failed ErrShortBuffer | m => m end.

Definition encodePacket (b : slice) (p : packet) : zres (slice * Z) :=
  recovered match p with
            | Pkt t v => encodePacketValue t v b
            | PktMulti r => multiRequest_Encode r b
            end.

(** The answer of a multi request that never ends its loop would be [SliceBounds]. *)
Definition decodePacket {mem : Memory} (b : slice) (g : target) : zres (tden g * Z) :=
  recovered match g return zres (tden g * Z) with
            | TgtTy t => decodePacketValue t b
            | TgtMulti => default SliceBounds (multiResponse_Decode b)
            end.

Definition responseStructForOp (op : Z) : option target :=
  if op =? opClose then Some (TgtTy closeResponse)
  else if op =? opCreate then Some (TgtTy createResponse)
  else if op =? opDelete then Some (TgtTy deleteResponse)
  else if op =? opExists then Some (TgtTy existsResponse)
  else if op =? opGetAcl then Some (TgtTy getAclResponse)
  else if op =? opGetChildren then Some (TgtTy getChildrenResponse)
  else if op =? opGetChildren2 then Some (TgtTy getChildren2Response)
  else if op =? opGetData then Some (TgtTy getDataResponse)
  else if op =? opPing then Some (TgtTy pingResponse)
  else if op =? opSetAcl then Some (TgtTy setAclResponse)
  else if op =? opSetData then Some (TgtTy setDataResponse)
  else if op =? opSetWatches then Some (TgtTy setWatchesResponse)
  else if op =? opSync then Some (TgtTy syncResponse)
  else if op =? opWatcherEvent then Some (TgtTy watcherEvent)
  else if op =? opSetAuth then Some (TgtTy setAuthResponse)
  else if op =? opMulti then Some TgtMulti
  else None.

(** ** The format *)

Definition block (bs : list Z) : list Z := be_bytes 4 (u32 (Z.of_nat (length bs))) ++ bs.

Fixpoint wire (t : ty) : den t → list Z :=
  match t with
  | TBool => λ v, [if v then 1 else 0]
  | TInt32 => λ v, be_bytes 4 (u32 v)
  | TInt64 => λ v, be_bytes 8 (u64 v)
  | TString => λ v, block (string_bytes v)
  | TBytes => λ v, match v with None => be_bytes 4 0xffffffff | Some bs => block bs end
  | TSlice t => λ v, be_bytes 4 (u32 (Z.of_nat (length v))) ++ (v ≫= wire t)
  | TStruct fs => wires fs
  end
with wires (fs : fields) : dens fs → list Z :=
  match fs with
  | FNil => λ _, []
  | FCons t fs => λ v, wire t v.1 ++ wires fs v.2
  end.

(** The values a packet can carry and the machine can hold. *)
Section Values.
Context {mem : Memory}.

Fixpoint wf_val (t : ty) : den t → Prop :=
  match t with
  | TBool => λ _, True
  | TInt32 => is_i32
  | TInt64 => is_i64
  | TString => λ v, Z.of_nat (String.length v) < 2 ^ 32
  | TBytes => λ v, match v with None => True | Some bs => Z.of_nat (length bs) < 2 ^ 31 ∧ granted TBytes (Z.of_nat (length bs)) = true end
  | TSlice t => λ v, Z.of_nat (length v) < 2 ^ 32 ∧ granted (TSlice t) (Z.of_nat (length v)) = true ∧ Forall (wf_val t) v
  | TStruct fs => wf_vals fs
  end
with wf_vals (fs : fields) : dens fs → Prop :=
  match fs with
  | FNil => λ _, True
  | FCons t fs => λ v, wf_val t v.1 ∧ wf_vals fs v.2
  end.
End Values.

(** *** The encoder against the format *)

Definition panics {A} (m : zres A) : Prop := m = SliceBounds ∨ m = IndexRange.

(** [m] writes [w] at the start of the array [a], or panics because [w] does not fit. *)
Definition writes (m : zres (slice * Z)) (a w : list Z) : Prop :=
  if decide (length w ≤ length a)%nat
  then m = Got (whole (w ++ drop (length w) a), Z.of_nat (length w)) else panics m.

Lemma writes_fits m a w : (length w ≤ length a)%nat →
  m = Got (whole (w ++ drop (length w) a), Z.of_nat (length w)) → writes m a w.
Proof. intros ? ->. unfold writes. by rewrite decide_True. Qed.

Lemma writes_not m a w : (length a < length w)%nat → panics m → writes m a w.
Proof. intros. unfold writes. by rewrite decide_False by lia. Qed.

Lemma panics_bind {A B} (m : zres A) (f : A → zres B) : panics m → panics (m ≫= f).
Proof. by intros [-> | ->]; [left|right]. Qed.

Lemma join_whole a (w : list Z) tail n : (length w ≤ length a)%nat → n = Z.of_nat (length w) →
  length tail = (length a - length w)%nat →
  join (whole (w ++ drop (length w) a)) n (whole tail) = whole (w ++ tail).
Proof.
  intros ? -> ?. unfold join, whole. cbn [arr len]. rewrite Nat2Z.id, take_app_length. f_equal.
  rewrite !length_app, length_drop. lia.
Qed.

(** Two writes, one after the other. *)
Lemma writes_app m enc a w1 w2 :
  writes m a w1 → (∀ a, writes (enc (whole a)) a w2) →
  writes (m ≫= λ r, enc_at enc r.1 r.2) a (w1 ++ w2).
Proof.
  intros H1 H2. unfold writes in H1. case_decide as Hf.
  - subst m. cbn. unfold enc_at. rewrite from_whole by (rewrite length_app, length_drop; lia).
    cbn. rewrite Nat2Z.id, drop_app_length. specialize (H2 (drop (length w1) a)).
    unfold writes in H2. rewrite length_drop in H2. case_decide as Hf2.
    + apply writes_fits; [rewrite length_app; lia|]. rewrite H2. cbn.
      rewrite join_whole; [|lia|done|rewrite length_app, !length_drop; lia].
      rewrite drop_drop, app_assoc, length_app. do 2 f_equal. lia.
    + apply writes_not; [rewrite length_app; lia|]. by apply panics_bind.
  - apply writes_not; [rewrite length_app; lia|]. by apply panics_bind.
Qed.

Lemma writes_nil a : writes (Got (whole a, 0)) a [].
Proof. apply writes_fits; [simpl; lia|]. cbn. by rewrite drop_0. Qed.

Lemma writes_put a w : writes (b ← put (whole a) 0 w; Got (b, Z.of_nat (length w))) a w.
Proof.
  destruct (decide (length w ≤ length a)%nat).
  - apply writes_fits; [done|]. by rewrite put_front.
  - apply writes_not; [lia|]. rewrite put_past by (unfold cap, whole; simpl; lia). by left.
Qed.

Lemma writes_block a bs : writes (enc_block bs (whole a)) a (block bs).
Proof.
  unfold enc_block, block. set (h := be_bytes 4 _).
  assert (Hh : length h = 4%nat) by apply be_bytes_length.
  destruct (decide (4 ≤ length a)%nat) as [Hf|Hf].
  - rewrite put_front by lia. cbn [mbind res_bind]. replace 4 with (Z.of_nat (length h)) by lia.
    destruct (decide (length h + length bs ≤ length a)%nat).
    + rewrite put_after by done. apply writes_fits; [by rewrite length_app|]. cbn [mbind res_bind]. by rewrite length_app, Nat2Z.inj_add.
    + rewrite put_past by (unfold cap, whole; cbn [arr]; rewrite length_app, length_drop; lia).
      apply writes_not; [rewrite length_app; lia|by left].
  - rewrite put_past by (unfold cap, whole; simpl; lia). apply writes_not; [rewrite length_app; lia|by left].
Qed.

Lemma enc_list_writes {A} (enc : A → slice → zres (slice * Z)) (w : A → list Z) l m a pre :
  (∀ x a, writes (enc x (whole a)) a (w x)) → writes m a pre →
  writes (m ≫= λ r, enc_list enc l r.1 r.2) a (pre ++ (l ≫= w)).
Proof.
  intros He. revert m pre. induction l as [|x l IH]; intros m pre Hm.
  - cbn. rewrite app_nil_r. destruct m as [[]|?| | |]; exact Hm.
  - cbn [mbind list_bind]. change (list_bind _ _ w l) with (l ≫= w). rewrite app_assoc.
    assert (Hx := writes_app m (enc x) a pre (w x) Hm (He x)). specialize (IH _ _ Hx).
    destruct m as [[]|?| | |]; exact IH.
Qed.

(** The count of a slice is written last, over the four bytes that were skipped. *)
Lemma writes_count (m : zres (slice * Z)) a h pre w :
  length h = 4%nat → length pre = 4%nat → writes m a (pre ++ w) →
  writes (r ← m; b ← put r.1 0 h; Got (b, r.2)) a (h ++ w).
Proof.
  intros Hh Hp Hm. unfold writes in Hm. rewrite length_app in Hm. case_decide.
  - subst m. apply writes_fits; [rewrite length_app; lia|]. cbn [mbind res_bind fst snd].
    rewrite put_front by (rewrite !length_app; lia). cbn [mbind res_bind]. rewrite <- app_assoc, drop_app_ge by lia.
    rewrite Hh, Hp, Nat.sub_diag, drop_0, !length_app, Hh. by rewrite <- app_assoc.
  - apply writes_not; [rewrite length_app; lia|]. by apply panics_bind.
Qed.

Lemma enc_list_short {A} (enc : A → slice → zres (slice * Z)) (l : list A) a h :
  length h = 4%nat → (length a < 4)%nat →
  panics (r ← enc_list enc l (whole a) 4; b ← put r.1 0 h; Got (b, r.2)).
Proof.
  intros Hh Ha. destruct l as [|x l]; cbn.
  - rewrite put_past by (unfold cap, whole; simpl; lia). by left.
  - unfold enc_at. rewrite from_past by (unfold whole; simpl; lia). by left.
Qed.

(** Every value is written as its format says, or the write panics. *)
Lemma encode_writes :
  (∀ t (v : den t) a, writes (encodePacketValue t v (whole a)) a (wire t v)) ∧
  (∀ fs (v : dens fs) m a pre, writes m a pre →
     writes (m ≫= λ r, encode_fields fs v r.1 r.2) a (pre ++ wires fs v)).
Proof.
  apply ty_fields_ind.
  - intros v [|x a]; [apply writes_not; simpl; [lia|by right]|].
    apply writes_fits; [simpl; lia|]. cbn -[Z.of_nat]. unfold set_index. cbn [len arr whole]. bounds; [|simpl in *; lia].
    unfold whole. cbn. by rewrite drop_0.
  - intros v a. apply (writes_put a (be_bytes 4 (u32 v))).
  - intros v a. apply (writes_put a (be_bytes 8 (u64 v))).
  - intros v a. apply writes_block.
  - intros [bs|] a; [apply writes_block|apply (writes_put a (be_bytes 4 0xffffffff))].
  - intros t IH v a. cbn [encodePacketValue wire]. destruct (decide (4 ≤ length a)%nat).
    + apply (writes_count _ _ _ (take 4 a)); [by rewrite be_bytes_length|rewrite length_take; lia|].
      apply (enc_list_writes (encodePacketValue t) (wire t) v (Got (whole a, 4)) a (take 4 a)); [apply IH|].
      apply writes_fits; rewrite length_take; [lia|].
      replace (4 `min` length a)%nat with 4%nat by lia. by rewrite take_drop.
    + apply writes_not; [rewrite length_app, be_bytes_length; lia|].
      apply enc_list_short; [apply be_bytes_length|lia].
  - intros fs IH v a. apply (IH v (Got (whole a, 0)) a []), writes_nil.
  - intros v m a pre Hm. cbn. rewrite app_nil_r. destruct m as [[]|?| | |]; exact Hm.
  - intros t IHt fs IHf v m a pre Hm. cbn [encode_fields wires]. rewrite app_assoc.
    specialize (IHf v.2 _ a _ (writes_app m _ a pre _ Hm (IHt v.1))).
    destruct m as [[]|?| | |]; exact IHf.
Qed.

(** *** The decoder against the format *)

Lemma dec_u32_wire z rest l : dec_u32 (mkSlice (be_bytes 4 z ++ rest) l) = Got (z mod 2 ^ 32).
Proof.
  unfold dec_u32, sub, cap. cbn [arr len]. rewrite length_app, be_bytes_length. bounds.
  cbn [mbind res_bind fmap res_fmap]. change (Z.to_nat (4 - 0)) with 4%nat. change (Z.to_nat 0) with 0%nat.
  rewrite drop_0, take_app_le, take_ge by (rewrite be_bytes_length; lia). rewrite be_value_bytes.
  unfold u32. by rewrite Z.mod_mod.
Qed.

Lemma sub_block (h bs rest : list Z) l : length h = 4%nat →
  sub (E:=zkError) (mkSlice (h ++ bs ++ rest) l) 4 (4 + Z.of_nat (length bs)) = Got bs.
Proof.
  intros Hh. unfold sub, cap. cbn [arr]. rewrite !length_app. bounds. f_equal.
  rewrite drop_app_ge by (rewrite Hh; reflexivity). rewrite Hh.
  change (Z.to_nat 4 - 4)%nat with 0%nat. rewrite drop_0.
  replace (Z.to_nat _) with (length bs) by lia. apply take_app_length.
Qed.

(** What [dec] reads when [w] is at the start of the slice. *)
Definition reads {A} (dec : slice → zres (A * Z)) (w : list Z) (v : A) : Prop :=
  ∀ rest l, Z.of_nat (length w) ≤ l → dec (mkSlice (w ++ rest) l) = Got (v, Z.of_nat (length w)).

Lemma dec_at_reads {A} (dec : slice → zres (A * Z)) pre w (v : A) rest l n :
  reads dec w v → n = Z.of_nat (length pre) → Z.of_nat (length (pre ++ w)) ≤ l →
  dec_at dec (mkSlice (pre ++ w ++ rest) l) n = Got (v, Z.of_nat (length (pre ++ w))).
Proof.
  intros Hd -> Hl. rewrite length_app in *. unfold dec_at, from. cbn [len arr]. bounds.
  cbn [mbind res_bind]. rewrite Nat2Z.id, drop_app_length, Hd by lia. cbn. do 2 f_equal. lia.
Qed.

Lemma dec_loop_reads {A} (dec : slice → zres (A * Z)) (w : A → list Z) (l : list A) pre acc rest ln n :
  Forall (λ v, reads dec (w v) v) l → n = Z.of_nat (length pre) → Z.of_nat (length (pre ++ (l ≫= w))) ≤ ln →
  nat_loop (length l) (λ s, r ← dec_at dec (mkSlice (pre ++ (l ≫= w) ++ rest) ln) s.2; Got (r.1 :: s.1, r.2)) (acc, n) =
  Got (rev l ++ acc, Z.of_nat (length (pre ++ (l ≫= w)))).
Proof.
  intros Hd. revert pre acc n. induction Hd as [|x l Hx Hl IH]; intros pre acc n -> Hln.
  - cbn. by rewrite app_nil_r.
  - cbn [mbind list_bind] in *. change (list_bind _ _ w l) with (l ≫= w) in *.
    assert (Hb : pre ++ (w x ++ (l ≫= w)) ++ rest = (pre ++ w x) ++ (l ≫= w) ++ rest) by (by rewrite <- !app_assoc).
    rewrite Hb. rewrite (app_assoc pre (w x)) in Hln |- *. cbn [length nat_loop snd].
    rewrite <- (app_assoc pre (w x) ((l ≫= w) ++ rest)) at 1. rewrite (dec_at_reads dec pre (w x) x) by (try done; rewrite !length_app in *; lia).
    cbn [mbind res_bind fst snd]. rewrite IH by done. cbn [rev]. by rewrite <- (app_assoc (rev l)).
Qed.

Section Decoding.
Context {mem : Memory}.

(** Reading what was written returns it, whatever follows it in the buffer. *)
Lemma decode_reads :
  (∀ t (v : den t), wf_val t v → reads (decodePacketValue t) (wire t v) v) ∧
  (∀ fs (v : dens fs), wf_vals fs v → ∀ pre rest l, Z.of_nat (length (pre ++ wires fs v)) ≤ l →
     decode_fields fs (mkSlice (pre ++ wires fs v ++ rest) l) (Z.of_nat (length pre)) =
     Got (v, Z.of_nat (length (pre ++ wires fs v)))).
Proof.
  apply ty_fields_ind.
  - intros v _ rest l Hl. cbn in *. unfold index. cbn [len arr]. bounds. by destruct v.
  - intros v Hv rest l _. cbn [decodePacketValue wire]. rewrite dec_u32_wire, be_bytes_length. cbn.
    do 2 f_equal. fold (u32 (u32 v)). by rewrite !i32_u32, i32_small.
  - intros v Hv rest l _. cbn [decodePacketValue wire]. unfold sub, cap. cbn [arr].
    rewrite length_app, be_bytes_length. bounds. cbn [mbind res_bind].
    change (Z.to_nat (8 - 0)) with 8%nat. change (Z.to_nat 0) with 0%nat.
    rewrite drop_0, take_app_le, take_ge by (rewrite be_bytes_length; lia). rewrite be_value_bytes.
    do 2 f_equal. change (i64 (u64 (u64 v)) = v). by rewrite !i64_u64, i64_small.
  - intros v Hv rest l _. cbn [decodePacketValue wire]. unfold block. rewrite <- app_assoc, dec_u32_wire.
    cbn [mbind res_bind]. unfold u32. rewrite Z.mod_mod, Z.mod_small by (rewrite ?string_bytes_length; cbn in Hv; lia).
    rewrite sub_block by apply be_bytes_length. cbn [mbind res_bind]. rewrite string_of_bytes_of, length_app, be_bytes_length. do 2 f_equal; lia.
  - intros [bs|] Hv rest l _; cbn [decodePacketValue wire].
    + unfold block. rewrite <- app_assoc, dec_u32_wire. cbn [mbind res_bind fmap res_fmap].
      destruct Hv as [Hv Hm]. unfold u32. rewrite Z.mod_mod, Z.mod_small by lia. rewrite i32_small by (unfold is_i32; lia). bounds.
      unfold make. rewrite Hm. cbn [mbind res_bind]. rewrite sub_block by apply be_bytes_length. cbn [mbind res_bind]. rewrite length_app, be_bytes_length. do 2 f_equal; lia.
    + rewrite dec_u32_wire. done.
  - intros t IH v (Hlen & Hm & Hv) rest l Hl. cbn [decodePacketValue wire] in *. rewrite <- app_assoc, dec_u32_wire.
    cbn [mbind res_bind]. unfold u32. rewrite Z.mod_mod, Z.mod_small by lia.
    unfold make. rewrite Hm. cbn [mbind res_bind]. rewrite loop_nat, Nat2Z.id.
    rewrite (dec_loop_reads _ (wire t)); [|by eapply Forall_impl|by rewrite be_bytes_length|done].
    cbn [mbind res_bind fst snd]. by rewrite app_nil_r, rev_involutive.
  - intros fs IH v Hv rest l Hl. apply (IH v Hv [] rest l Hl).
  - intros v _ pre rest l Hl. destruct v. cbn. by rewrite app_nil_r.
  - intros t IHt fs IHf v [Hv Hvs] pre rest l Hl. cbn [decode_fields wires] in *.
    rewrite <- app_assoc, (dec_at_reads _ pre (wire t v.1) v.1) by
      (first [by apply IHt | done | rewrite !length_app in *; lia]).
    cbn [mbind res_bind fst snd]. rewrite (app_assoc pre), IHf by (done || by rewrite <- app_assoc).
    cbn. rewrite <- app_assoc. by destruct v.
Qed.

(** *** The decoder on any input *)

Fixpoint no_bool (t : ty) : bool :=
  match t with
  | TBool => false
  | TSlice t => no_bool t
  | TStruct fs => no_bools fs
  | _ => true
  end
with no_bools (fs : fields) : bool :=
  match fs with FNil => true | FCons t fs => no_bool t && no_bools fs end.

(** An allocation that a packet can ask for is refused. *)
Definition refused : Prop := ∃ t n, 0 ≤ n < 2 ^ 32 ∧ granted t n = false.

(** A decoder that advances from [lo], panics, or has no memory; it reads an index only if
    [ix]. *)
Definition advances {A} (ix : bool) (lo : Z) (m : zres (A * Z)) : Prop :=
  match m with
  | Got r => lo ≤ r.2
  | Failed _ => False
  | SliceBounds => True
  | IndexRange => ix = true
  | NoMemory => refused
  end.

Lemma dec_at_advances {A} ix (dec : slice → zres (A * Z)) b n :
  (∀ b, advances ix 0 (dec b)) → advances ix n (dec_at dec b n).
Proof.
  intros Hd. unfold dec_at, from. case_match; [|done]. cbn [mbind res_bind].
  specialize (Hd (mkSlice (drop (Z.to_nat n) (arr b)) (len b - n))). destruct (dec _); cbn in *; [lia|done..].
Qed.

Lemma dec_loop_advances {A} ix (dec : slice → zres (A * Z)) b k acc n :
  (∀ b, advances ix 0 (dec b)) →
  advances ix n (nat_loop k (λ s, r ← dec_at dec b s.2; Got (r.1 :: s.1, r.2)) (acc, n)).
Proof.
  intros Hd. revert acc n. induction k as [|k IH]; intros acc n; [simpl; lia|]. cbn [nat_loop snd].
  pose proof (dec_at_advances ix dec b n Hd) as Ha. destruct (dec_at dec b n) as [r|?| | |]; cbn [mbind res_bind]; [|done..].
  specialize (IH (r.1 :: acc) r.2). cbn [fst snd]. cbn in Ha. destruct (nat_loop _ _ _); cbn in *; [lia|done..].
Qed.

Lemma advances_weaken {A} (ix ix' : bool) lo (m : zres (A * Z)) :
  (ix = true → ix' = true) → advances ix lo m → advances ix' lo m.
Proof. destruct m; cbn; auto. Qed.

Lemma dec_u32_got b : (∃ z, dec_u32 b = Got z ∧ 0 ≤ z < 2 ^ 32) ∨ dec_u32 b = SliceBounds.
Proof. unfold dec_u32, sub. case_match; cbn; [|by right]. left. eexists. split; [done|]. by apply Z.mod_pos_bound. Qed.

(** Memory is asked for before the decoder goes on. *)
Lemma make_advances {A} ix lo t n (m : zres (A * Z)) :
  0 ≤ n < 2 ^ 32 → advances ix lo m → advances ix lo (_ ← make t n; m).
Proof. intros Hn Hm. unfold make. destruct (granted t n) eqn:Hg; cbn; [done|]. by exists t, n. Qed.

Lemma sub_advances {A} (b : slice) ln (f : list Z → A) :
  advances false 0 (bs ← sub b 4 (4 + ln); Got (f bs, 4 + ln)).
Proof.
  unfold sub. case_match eqn:Hb; cbn; [|done]. apply andb_prop in Hb as [[_ Hb%Z.leb_le]%andb_prop _]. lia.
Qed.

Lemma decode_advances :
  (∀ t b, advances (negb (no_bool t)) 0 (decodePacketValue t b)) ∧
  (∀ fs b n, advances (negb (no_bools fs)) n (decode_fields fs b n)).
Proof.
  apply ty_fields_ind.
  - intros b. cbn. unfold index. case_match; cbn; [lia|done].
  - intros b. cbn. destruct (dec_u32_got b) as [(z & -> & Hz)| ->]; cbn; [lia|done].
  - intros b. cbn. unfold sub. case_match; cbn; [lia|done].
  - intros b. cbn [decodePacketValue]. destruct (dec_u32_got b) as [(z & -> & Hz)| ->]; [apply sub_advances|done].
  - intros b. cbn [decodePacketValue]. destruct (dec_u32_got b) as [(z & -> & Hz)| ->]; [|done].
    cbn [mbind res_bind fmap res_fmap]. case_match eqn:Hl; [cbn; lia|]. apply Z.ltb_ge in Hl.
    apply make_advances; [pose proof (i32_bounds z) as Hb; unfold is_i32 in Hb; lia|apply sub_advances].
  - intros t IH b. cbn [decodePacketValue no_bool]. destruct (dec_u32_got b) as [(z & -> & Hz)| ->]; [|done].
    cbn [mbind res_bind]. apply make_advances; [done|]. rewrite loop_nat.
    pose proof (dec_loop_advances _ (decodePacketValue t) b (Z.to_nat z) [] 4 IH) as Ha.
    destruct (nat_loop _ _ _); cbn in *; [lia|done..].
  - intros fs IH b. apply IH.
  - intros b n. cbn. lia.
  - intros t IHt fs IHf b n. cbn [decode_fields no_bools]. pose proof (dec_at_advances _ _ b n IHt) as Ha.
    destruct (dec_at _ b n) as [r|?| | |]; cbn [mbind res_bind] in *; [|done|done| |done].
    + specialize (IHf b r.2). cbn in Ha. destruct (decode_fields fs b r.2); cbn in *; [lia|done|done| |done].
      by rewrite negb_andb, IHf, orb_true_r.
    + cbn in *. by rewrite negb_andb, Ha.
Qed.

Lemma bind_got {E A B} (m : res E A) (f : A → res E B) y : m ≫= f = Got y → ∃ x, m = Got x ∧ f x = Got y.
Proof. destruct m; intros [=]. eauto. Qed.

Lemma dec_at_got {A} (dec : slice → zres (A * Z)) b n r : dec_at dec b n = Got r →
  ∃ c q, dec c = Got q ∧ r.2 = n + q.2 ∧ 0 ≤ n ≤ len b.
Proof.
  unfold dec_at, from. case_match eqn:Hn; [|done]. apply andb_prop in Hn as [?%Z.leb_le ?%Z.leb_le].
  intros (? & [= <-] & (q & Hq & [= <-])%bind_got)%bind_got. eexists _, q. by rewrite Hq.
Qed.

(** A header is nine bytes long. *)
Lemma header_nine b q : decodePacketValue multiHeader b = Got q → q.2 = 9.
Proof.
  assert (H32 : ∀ b q, decodePacketValue TInt32 b = Got q → q.2 = 4)
    by (intros ?? (? & _ & [= <-])%bind_got; done).
  assert (Hb : ∀ b q, decodePacketValue TBool b = Got q → q.2 = 1)
    by (intros ?? (? & _ & [= <-])%bind_got; done).
  intros (r1 & (?&?&?%H32&?&_)%dec_at_got & (r2 & (r3 & (?&?&?%Hb&?&_)%dec_at_got & Hr)%bind_got & [= <-])%bind_got)%bind_got.
  apply bind_got in Hr as (r4 & (r5 & (?&?&?%H32&?&_)%dec_at_got & [= <-])%bind_got & [= <-]). cbn in *. lia.
Qed.

(** A loop whose turns start inside the slice and advance by nine ends in the turns it is given. *)
Lemma multi_loop_fuel {A} (b : slice) (one : Z → zres (turn A)) :
  (∀ n a n', one n = Got (More a n') → 0 ≤ n ≤ len b ∧ n + 9 ≤ n') →
  ∀ fuel acc n, 0 ≤ n → len b - n < Z.of_nat fuel → is_Some (multi_loop (S fuel) one acc n).
Proof.
  intros Hone. induction fuel as [|fuel IH]; intros acc n Hn Hf; cbn [multi_loop].
  - destruct (one n) as [[]|?| | |] eqn:Ho; eauto. apply Hone in Ho. lia.
  - destruct (one n) as [[|a n']|?| | |] eqn:Ho; eauto. apply Hone in Ho as [? ?]. apply IH; lia.
Qed.

Lemma run_multi_ends {A} (one : slice → Z → zres (turn A)) b : wf_slice b →
  (∀ n a n', one b n = Got (More a n') → 0 ≤ n ≤ len b ∧ n + 9 ≤ n') → is_Some (run_multi one b).
Proof.
  intros Hb Hone. apply (multi_loop_fuel b); [done|lia|]. unfold wf_slice, cap in Hb. lia.
Qed.

Lemma decode_nonneg t b q : decodePacketValue t b = Got q → 0 ≤ q.2.
Proof. intros Hq. pose proof (proj1 decode_advances t b) as Ha. by rewrite Hq in Ha. Qed.

Lemma request_turn_advances b n a n' : request_turn b n = Got (More a n') → 0 ≤ n ≤ len b ∧ n + 9 ≤ n'.
Proof.
  intros (h & (c & q & Hq%header_nine & Hh & Hn)%dec_at_got & Hr)%bind_got. split; [done|].
  case_match; [done|]. case_match; [|done].
  apply bind_got in Hr as (r & (c' & q' & ?%decode_nonneg & Hr & _)%dec_at_got & [= _ <-]). lia.
Qed.

Lemma response_turn_advances b n a n' : response_turn b n = Got (More a n') → 0 ≤ n ≤ len b ∧ n + 9 ≤ n'.
Proof.
  intros (h & (c & q & Hq%header_nine & Hh & Hn)%dec_at_got & Hr)%bind_got. split; [done|].
  assert (Hrest : ∀ t (f : den t → multiResponseOp),
            (r ← dec_at (decodePacketValue t) b h.2; Got (More (f r.1) r.2)) = Got (More a n') → n + 9 ≤ n').
  { intros t f (r & (c' & q' & ?%decode_nonneg & Hr' & _)%dec_at_got & [= _ <-])%bind_got. lia. }
  case_match; [done|]. case_match; [by eapply (Hrest TString (λ v, mkMRes h.1 v None))|].
  case_match; [by eapply (Hrest Stat (λ v, mkMRes h.1 "" (Some v)))|].
  case_match; [|done]. assert (h.2 = n') by congruence. lia.
Qed.

(** The decoders of multi requests and responses return on every input. *)
Lemma multi_decodes_end b : wf_slice b → is_Some (multiRequest_Decode b) ∧ is_Some (multiResponse_Decode b).
Proof.
  intros Hb. unfold multiRequest_Decode, multiResponse_Decode.
  destruct (run_multi_ends request_turn b Hb (request_turn_advances b)) as [? ->].
  destruct (run_multi_ends response_turn b Hb (response_turn_advances b)) as [? ->]. eauto.
Qed.

(** *** Round trip of a multi request *)

(** The operations [Multi] accepts, with the header it gives them. *)
Definition multi_op (op : multiRequestOp) : Prop :=
  requestStructForOp (header_Type (mro_Header op)) = Some (mro_t op) ∧
  header_Done (mro_Header op) = false ∧ wf_val multiHeader (mro_Header op) ∧ wf_val (mro_t op) (mro_Op op).

Definition op_wire (op : multiRequestOp) : list Z :=
  wire multiHeader (with_Done false (mro_Header op)) ++ wire (mro_t op) (mro_Op op).

Definition multi_wire (r : multiRequest) : list Z :=
  (mr_Ops r ≫= op_wire) ++ wire multiHeader (with_Done true (mr_DoneHeader r)).

Lemma encode_op_writes op a : writes (encode_op op (whole a)) a (op_wire op).
Proof.
  unfold op_wire. pose proof (proj1 encode_writes (TStruct (FCons multiHeader (FCons (mro_t op) FNil)))
    (with_Done false (mro_Header op), (mro_Op op, tt)) a) as Hw.
  cbn [wire wires fst snd] in Hw. rewrite app_nil_r in Hw. exact Hw.
Qed.

Lemma multi_writes r a : writes (multiRequest_Encode r (whole a)) a (multi_wire r).
Proof.
  unfold multiRequest_Encode, multi_wire. apply writes_app; [|intros; apply (proj1 encode_writes)].
  apply (enc_list_writes encode_op op_wire (mr_Ops r) (Got (whole a, 0)) a []), writes_nil. apply encode_op_writes.
Qed.

Lemma request_turn_reads op pre rest l : multi_op op → Z.of_nat (length (pre ++ op_wire op)) ≤ l →
  request_turn (mkSlice (pre ++ op_wire op ++ rest) l) (Z.of_nat (length pre)) =
  Got (More op (Z.of_nat (length (pre ++ op_wire op)))).
Proof.
  intros (Hty & Hd & Hh & Hv) Hl. destruct op as [h t v]. cbn [mro_Header mro_t mro_Op] in *.
  assert (Hdone : with_Done false h = h) by (destruct h as [? [? ?]]; cbn in *; by subst).
  unfold op_wire, request_turn in *. cbn [mro_Header mro_t mro_Op] in *. rewrite Hdone in *.
  rewrite !length_app in Hl. rewrite <- app_assoc.
  rewrite (dec_at_reads _ pre (wire multiHeader h) h) by (first [by apply decode_reads | done | rewrite length_app; lia]).
  cbn [mbind res_bind fst snd]. rewrite Hd, Hty, app_assoc.
  rewrite (dec_at_reads _ (pre ++ wire multiHeader h) (wire t v) v)
    by (first [by apply decode_reads | done | rewrite !length_app; lia]).
  cbn [mbind res_bind fst snd]. by rewrite <- app_assoc.
Qed.

Lemma multi_loop_reads ops done rest l : Forall multi_op ops → wf_val multiHeader done → header_Done done = true →
  ∀ fuel acc pre, (length ops < fuel)%nat →
  Z.of_nat (length (pre ++ (ops ≫= op_wire) ++ wire multiHeader done)) ≤ l →
  multi_loop fuel (request_turn (mkSlice (pre ++ (ops ≫= op_wire) ++ wire multiHeader done ++ rest) l)) acc (Z.of_nat (length pre)) =
  Some (Got (rev acc ++ ops, done, Z.of_nat (length (pre ++ (ops ≫= op_wire) ++ wire multiHeader done)))).
Proof.
  intros Hops Hwf Hd. induction Hops as [|op ops Hop Hops IH]; intros [|fuel] acc pre Hf Hl; [lia| |lia|]; cbn [multi_loop].
  - cbn [mbind list_bind app] in *. unfold request_turn.
    rewrite (dec_at_reads _ pre (wire multiHeader done) done) by (first [by apply decode_reads | done]).
    cbn [mbind res_bind fst snd]. by rewrite Hd, app_nil_r.
  - cbn [mbind list_bind] in *. change (list_bind _ _ op_wire ops) with (ops ≫= op_wire) in *.
    rewrite <- (app_assoc (op_wire op)), <- (app_assoc (op_wire op)) in *.
    rewrite request_turn_reads by (done || (rewrite !length_app in *; lia)).
    rewrite (app_assoc pre) in Hl |- *. cbn [length] in Hf. rewrite (app_assoc pre). rewrite IH by (done || lia).
    cbn [rev]. by rewrite <- (app_assoc (rev acc)).
Qed.

Lemma op_wire_nonempty op : (1 ≤ length (op_wire op))%nat.
Proof. unfold op_wire. rewrite length_app. cbn -[be_bytes]. rewrite !length_app, be_bytes_length. lia. Qed.

Lemma multi_reads r rest l : Forall multi_op (mr_Ops r) → wf_val multiHeader (mr_DoneHeader r) →
  header_Done (mr_DoneHeader r) = true → Z.of_nat (length (multi_wire r)) ≤ l →
  multiRequest_Decode (mkSlice (multi_wire r ++ rest) l) = Some (Got (r, Z.of_nat (length (multi_wire r)))).
Proof.
  destruct r as [ops done]. cbn [mr_Ops mr_DoneHeader]. intros Hops Hwf Hd Hl.
  assert (Hdone : with_Done true done = done) by (destruct done as [? [? ?]]; cbn in *; by subst).
  unfold multiRequest_Decode, run_multi, multi_wire in *. cbn [mr_Ops mr_DoneHeader arr] in *. rewrite Hdone in *.
  rewrite <- app_assoc. rewrite (multi_loop_reads ops done rest l Hops Hwf Hd _ [] []); [done| |done].
  assert (Hops_len : (length ops ≤ length (ops ≫= op_wire))%nat).
  { clear. induction ops as [|op ops IH]; [done|]. cbn [mbind list_bind]. change (list_bind _ _ op_wire ops) with (ops ≫= op_wire).
    rewrite length_app. pose proof (op_wire_nonempty op). simpl length. lia. }
  rewrite length_app. lia.
Qed.

(** *** No index panic without a boolean *)

Definition no_index {A} (m : zres A) : Prop := match m with IndexRange | NoMemory => False | _ => True end.

Lemma no_index_bind {A B} (m : zres A) (f : A → zres B) : no_index m → (∀ a, no_index (f a)) → no_index (m ≫= f).
Proof. intros Hm Hf. destruct m; cbn; [apply Hf|done..]. Qed.

Lemma no_index_put b lo bs : no_index (put (E := zkError) b lo bs).
Proof. unfold put. by case_match. Qed.

Lemma no_index_enc_at enc b n : (∀ b, no_index (enc b)) → no_index (enc_at enc b n).
Proof.
  intros He. unfold enc_at. apply no_index_bind; [unfold from; by case_match|]. intros s.
  apply no_index_bind; [apply He|done].
Qed.

Lemma no_index_block bs b : no_index (enc_block bs b).
Proof. do 2 (apply no_index_bind; [apply no_index_put|intros ?]). done. Qed.

Lemma encode_no_index :
  (∀ t v b, no_bool t = true → no_index (encodePacketValue t v b)) ∧
  (∀ fs v b n, no_bools fs = true → no_index (encode_fields fs v b n)).
Proof.
  apply ty_fields_ind.
  - done.
  - intros v b _. apply no_index_bind; [apply no_index_put|done].
  - intros v b _. apply no_index_bind; [apply no_index_put|done].
  - intros v b _. apply no_index_block.
  - intros [bs|] b _; [apply no_index_block|]. apply no_index_bind; [apply no_index_put|done].
  - intros t IH v b Ht. cbn in Ht. cbn [encodePacketValue]. apply no_index_bind.
    + generalize 4 as n. revert b. induction v as [|x v IHv]; intros b n; [done|]. cbn [enc_list].
      apply no_index_bind; [|intros r; apply IHv]. apply no_index_enc_at. intros c. by apply IH.
    + intros r. apply no_index_bind; [apply no_index_put|done].
  - intros fs IH v b Ht. by apply IH.
  - done.
  - intros t IHt fs IHf v b n [Ht Hf]%andb_prop. cbn [encode_fields]. apply no_index_bind.
    + apply no_index_enc_at. intros c. by apply IHt.
    + intros r. by apply IHf.
Qed.

Lemma decodePacket_cases t b : no_bool t = true →
  (∃ r, decodePacket b (TgtTy t) = Got r) ∨ decodePacket b (TgtTy t) = Failed ErrShortBuffer ∨
  (decodePacket b (TgtTy t) = NoMemory ∧ refused).
Proof.
  intros Ht. pose proof (proj1 decode_advances t b) as Ha. rewrite Ht in Ha.
  unfold decodePacket. destruct (decodePacketValue t b); cbn in *; [eauto|done|auto|done|auto].
Qed.

Lemma encodePacket_cases t v b : no_bool t = true →
  (∃ r, encodePacket b (Pkt t v) = Got r) ∨ ∃ e, encodePacket b (Pkt t v) = Failed e.
Proof.
  intros Ht. pose proof (proj1 encode_no_index t v b Ht) as Ha. unfold encodePacket.
  destruct (encodePacketValue t v b); cbn in *; eauto; done.
Qed.

(** ** Properties *)

Definition packet_wire (p : packet) : list Z :=
  match p with Pkt t v => wire t v | PktMulti r => multi_wire r end.

Lemma packet_writes p a :
  writes (match p with Pkt t v => encodePacketValue t v (whole a) | PktMulti r => multiRequest_Encode r (whole a) end)
    a (packet_wire p).
Proof. destruct p; [apply (proj1 encode_writes)|apply multi_writes]. Qed.

Lemma encodePacket_fits p a : (length (packet_wire p) ≤ length a)%nat →
  encodePacket (whole a) p =
  Got (whole (packet_wire p ++ drop (length (packet_wire p)) a), Z.of_nat (length (packet_wire p))).
Proof.
  intros Hf. pose proof (packet_writes p a) as Hw. unfold writes in Hw. rewrite decide_True in Hw by done.
  unfold encodePacket. by rewrite Hw.
Qed.

Lemma encodePacket_full p a : (length a < length (packet_wire p))%nat →
  encodePacket (whole a) p = Failed ErrShortBuffer ∨ encodePacket (whole a) p = IndexRange.
Proof.
  intros Hf. pose proof (packet_writes p a) as Hw. unfold writes in Hw. rewrite decide_False in Hw by lia.
  unfold encodePacket. destruct Hw as [-> | ->]; cbn; auto.
Qed.

(** A struct that fits into the buffer is encoded as the format says and decoded to the
    same value, whatever the buffer held before and with the bytes after it untouched; one that
    does not fit is never encoded in part: the result is an error or a panic. *)
Theorem packet_round_trip t (v : den t) (a : list Z) :
  wf_val t v →
  if decide (length (wire t v) ≤ length a)%nat
  then ∃ b, encodePacket (whole a) (Pkt t v) = Got (b, Z.of_nat (length (wire t v))) ∧
         arr b = wire t v ++ drop (length (wire t v)) a ∧
         decodePacket b (TgtTy t) = Got (v, Z.of_nat (length (wire t v)))
  else encodePacket (whole a) (Pkt t v) = Failed ErrShortBuffer ∨ encodePacket (whole a) (Pkt t v) = IndexRange.
Proof.
  intros Hv. case_decide as Hf; [|apply (encodePacket_full (Pkt t v)); simpl; lia].
  eexists. split; [by apply (encodePacket_fits (Pkt t v))|]. split; [done|].
  unfold decodePacket, whole. cbn [tden packet_wire]. rewrite (proj1 decode_reads t v Hv); [done|].
  rewrite length_app. lia.
Qed.

Lemma response_no_bool op t : responseStructForOp op = Some (TgtTy t) → no_bool t = true.
Proof. unfold responseStructForOp. repeat case_match; by intros [= <-]. Qed.

(** C36: What an answer can do to the decoder of a reply.  For every operation but a
    multi request, whatever the bytes of the answer and the capacity of the buffer, the reply
    is read, or refused as short, or the process ends because the memory of a slice is
    refused whose count, below 2^32, the answer names; it panics in no other way.  The last
    does happen: a list of children asks for as many strings as the first four bytes
    say, before any byte after them is looked at.  The reply of a multi request has a
    boolean, and a short one panics. *)
Theorem reply_decode_safe op t b :
  responseStructForOp op = Some (TgtTy t) →
  ((∃ r, decodePacket b (TgtTy t) = Got r) ∨ decodePacket b (TgtTy t) = Failed ErrShortBuffer ∨
   (decodePacket b (TgtTy t) = NoMemory ∧ refused)) ∧
  (∀ n rest l, 0 ≤ n < 2 ^ 32 → granted (TSlice TString) n = false → 0 ≤ l →
     decodePacket (mkSlice (be_bytes 4 n ++ rest) l) (TgtTy getChildrenResponse) = NoMemory) ∧
  decodePacket (whole [0; 0; 0; 1]) TgtMulti = IndexRange.
Proof.
  intros Ht%response_no_bool. split_and!; [by apply decodePacket_cases| |done].
  intros n rest l Hn Hg Hl. unfold decodePacket, getChildrenResponse. cbn [struct decodePacketValue decode_fields].
  unfold dec_at, from. cbn [len arr]. bounds. cbn [mbind res_bind]. rewrite drop_0, dec_u32_wire, Z.mod_small by done.
  cbn [mbind res_bind]. unfold make. by rewrite Hg.
Qed.

(** A multi response that is cut after the type of a header panics; the same response cut
    one byte earlier is an error. *)
Lemma multi_response_panics :
  decodePacket (whole [0; 0; 0; 1]) TgtMulti = IndexRange ∧
  decodePacket (whole [0; 0; 0]) TgtMulti = Failed ErrShortBuffer.
Proof. done. Qed.

(** An operation that failed inside a multi request (type -1) loses its code. *)
Lemma multi_error_is_api_error rest l :
  9 ≤ l → decodePacket (mkSlice (wire multiHeader (-1, (false, (-101, tt))) ++ rest) l) TgtMulti = Failed ErrAPIError.
Proof.
  intros Hl. set (h := (-1, (false, (-101, tt))) : den multiHeader). set (b := mkSlice (wire multiHeader h ++ rest) l).
  assert (Ht : response_turn b 0 = Failed ErrAPIError).
  { unfold response_turn. rewrite (dec_at_reads _ [] (wire multiHeader h) h rest l 0); [done| |done|exact Hl].
    apply decode_reads. repeat split; done. }
  unfold decodePacket, multiResponse_Decode, run_multi. cbn [multi_loop]. by rewrite Ht.
Qed.

End Decoding.

(** *** Witnesses *)

(** A machine that has the memory for anything, and one that holds at most 65536 elements
    in a slice. *)
Definition plenty : Memory := λ _ _, true.
Definition small_machine : Memory := λ _ n, n <=? 65536.

Lemma packet_round_trip_witness :
  let v : den CreateRequest := ("/a", (Some [1; 255], ([(31, ("world", ("anyone", tt)))], (3, tt)))) in
  wf_val (mem := plenty) CreateRequest v ∧ encodePacket (whole (replicate 64 7)) (Pkt CreateRequest v) ≠ Failed ErrShortBuffer.
Proof.
  intros v. assert (Hwf : wf_val (mem := plenty) CreateRequest v).
  { cbn. repeat split; try lia. repeat constructor; cbn; unfold is_i32; lia. }
  split; [exact Hwf|].
  pose proof (packet_round_trip (mem := plenty) CreateRequest v (replicate 64 7) Hwf) as Hr.
  rewrite decide_True in Hr by (vm_compute; lia). destruct Hr as (b & Hr & _). by rewrite Hr.
Defined.

(** Eight bytes end the small machine. *)
Lemma reply_decode_safe_witness :
  responseStructForOp opGetChildren = Some (TgtTy getChildrenResponse) ∧
  decodePacket (mem := small_machine) (whole [255; 255; 255; 255; 0; 0; 0; 0]) (TgtTy getChildrenResponse) = NoMemory.
Proof.
  split; [done|].
  apply (proj1 (proj2 (reply_decode_safe (mem := small_machine) opGetChildren getChildrenResponse (whole []) eq_refl))
           (2 ^ 32 - 1) [0; 0; 0; 0] 8); [lia|reflexivity|lia].
Defined.
