(* ===== verification/ZkConn.v ===== *)
(** * The connection of the ZooKeeper client (samuel/go-zookeeper/zk, vendored)

    conn.go: the goroutine that connects, authenticates and reconnects ([loop]), the two
    goroutines of a live connection ([sendLoop], [recvLoop]), the callers that queue
    requests and wait for answers, and the channels and maps they share.  A move of the system
    ([step]) is one channel operation or one section under a lock of one of them; what the
    network, the timers and the callers do is part of the moves, so that a run is any
    interleaving.  [Stuck] is a move that is not possible now, [Crash] a run-time panic.

    The answer of a request is written into a struct of the caller and into variables it
    captured before the response is sent: a [delivery] is the response with both.
    [log], [wfailed] and [written] only record what happened. *)

From Stdlib Require Import Ascii.
From stdpp Require Import base strings list numbers gmap.
From S2P Require Import Prelude GoStd Md5 Bytes ZkWire.

Open Scope Z_scope.

(** ** Data *)

Definition eventChanSize : nat := 6.
Definition sendChanSize : nat := 16.
Definition protectedPrefix : string := "_c_".
Definition DefaultPort : Z := 2181.
Definition protocolVersion : Z := 0.
Definition emptyPassword : option (list Z) := Some (replicate 16 0).

Inductive watchType := watchTypeData | watchTypeExist | watchTypeChild.

#[export] Instance watchType_eq_dec : EqDecision watchType.
Proof. solve_decision. Defined.
#[export] Instance watchType_countable : Countable watchType.
Proof.
  refine (inj_countable' (λ w, match w with watchTypeData => 0 | watchTypeExist => 1 | watchTypeChild => 2 end%nat)
            (λ n, match n with O => watchTypeData | S O => watchTypeExist | _ => watchTypeChild end) _).
  by intros [].
Defined.

Record watchPathType := mkWatchPath { wp_path : string; wType : watchType }.

#[export] Instance watchPathType_eq_dec : EqDecision watchPathType.
Proof. solve_decision. Defined.
#[export] Instance watchPathType_countable : Countable watchPathType.
Proof.
  refine (inj_countable' (λ pt, (wp_path pt, wType pt)) (λ x, mkWatchPath x.1 x.2) _). by intros [].
Defined.

Record Event := mkEvent {
  ev_Type : Z; ev_State : Z; ev_Path : string; ev_Err : option zkError; ev_Server : string
}.

(** The [recvFunc] of a request: none, or the closures of [ChildrenW], [GetW] and [ExistsW]. *)
Inductive recvFunc := NoRecvFunc | WatchChild (path : string) | WatchData (path : string) | WatchExists (path : string).

(** [rq_id] is the identity of the request: a pointer in the source. *)
Record request := mkRequest {
  rq_id : nat; rq_xid : Z; rq_opcode : Z; rq_pkt : packet; rq_target : target; rq_recvFunc : recvFunc
}.

Record delivery := mkDelivery {
  dl_zxid : Z; dl_err : option zkError; dl_target : target; dl_val : option (tden dl_target); dl_ech : option nat
}.
Arguments mkDelivery dl_zxid dl_err {dl_target} dl_val dl_ech.

(** [response{-1, err}]: the struct of the caller is as it was. *)
Definition failure (r : request) (e : zkError) : delivery := mkDelivery (-1) (Some e) (dl_target := rq_target r) None None.

Record Session := mkSession { lastZxid : Z; sessionID : Z; sessionTimeoutMs : Z; passwd : option (list Z) }.
Record Dial := mkDial { servers : list string; serverIndex : Z; lastServerIndex : Z }.
Record EventChan := mkEventChan { ec_buf : list Event; ec_closed : bool }.

Record Queue := mkQueue {
  xid : Z;
  nid : nat;
  waiting : list request;
  sendChan : list request;
  requests : gmap Z request;
  recvChans : gmap nat (list delivery);
  log : list (nat * delivery);
  wfailed : list nat;
  written : list request;
}.

(** A channel of a watcher has room for one event. *)
Record wchan := mkWchan { wc_buf : list Event; wc_closed : bool }.
Record Watch := mkWatch { watchers : gmap watchPathType (list nat); wchans : gmap nat wchan; nch : nat }.

(** Where [loop] is, with the rest of what it was called from. *)
Inductive after_unsent := ThenWait | ThenClosing.
Inductive after_flush := ThenReturn | ThenDelay | ThenInvalidate.
Inductive lpc :=
  | AtConnect
  | FlushUnsent (e : zkError) (k : after_unsent)
  | AtWait
  | AtDial
  | AtAuth
  | AtSpawn
  | AtSetWatches
  | Joining
  | AtDisconnect (err : option zkError)
  | Flushing (e : zkError) (todo : list request) (k : after_flush)
  | AtDelay
  | Returned
  | AtInvalidate
  | AtCloseEvents
  | Finished.

Inductive spc := SOff | SIdle | SWrite (r : request).
Inductive rpc := ROff | RRead (buf : list Z) | RAnswer (r : request) (d : delivery) (buf : list Z).

(** [sock] is [c.conn]; [open_socks] are the sockets that were not closed; [pool] are the
    goroutines of [sendSetWatches] that did not run yet. *)
Record Threads := mkThreads {
  pc : lpc; spc_ : spc; rpc_ : rpc; closeChan : bool;
  sock : nat; open_socks : gset nat; pool : list packet; ticks : nat
}.

Record sys := mkSys {
  ses : Session; dial : Dial; state : Z; ec : EventChan; shouldQuit : bool; q : Queue; w : Watch; th : Threads
}.

(** *** Updates *)

Definition with_ses x s := mkSys x (dial s) (state s) (ec s) (shouldQuit s) (q s) (w s) (th s).
Definition with_dial x s := mkSys (ses s) x (state s) (ec s) (shouldQuit s) (q s) (w s) (th s).
Definition with_quit s := mkSys (ses s) (dial s) (state s) (ec s) true (q s) (w s) (th s).
Definition with_q x s := mkSys (ses s) (dial s) (state s) (ec s) (shouldQuit s) x (w s) (th s).
Definition with_w x s := mkSys (ses s) (dial s) (state s) (ec s) (shouldQuit s) (q s) x (th s).
Definition with_th x s := mkSys (ses s) (dial s) (state s) (ec s) (shouldQuit s) (q s) (w s) x.
Definition with_ec x s := mkSys (ses s) (dial s) (state s) x (shouldQuit s) (q s) (w s) (th s).
Definition with_state st x s := mkSys (ses s) (dial s) st x (shouldQuit s) (q s) (w s) (th s).

Definition with_pc x s := let t := th s in
  with_th (mkThreads x (spc_ t) (rpc_ t) (closeChan t) (sock t) (open_socks t) (pool t) (ticks t)) s.
Definition with_spc x s := let t := th s in
  with_th (mkThreads (pc t) x (rpc_ t) (closeChan t) (sock t) (open_socks t) (pool t) (ticks t)) s.
Definition with_rpc x s := let t := th s in
  with_th (mkThreads (pc t) (spc_ t) x (closeChan t) (sock t) (open_socks t) (pool t) (ticks t)) s.
Definition with_closeChan x s := let t := th s in
  with_th (mkThreads (pc t) (spc_ t) (rpc_ t) x (sock t) (open_socks t) (pool t) (ticks t)) s.
Definition with_pool x s := let t := th s in
  with_th (mkThreads (pc t) (spc_ t) (rpc_ t) (closeChan t) (sock t) (open_socks t) x (ticks t)) s.
Definition tick s := let t := th s in
  with_th (mkThreads (pc t) (spc_ t) (rpc_ t) (closeChan t) (sock t) (open_socks t) (pool t) (S (ticks t))) s.
(** [c.conn = zkConn], a new socket; [c.conn.Close()]. *)
Definition open_conn s := let t := th s in let n := S (sock t) in
  with_th (mkThreads (pc t) (spc_ t) (rpc_ t) (closeChan t) n ({[n]} ∪ open_socks t) (pool t) (ticks t)) s.
Definition close_conn s := let t := th s in
  with_th (mkThreads (pc t) (spc_ t) (rpc_ t) (closeChan t) (sock t) (open_socks t ∖ {[sock t]}) (pool t) (ticks t)) s.
Definition conn_open s : bool := bool_decide (sock (th s) ∈ open_socks (th s)).

Definition with_waiting x (k : Queue) :=
  mkQueue (xid k) (nid k) x (sendChan k) (requests k) (recvChans k) (log k) (wfailed k) (written k).
Definition with_sendChan x (k : Queue) :=
  mkQueue (xid k) (nid k) (waiting k) x (requests k) (recvChans k) (log k) (wfailed k) (written k).
Definition with_requests x (k : Queue) :=
  mkQueue (xid k) (nid k) (waiting k) (sendChan k) x (recvChans k) (log k) (wfailed k) (written k).
Definition with_recvChans x (k : Queue) :=
  mkQueue (xid k) (nid k) (waiting k) (sendChan k) (requests k) x (log k) (wfailed k) (written k).
Definition note_wfailed i (k : Queue) :=
  mkQueue (xid k) (nid k) (waiting k) (sendChan k) (requests k) (recvChans k) (log k) (i :: wfailed k) (written k).
Definition note_written r (k : Queue) :=
  mkQueue (xid k) (nid k) (waiting k) (sendChan k) (requests k) (recvChans k) (log k) (wfailed k) (written k ++ [r]).

(** ** Steps that can block or panic *)

Inductive outcome (A : Type) := Stuck | Crash | Next (a : A).
Arguments Stuck {A}.
Arguments Crash {A}.
Arguments Next {A} a.

#[export] Instance outcome_ret : MRet outcome := λ A a, Next a.
#[export] Instance outcome_bind : MBind outcome := λ A B f m,
  match m with Stuck => Stuck | Crash => Crash | Next a => f a end.

Definition guard_ (b : bool) {A} (m : outcome A) : outcome A := if b then m else Stuck.

(** [req.recvChan <- d]: the channel has room for one. *)
Definition deliver (r : request) (d : delivery) (k : Queue) : outcome Queue :=
  match recvChans k !! rq_id r with
  | Some (_ :: _) => Stuck
  | _ => Next (mkQueue (xid k) (nid k) (waiting k) (sendChan k) (requests k) (<[rq_id r := [d]]> (recvChans k))
                 (log k ++ [(rq_id r, d)]) (wfailed k) (written k))
  end.

(** [select { case c.eventChan <- ev: default: }]. *)
Definition send_event (ev : Event) (k : EventChan) : outcome EventChan :=
  if ec_closed k then Crash
  else Next (if bool_decide (length (ec_buf k) < eventChanSize)%nat then mkEventChan (ec_buf k ++ [ev]) false else k).

Definition setState (st : Z) (s : sys) : outcome sys :=
  match servers (dial s) !! Z.to_nat (serverIndex (dial s)) with
  | None => Crash
  | Some server =>
      k ← send_event (mkEvent EventSession st "" None server) (ec s);
      Next (with_state st k s)
  end.

(** [ch <- ev; close(ch)] for each channel. *)
Fixpoint fire (ev : Event) (chs : list nat) (m : gmap nat wchan) : outcome (gmap nat wchan) :=
  match chs with
  | [] => Next m
  | ch :: chs =>
      match m !! ch with
      | Some (mkWchan [] false) => fire ev chs (<[ch := mkWchan [ev] true]> m)
      | Some (mkWchan _ false) => Stuck
      | _ => Crash
      end
  end.

Section Conn.
(** The size of the buffers ([bufferSize] is 1536 KiB), the order in which Go ranges over a
    map, and the memory of the machine. *)
Context (bufferSize : nat) (reconnectDelay : Z).
Context (range : ∀ A, nat → list A → list A) {mem : Memory}.

(** ** The callers *)

Definition nextXid (k : Queue) : Z * Z := let x := u32 (xid k + 1) in (x, i32 (Z.land x 0x7fffffff)).

(** [queueRequest] up to its send, which may block. *)
Definition queueRequest (opcode : Z) (p : packet) (g : target) (f : recvFunc) (s : sys) : sys :=
  let k := q s in
  let '(x, id) := nextXid k in
  let rq := mkRequest (nid k) id opcode p g f in
  with_q (mkQueue x (S (nid k)) (waiting k ++ [rq]) (sendChan k) (requests k) (recvChans k) (log k) (wfailed k) (written k)) s.

(** [c.sendChan <- rq], by the [i]-th of the callers that are about to. *)
Definition push (i : nat) (s : sys) : outcome sys :=
  match waiting (q s) !! i with
  | None => Stuck
  | Some rq =>
      guard_ (bool_decide (length (sendChan (q s)) < sendChanSize)%nat)
        (Next (with_q (with_sendChan (sendChan (q s) ++ [rq])
                         (with_waiting (take i (waiting (q s)) ++ drop (S i) (waiting (q s))) (q s))) s))
  end.

(** [<-rq.recvChan]. *)
Definition receive (i : nat) (s : sys) : outcome (delivery * sys) :=
  match recvChans (q s) !! i with
  | Some (d :: ds) => Next (d, with_q (with_recvChans (<[i := ds]> (recvChans (q s))) (q s)) s)
  | _ => Stuck
  end.

(** [Close] up to its [select]; closing [shouldQuit] a second time panics. *)
Definition Close (s : sys) : outcome sys :=
  if shouldQuit s then Crash
  else Next (queueRequest opClose (Pkt closeRequest tt) (TgtTy closeResponse) NoRecvFunc (with_quit s)).

(** ** Watchers *)

Definition addWatcher (path : string) (t : watchType) (x : Watch) : Watch * nat :=
  let ch := nch x in
  (mkWatch (<[mkWatchPath path t := default [] (watchers x !! mkWatchPath path t) ++ [ch]]> (watchers x))
     (<[ch := mkWchan [] false]> (wchans x)) (S ch), ch).

Definition fire_all (mk : watchPathType → Event) (l : list (watchPathType * list nat)) (m : gmap nat wchan)
    : outcome (gmap nat wchan) :=
  foldl (λ o pw, m ← o; fire (mk pw.1) pw.2 m) (Next m) l.

Definition invalidateWatches (e : zkError) (s : sys) : outcome sys :=
  m ← fire_all (λ pt, mkEvent EventNotWatching StateDisconnected (wp_path pt) (Some e) "")
        (range _ (ticks (th s)) (map_to_list (watchers (w s)))) (wchans (w s));
  Next (tick (with_w (mkWatch ∅ m (nch (w s))) s)).

(** The paths of the watches of a type, in the order of the map. *)
Definition watch_paths (t : watchType) (l : list (watchPathType * list nat)) : list string :=
  omap (λ pw, if bool_decide (wType pw.1 = t) && negb (bool_decide (pw.2 = [])) then Some (wp_path pw.1) else None) l.

Definition setWatches (zxid : Z) (l : list (watchPathType * list nat)) : option packet :=
  let data := watch_paths watchTypeData l in
  let exist := watch_paths watchTypeExist l in
  let child := watch_paths watchTypeChild l in
  if bool_decide (length data + length exist + length child = 0)%nat then None
  else Some (Pkt setWatchesRequest (zxid, (data, (exist, (child, tt))))).

Definition sendSetWatches (s : sys) : sys :=
  match setWatches (lastZxid (ses s)) (range _ (ticks (th s)) (map_to_list (watchers (w s)))) with
  | None => tick s
  | Some p => tick (with_pool (pool (th s) ++ [p]) s)
  end.

(** The goroutine it starts. *)
Definition run_pool (s : sys) : outcome sys :=
  match pool (th s) with
  | [] => Stuck
  | p :: ps => Next (queueRequest opSetWatches p (TgtTy setWatchesResponse) NoRecvFunc (with_pool ps s))
  end.

(** ** Authentication *)

Definition recvTimeout (x : Session) : Z := Z.quot (sessionTimeoutMs x * 1000000 * 2) 3.
Definition pingInterval (x : Session) : Z := Z.quot (recvTimeout x) 2.

(** What the network does during [authenticate]. *)
Record auth_io := mkAuthIo { au_write : option zkError; au_head : zkError + list Z; au_body : zkError + list Z }.

Definition connect_packet (x : Session) : packet :=
  Pkt connectRequest (protocolVersion, (lastZxid x, (sessionTimeoutMs x, (sessionID x, (passwd x, tt))))).

(** [io.ReadFull(conn, buf[:n])]; the network delivers as many bytes as are asked for. *)
Definition read_into (buf : list Z) (n : Z) (input : zkError + list Z) : outcome (zkError + list Z) :=
  match input with
  | inl e => Next (inl e)
  | inr bs => guard_ (bool_decide (Z.of_nat (length bs) = n)) (Next (inr (bs ++ drop (length bs) buf)))
  end.

Definition grown (buf : list Z) (blen : Z) : list Z :=
  if Z.of_nat (length buf) <? blen then replicate (Z.to_nat blen) 0 else buf.

(** The larger buffer must be there. *)
Definition make_room (buf : list Z) (blen : Z) : outcome unit :=
  if (Z.of_nat (length buf) <? blen) && negb (granted TBytes blen) then Crash else Next tt.

(** The buffer when the length of the answer is known, and the answer in it. *)
Definition auth_exchange (x : Session) (io : auth_io) : outcome (zkError + den connectResponse) :=
  match encodePacket (whole (replicate 252 0)) (connect_packet x) with
  | Failed e => Next (inl e)
  | SliceBounds | IndexRange | NoMemory => Crash
  | Got (b, n) =>
      match au_write io with
      | Some e => Next (inl e)
      | None =>
          head ← read_into (be_bytes 4 (u32 n) ++ arr b) 4 (au_head io);
          match head with
          | inl e => Next (inl e)
          | inr buf =>
              let blen := u32 (be_value (take 4 buf)) in
              _ ← make_room buf blen;
              body ← read_into (grown buf blen) blen (au_body io);
              match body with
              | inl e => Next (inl e)
              | inr buf =>
                  match decodePacket (mkSlice buf blen) (TgtTy connectResponse) with
                  | Got (r, _) => Next (inr r)
                  | Failed e => Next (inl e)
                  | SliceBounds | IndexRange | NoMemory => Crash
                  end
              end
          end
      end
  end.

Definition authenticate (io : auth_io) (s : sys) : outcome (sys * option zkError) :=
  r ← auth_exchange (ses s) io;
  match r with
  | inl e => Next (s, Some e)
  | inr (_, (timeOut, (sid, (pw, _)))) =>
      if sid =? 0 then
        s ← setState StateExpired (with_ses (mkSession 0 0 (sessionTimeoutMs (ses s)) emptyPassword) s);
        Next (s, Some ErrSessionExpired)
      else
        s ← setState StateHasSession (with_ses (mkSession (lastZxid (ses s)) sid timeOut pw) s);
        Next (s, None)
  end.

(** ** The loop *)

Inductive loop_in := LGo | LTimer | LQuit | LDial (ok : bool) | LAuth (io : auth_io).

Definition set_lastServerIndex (i : Z) (s : sys) : sys :=
  with_dial (mkDial (servers (dial s)) (serverIndex (dial s)) i) s.

(** A turn of [connect], up to its flush or its dialling. *)
Definition connect_turn (s : sys) : outcome sys :=
  let d := dial s in
  match servers d with
  | [] => Crash
  | _ =>
      let i := (serverIndex d + 1) mod Z.of_nat (length (servers d)) in
      s ← setState StateConnecting (with_dial (mkDial (servers d) i (lastServerIndex d)) s);
      if i =? lastServerIndex d then Next (with_pc (FlushUnsent ErrNoServer ThenWait) s)
      else if lastServerIndex d <? 0 then Next (with_pc AtDial (set_lastServerIndex 0 s))
      else Next (with_pc AtDial s)
  end.

Definition start_flush (e : zkError) (k : after_flush) (s : sys) : sys :=
  tick (with_pc (Flushing e (range _ (ticks (th s)) (map_to_list (requests (q s))).*2) k) s).

Definition flushUnsent_turn (e : zkError) (k : after_unsent) (s : sys) : outcome sys :=
  match sendChan (q s) with
  | [] => Next (with_pc (match k with ThenWait => AtWait | ThenClosing => Returned end) s)
  | r :: rs => x ← deliver r (failure r e) (with_sendChan rs (q s)); Next (with_q x s)
  end.

Definition flushRequests_turn (e : zkError) (todo : list request) (k : after_flush) (s : sys) : outcome sys :=
  match todo with
  | [] => Next (with_pc (match k with ThenReturn => Returned | ThenDelay => AtDelay | ThenInvalidate => AtInvalidate end)
                  (with_q (with_requests ∅ (q s)) s))
  | r :: todo => x ← deliver r (failure r e) (q s); Next (with_pc (Flushing e todo k) (with_q x s))
  end.

Definition disconnected (err : option zkError) (s : sys) : outcome sys :=
  s ← setState StateDisconnected s;
  Next (if shouldQuit s then start_flush ErrClosing ThenReturn s
        else start_flush (if bool_decide (err = Some ErrSessionExpired) then ErrSessionExpired else ErrConnectionClosed)
               ThenDelay s).

Definition after_auth (err : option zkError) (s : sys) : outcome sys :=
  match err with
  | None => Next (with_pc AtSpawn s)
  | Some e =>
      s ← (if bool_decide (e = ErrSessionExpired) then invalidateWatches e s else Next (close_conn s));
      Next (with_pc (AtDisconnect err) s)
  end.

Definition loop_step (x : loop_in) (s : sys) : outcome sys :=
  match pc (th s), x with
  | AtConnect, LGo => connect_turn s
  | FlushUnsent e k, LGo => flushUnsent_turn e k s
  | AtWait, LTimer => Next (with_pc AtDial s)
  | AtWait, LQuit =>
      guard_ (shouldQuit s)
        (s ← setState StateDisconnected s; Next (with_pc (FlushUnsent ErrClosing ThenClosing) s))
  | AtDial, LDial true => s ← setState StateConnected (open_conn s); Next (with_pc AtAuth s)
  | AtDial, LDial false => Next (with_pc AtConnect s)
  | AtAuth, LAuth io => r ← authenticate io s; after_auth r.2 r.1
  | AtSpawn, LGo =>
      if pingInterval (ses s) <=? 0 then Crash
      else Next (with_pc AtSetWatches (with_spc SIdle (with_rpc (RRead (replicate bufferSize 0))
                  (with_closeChan false (set_lastServerIndex (serverIndex (dial s)) s)))))
  | AtSetWatches, LGo => Next (with_pc Joining (sendSetWatches s))
  | Joining, LGo =>
      match spc_ (th s), rpc_ (th s) with
      | SOff, ROff => Next (with_pc (AtDisconnect None) s)
      | _, _ => Stuck
      end
  | AtDisconnect err, LGo => disconnected err s
  | Flushing e todo k, LGo => flushRequests_turn e todo k s
  | AtDelay, LGo => guard_ (reconnectDelay <=? 0) (Next (with_pc AtConnect s))
  | AtDelay, LTimer => guard_ (0 <? reconnectDelay) (Next (with_pc AtConnect s))
  | AtDelay, LQuit => guard_ ((0 <? reconnectDelay) && shouldQuit s) (Next (with_pc Returned s))
  | Returned, LGo => Next (start_flush ErrClosing ThenInvalidate s)
  | AtInvalidate, LGo => s ← invalidateWatches ErrClosing s; Next (with_pc AtCloseEvents s)
  | AtCloseEvents, LGo =>
      if ec_closed (ec s) then Crash else Next (with_pc Finished (with_ec (mkEventChan (ec_buf (ec s)) true) s))
  | _, _ => Stuck
  end.

(** ** The goroutine that sends *)

Inductive send_in := SNext | SPing (r : option zkError) | SStop | SWrote (r : option zkError).

(** The header and the packet of a request in the buffer, behind their length. *)
Definition encode_request (r : request) : zres (list Z) :=
  b ← from (whole (replicate bufferSize 0)) 4;
  h ← encodePacket b (Pkt requestHeader (rq_xid r, (rq_opcode r, tt)));
  p ← from h.1 h.2;
  p ← encodePacket p (rq_pkt r);
  let n := h.2 + p.2 in
  Got (be_bytes 4 (u32 n) ++ take (Z.to_nat n) (arr (join h.1 h.2 p.1))).

Definition end_send (s : sys) : sys := with_spc SOff (close_conn s).

Definition send_step (x : send_in) (s : sys) : outcome sys :=
  match spc_ (th s), x with
  | SIdle, SNext =>
      match sendChan (q s) with
      | [] => Stuck
      | r :: rs =>
          let k := with_sendChan rs (q s) in
          match encode_request r with
          | Failed e => x ← deliver r (failure r e) k; Next (with_q x s)
          | SliceBounds | IndexRange | NoMemory => Crash
          | Got _ =>
              if closeChan (th s)
              then x ← deliver r (failure r ErrConnectionClosed) k; Next (end_send (with_q x s))
              else Next (with_spc (SWrite r) (with_q (with_requests (<[rq_xid r := r]> (requests k)) k) s))
          end
      end
  | SIdle, SPing None => guard_ (conn_open s) (Next s)
  | SIdle, SPing (Some _) => Next (end_send s)
  | SIdle, SStop => guard_ (closeChan (th s)) (Next (end_send s))
  | SWrite r, SWrote None => guard_ (conn_open s) (Next (with_spc SIdle (with_q (note_written r (q s)) s)))
  | SWrite r, SWrote (Some e) =>
      x ← deliver r (failure r e) (q s); Next (end_send (with_q (note_wfailed (rq_id r) x) s))
  | _, _ => Stuck
  end.

(** ** The goroutine that receives *)

(** The connection fails, a whole frame arrives, the answer is given, or the length of a frame
    arrives and not the frame. *)
Inductive recv_in := RFail | RFrame (payload : list Z) | RGo | RCut (blen : Z).

Definition end_recv (s : sys) : sys := with_rpc ROff (with_closeChan true s).

(** The types of the watches an event fires. *)
Definition fired_types (t : Z) : list watchType :=
  if t =? EventNodeCreated then [watchTypeExist]
  else if (t =? EventNodeDeleted) || (t =? EventNodeDataChanged) then [watchTypeExist; watchTypeData; watchTypeChild]
  else if t =? EventNodeChildrenChanged then [watchTypeChild]
  else [].

Fixpoint fire_types (ev : Event) (ts : list watchType) (x : Watch) : outcome Watch :=
  match ts with
  | [] => Next x
  | t :: ts =>
      let pt := mkWatchPath (ev_Path ev) t in
      match watchers x !! pt with
      | Some (ch :: chs) =>
          m ← fire ev (ch :: chs) (wchans x); fire_types ev ts (mkWatch (delete pt (watchers x)) m (nch x))
      | _ => fire_types ev ts x
      end
  end.

Definition watcher_event (ev : Event) (s : sys) : outcome sys :=
  k ← send_event ev (ec s);
  x ← fire_types ev (fired_types (ev_Type ev)) (w s);
  Next (with_w x (with_ec k s)).

Definition run_recvFunc (f : recvFunc) (err : option zkError) (x : Watch) : Watch * option nat :=
  match f, err with
  | WatchChild path, None => let '(x, ch) := addWatcher path watchTypeChild x in (x, Some ch)
  | WatchData path, None | WatchExists path, None => let '(x, ch) := addWatcher path watchTypeData x in (x, Some ch)
  | WatchExists path, Some ErrNoNode => let '(x, ch) := addWatcher path watchTypeExist x in (x, Some ch)
  | _, _ => (x, None)
  end.

(** [buf[16:16+blen]] panics in [recvLoop] itself when it does not fit. *)
Definition frame_body (buf : list Z) (blen : Z) : outcome slice :=
  if Z.of_nat (length buf) <? 16 + blen then Crash else Next (mkSlice (drop 16 buf) blen).

Definition decode_body {g : target} (buf : list Z) (blen : Z) : outcome (zkError + tden g) :=
  b ← frame_body buf blen;
  match decodePacket b g with
  | Got (v, _) => Next (inr v)
  | Failed e => Next (inl e)
  | SliceBounds | IndexRange | NoMemory => Crash
  end.

Definition reply (r : request) (zxid e : Z) (buf : list Z) (blen : Z) (s : sys) : outcome sys :=
  v ← (if e =? 0 then decode_body (g := rq_target r) buf blen
       else Next (inl (default ErrUnknown (toError e))));
  let err := match v with inl e => Some e | inr _ => None end in
  let '(x, ech) := run_recvFunc (rq_recvFunc r) err (w s) in
  Next (with_rpc (RAnswer r (mkDelivery zxid err (match v with inl _ => None | inr v => Some v end) ech) buf) (with_w x s)).

Definition handle_frame (buf : list Z) (blen : Z) (s : sys) : outcome sys :=
  if Z.of_nat (length buf) <? 16 then Crash else
  match decodePacket (mkSlice buf 16) (TgtTy responseHeader) with
  | SliceBounds | IndexRange | NoMemory => Crash
  | Failed _ => Next (end_recv s)
  | Got ((x, (zxid, (e, _))), _) =>
      if x =? -1 then
        v ← decode_body (g := TgtTy watcherEvent) buf blen;
        match v with
        | inl _ => Next (end_recv s)
        | inr (t, (st, (path, _))) =>
            s ← watcher_event (mkEvent t st path None "") s; Next (with_rpc (RRead buf) s)
        end
      else if x <? 0 then Next (with_rpc (RRead buf) s)
      else
        let s := if 0 <? zxid then with_ses (mkSession zxid (sessionID (ses s)) (sessionTimeoutMs (ses s)) (passwd (ses s))) s
                 else s in
        match requests (q s) !! x with
        | None => Next (with_rpc (RRead buf) s)
        | Some r => reply r zxid e buf blen (with_q (with_requests (delete x (requests (q s))) (q s)) s)
        end
  end.

Definition recv_step (x : recv_in) (s : sys) : outcome sys :=
  match rpc_ (th s), x with
  | RRead _, RFail => Next (end_recv s)
  | RRead buf, RFrame payload =>
      let blen := Z.of_nat (length payload) in
      guard_ (conn_open s && (blen <? 2 ^ 32))
        match put (E := zkError) (whole buf) 0 (be_bytes 4 blen) with
        | Got b => _ ← make_room (arr b) blen; handle_frame (payload ++ drop (length payload) (grown (arr b) blen)) blen s
        | _ => Crash
        end
  | RRead buf, RCut blen =>
      guard_ (conn_open s && (0 <=? blen) && (blen <? 2 ^ 32)) (_ ← make_room buf blen; Next (end_recv s))
  | RAnswer r d buf, RGo =>
      x ← deliver r d (q s);
      Next (if rq_opcode r =? opClose then end_recv (with_q x s) else with_rpc (RRead buf) (with_q x s))
  | _, _ => Stuck
  end.

(** ** The system *)

Inductive move :=
  | MQueue (opcode : Z) (p : packet) (g : target) (f : recvFunc)
  | MPush (i : nat)
  | MReceive (i : nat)
  | MClose
  | MPool
  | MLoop (x : loop_in)
  | MSend (x : send_in)
  | MRecv (x : recv_in)
  | MEvent
  | MWatch (ch : nat).

Definition step (m : move) (s : sys) : outcome sys :=
  match m with
  | MQueue opcode p g f => Next (queueRequest opcode p g f s)
  | MPush i => push i s
  | MReceive i => r ← receive i s; Next r.2
  | MClose => Close s
  | MPool => run_pool s
  | MLoop x => loop_step x s
  | MSend x => send_step x s
  | MRecv x => recv_step x s
  | MEvent =>
      match ec_buf (ec s) with
      | [] => Stuck
      | _ :: evs => Next (with_ec (mkEventChan evs (ec_closed (ec s))) s)
      end
  | MWatch ch =>
      match wchans (w s) !! ch with
      | Some (mkWchan (_ :: evs) c) => Next (with_w (mkWatch (watchers (w s)) (<[ch := mkWchan evs c]> (wchans (w s))) (nch (w s))) s)
      | _ => Stuck
      end
  end.

Fixpoint run (ms : list move) (s : sys) : outcome sys :=
  match ms with [] => Next s | m :: ms => s ← step m s; run ms s end.
End Conn.

(** ** Connecting *)

Definition FormatServers (servers : list string) : list string :=
  (λ s, if has_no ":" s then s +:+ ":" +:+ FormatInt DefaultPort else s) <$> servers.

Definition swap (i j : nat) (l : list string) : list string :=
  match l !! i, l !! j with
  | Some a, Some b => <[j := a]> (<[i := b]> l)
  | _, _ => l
  end.

(** [stringShuffle] from index [i] down; [rand i] is reduced to the range of [rand.Intn(i + 1)]. *)
Fixpoint shuffle_from (rand : nat → nat) (i : nat) (l : list string) : list string :=
  match i with
  | O => l
  | S i' => shuffle_from rand i' (swap i (rand i `mod` S i)%nat l)
  end.

Definition stringShuffle (rand : nat → nat) (l : list string) : list string := shuffle_from rand (length l - 1) l.

(** [ConnectWithDialer]: the connection whose loop is about to run; [None] is its error. *)
Definition ConnectWithDialer (rand : nat → nat) (servers : list string) (sessionTimeout : Z) : option sys :=
  match servers with
  | [] => None
  | _ => Some (mkSys (mkSession 0 0 (i32 (Z.quot sessionTimeout 1000000)) emptyPassword)
                 (mkDial (stringShuffle rand (FormatServers servers)) 0 (-1))
                 StateDisconnected (mkEventChan [] false) false
                 (mkQueue 0 0 [] [] ∅ ∅ [] [] []) (mkWatch ∅ ∅ 0)
                 (mkThreads AtConnect SOff ROff false 0 ∅ [] 0))
  end.
