(* ===== verification/ZkConnProps.v ===== *)
(** * The connection of the ZooKeeper client: theorems

    Every run of ZkConn.v, with any interleaving of the callers, the loop and the two goroutines
    of a connection.  [inv] is the account of the requests: each one is waiting or was
    answered, once, or twice when the write of its packet failed.  [winv] is the state
    of the channels of watchers. *)

From Stdlib Require Import Ascii.
From stdpp Require Import base strings list numbers gmap fin_maps.
From S2P Require Import Prelude GoStd Md5 Bytes ZkWire ZkConn.

Open Scope Z_scope.

(** ** The account of the requests *)

Definition ids (l : list request) : list nat := rq_id <$> l.

(** Requests that [flushRequests] has not come to yet, or all that are registered. *)
Definition registered (k : Queue) (p : lpc) : list request :=
  match p with Flushing _ todo _ => todo | _ => (map_to_list (requests k)).*2 end.
Definition in_hand (rp : rpc) : list request := match rp with RAnswer r _ _ => [r] | _ => [] end.
Definition unsent (k : Queue) : list request := waiting k ++ sendChan k.
Definition pending (k : Queue) (p : lpc) (rp : rpc) : list request := unsent k ++ registered k p ++ in_hand rp.

(** The number the [i]-th request is sent under. *)
Definition xid_of (i : nat) : Z := i32 (Z.land (u32 (Z.of_nat i + 1)) 0x7fffffff).

Definition running (p : lpc) : bool := match p with AtSetWatches | Joining => true | _ => false end.

(** The last points of the loop, after its last flush. *)
Definition drained (p : lpc) : bool := match p with AtInvalidate | AtCloseEvents | Finished => true | _ => false end.

Record inv (k : Queue) (p : lpc) (sp : spc) (rp : rpc) : Prop := {
  inv_account : ((log k).*1 ++ ids (pending k p rp)) ≡ₚ (seq 0 (nid k) ++ wfailed k);
  inv_wfailed : NoDup (wfailed k) ∧ Forall (λ i, i < nid k)%nat (wfailed k);
  inv_unsent : ∀ r, r ∈ unsent k → rq_id r ∉ wfailed k;
  inv_writing : ∀ r, sp = SWrite r → (rq_id r ∉ wfailed k) ∧ (rq_id r ∉ ids (unsent k)) ∧ (rq_id r < nid k)%nat;
  inv_counter : xid k = u32 (Z.of_nat (nid k));
  inv_xids : ∀ r, r ∈ pending k p rp → rq_xid r = xid_of (rq_id r);
  inv_keys : ∀ x r, requests k !! x = Some r → x = rq_xid r;
  inv_off : running p = false → sp = SOff ∧ rp = ROff;
  inv_drained : drained p = true → requests k = ∅;
  inv_chans : ∀ i d ds, recvChans k !! i = Some (d :: ds) → i ∈ (log k).*1;
}.

Lemma xid_of_small i : Z.of_nat i + 1 < 2 ^ 31 → xid_of i = Z.of_nat i + 1.
Proof.
  intros Hi. unfold xid_of. change 0x7fffffff with (Z.ones 31). unfold u32. rewrite Z.land_ones, (Z.mod_small _ (2 ^ 32)), Z.mod_small by lia.
  apply i32_small. unfold is_i32. lia.
Qed.

Lemma xid_of_bounds i : 0 ≤ xid_of i < 2 ^ 31.
Proof.
  unfold xid_of. change 0x7fffffff with (Z.ones 31). rewrite Z.land_ones by lia.
  pose proof (Z.mod_pos_bound (u32 (Z.of_nat i + 1)) (2 ^ 31)). rewrite i32_small by (unfold is_i32; lia). lia.
Qed.

Lemma xid_of_inj i j : Z.of_nat i + 1 < 2 ^ 31 → Z.of_nat j + 1 < 2 ^ 31 → xid_of i = xid_of j → i = j.
Proof. intros Hi Hj. rewrite !xid_of_small by done. lia. Qed.

Lemma nextXid_spec k : xid k = u32 (Z.of_nat (nid k)) →
  nextXid k = (u32 (Z.of_nat (S (nid k))), xid_of (nid k)).
Proof.
  intros Hx. unfold nextXid, xid_of. rewrite Hx.
  assert (Hu : u32 (u32 (Z.of_nat (nid k)) + 1) = u32 (Z.of_nat (nid k) + 1))
    by (unfold u32; by rewrite Z.add_mod_idemp_l).
  rewrite Hu. replace (Z.of_nat (S (nid k))) with (Z.of_nat (nid k) + 1) by lia. done.
Qed.

#[export] Instance ids_Permutation : Proper (Permutation ==> Permutation) ids.
Proof. intros a b Hab. unfold ids. by rewrite Hab. Qed.

Lemma ids_app a b : ids (a ++ b) = ids a ++ ids b.
Proof. apply fmap_app. Qed.

(** The answers to a request and its pending copies: two if its write failed, else one. *)
Lemma inv_count k p sp rp i : inv k p sp rp → (i < nid k)%nat →
  (count_occ Nat.eq_dec (log k).*1 i + count_occ Nat.eq_dec (ids (pending k p rp)) i =
   1 + count_occ Nat.eq_dec (wfailed k) i)%nat.
Proof.
  intros Hi Hlt. pose proof (inv_account _ _ _ _ Hi) as Ha.
  apply (Permutation_count_occ Nat.eq_dec) with (x := i) in Ha. rewrite !count_occ_app in Ha. rewrite Ha. f_equal.
  apply NoDup_count_occ'; [apply NoDup_ListNoDup, NoDup_seq|]. apply in_seq. lia.
Qed.

Lemma inv_range k p sp rp r : inv k p sp rp → r ∈ pending k p rp → (rq_id r < nid k)%nat.
Proof.
  intros Hi Hr. assert (Hm : rq_id r ∈ seq 0 (nid k) ++ wfailed k).
  { rewrite <- (inv_account _ _ _ _ Hi). apply elem_of_app. right. by apply list_elem_of_fmap_2. }
  apply elem_of_app in Hm as [Hm%elem_of_seq|Hm]; [lia|].
  destruct (inv_wfailed _ _ _ _ Hi) as [_ Hf]. rewrite Forall_forall in Hf. by apply Hf.
Qed.

Lemma ids_elem r l : r ∈ l → rq_id r ∈ ids l.
Proof. apply list_elem_of_fmap_2. Qed.

(** Regroup a permutation over [++] and [::]; the hypothesis has the same parts. *)
Ltac perm_norm := unfold pending, unsent, ids in *; rewrite ?fmap_app, ?fmap_cons, ?fmap_nil in *; cbn [fst rq_id app fmap list_fmap] in *.
Ltac perm H := perm_norm; etrans; [|etrans; [exact H|]]; solve_Permutation.

(** *** The changes that the moves make *)

Lemma inv_queue k p sp rp op pk g f : inv k p sp rp →
  inv (let '(x, id) := nextXid k in
        mkQueue x (S (nid k)) (waiting k ++ [mkRequest (nid k) id op pk g f]) (sendChan k) (requests k) (recvChans k)
          (log k) (wfailed k) (written k)) p sp rp.
Proof.
  intros Hi. destruct Hi as [Ha [Hw Hwr] Hu Hwri Hc Hx Hk Ho Hdr Hch]. rewrite (nextXid_spec k Hc).
  assert (Hnew : nid k ∉ wfailed k) by (intros Hin; rewrite Forall_forall in Hwr; apply Hwr in Hin; lia).
  split; cbn -[seq].
  - rewrite seq_S. cbn [plus]. transitivity ((((log k).*1 ++ ids (pending k p rp))) ++ [nid k]).
    + unfold registered. perm_norm. destruct p; solve_Permutation.
    + rewrite Ha. solve_Permutation.
  - split; [done|]. eapply Forall_impl; [exact Hwr|]. simpl. lia.
  - intros r. unfold unsent. cbn. rewrite !elem_of_app, list_elem_of_singleton. intros [[Hr| ->]|Hr]; [|done|];
      apply Hu; unfold unsent; rewrite elem_of_app; auto.
  - intros r Hr. destruct (Hwri r Hr) as (H1 & H2 & H3). split; [done|]. split; [|lia]. unfold ids, unsent in *. cbn.
    rewrite !fmap_app, !elem_of_app in *. cbn. rewrite list_elem_of_singleton. intros [[?| ?]|?]; [tauto|lia|tauto].
  - done.
  - intros r. unfold pending, unsent, registered. cbn. rewrite !elem_of_app, list_elem_of_singleton.
    intros [[[Hr| ->]|Hr]|Hr]; [|done|..]; apply Hx; unfold pending, unsent, registered; rewrite !elem_of_app; tauto.
  - done.
  - done.
  - done.
  - done.
Qed.

(** Reordering the requests that were not sent. *)
Lemma inv_reorder k k' p sp rp : inv k p sp rp → unsent k' ≡ₚ unsent k →
  requests k' = requests k → log k' = log k → nid k' = nid k → wfailed k' = wfailed k → xid k' = xid k →
  (∀ i d ds, recvChans k' !! i = Some (d :: ds) → i ∈ (log k).*1) → inv k' p sp rp.
Proof.
  intros [Ha Hw Hu Hwri Hc Hx Hk Ho Hdr Hch] Hp Hq Hl Hn Hf Hxi Hch'.
  assert (Hpend : pending k' p rp ≡ₚ pending k p rp) by (unfold pending, registered; rewrite Hp; by destruct p; rewrite ?Hq).
  split; rewrite ?Hl, ?Hn, ?Hf, ?Hxi, ?Hq; try done.
  - by rewrite <- Ha, Hpend.
  - intros r. rewrite Hp. apply Hu.
  - intros r Hr. rewrite Hp. by apply Hwri.
  - intros r. rewrite Hpend. apply Hx.
Qed.

Lemma inv_push k p sp rp i r : inv k p sp rp → waiting k !! i = Some r →
  inv (with_sendChan (sendChan k ++ [r]) (with_waiting (take i (waiting k) ++ drop (S i) (waiting k)) k)) p sp rp.
Proof.
  intros Hi Hr. apply (inv_reorder k); try done; [|apply (inv_chans _ _ _ _ Hi)].
  transitivity ((take i (waiting k) ++ r :: drop (S i) (waiting k)) ++ sendChan k); [unfold unsent; cbn; solve_Permutation|].
  by rewrite take_drop_middle.
Qed.

Lemma deliver_next r d k k' : deliver r d k = Next k' →
  k' = mkQueue (xid k) (nid k) (waiting k) (sendChan k) (requests k) (<[rq_id r := [d]]> (recvChans k))
         (log k ++ [(rq_id r, d)]) (wfailed k) (written k).
Proof. unfold deliver. repeat case_match; by intros [= <-]. Qed.

(** A request leaves the pending ones and its answer is recorded: [l] are those left. *)
Lemma inv_answered k k' p p' sp sp' rp rp' r :
  inv k p sp rp →
  pending k p rp ≡ₚ r :: pending k' p' rp' → (log k').*1 ≡ₚ rq_id r :: (log k).*1 →
  (∀ r', r' ∈ unsent k' → r' ∈ unsent k) →
  (∀ x r, requests k' !! x = Some r → requests k !! x = Some r) →
  nid k' = nid k → wfailed k' = wfailed k → xid k' = xid k →
  (∀ r, sp' = SWrite r → sp = SWrite r) → (running p' = false → sp' = SOff ∧ rp' = ROff) →
  (drained p' = true → drained p = true) →
  (∀ i d ds, recvChans k' !! i = Some (d :: ds) → i = rq_id r ∨ ∃ d' ds', recvChans k !! i = Some (d' :: ds')) →
  inv k' p' sp' rp'.
Proof.
  intros [Ha Hw Hu Hwri Hc Hx Hk Ho Hdr Hch] Hp Hl Hun Hq Hn Hf Hxi Hsp Hoff Hd Hch'.
  split; rewrite ?Hn, ?Hf, ?Hxi; try done.
  - rewrite <- Ha, Hl, Hp. cbn. solve_Permutation.
  - intros r' Hr'. apply Hu. by apply Hun.
  - intros r' Hr'. destruct (Hwri r' (Hsp _ Hr')) as (H1 & H2 & H3). split; [done|]. split; [|done].
    intros (y & Hy & Hin)%list_elem_of_fmap. apply H2. rewrite Hy. by apply ids_elem, Hun.
  - intros r' Hr'. apply Hx. rewrite Hp. by right.
  - intros x r' Hr'. by apply Hk, Hq.
  - intros Hdp. apply map_eq. intros x. rewrite lookup_empty. destruct (requests k' !! x) eqn:E; [|done].
    apply Hq in E. by rewrite (Hdr (Hd Hdp)) in E.
  - intros i d ds [-> |(d' & ds' & Hi')]%Hch'; rewrite Hl; [by left|]. right. by eapply Hch.
Qed.

(** What a delivery leaves in the channels. *)
Lemma chans_insert (m : gmap nat (list delivery)) i d j d' ds :
  <[i := [d]]> m !! j = Some (d' :: ds) → j = i ∨ ∃ d' ds', m !! j = Some (d' :: ds').
Proof. intros [[-> _]|[_ ?]]%lookup_insert_Some; eauto. Qed.

Lemma log_snoc {A} (l : list (nat * A)) i d : (l ++ [(i, d)]).*1 ≡ₚ i :: l.*1.
Proof. rewrite fmap_app. cbn. solve_Permutation. Qed.

(** The request at the head of [sendChan] is answered without being sent. *)
Lemma inv_head k k' p sp sp' rp r rs d :
  inv k p sp rp → sendChan k = r :: rs → deliver r d (with_sendChan rs k) = Next k' →
  (∀ r, sp' ≠ SWrite r) → (running p = false → sp' = SOff) → inv k' p sp' rp.
Proof.
  intros Hi Hq ->%deliver_next Hsp Hoff.
  eapply (inv_answered k _ p p sp sp' rp rp r Hi); cbn; try done.
  - unfold pending, unsent, registered. cbn. rewrite Hq. destruct p; solve_Permutation.
  - apply log_snoc.
  - intros r'. unfold unsent. cbn. rewrite Hq, !elem_of_app. intros [?|?]; [by left|right; by right].
  - intros r' ->. by destruct (Hsp r').
  - intros Hr. split; [by apply Hoff|]. by apply (inv_off _ _ _ _ Hi).
  - intros i d' ds. apply chans_insert.
Qed.

(** The request in the hand of [recvLoop] is answered. *)
Lemma inv_answer k k' p sp r d d' buf rp' :
  inv k p sp (RAnswer r d' buf) → deliver r d k = Next k' → in_hand rp' = [] → inv k' p sp rp'.
Proof.
  intros Hi ->%deliver_next Hrp.
  assert (Hrun : running p = true).
  { destruct (running p) eqn:E; [done|]. by destruct (inv_off _ _ _ _ Hi E). }
  eapply (inv_answered k _ p p sp sp _ rp' r Hi); cbn; try done.
  - unfold pending, unsent, registered. cbn. rewrite Hrp, app_nil_r. destruct p; solve_Permutation.
  - apply log_snoc.
  - by rewrite Hrun.
  - intros i d0 ds. apply chans_insert.
Qed.

(** [flushRequests] answers one request. *)
Lemma inv_flush_one k k' e r todo kk sp rp d :
  inv k (Flushing e (r :: todo) kk) sp rp → deliver r d k = Next k' → inv k' (Flushing e todo kk) sp rp.
Proof.
  intros Hi ->%deliver_next. eapply (inv_answered k _ _ _ sp sp rp rp r Hi); cbn; try done.
  - unfold pending, unsent, registered. cbn. solve_Permutation.
  - apply log_snoc.
  - intros _. by apply (inv_off _ _ _ _ Hi).
  - intros i d0 ds. apply chans_insert.
Qed.

(** Changing where the goroutines are, with the same requests pending. *)
Lemma inv_move k k' p p' sp sp' rp rp' :
  inv k p sp rp → pending k' p' rp' ≡ₚ pending k p rp → (log k').*1 = (log k).*1 → unsent k' = unsent k →
  (∀ x r, requests k' !! x = Some r → requests k !! x = Some r) →
  nid k' = nid k → wfailed k' = wfailed k → xid k' = xid k →
  (∀ r, sp' = SWrite r → sp = SWrite r) → (running p' = false → sp' = SOff ∧ rp' = ROff) →
  (drained p' = true → requests k' = ∅) → recvChans k' = recvChans k →
  inv k' p' sp' rp'.
Proof.
  intros [Ha Hw Hu Hwri Hc Hx Hk Ho Hdr Hch] Hp Hl Hun Hq Hn Hf Hxi Hsp Hoff Hd Hch'.
  split; rewrite ?Hn, ?Hf, ?Hxi, ?Hl, ?Hun, ?Hch'; try done.
  - by rewrite <- Ha, Hp.
  - intros r' Hr'. by apply Hwri, Hsp.
  - intros r'. rewrite Hp. apply Hx.
  - intros x r' Hr'. by apply Hk, Hq.
Qed.

(** [c.requests[req.xid] = req]: no other request is registered under its number. *)
Lemma xid_free k p sp rp r rs : inv k p sp rp → running p = true → Z.of_nat (nid k) < 2 ^ 31 →
  sendChan k = r :: rs → requests k !! rq_xid r = None.
Proof.
  intros Hi Hrun Hn Hq. destruct (requests k !! rq_xid r) as [r'|] eqn:E; [exfalso|done].
  assert (Hr : r ∈ unsent k) by (unfold unsent; rewrite Hq, elem_of_app; right; by left).
  assert (Hreg : r' ∈ registered k p).
  { assert (Hin : r' ∈ (map_to_list (requests k)).*2).
    { apply list_elem_of_fmap. exists (rq_xid r, r'). split; [done|]. by apply elem_of_map_to_list. }
    by destruct p. }
  assert (Hr'p : r' ∈ pending k p rp) by (unfold pending; rewrite !elem_of_app; auto).
  assert (Hrp : r ∈ pending k p rp) by (unfold pending; rewrite elem_of_app; auto).
  assert (Hid : rq_id r = rq_id r').
  { apply xid_of_inj.
    - pose proof (inv_range _ _ _ _ r Hi Hrp). lia.
    - pose proof (inv_range _ _ _ _ r' Hi Hr'p). lia.
    - rewrite <- (inv_xids _ _ _ _ Hi r Hrp), <- (inv_xids _ _ _ _ Hi r' Hr'p). by apply (inv_keys _ _ _ _ Hi). }
  pose proof (inv_count k p sp rp (rq_id r) Hi (inv_range _ _ _ _ r Hi Hrp)) as Hc.
  assert (Hnw : count_occ Nat.eq_dec (wfailed k) (rq_id r) = 0%nat).
  { apply count_occ_not_In. rewrite <- list_elem_of_In. by apply (inv_unsent _ _ _ _ Hi). }
  unfold pending in Hc. rewrite !ids_app, !count_occ_app in Hc.
  assert (Hc1 : (0 < count_occ Nat.eq_dec (ids (unsent k)) (rq_id r))%nat)
    by (apply count_occ_In; rewrite <- list_elem_of_In; by apply ids_elem).
  assert (Hc2 : (0 < count_occ Nat.eq_dec (ids (registered k p)) (rq_id r))%nat)
    by (apply count_occ_In; rewrite <- list_elem_of_In, Hid; by apply ids_elem).
  lia.
Qed.

Lemma inv_register k p sp rp r rs : inv k p sp rp → running p = true → Z.of_nat (nid k) < 2 ^ 31 →
  sendChan k = r :: rs →
  inv (with_requests (<[rq_xid r := r]> (requests k)) (with_sendChan rs k)) p (SWrite r) rp.
Proof.
  intros Hi Hrun Hn Hq. pose proof (xid_free _ _ _ _ _ _ Hi Hrun Hn Hq) as Hfree.
  assert (Hr : r ∈ unsent k) by (unfold unsent; rewrite Hq, elem_of_app; right; by left).
  assert (Hpend : pending (with_requests (<[rq_xid r := r]> (requests k)) (with_sendChan rs k)) p rp ≡ₚ pending k p rp).
  { unfold pending, unsent, registered. cbn. rewrite Hq.
    assert (Hm : (map_to_list (<[rq_xid r := r]> (requests k))).*2 ≡ₚ r :: (map_to_list (requests k)).*2)
      by (by rewrite map_to_list_insert by done).
    destruct p; try done; rewrite Hm; solve_Permutation. }
  assert (Hsub : ∀ r', r' ∈ unsent (with_requests (<[rq_xid r := r]> (requests k)) (with_sendChan rs k)) → r' ∈ unsent k).
  { intros r'. unfold unsent. cbn. rewrite Hq, !elem_of_app. intros [?|?]; [by left|right; by right]. }
  pose proof (inv_range _ _ _ _ r Hi ltac:(unfold pending; rewrite elem_of_app; auto)) as Hlt.
  assert (Hnd : rq_id r ∉ ids (unsent (with_requests (<[rq_xid r := r]> (requests k)) (with_sendChan rs k)))).
  { intros Hin. pose proof (inv_count k p sp rp (rq_id r) Hi Hlt) as Hc.
    assert (Hnw : count_occ Nat.eq_dec (wfailed k) (rq_id r) = 0%nat).
    { apply count_occ_not_In. rewrite <- list_elem_of_In. by apply (inv_unsent _ _ _ _ Hi). }
    unfold pending in Hc. rewrite !ids_app, !count_occ_app in Hc.
    assert (Hp : ids (unsent k) ≡ₚ rq_id r :: ids (unsent (with_requests (<[rq_xid r := r]> (requests k)) (with_sendChan rs k)))).
    { unfold unsent, ids. cbn. rewrite Hq, !fmap_app, fmap_cons. solve_Permutation. }
    apply (Permutation_count_occ Nat.eq_dec) with (x := rq_id r) in Hp.
    cbn [count_occ] in Hp.
    rewrite list_elem_of_In in Hin. apply (count_occ_In Nat.eq_dec) in Hin.
    destruct (Nat.eq_dec (rq_id r) (rq_id r)); [|done]. lia. }
  destruct Hi as [Ha Hw Hu Hwri Hc Hx Hk Ho Hdr Hch]. split; try done.
  - by rewrite Hpend.
  - intros r' Hr'. apply Hu. by apply Hsub.
  - intros r' [= <-]. split; [by apply Hu|]. by split.
  - intros r'. rewrite Hpend. apply Hx.
  - intros x r'. cbn. intros [[<- <-]|[_ Hr']]%lookup_insert_Some; [done|]. by apply Hk.
  - rewrite Hrun. done.
  - by destruct p.
Qed.

(** The write of a packet failed: its request gets an answer and stays registered. *)
Lemma inv_write_failed k k' p rp r d : inv k p (SWrite r) rp → deliver r d k = Next k' →
  inv (note_wfailed (rq_id r) k') p SOff rp.
Proof.
  intros Hi ->%deliver_next. pose proof (inv_off _ _ _ _ Hi) as Hoff.
  destruct Hi as [Ha [Hw Hwr] Hu Hwri Hc Hx Hk Ho Hdr Hch]. destruct (Hwri r eq_refl) as (Hn & Hun & Hlt).
  split; cbn; try done.
  - rewrite log_snoc. transitivity (rq_id r :: (log k).*1 ++ ids (pending k p rp)).
    + destruct p; done.
    + rewrite Ha. solve_Permutation.
  - split; [by apply NoDup_cons|by constructor].
  - intros r' Hr' Hin. apply elem_of_cons in Hin as [Heq|Hin]; [|by apply (Hu r')].
    apply Hun. rewrite <- Heq. by apply ids_elem.
  - intros Hp. destruct (Hoff Hp) as [_ ?]. done.
  - intros i d0 ds [-> |(d' & ds' & Hi')]%chans_insert; rewrite log_snoc; [by left|]. right. by eapply Hch.
Qed.

(** A request with an answer of the server leaves the map. *)
Lemma inv_unregister k p sp buf x r d : inv k p sp (RRead buf) → requests k !! x = Some r → running p = true →
  inv (with_requests (delete x (requests k)) k) p sp (RAnswer r d buf).
Proof.
  intros Hi Hr Hrun. eapply (inv_move k _ p p sp sp _ _ Hi); try done.
  - unfold pending, registered, unsent. cbn. rewrite app_nil_r.
    assert (Hm : r :: (map_to_list (delete x (requests k))).*2 ≡ₚ (map_to_list (requests k)).*2)
      by (rewrite <- (map_to_list_delete (requests k) x r Hr); done).
    destruct p; try done; rewrite <- Hm; solve_Permutation.
  - cbn. intros y r' [_ ?]%lookup_delete_Some. done.
  - by rewrite Hrun.
  - by destruct p.
Qed.

(** *** Every move keeps the account *)

Definition inv_sys (s : sys) : Prop := inv (q s) (pc (th s)) (spc_ (th s)) (rpc_ (th s)).

(** Close a case in which the move is not possible, without evaluating the others. *)
Ltac not_stuck H :=
  cbv beta iota in H; try (lazymatch type of H with Stuck = _ => discriminate H | Crash = _ => discriminate H
    | Next _ = Stuck => discriminate H | Next _ = Crash => discriminate H | Stuck = Crash => discriminate H end).

Section Account.
Context (bufferSize : nat) (reconnectDelay : Z) (range : ∀ A, nat → list A → list A) {mem : Memory}.
Hypothesis range_perm : ∀ A n (l : list A), range A n l ≡ₚ l.

Lemma bind_next {A B} (m : outcome A) (f : A → outcome B) b : m ≫= f = Next b → ∃ a, m = Next a ∧ f a = Next b.
Proof. destruct m; intros [=]. eauto. Qed.

Lemma guard_next {A} b (m : outcome A) a : guard_ b m = Next a → b = true ∧ m = Next a.
Proof. by destruct b. Qed.

Lemma setState_next st s s' : setState st s = Next s' →
  q s' = q s ∧ th s' = th s ∧ w s' = w s ∧ ses s' = ses s ∧ dial s' = dial s ∧ shouldQuit s' = shouldQuit s.
Proof. unfold setState. case_match; [|done]. by intros (? & _ & [= <-])%bind_next. Qed.

Lemma invalidate_next e s s' : invalidateWatches range e s = Next s' →
  q s' = q s ∧ pc (th s') = pc (th s) ∧ spc_ (th s') = spc_ (th s) ∧ rpc_ (th s') = rpc_ (th s).
Proof. by intros (? & _ & [= <-])%bind_next. Qed.

(** Leaving a point of the loop where nothing is flushed for another one. *)
Definition calm (p : lpc) : Prop := match p with Flushing _ _ _ => False | _ => True end.

Lemma inv_calm k p p' sp rp : inv k p sp rp → calm p → calm p' → (running p' = false → running p = false) →
  (drained p' = true → drained p = true) → inv k p' sp rp.
Proof.
  intros Hi Hp Hp' Hr Hd. eapply (inv_move k k p p' sp sp rp rp Hi); try done.
  - unfold pending. f_equiv. f_equiv. by destruct p, p'.
  - intros H. by apply (inv_off _ _ _ _ Hi), Hr.
  - intros H. by apply (inv_drained _ _ _ _ Hi), Hd.
Qed.

Lemma inv_start_flush e kk s : inv_sys s → calm (pc (th s)) → running (pc (th s)) = false →
  inv_sys (start_flush range e kk s).
Proof.
  intros Hi Hc Hr. eapply (inv_move (q s) (q s) (pc (th s)) _ _ _ _ _ Hi); try done.
  - unfold pending. cbn. rewrite range_perm. by destruct (pc (th s)).
  - intros _. by apply (inv_off _ _ _ _ Hi).
Qed.

Lemma inv_flush_end k e kk sp rp p' : inv k (Flushing e [] kk) sp rp → calm p' → running p' = false →
  inv (with_requests ∅ k) p' sp rp.
Proof.
  intros Hi Hc Hr. eapply (inv_move k _ _ p' sp sp rp rp Hi); try done.
  - unfold pending, unsent, registered. cbn. destruct p'; try done; by rewrite map_to_list_empty.
  - intros _. by apply (inv_off _ _ _ _ Hi).
Qed.

Lemma connect_turn_inv s s' : connect_turn s = Next s' → inv_sys s → pc (th s) = AtConnect → inv_sys s'.
Proof.
  unfold connect_turn, inv_sys. intros Hs Hi Hp. rewrite Hp in Hi. case_match; [done|].
  apply bind_next in Hs as (s1 & (Hq & Ht & _)%setState_next & Hs). cbn in Hq, Ht.
  repeat case_match; injection Hs as <-; cbn; rewrite Hq, Ht; by eapply inv_calm.
Qed.

Lemma authenticate_next io s r : authenticate io s = Next r → q r.1 = q s ∧ th r.1 = th s.
Proof.
  unfold authenticate. intros (x & _ & Hx)%bind_next. destruct x as [e|[? [? [? [? ?]]]]]; [by injection Hx as <-|].
  case_match; apply bind_next in Hx as (s1 & (Hq & Ht & _)%setState_next & [= <-]); by cbn in *.
Qed.

Lemma loop_step_inv x s s' : loop_step bufferSize reconnectDelay range x s = Next s' → inv_sys s → inv_sys s'.
Proof.
  unfold loop_step. intros Hs Hi. pose proof Hi as Hi'. unfold inv_sys in Hi'.
  destruct (pc (th s)) eqn:Hp, x; not_stuck Hs.
  - by eapply connect_turn_inv.
  - unfold flushUnsent_turn in Hs. destruct (sendChan (q s)) as [|r rs] eqn:Hq.
    + injection Hs as <-. by destruct k; eapply inv_calm.
    + apply bind_next in Hs as (k' & Hd & [= <-]). unfold inv_sys. cbn. rewrite Hp.
      destruct (inv_off _ _ _ _ Hi' eq_refl) as [Hso _]. eapply inv_head; [done..|by rewrite Hso|by intros].
  - injection Hs as <-. by eapply inv_calm.
  - apply guard_next in Hs as [_ (s1 & (Hq & Ht & _)%setState_next & [= <-])%bind_next].
    unfold inv_sys. cbn. rewrite Hq, Ht. by eapply inv_calm.
  - destruct ok; [|injection Hs as <-; by eapply inv_calm].
    apply bind_next in Hs as (s1 & (Hq & Ht & _)%setState_next & [= <-]).
    unfold inv_sys. cbn. rewrite Hq, Ht. by eapply inv_calm.
  - apply bind_next in Hs as (r & [Hq Ht]%authenticate_next & Hs). unfold after_auth in Hs. case_match.
    + apply bind_next in Hs as (s1 & Hs1 & [= <-]).
      assert (Hsame : q s1 = q s ∧ spc_ (th s1) = spc_ (th s) ∧ rpc_ (th s1) = rpc_ (th s)).
      { case_match; [apply invalidate_next in Hs1 as (-> & _ & -> & ->); by rewrite Hq, Ht|].
        injection Hs1 as <-. cbn. by rewrite Hq, Ht. }
      destruct Hsame as (Hq1 & Hs1' & Hr1). unfold inv_sys. cbn. rewrite Hq1, Hs1', Hr1. by eapply inv_calm.
    + injection Hs as <-. unfold inv_sys. cbn. rewrite Hq, Ht. by eapply inv_calm.
  - case_match; [done|]. injection Hs as <-. unfold inv_sys. cbn.
    eapply (inv_move (q s) (q s) _ _ _ _ _ _ Hi'); try done.
    destruct (inv_off _ _ _ _ Hi' eq_refl) as [_ ->]. done.
  - injection Hs as <-. unfold sendSetWatches, inv_sys. case_match; cbn; by eapply inv_calm.
  - destruct (spc_ (th s)) eqn:Hsp, (rpc_ (th s)) eqn:Hrp; try discriminate. injection Hs as <-.
    unfold inv_sys. cbn. rewrite Hsp, Hrp. eapply (inv_move (q s) (q s) _ _ _ _ _ _ Hi'); by try done.
  - apply bind_next in Hs as (s1 & (Hq & Ht & _)%setState_next & Hs). injection Hs as <-.
    assert (Hi1 : inv_sys s1) by (unfold inv_sys; by rewrite Hq, Ht, Hp).
    case_match; apply inv_start_flush; rewrite ?Ht, ?Hp; done.
  - unfold flushRequests_turn in Hs. destruct todo as [|r todo].
    + injection Hs as <-. unfold inv_sys. cbn. by destruct k; eapply inv_flush_end.
    + apply bind_next in Hs as (k' & Hd & [= <-]). unfold inv_sys. cbn. by eapply inv_flush_one.
  - apply guard_next in Hs as [_ [= <-]]. by eapply inv_calm.
  - apply guard_next in Hs as [_ [= <-]]. by eapply inv_calm.
  - apply guard_next in Hs as [_ [= <-]]. by eapply inv_calm.
  - injection Hs as <-. apply inv_start_flush; rewrite ?Hp; done.
  - apply bind_next in Hs as (s1 & (Hq & _ & Hs1 & Hr1)%invalidate_next & [= <-]).
    unfold inv_sys. cbn. rewrite Hq, Hs1, Hr1. by eapply inv_calm.
  - case_match; [done|]. injection Hs as <-. by eapply inv_calm.
Qed.

Lemma inv_running s : inv_sys s → spc_ (th s) ≠ SOff ∨ rpc_ (th s) ≠ ROff → running (pc (th s)) = true.
Proof.
  intros Hi Hne. destruct (running (pc (th s))) eqn:E; [done|]. destruct (inv_off _ _ _ _ Hi E). naive_solver.
Qed.

(** Stopping [sendLoop]. *)
Lemma inv_end_send s : inv_sys s → inv_sys (end_send s).
Proof.
  intros Hi. eapply (inv_move (q s) (q s) _ _ _ SOff _ _ Hi); try done.
  - intros Hr. split; [done|]. by apply (inv_off _ _ _ _ Hi).
  - apply (inv_drained _ _ _ _ Hi).
Qed.

Lemma send_step_inv x s s' : send_step bufferSize x s = Next s' → inv_sys s → Z.of_nat (nid (q s)) < 2 ^ 31 → inv_sys s'.
Proof.
  unfold send_step. intros Hs Hi Hn. pose proof Hi as Hi'. unfold inv_sys in Hi'.
  destruct (spc_ (th s)) as [| |r] eqn:Hsp; [by destruct x|..].
  - assert (Hrun : running (pc (th s)) = true) by (apply inv_running; [done|]; rewrite Hsp; by left).
    destruct x as [|[e|]| |[e|]]; try discriminate.
    + destruct (sendChan (q s)) as [|r rs] eqn:Hq; [done|]. destruct (encode_request _ r); try discriminate.
      * destruct (closeChan (th s)).
        -- apply bind_next in Hs as (k' & Hd & [= <-]). apply inv_end_send. unfold inv_sys. cbn. rewrite Hsp.
           eapply inv_head; [done..|by rewrite Hrun].
        -- injection Hs as <-. unfold inv_sys. cbn. by eapply inv_register.
      * apply bind_next in Hs as (k' & Hd & [= <-]). unfold inv_sys. cbn. rewrite Hsp.
        eapply inv_head; [done..|by rewrite Hrun].
    + injection Hs as <-. by apply inv_end_send.
    + by apply guard_next in Hs as [_ [= <-]].
    + apply guard_next in Hs as [_ [= <-]]. by apply inv_end_send.
  - destruct x as [|?| |[e|]]; try discriminate.
    + apply bind_next in Hs as (k' & Hd & [= <-]). unfold inv_sys. cbn. by eapply inv_write_failed.
    + apply guard_next in Hs as [_ [= <-]]. unfold inv_sys. cbn.
      eapply (inv_move (q s) _ _ _ _ SIdle _ _ Hi'); try done; [|apply (inv_drained _ _ _ _ Hi')].
      rewrite (inv_running s); [done|done|]. rewrite Hsp. by left.
Qed.

(** Moves of [recvLoop] that leave the requests alone. *)
Lemma inv_recv_to s s' buf rp' : inv_sys s → rpc_ (th s) = RRead buf → q s' = q s → pc (th s') = pc (th s) →
  spc_ (th s') = spc_ (th s) → rpc_ (th s') = rp' → in_hand rp' = [] → inv_sys s'.
Proof.
  intros Hi Hr Hq Hp Hsp Hr' Hh. unfold inv_sys. rewrite Hq, Hp, Hsp, Hr'.
  eapply (inv_move (q s) (q s) _ _ _ _ _ _ Hi); try done.
  - unfold pending. by rewrite Hr, Hh.
  - rewrite (inv_running s); [done|done|]. rewrite Hr. by right.
  - apply (inv_drained _ _ _ _ Hi).
Qed.

Lemma watcher_event_next ev s s' : watcher_event ev s = Next s' → q s' = q s ∧ th s' = th s.
Proof. by intros (? & _ & (? & _ & [= <-])%bind_next)%bind_next. Qed.

Lemma reply_next r zx e buf blen s s' : reply r zx e buf blen s = Next s' →
  q s' = q s ∧ pc (th s') = pc (th s) ∧ spc_ (th s') = spc_ (th s) ∧ ∃ d, rpc_ (th s') = RAnswer r d buf.
Proof. intros (v & _ & Hs)%bind_next. cbv zeta in Hs. destruct (run_recvFunc _ _ _). injection Hs as <-. cbn. eauto. Qed.

Lemma handle_frame_inv b0 buf blen s s' : handle_frame buf blen s = Next s' → inv_sys s → rpc_ (th s) = RRead b0 → inv_sys s'.
Proof.
  unfold handle_frame. intros Hs Hi Hr. case_match; [done|].
  destruct (decodePacket _ _) as [[[x [zxid [e u]]] n]| | | |]; try discriminate;
    [|injection Hs as <-; by eapply inv_recv_to].
  destruct (x =? -1); [|destruct (x <? 0)].
  - apply bind_next in Hs as ([err|[t [st [path ?]]]] & _ & Hs); [injection Hs as <-; by eapply inv_recv_to|].
    apply bind_next in Hs as (s1 & [Hq Ht]%watcher_event_next & [= <-]).
    eapply (inv_recv_to s _ b0); try done; cbn; by rewrite ?Hq, ?Ht.
  - injection Hs as <-. by eapply inv_recv_to.
  - set (s0 := if 0 <? zxid then _ else s) in Hs.
    assert (Hi0 : inv_sys s0 ∧ rpc_ (th s0) = RRead b0) by (subst s0; by destruct (0 <? zxid)).
    destruct Hi0 as [Hi0 Hr0]. clearbody s0. cbn in x. destruct (requests (q s0) !! x) as [r|] eqn:Hx.
    + apply reply_next in Hs as (Hq & Hp & Hsp & d & Hr'). unfold inv_sys. rewrite Hq, Hp, Hsp, Hr'. cbn.
      assert (Hrun : running (pc (th s0)) = true) by (apply inv_running; [done|]; rewrite Hr0; by right).
      unfold inv_sys in Hi0. rewrite Hr0 in Hi0.
      assert (Hbuf : ∀ rp, in_hand rp = [r] → inv (with_requests (delete x (requests (q s0))) (q s0)) (pc (th s0)) (spc_ (th s0)) rp).
      { intros rp Hrp. pose proof (inv_unregister _ _ _ _ x r d Hi0 Hx Hrun) as Hu.
        eapply (inv_move _ _ _ _ _ _ _ _ Hu); try done; [unfold pending; by rewrite Hrp|by rewrite Hrun|].
        apply (inv_drained _ _ _ _ Hu). }
      by apply Hbuf.
    + injection Hs as <-. by eapply inv_recv_to.
Qed.

Lemma recv_step_inv x s s' : recv_step x s = Next s' → inv_sys s → inv_sys s'.
Proof.
  unfold recv_step. intros Hs Hi. destruct (rpc_ (th s)) as [|buf|r d buf] eqn:Hr; [by destruct x|..]; destruct x; try discriminate.
  - injection Hs as <-. by eapply inv_recv_to.
  - apply guard_next in Hs as [_ Hs]. destruct (put _ _ _); try discriminate.
    apply bind_next in Hs as (? & _ & Hs). by eapply handle_frame_inv.
  - apply guard_next in Hs as [_ (? & _ & [= <-])%bind_next]. by eapply inv_recv_to.
  - apply bind_next in Hs as (k' & Hd & [= <-]). unfold inv_sys in Hi. rewrite Hr in Hi.
    case_match; unfold inv_sys; cbn; by eapply inv_answer.
Qed.

Lemma step_inv m s s' : step bufferSize reconnectDelay range m s = Next s' → inv_sys s →
  Z.of_nat (nid (q s)) < 2 ^ 31 → inv_sys s'.
Proof.
  intros Hs Hi Hn. assert (Hqueue : ∀ op p g f s, inv_sys s → inv_sys (queueRequest op p g f s)).
  { intros op p g f s0 Hi0. unfold inv_sys, queueRequest. pose proof (inv_queue _ _ _ _ op p g f Hi0) as H.
    destruct (nextXid (q s0)). exact H. }
  destruct m; cbn in Hs.
  - injection Hs as <-. by apply Hqueue.
  - unfold push in Hs. case_match; [|done]. apply guard_next in Hs as [_ [= <-]]. by apply inv_push.
  - apply bind_next in Hs as (r & Hr & [= <-]). unfold receive in Hr. repeat case_match; try done.
    injection Hr as <-. eapply (inv_reorder (q s)); try done. cbn.
    intros j d' ds' [[<- ->]|[_ Hj]]%lookup_insert_Some; by eapply (inv_chans _ _ _ _ Hi).
  - unfold Close in Hs. case_match; [done|]. injection Hs as <-. by apply Hqueue.
  - unfold run_pool in Hs. case_match; [done|]. injection Hs as <-. by apply Hqueue.
  - by eapply loop_step_inv.
  - by eapply send_step_inv.
  - by eapply recv_step_inv.
  - case_match; [done|]. by injection Hs as <-.
  - repeat case_match; try done. by injection Hs as <-.
Qed.

(** Requests are only ever added. *)
Lemma loop_step_nid x s s' : loop_step bufferSize reconnectDelay range x s = Next s' → nid (q s') = nid (q s).
Proof.
  unfold loop_step, connect_turn, flushUnsent_turn, flushRequests_turn, disconnected, after_auth, start_flush.
  intros Hs; destruct (pc (th s)), x; not_stuck Hs;
    repeat match goal with
    | H : guard_ _ _ = Next _ |- _ => apply guard_next in H as [_ H]
    | H : _ ≫= _ = Next _ |- _ => apply bind_next in H as (? & ? & H)
    | H : Next _ = Next _ |- _ => injection H as <-
    | H : setState _ _ = Next _ |- _ => apply setState_next in H as (H & _)
    | H : invalidateWatches _ _ _ = Next _ |- _ => apply invalidate_next in H as (H & _)
    | H : authenticate _ _ = Next _ |- _ => apply authenticate_next in H as (H & _)
    | H : deliver _ _ _ = Next _ |- _ => apply deliver_next in H as ->
    | H : match ?x with _ => _ end = Next _ |- _ => destruct x eqn:?; try discriminate
    end; unfold sendSetWatches; repeat case_match; cbn in *; try congruence.
Qed.

Lemma handle_frame_nid buf blen s s' : handle_frame buf blen s = Next s' → nid (q s') = nid (q s).
Proof.
  unfold handle_frame. intros Hs. case_match; [done|].
  destruct (decodePacket _ _) as [[[x [zxid [e u]]] n]| | | |]; try discriminate; [|by injection Hs as <-].
  destruct (x =? -1); [|destruct (x <? 0)].
  - apply bind_next in Hs as ([err|[t [st [path ?]]]] & _ & Hs); [by injection Hs as <-|].
    by apply bind_next in Hs as (s1 & [<- _]%watcher_event_next & [= <-]).
  - by injection Hs as <-.
  - set (s0 := if 0 <? zxid then _ else s) in Hs.
    assert (Hq0 : q s0 = q s) by (subst s0; by destruct (0 <? zxid)). clearbody s0.
    rewrite <- Hq0. cbn in x. destruct (requests (q s0) !! x); [|by injection Hs as <-].
    by apply reply_next in Hs as (-> & _).
Qed.

Lemma step_nid m s s' : step bufferSize reconnectDelay range m s = Next s' → (nid (q s) ≤ nid (q s'))%nat.
Proof.
  intros Hs. destruct m; cbn in Hs.
  - injection Hs as <-. cbn; lia.
  - unfold push in Hs. case_match; [|done]. by apply guard_next in Hs as [_ [= <-]].
  - apply bind_next in Hs as (r & Hr & [= <-]). unfold receive in Hr. repeat case_match; try done. by injection Hr as <-.
  - unfold Close in Hs. case_match; [done|]. injection Hs as <-. cbn; lia.
  - unfold run_pool in Hs. case_match; [done|]. injection Hs as <-. cbn; lia.
  - by rewrite (loop_step_nid _ _ _ Hs).
  - unfold send_step in Hs. repeat (case_match; try done);
      repeat match goal with
      | H : guard_ _ _ = Next _ |- _ => apply guard_next in H as [_ H]
      | H : _ ≫= _ = Next _ |- _ => apply bind_next in H as (? & ->%deliver_next & H)
      | H : Next _ = Next _ |- _ => injection H as <-
      end; done.
  - unfold recv_step in Hs. destruct (rpc_ (th s)), x; try discriminate.
    + by injection Hs as <-.
    + apply guard_next in Hs as [_ Hs]. destruct (put _ _ _); try discriminate.
      apply bind_next in Hs as (? & _ & Hs). by rewrite (handle_frame_nid _ _ _ _ Hs).
    + by apply guard_next in Hs as [_ (? & _ & [= <-])%bind_next].
    + apply bind_next in Hs as (? & ->%deliver_next & [= <-]). by case_match.
  - case_match; [done|]. by injection Hs as <-.
  - repeat case_match; try done. by injection Hs as <-.
Qed.

Lemma run_app ms ms' s :
  run bufferSize reconnectDelay range (ms ++ ms') s =
  (s ← run bufferSize reconnectDelay range ms s; run bufferSize reconnectDelay range ms' s).
Proof. revert s. induction ms as [|m ms IH]; intros s; cbn; [done|]. destruct (step _ _ _ m s); cbn; auto. Qed.

Lemma run_nid ms s s' : run bufferSize reconnectDelay range ms s = Next s' → (nid (q s) ≤ nid (q s'))%nat.
Proof.
  revert s. induction ms as [|m ms IH]; intros s; cbn; [by intros [= <-]|].
  intros (s1 & H1%step_nid & H2%IH)%bind_next. lia.
Qed.

Lemma run_inv ms s s' : run bufferSize reconnectDelay range ms s = Next s' → inv_sys s →
  Z.of_nat (nid (q s')) < 2 ^ 31 → inv_sys s'.
Proof.
  revert s. induction ms as [|m ms IH]; intros s; cbn; [by intros [= <-]|].
  intros (s1 & H1 & H2)%bind_next Hi Hn. apply (IH s1 H2); [|done]. eapply step_inv; [done..|].
  apply step_nid in H1. apply run_nid in H2. lia.
Qed.

Lemma connected_inv rand servers t s : ConnectWithDialer rand servers t = Some s → inv_sys s.
Proof.
  unfold ConnectWithDialer. case_match; [done|]. intros [= <-]. split; try done.
  - split; [apply NoDup_nil_2|constructor].
  - intros r ?%not_elem_of_nil. done.
  - intros r ?%not_elem_of_nil. done.
Qed.

(** ** Requests and answers *)

Definition answers (s : sys) (i : nat) : nat := count_occ Nat.eq_dec (log (q s)).*1 i.
Definition pending_sys (s : sys) : list request := pending (q s) (pc (th s)) (rpc_ (th s)).

(** The states of a connection that made fewer than 2^31 requests. *)
Definition reached (s : sys) : Prop :=
  ∃ rand servers t s0 ms, ConnectWithDialer rand servers t = Some s0 ∧
    run bufferSize reconnectDelay range ms s0 = Next s ∧ Z.of_nat (nid (q s)) < 2 ^ 31.

Lemma reached_inv s : reached s → inv_sys s.
Proof. intros (sh & sv & t & s0 & ms & Hc & Hr & Hn). eapply run_inv; [done| |done]. by eapply connected_inv. Qed.

Lemma count_elem (l : list nat) i : i ∈ l ↔ (0 < count_occ Nat.eq_dec l i)%nat.
Proof. rewrite list_elem_of_In. apply count_occ_In. Qed.

Lemma count_once (l : list nat) i : NoDup l → i ∈ l → count_occ Nat.eq_dec l i = 1%nat.
Proof. intros Hl Hi. apply NoDup_count_occ'; [by apply NoDup_ListNoDup|by apply list_elem_of_In]. Qed.

Lemma account s i : inv_sys s → (i < nid (q s))%nat →
  (answers s i + count_occ Nat.eq_dec (ids (pending_sys s)) i = if decide (i ∈ wfailed (q s)) then 2 else 1)%nat.
Proof.
  intros Hi Hlt. unfold answers, pending_sys. rewrite (inv_count _ _ _ _ i Hi Hlt). case_decide as Hw.
  - rewrite count_once; [done|apply (inv_wfailed _ _ _ _ Hi)|done].
  - rewrite count_elem in Hw. lia.
Qed.

(** C32: In every interleaving a request is pending or was answered, and not both or twice: exactly
    one of the two, and two only for a request whose packet could not be written (it is answered
    by the sender and stays registered).  Pending is with its caller, in the queue, registered
    under its number, or in the hand of the receiver. *)
Theorem requests_answered_once s i :
  reached s → (i < nid (q s))%nat →
  (answers s i + count_occ Nat.eq_dec (ids (pending_sys s)) i = if decide (i ∈ wfailed (q s)) then 2 else 1)%nat.
Proof. intros Hr. by apply account, reached_inv. Qed.

(** An answer to a pending request never waits for the caller, so that neither a goroutine of
    the connection nor a flush that holds the lock can be stopped by a caller that went away:
    the channel of the request has room, unless the write of its packet failed. *)
Theorem answers_never_block s r d :
  reached s → r ∈ pending_sys s → rq_id r ∉ wfailed (q s) → deliver r d (q s) ≠ Stuck.
Proof.
  intros Hi%reached_inv Hr Hw. pose proof (inv_range _ _ _ _ r Hi Hr) as Hlt.
  pose proof (account s _ Hi Hlt) as Ha. rewrite decide_False in Ha by done.
  assert (Hp : (0 < count_occ Nat.eq_dec (ids (pending_sys s)) (rq_id r))%nat) by (apply count_elem; by apply ids_elem).
  assert (Hl : rq_id r ∉ (log (q s)).*1) by (rewrite count_elem; unfold answers in Ha; lia).
  unfold deliver. destruct (recvChans (q s) !! rq_id r) as [[|d' ds]|] eqn:E; try done.
  by apply (inv_chans _ _ _ _ Hi) in E.
Qed.

(** Nothing is answered when the loop has ended. *)
Lemma finished_step m s s' : pc (th s) = Finished ∧ spc_ (th s) = SOff ∧ rpc_ (th s) = ROff →
  step bufferSize reconnectDelay range m s = Next s' →
  (pc (th s') = Finished ∧ spc_ (th s') = SOff ∧ rpc_ (th s') = ROff) ∧ log (q s') = log (q s).
Proof.
  intros (Hp & Hsp & Hrp) Hs. destruct m; cbn in Hs.
  - by injection Hs as <-.
  - unfold push in Hs. case_match; [|done]. by apply guard_next in Hs as [_ [= <-]].
  - apply bind_next in Hs as (r & Hr & [= <-]). unfold receive in Hr. repeat case_match; try done. by injection Hr as <-.
  - unfold Close in Hs. case_match; [done|]. by injection Hs as <-.
  - unfold run_pool in Hs. case_match; [done|]. by injection Hs as <-.
  - unfold loop_step in Hs. rewrite Hp in Hs. by destruct x.
  - unfold send_step in Hs. rewrite Hsp in Hs. by destruct x.
  - unfold recv_step in Hs. rewrite Hrp in Hs. by destruct x.
  - case_match; [done|]. by injection Hs as <-.
  - repeat case_match; try done. by injection Hs as <-.
Qed.

Lemma finished_run ms s s' : pc (th s) = Finished ∧ spc_ (th s) = SOff ∧ rpc_ (th s) = ROff →
  run bufferSize reconnectDelay range ms s = Next s' → log (q s') = log (q s).
Proof.
  revert s. induction ms as [|m ms IH]; intros s Hf; cbn; [by intros [= <-]|].
  intros (s1 & [Hf1 <-]%finished_step & H2)%bind_next; [|done]. by apply IH.
Qed.

(** C40: When the connection is shut down, every request that [sendLoop] or a flush took from the
    queue has been answered, and none that is still in the queue or comes later is ever
    answered: its caller waits for ever. *)
Theorem closed_connection s :
  reached s → pc (th s) = Finished →
  (∀ i, (i < nid (q s))%nat → i ∉ ids (unsent (q s)) → (1 ≤ answers s i)%nat) ∧
  (∀ i ms s', i ∈ ids (unsent (q s)) ∨ (nid (q s) ≤ i)%nat →
     run bufferSize reconnectDelay range ms s = Next s' → answers s' i = 0%nat).
Proof.
  intros Hi%reached_inv Hf. pose proof Hi as Hi'. unfold inv_sys in Hi'. rewrite Hf in Hi'.
  destruct (inv_off _ _ _ _ Hi' eq_refl) as [Hsp Hrp].
  assert (Hpend : pending_sys s = unsent (q s)).
  { unfold pending_sys, pending, registered. rewrite Hf, Hrp, (inv_drained _ _ _ _ Hi' eq_refl), map_to_list_empty. cbn.
    by rewrite app_nil_r. }
  split.
  - intros i Hlt Hi2. pose proof (account s i Hi Hlt) as Ha. rewrite Hpend in Ha. rewrite count_elem in Hi2.
    case_decide; lia.
  - intros i ms s' Hcase Hr. unfold answers. rewrite (finished_run ms s s'); [|done|done].
    apply count_occ_not_In. rewrite <- list_elem_of_In. destruct Hcase as [Hu|Hge].
    + apply list_elem_of_fmap in Hu as (r & -> & Hu). pose proof (inv_unsent _ _ _ _ Hi r Hu) as Hw.
      assert (Hlt : (rq_id r < nid (q s))%nat) by (apply (inv_range _ _ _ _ r Hi); change (r ∈ pending_sys s); by rewrite Hpend).
      pose proof (account s _ Hi Hlt) as Ha. rewrite decide_False, Hpend in Ha by done.
      rewrite count_elem. apply ids_elem, count_elem in Hu. unfold answers in Ha. lia.
    + intros Hin. assert (Hm : i ∈ seq 0 (nid (q s)) ++ wfailed (q s)).
      { rewrite <- (inv_account _ _ _ _ Hi). rewrite elem_of_app. by left. }
      apply elem_of_app in Hm as [Hm%elem_of_seq|Hm]; [lia|].
      destruct (inv_wfailed _ _ _ _ Hi) as [_ Hfa]. rewrite Forall_forall in Hfa. apply Hfa in Hm. lia.
Qed.
End Account.
