(* ===== verification/ZkConnSafe.v ===== *)
(** * The connection of the ZooKeeper client: watches, panics, answers

    The channels of watchers ([winv]), what can make a connection panic, and the way of a
    request from its caller to the network and back. *)

From Stdlib Require Import Ascii.
From stdpp Require Import base strings list numbers gmap fin_maps.
From S2P Require Import Prelude GoStd Md5 Bytes ZkWire ZkConn ZkConnProps.

Open Scope Z_scope.

(** ** The servers *)

Lemma swap_perm i j l : swap i j l ≡ₚ l.
Proof.
  unfold swap. destruct (l !! i) as [a|] eqn:Hi; [|done]. destruct (l !! j) as [b|] eqn:Hj; [|done].
  apply Permutation_inj. split; [by rewrite !length_insert|].
  exists (λ k, if decide (k = i) then j else if decide (k = j) then i else k). split.
  - intros k1 k2. repeat case_decide; congruence.
  - intros k. apply lookup_lt_Some in Hi as Hli. apply lookup_lt_Some in Hj as Hlj.
    repeat case_decide; subst.
    + destruct (decide (i = j)) as [->|]; [rewrite list_lookup_insert_eq by (by rewrite length_insert); congruence|].
      rewrite list_lookup_insert_ne by done. by rewrite list_lookup_insert_eq.
    + rewrite list_lookup_insert_eq by (by rewrite length_insert). done.
    + by rewrite !list_lookup_insert_ne by done.
Qed.

Lemma stringShuffle_perm rand l : stringShuffle rand l ≡ₚ l.
Proof.
  unfold stringShuffle. generalize (length l - 1)%nat as i. intros i. revert l.
  induction i as [|i IH]; intros l; cbn [shuffle_from]; [done|]. by rewrite IH, swap_perm.
Qed.

(** ** Watches *)

Definition watched (x : Watch) (ch : nat) : Prop := ∃ pt chs, watchers x !! pt = Some chs ∧ ch ∈ chs.

(** A registered channel is open, empty and registered once; every other one was fired and
    closed. *)
Record winv (x : Watch) : Prop := {
  w_open : ∀ pt chs ch, watchers x !! pt = Some chs → ch ∈ chs → wchans x !! ch = Some (mkWchan [] false);
  w_nodup : ∀ pt chs, watchers x !! pt = Some chs → NoDup chs;
  w_disj : ∀ pt pt' chs chs' ch, watchers x !! pt = Some chs → watchers x !! pt' = Some chs' →
    ch ∈ chs → ch ∈ chs' → pt = pt';
  w_rest : ∀ ch, (ch < nch x)%nat → ¬ watched x ch →
    ∃ evs, wchans x !! ch = Some (mkWchan evs true) ∧ (length evs ≤ 1)%nat;
  w_fresh : ∀ ch, (nch x ≤ ch)%nat → wchans x !! ch = None;
}.

Lemma fire_spec ev chs m : NoDup chs → (∀ ch, ch ∈ chs → m !! ch = Some (mkWchan [] false)) →
  ∃ m', fire ev chs m = Next m' ∧
    ∀ ch, m' !! ch = if decide (ch ∈ chs) then Some (mkWchan [ev] true) else m !! ch.
Proof.
  intros Hnd. revert m. induction Hnd as [|ch chs Hni Hnd IH]; intros m Hm.
  - exists m. split; [done|]. intros ch. rewrite decide_False; [done|]. apply not_elem_of_nil.
  - destruct (IH (<[ch := mkWchan [ev] true]> m)) as (m' & Hf & Hm').
    { intros ch' Hch'. rewrite lookup_insert_ne by (by intros ->). apply Hm. by right. }
    exists m'. split; [cbn; rewrite (Hm ch) by (by left); done|]. intros ch'. rewrite Hm'.
    destruct (decide (ch' = ch)) as [->|Hne].
    + rewrite (decide_False (P := ch ∈ chs)), lookup_insert_eq, decide_True by (done || by left). done.
    + rewrite lookup_insert_ne by done. destruct (decide (ch' ∈ chs)).
      * rewrite decide_True by (by right). done.
      * rewrite decide_False; [done|]. by intros [?|?]%elem_of_cons.
Qed.

Lemma winv_fire ev x pt chs : winv x → watchers x !! pt = Some chs →
  ∃ m', fire ev chs (wchans x) = Next m' ∧ winv (mkWatch (delete pt (watchers x)) m' (nch x)).
Proof.
  intros [Ho Hn Hd Hr Hf] Hpt. destruct (fire_spec ev chs (wchans x)) as (m' & Hm & Hm'); [by eapply Hn|by intros; eapply Ho|].
  exists m'. split; [done|]. split; cbn.
  - intros pt' chs' ch [Hne Hpt']%lookup_delete_Some Hch. rewrite Hm', decide_False by naive_solver. by eapply Ho.
  - intros pt' chs' [_ ?]%lookup_delete_Some. by eapply Hn.
  - intros pt1 pt2 chs1 chs2 ch [_ ?]%lookup_delete_Some [_ ?]%lookup_delete_Some. by eapply Hd.
  - intros ch Hlt Hnw. rewrite Hm'. case_decide as Hin; [eauto|]. apply Hr; [done|]. intros (pt' & chs' & Hpt' & Hch).
    apply Hnw. exists pt', chs'. split; [|done]. apply lookup_delete_Some. split; [|done]. intros <-. naive_solver.
  - intros ch Hge. rewrite Hm', decide_False; [by apply Hf|]. intros Hin.
    pose proof (Ho _ _ _ Hpt Hin) as Hx. by rewrite (Hf ch Hge) in Hx.
Qed.

Lemma winv_fire_types ev ts x : winv x → ∃ x', fire_types ev ts x = Next x' ∧ winv x'.
Proof.
  revert x. induction ts as [|t ts IH]; intros x Hx; cbn [fire_types]; [eauto|].
  destruct (watchers x !! mkWatchPath (ev_Path ev) t) as [[|ch chs]|] eqn:E; [by apply IH| |by apply IH].
  destruct (winv_fire ev x _ _ Hx E) as (m' & Hf & Hw). rewrite Hf. by apply IH.
Qed.

Lemma winv_fire_all mk l x : winv x → l ≡ₚ map_to_list (watchers x) →
  ∃ m', fire_all mk l (wchans x) = Next m' ∧ winv (mkWatch ∅ m' (nch x)).
Proof.
  revert x. induction l as [|[pt chs] l IH]; intros x Hx Hl.
  - symmetry in Hl. apply Permutation_nil_r in Hl. apply map_to_list_empty_iff in Hl. exists (wchans x). split; [done|].
    rewrite <- Hl. by destruct x.
  - assert (Hpt : watchers x !! pt = Some chs) by (apply elem_of_map_to_list; rewrite <- Hl; by left).
    destruct (winv_fire (mk pt) x pt chs Hx Hpt) as (m' & Hf & Hw).
    destruct (IH _ Hw) as (m2 & Hm2 & Hw2).
    { cbn. apply (Permutation_cons_inv (a := (pt, chs))). rewrite Hl. by rewrite map_to_list_delete. }
    exists m2. split; [|done]. unfold fire_all in *. cbn in *. rewrite Hf. done.
Qed.

Lemma winv_add path t x : winv x → winv (addWatcher path t x).1.
Proof.
  intros [Ho Hn Hd Hr Hf]. unfold addWatcher. cbn [fst].
  set (old := default [] (watchers x !! mkWatchPath path t)).
  assert (Hold : ∀ ch, ch ∈ old → watchers x !! mkWatchPath path t = Some old).
  { subst old. destruct (watchers x !! mkWatchPath path t); [done|]. intros ? ?%not_elem_of_nil. done. }
  assert (Hlt : ∀ pt chs ch, watchers x !! pt = Some chs → ch ∈ chs → (ch < nch x)%nat).
  { intros pt chs ch Hpt Hch. destruct (decide (ch < nch x)%nat); [done|]. pose proof (Ho _ _ _ Hpt Hch) as Hc.
    rewrite Hf in Hc; [done|lia]. }
  split; cbn.
  - intros pt chs ch [[<- <-]|[_ Hpt]]%lookup_insert_Some Hch.
    + apply elem_of_app in Hch as [Hch| ->%list_elem_of_singleton]; [|apply lookup_insert_eq].
      pose proof (Hlt _ _ _ (Hold _ Hch) Hch). rewrite lookup_insert_ne by lia. by eapply Ho; [eapply Hold|].
    + pose proof (Hlt _ _ _ Hpt Hch). rewrite lookup_insert_ne by lia. by eapply Ho.
  - intros pt chs [[<- <-]|[_ Hpt]]%lookup_insert_Some; [|by eapply Hn].
    apply NoDup_snoc; [|intros Hch; pose proof (Hlt _ _ _ (Hold _ Hch) Hch); lia].
    subst old. destruct (watchers x !! mkWatchPath path t) eqn:E; [by eapply Hn|apply NoDup_nil_2].
  - intros pt1 pt2 chs1 chs2 ch [[<- <-]|[_ H1]]%lookup_insert_Some [[<- <-]|[_ H2]]%lookup_insert_Some; [done|..].
    + intros [Hc| ->%list_elem_of_singleton]%elem_of_app Hc2; [by eapply Hd; [by eapply Hold|..]|].
      pose proof (Hlt _ _ _ H2 Hc2). lia.
    + intros Hc1 [Hc| ->%list_elem_of_singleton]%elem_of_app; [by eapply Hd; [|by eapply Hold|..]|].
      pose proof (Hlt _ _ _ H1 Hc1). lia.
    + by eapply Hd.
  - intros ch Hc Hnw. destruct (decide (ch = nch x)) as [->|Hne].
    { destruct Hnw. exists (mkWatchPath path t), (old ++ [nch x]). split; [apply lookup_insert_eq|]. apply elem_of_app. right. by left. }
    rewrite lookup_insert_ne by done. apply Hr; [lia|]. intros (pt & chs & Hpt & Hch). apply Hnw.
    destruct (decide (pt = mkWatchPath path t)) as [->|Hp].
    + exists (mkWatchPath path t), (old ++ [nch x]). split; [apply lookup_insert_eq|]. apply elem_of_app. left. subst old. by rewrite Hpt.
    + exists pt, chs. split; [|done]. cbn. by rewrite lookup_insert_ne.
  - intros ch Hc. rewrite lookup_insert_ne by lia. apply Hf. lia.
Qed.

Lemma winv_recvFunc f err x : winv x → winv (run_recvFunc f err x).1.
Proof.
  intros Hx. destruct f, err as [[]|]; cbn; try done; by apply winv_add.
Qed.

(** A watcher takes its event. *)
Lemma winv_take x ch ev evs c : winv x → wchans x !! ch = Some (mkWchan (ev :: evs) c) →
  winv (mkWatch (watchers x) (<[ch := mkWchan evs c]> (wchans x)) (nch x)).
Proof.
  intros Hx Hch. pose proof Hx as [Ho Hn Hd Hr Hf].
  assert (Hnw : ¬ watched x ch) by (intros (pt & chs & Hpt & Hc); rewrite (Ho _ _ _ Hpt Hc) in Hch; done).
  assert (Hlt : (ch < nch x)%nat) by (destruct (decide (ch < nch x)%nat); [done|]; rewrite Hf in Hch; [done|lia]).
  split; cbn; try done.
  - intros pt chs ch' Hpt Hc. rewrite lookup_insert_ne; [by eapply Ho|]. intros <-. apply Hnw. by eexists _, _.
  - intros ch' Hlt' Hnw'. destruct (decide (ch' = ch)) as [->|]; [|rewrite lookup_insert_ne by done; by apply Hr].
    destruct (Hr ch Hlt Hnw) as (evs' & He & Hl). rewrite He in Hch. injection Hch as -> <-. rewrite lookup_insert_eq.
    cbn in Hl. eexists. split; [done|]. lia.
  - intros ch' Hge. rewrite lookup_insert_ne by lia. by apply Hf.
Qed.

Section Safe.
Context (bufferSize : nat) (reconnectDelay : Z) (range : ∀ A, nat → list A → list A) {mem : Memory}.
Hypothesis range_perm : ∀ A n (l : list A), range A n l ≡ₚ l.

Lemma winv_invalidate e s : winv (w s) → ∃ s', invalidateWatches range e s = Next s' ∧ winv (w s').
Proof.
  intros Hw. destruct (winv_fire_all (λ pt, mkEvent EventNotWatching StateDisconnected (wp_path pt) (Some e) "")
    (range _ (ticks (th s)) (map_to_list (watchers (w s)))) (w s) Hw) as (m' & Hm & Hw'); [by rewrite range_perm|].
  unfold invalidateWatches. rewrite Hm. cbn. eauto.
Qed.

Lemma winv_invalidate_next e s s' : invalidateWatches range e s = Next s' → winv (w s) → winv (w s').
Proof. intros Hs Hw. destruct (winv_invalidate e s Hw) as (s1 & Hs1 & ?). congruence. Qed.

Lemma authenticate_w io s r : authenticate io s = Next r → w r.1 = w s.
Proof.
  unfold authenticate. intros (x & _ & Hx)%bind_next. destruct x as [e|[? [? [? [? ?]]]]]; [by injection Hx as <-|].
  case_match; apply bind_next in Hx as (s1 & (_ & _ & Hw & _)%setState_next & [= <-]); by cbn in *.
Qed.

Lemma loop_step_winv x s s' : loop_step bufferSize reconnectDelay range x s = Next s' → winv (w s) → winv (w s').
Proof.
  unfold loop_step, connect_turn, flushUnsent_turn, flushRequests_turn, disconnected, after_auth, start_flush.
  intros Hs Hw; destruct (pc (th s)), x; not_stuck Hs;
    repeat match goal with
    | H : guard_ _ _ = Next _ |- _ => apply guard_next in H as [_ H]
    | H : _ ≫= _ = Next _ |- _ => apply bind_next in H as (? & ? & H)
    | H : Next _ = Next _ |- _ => injection H as <-
    | H : setState _ _ = Next _ |- _ => apply setState_next in H as (_ & _ & H & _)
    | H : authenticate _ _ = Next _ |- _ => apply authenticate_w in H
    | H : match ?x with _ => _ end = Next _ |- _ => destruct x eqn:?; try discriminate
    end; unfold sendSetWatches; repeat case_match; cbn in *;
    try match goal with H : invalidateWatches _ _ _ = Next _ |- _ => eapply winv_invalidate_next in H end; congruence.
Qed.

Lemma watcher_event_winv ev s s' : watcher_event ev s = Next s' → winv (w s) → winv (w s').
Proof.
  intros (k & _ & (x & Hx & [= <-])%bind_next)%bind_next Hw. cbn.
  destruct (winv_fire_types ev (fired_types (ev_Type ev)) (w s) Hw) as (x' & Hx' & ?). congruence.
Qed.

Lemma reply_winv r zx e buf blen s s' : reply r zx e buf blen s = Next s' → winv (w s) → winv (w s').
Proof.
  intros (v & _ & Hs)%bind_next Hw. cbv zeta in Hs.
  pose proof (winv_recvFunc (rq_recvFunc r) match v with inl e => Some e | inr _ => None end (w s) Hw) as Hf.
  destruct (run_recvFunc _ _ _). by injection Hs as <-.
Qed.

Lemma handle_frame_winv buf blen s s' : handle_frame buf blen s = Next s' → winv (w s) → winv (w s').
Proof.
  unfold handle_frame. intros Hs Hw. case_match; [done|].
  destruct (decodePacket _ _) as [[[x [zxid [e u]]] n]| | | |]; try discriminate; [|by injection Hs as <-].
  destruct (x =? -1); [|destruct (x <? 0)].
  - apply bind_next in Hs as ([err|[t [st [path ?]]]] & _ & Hs); [by injection Hs as <-|].
    apply bind_next in Hs as (s1 & Hs1 & [= <-]). change (winv (w s1)). by eapply watcher_event_winv.
  - by injection Hs as <-.
  - set (s0 := if 0 <? zxid then _ else s) in Hs.
    assert (Hw0 : winv (w s0)) by (subst s0; by destruct (0 <? zxid)). clearbody s0.
    cbn in x. destruct (requests (q s0) !! x); [|by injection Hs as <-]. by eapply reply_winv.
Qed.

Lemma step_winv m s s' : step bufferSize reconnectDelay range m s = Next s' → winv (w s) → winv (w s').
Proof.
  intros Hs Hw. destruct m; cbn in Hs.
  - by injection Hs as <-.
  - unfold push in Hs. case_match; [|done]. by apply guard_next in Hs as [_ [= <-]].
  - apply bind_next in Hs as (r & Hr & [= <-]). unfold receive in Hr. repeat case_match; try done. by injection Hr as <-.
  - unfold Close in Hs. case_match; [done|]. by injection Hs as <-.
  - unfold run_pool in Hs. case_match; [done|]. by injection Hs as <-.
  - by eapply loop_step_winv.
  - unfold send_step in Hs. repeat (case_match; try done);
      repeat match goal with
      | H : guard_ _ _ = Next _ |- _ => apply guard_next in H as [_ H]
      | H : _ ≫= _ = Next _ |- _ => apply bind_next in H as (? & ->%deliver_next & H)
      | H : Next _ = Next _ |- _ => injection H as <-
      end; done.
  - unfold recv_step in Hs. destruct (rpc_ (th s)), x; try discriminate.
    + by injection Hs as <-.
    + apply guard_next in Hs as [_ Hs]. destruct (put _ _ _); try discriminate.
      apply bind_next in Hs as (? & _ & Hs). by eapply handle_frame_winv.
    + by apply guard_next in Hs as [_ (? & _ & [= <-])%bind_next].
    + apply bind_next in Hs as (? & ->%deliver_next & [= <-]). by case_match.
  - case_match; [done|]. by injection Hs as <-.
  - destruct (wchans (w s) !! ch) as [[[|ev evs] c]|] eqn:E; try done. injection Hs as <-. by eapply winv_take.
Qed.

Lemma reached_winv s : reached bufferSize reconnectDelay range s → winv (w s).
Proof.
  intros (sh & sv & t & s0 & ms & Hc & Hr & _).
  assert (H0 : winv (w s0)).
  { unfold ConnectWithDialer in Hc. case_match; [done|]. injection Hc as <-.
    split; cbn [w watchers wchans nch]; try done; try (intros; lia); intros; simplify_map_eq. }
  clear Hc. revert s0 Hr H0. induction ms as [|m ms IH]; intros s0; cbn; [by intros [= <-]|].
  intros (s1 & H1 & H2)%bind_next H0. eapply IH; [done|]. by eapply step_winv.
Qed.

(** C33: In every interleaving a watch that is set is fired at most once: a registered channel is open,
    has no event and is registered under one path and type, every other one that was made
    was closed with its one event; so an event or the end of a session is handed to all its
    watchers without waiting for them and without a panic. *)
Theorem watches_fire_once s ev e :
  reached bufferSize reconnectDelay range s →
  winv (w s) ∧
  (∃ x, fire_types ev (fired_types (ev_Type ev)) (w s) = Next x ∧ winv x) ∧
  (∃ s', invalidateWatches range e s = Next s' ∧ watchers (w s') = ∅).
Proof.
  intros Hw%reached_winv. split; [done|]. split; [by apply winv_fire_types|].
  destruct (winv_invalidate e s Hw) as (s' & Hs' & _). exists s'. split; [done|].
  by apply bind_next in Hs' as (m & _ & [= <-]).
Qed.

(** ** Panics *)

Definition buf_ok (rp : rpc) : Prop :=
  match rp with RRead buf | RAnswer _ _ buf => (bufferSize ≤ length buf)%nat | ROff => True end.

(** The servers, the channel of events and the buffer of [recvLoop] are as their uses need them. *)
Record sane (s : sys) : Prop := {
  sane_servers : 0 ≤ serverIndex (dial s) < Z.of_nat (length (servers (dial s)));
  sane_events : ec_closed (ec s) = true → pc (th s) = Finished;
  sane_buf : buf_ok (rpc_ (th s));
}.

Lemma setState_ec st s s' : setState st s = Next s' → ec_closed (ec s') = ec_closed (ec s).
Proof.
  unfold setState. case_match; [|done]. intros (k & Hk & [= <-])%bind_next. cbn.
  unfold send_event in Hk. destruct (ec_closed (ec s)) eqn:E; [done|]. injection Hk as <-. by case_bool_decide.
Qed.

Lemma setState_goes st s : sane s → pc (th s) ≠ Finished → ∃ s', setState st s = Next s'.
Proof.
  intros [Hs He _] Hp. unfold setState.
  destruct (lookup_lt_is_Some_2 (servers (dial s)) (Z.to_nat (serverIndex (dial s)))) as [x Hx]; [lia|]. rewrite Hx.
  unfold send_event. destruct (ec_closed (ec s)) eqn:E; [by destruct (Hp (He eq_refl))|]. cbn. eauto.
Qed.

Lemma authenticate_frame io s r : authenticate io s = Next r →
  dial r.1 = dial s ∧ ec_closed (ec r.1) = ec_closed (ec s) ∧ th r.1 = th s.
Proof.
  unfold authenticate. intros (x & _ & Hx)%bind_next. destruct x as [e|[? [? [? [? ?]]]]]; [by injection Hx as <-|].
  case_match; apply bind_next in Hx as (s1 & Hs1 & [= <-]); pose proof (setState_ec _ _ _ Hs1);
    apply setState_next in Hs1 as (_ & ? & _ & _ & ? & _); by cbn in *.
Qed.

Lemma invalidate_frame e s s' : invalidateWatches range e s = Next s' →
  dial s' = dial s ∧ ec s' = ec s ∧ pc (th s') = pc (th s) ∧ rpc_ (th s') = rpc_ (th s).
Proof. by intros (? & _ & [= <-])%bind_next. Qed.

Lemma connect_turn_sane s s' : connect_turn s = Next s' → pc (th s) = AtConnect → sane s → sane s'.
Proof.
  unfold connect_turn. intros Hs Hp [Hsv He Hb]. destruct (servers (dial s)) as [|sv svs] eqn:Hl; [done|].
  apply bind_next in Hs as (s1 & Hs1 & Hs). pose proof (setState_ec _ _ _ Hs1) as Hec.
  apply setState_next in Hs1 as (_ & Ht & _ & _ & Hd & _). cbn in Hec, Ht, Hd.
  assert (Hne : ec_closed (ec s1) = true → False) by (rewrite Hec; intros Hc; apply He in Hc; congruence).
  assert (Hi : 0 ≤ (serverIndex (dial s) + 1) mod Z.of_nat (length (sv :: svs)) < Z.of_nat (length (sv :: svs)))
    by (apply Z.mod_pos_bound; simpl; lia).
  destruct (_ =? _); [|destruct (_ <? _)]; injection Hs as <-; split; cbn -[Z.of_nat Z.modulo];
    rewrite ?Hd, ?Ht; try done; by intros ?%Hne.
Qed.

Lemma loop_step_sane x s s' : loop_step bufferSize reconnectDelay range x s = Next s' → sane s → sane s'.
Proof.
  intros Hs Hsane. destruct (pc (th s)) eqn:Hp; unfold loop_step in Hs; rewrite Hp in Hs; destruct x; not_stuck Hs.
  { by eapply connect_turn_sane. }
  all: destruct Hsane as [Hsv He Hb]; rewrite Hp in He;
    unfold flushUnsent_turn, flushRequests_turn, disconnected, after_auth, start_flush in Hs;
    repeat match goal with
    | H : guard_ _ _ = Next _ |- _ => apply guard_next in H as [_ H]
    | H : _ ≫= _ = Next _ |- _ => apply bind_next in H as (? & ? & H)
    | H : Next _ = Next _ |- _ => injection H as <-
    | H : setState _ _ = Next _ |- _ => pose proof (setState_ec _ _ _ H); apply setState_next in H as (_ & ? & _ & _ & ? & _)
    | H : authenticate _ _ = Next _ |- _ => apply authenticate_frame in H as (? & ? & ?)
    | H : match ?x with _ => _ end = Next _ |- _ => destruct x eqn:?; try discriminate
    end; unfold sendSetWatches; repeat case_match; cbn in *;
    try match goal with H : invalidateWatches _ _ _ = Next _ |- _ => apply invalidate_frame in H as (? & ? & ? & ?) end;
    split; cbn -[buf_ok] in *; try congruence; try lia;
    try (intros; assert (Hc : ec_closed (ec s) = true) by congruence; specialize (He Hc); congruence);
    try (unfold buf_ok; by rewrite length_replicate);
    try (repeat match goal with H : th _ = _ |- _ => rewrite H end; done); by rewrite Heqr.
Qed.

Lemma watcher_event_frame ev s s' : watcher_event ev s = Next s' →
  dial s' = dial s ∧ ec_closed (ec s') = ec_closed (ec s) ∧ th s' = th s.
Proof.
  intros (k & Hk & (? & _ & [= <-])%bind_next)%bind_next. cbn. unfold send_event in Hk.
  destruct (ec_closed (ec s)) eqn:E; [done|]. injection Hk as <-. by case_bool_decide.
Qed.

Lemma handle_frame_sane buf blen s s' : handle_frame buf blen s = Next s' → (bufferSize ≤ length buf)%nat →
  sane s → sane s'.
Proof.
  unfold handle_frame. intros Hs Hlen [Hsv He Hb]. case_match; [done|].
  destruct (decodePacket _ _) as [[[x [zxid [e u]]] n]| | | |]; try discriminate; [|by injection Hs as <-].
  destruct (x =? -1); [|destruct (x <? 0)].
  - apply bind_next in Hs as ([err|[t [st [path ?]]]] & _ & Hs); [by injection Hs as <-|].
    apply bind_next in Hs as (s1 & (Hd & Hec & Ht)%watcher_event_frame & [= <-]).
    split; cbn; rewrite ?Hd, ?Ht, ?Hec; done.
  - by injection Hs as <-.
  - set (s0 := if 0 <? zxid then _ else s) in Hs.
    assert (Hw0 : dial s0 = dial s ∧ ec s0 = ec s ∧ th s0 = th s) by (subst s0; by destruct (0 <? zxid)). clearbody s0.
    destruct Hw0 as (Hd & Hec & Ht).
    cbn in x. destruct (requests (q s0) !! x); [|injection Hs as <-; split; cbn; rewrite ?Hd, ?Ht, ?Hec; done].
    apply bind_next in Hs as (v & _ & Hs). cbv zeta in Hs. destruct (run_recvFunc _ _ _). injection Hs as <-.
    split; cbn; rewrite ?Hd, ?Ht, ?Hec; done.
Qed.

(** The buffer when a frame is in it. *)
Definition frame_buffer (buf payload : list Z) : list Z :=
  let b := be_bytes 4 (Z.of_nat (length payload)) ++ drop 4 buf in
  payload ++ drop (length payload) (grown b (Z.of_nat (length payload))).

Lemma frame_buffer_length buf payload : (4 ≤ length buf)%nat →
  length (frame_buffer buf payload) = Nat.max (length buf) (length payload).
Proof.
  intros Hb. unfold frame_buffer, grown. rewrite length_app, length_drop.
  destruct (Z.ltb_spec (Z.of_nat (length (be_bytes 4 (Z.of_nat (length payload)) ++ drop 4 buf))) (Z.of_nat (length payload))) as [Hl|Hl];
    rewrite ?length_replicate, ?length_app, ?length_drop, ?be_bytes_length in *; lia.
Qed.

Lemma frame_put buf (payload : list Z) : (4 ≤ length buf)%nat →
  put (E := zkError) (whole buf) 0 (be_bytes 4 (Z.of_nat (length payload))) =
  Got (whole (be_bytes 4 (Z.of_nat (length payload)) ++ drop 4 buf)).
Proof. intros Hb. by rewrite put_front, be_bytes_length by (by rewrite be_bytes_length). Qed.

Lemma recv_step_sane x s s' : (4 ≤ bufferSize)%nat → recv_step x s = Next s' → sane s → sane s'.
Proof.
  intros H4 Hs Hsane. pose proof Hsane as [Hsv He Hb]. unfold recv_step in Hs.
  destruct (rpc_ (th s)) as [|buf|r d buf] eqn:Hr, x; try discriminate; cbn in Hb.
  - by injection Hs as <-.
  - apply guard_next in Hs as [_ Hs]. rewrite frame_put in Hs by lia.
    apply bind_next in Hs as (? & _ & Hs). eapply handle_frame_sane; [exact Hs| |done].
    pose proof (frame_buffer_length buf payload). unfold frame_buffer in *. cbn [arr whole]. lia.
  - by apply guard_next in Hs as [_ (? & _ & [= <-])%bind_next].
  - apply bind_next in Hs as (? & ->%deliver_next & [= <-]). by case_match.
Qed.

Lemma step_sane m s s' : (4 ≤ bufferSize)%nat → step bufferSize reconnectDelay range m s = Next s' → sane s → sane s'.
Proof.
  intros H4 Hs Hw. destruct m; cbn in Hs.
  - injection Hs as <-. by destruct Hw.
  - unfold push in Hs. case_match; [|done]. apply guard_next in Hs as [_ [= <-]]. by destruct Hw.
  - apply bind_next in Hs as (r & Hr & [= <-]). unfold receive in Hr. repeat case_match; try done.
    injection Hr as <-. by destruct Hw.
  - unfold Close in Hs. case_match; [done|]. injection Hs as <-. by destruct Hw.
  - unfold run_pool in Hs. case_match; [done|]. injection Hs as <-. by destruct Hw.
  - by eapply loop_step_sane.
  - destruct Hw. unfold send_step in Hs. destruct (spc_ (th s)) as [| |r], x as [|[]| |[]]; try discriminate;
      repeat (match goal with
      | H : guard_ _ _ = Next _ |- _ => apply guard_next in H as [_ H]
      | H : _ ≫= _ = Next _ |- _ => apply bind_next in H as (? & ->%deliver_next & H)
      | H : match ?x with _ => _ end = Next _ |- _ => destruct x; try discriminate
      | H : Next _ = Next _ |- _ => injection H as <-
      end); done.
  - by eapply recv_step_sane.
  - case_match; [done|]. injection Hs as <-. by destruct Hw.
  - destruct (wchans (w s) !! ch) as [[[|ev evs] c]|] eqn:E; try done. injection Hs as <-. by destruct Hw.
Qed.

Lemma reached_sane s : (4 ≤ bufferSize)%nat → reached bufferSize reconnectDelay range s → sane s.
Proof.
  intros H4 (sh & sv & t & s0 & ms & Hc & Hr & _).
  assert (H0 : sane s0).
  { unfold ConnectWithDialer in Hc. destruct sv as [|x sv]; [done|]. injection Hc as <-. split; cbn [dial servers serverIndex ec]; [|done|done].
    assert (Hl : length (stringShuffle sh (FormatServers (x :: sv))) = S (length sv)).
    { rewrite (Permutation_length (stringShuffle_perm _ _)). unfold FormatServers. by rewrite length_fmap. }
    change (0 ≤ 0 < Z.of_nat (length (stringShuffle sh (FormatServers (x :: sv))))). rewrite Hl. lia. }
  clear Hc. revert s0 Hr H0. induction ms as [|m ms IH]; intros s0; cbn; [by intros [= <-]|].
  intros (s1 & H1 & H2)%bind_next H0. eapply IH; [done|]. by eapply step_sane.
Qed.

(** What makes a move panic. *)
Inductive panic_cause (s : sys) : move → Prop :=
  | CloseTwice : shouldQuit s = true → panic_cause s MClose
  | NoKeepAlive : pc (th s) = AtSpawn → sessionTimeoutMs (ses s) ≤ 0 → panic_cause s (MLoop LGo)
  | RequestTooLong r rs : sendChan (q s) = r :: rs →
      Z.of_nat bufferSize < 12 + Z.of_nat (length (packet_wire (rq_pkt r))) → panic_cause s (MSend SNext)
  | ReplyTooLong payload : Z.of_nat bufferSize < 16 + Z.of_nat (length payload) → panic_cause s (MRecv (RFrame payload))
  | ReplyMulti x r payload : requests (q s) !! x = Some r →
      (∀ t, rq_target r = TgtTy t → no_bool t = false) → panic_cause s (MRecv (RFrame payload))
  | RefusedBuffer blen : granted TBytes blen = false → panic_cause s (MRecv (RCut blen))
  | RefusedReply payload : refused → panic_cause s (MRecv (RFrame payload))
  | RefusedSession io : refused → panic_cause s (MLoop (LAuth io)).

Lemma bind_crash {A B} (m : outcome A) (f : A → outcome B) : m ≫= f = Crash → m = Crash ∨ ∃ a, m = Next a ∧ f a = Crash.
Proof. destruct m; cbn; eauto; done. Qed.

Lemma guard_crash {A} b (m : outcome A) : guard_ b m = Crash → m = Crash.
Proof. by destruct b. Qed.

Lemma deliver_no_crash r d k : deliver r d k ≠ Crash.
Proof. unfold deliver. by repeat case_match. Qed.

Lemma make_room_crash buf blen : make_room buf blen = Crash → granted TBytes blen = false.
Proof. unfold make_room. case_match eqn:Hg; [|done]. apply andb_prop in Hg as [_ Hg%negb_true_iff]. done. Qed.

Lemma make_room_enough buf blen : blen ≤ Z.of_nat (length buf) → make_room buf blen = Next tt.
Proof. intros Hb. unfold make_room. by rewrite (proj2 (Z.ltb_ge _ _)). Qed.

Lemma refused_bytes blen : 0 ≤ blen < 2 ^ 32 → granted TBytes blen = false → refused.
Proof. intros Hb Hg. by exists TBytes, blen. Qed.

(** Authentication fails with an error, or for want of memory. *)
Lemma auth_exchange_safe x io : auth_exchange x io = Crash → refused.
Proof.
  unfold auth_exchange, connect_packet.
  destruct (encodePacket_cases connectRequest (protocolVersion, (lastZxid x, (sessionTimeoutMs x, (sessionID x, (passwd x, tt)))))
              (whole (replicate 252 0)) eq_refl) as [[[b n] ->]|[e ->]]; [|done].
  destruct (au_write io); [done|]. intros [H|([e|buf] & _ & H)]%bind_crash; [|done|].
  { destruct (au_head io); cbn in H; [done|]. by destruct (bool_decide _). }
  apply bind_crash in H as [H|(? & _ & H)].
  { eapply refused_bytes; [|by eapply make_room_crash]. by apply Z.mod_pos_bound. }
  apply bind_crash in H as [H|([e|buf'] & _ & H)]; [|done|].
  { destruct (au_body io); cbn in H; [done|]. by destruct (bool_decide _). }
  by destruct (decodePacket_cases connectResponse (mkSlice buf' (u32 (be_value (take 4 buf)))) eq_refl) as [[[r ?] Hr]|[Hr|[Hr ?]]];
    rewrite Hr in H.
Qed.

Lemma setState_safe st s s0 : sane s0 → pc (th s0) ≠ Finished →
  dial s = dial s0 → ec s = ec s0 → th s = th s0 → setState st s ≠ Crash.
Proof.
  intros [Hsv He Hb] Hp Hd Hec Ht. destruct (setState_goes st s) as [s' Hs']; [|congruence|congruence].
  split; rewrite ?Hd, ?Hec, ?Ht; done.
Qed.

Lemma pingInterval_pos x : pingInterval x ≤ 0 → sessionTimeoutMs x ≤ 0.
Proof.
  unfold pingInterval, recvTimeout. intros Hp. destruct (Z.le_gt_cases (sessionTimeoutMs x) 0); [done|exfalso].
  assert (H1 : 666666 ≤ Z.quot (sessionTimeoutMs x * 1000000 * 2) 3) by (apply Z.quot_le_lower_bound; lia).
  assert (H2 : 1 ≤ Z.quot (Z.quot (sessionTimeoutMs x * 1000000 * 2) 3) 2) by (apply Z.quot_le_lower_bound; lia).
  lia.
Qed.

Lemma loop_crash x s : sane s → winv (w s) → loop_step bufferSize reconnectDelay range x s = Crash →
  panic_cause s (MLoop x).
Proof.
  intros Hs Hw Hc. unfold loop_step in Hc. destruct (pc (th s)) eqn:Hp, x; not_stuck Hc.
  - unfold connect_turn in Hc. destruct (servers (dial s)) eqn:Hl.
    { pose proof (sane_servers _ Hs) as H0. rewrite Hl in H0. simpl in H0. lia. }
    apply bind_crash in Hc as [Hc|(s1 & _ & Hc)]; [|by repeat case_match].
    exfalso. revert Hc. destruct Hs as [Hsv He Hb].
    set (d := mkDial _ _ _). assert (Hd : sane (with_dial d s)).
    { split; [|done|done]. subst d. cbn -[Z.of_nat]. apply Z.mod_pos_bound. simpl. lia. }
    eapply (setState_safe _ _ _ Hd); cbn; congruence.
  - unfold flushUnsent_turn in Hc. case_match; [done|].
    apply bind_crash in Hc as [Hc|(? & _ & Hc)]; [by destruct (deliver_no_crash _ _ _ Hc)|done].
  - apply guard_crash, bind_crash in Hc as [Hc|(? & _ & Hc)]; [|done].
    exfalso. revert Hc. by eapply (setState_safe _ _ s Hs); [congruence|..].
  - destruct ok; [|done]. apply bind_crash in Hc as [Hc|(? & _ & Hc)]; [|done].
    exfalso. revert Hc. assert (Ho : sane (open_conn s)) by (destruct Hs as [? He ?]; split; done).
    eapply (setState_safe _ _ _ Ho); cbn; congruence.
  - apply bind_crash in Hc as [Hc|([s1 err] & Ha & Hc)].
    + apply bind_crash in Hc as [Hc|(r & _ & Hc)]; [by apply RefusedSession, (auth_exchange_safe _ _ Hc)|].
      exfalso. destruct r as [e|[? [? [? [? ?]]]]]; [done|].
      case_match; apply bind_crash in Hc as [Hc|(? & _ & Hc)]; try done; revert Hc;
        eapply (setState_safe _ _ s Hs); cbn; congruence.
    + exfalso. pose proof (authenticate_w _ _ _ Ha) as Hw1. cbn in Hw1, Hc. unfold after_auth in Hc. destruct err as [e|]; [|done].
      apply bind_crash in Hc as [Hc|(? & _ & Hc)]; [|done]. case_match; [|done].
      destruct (winv_invalidate e s1) as (s2 & H2 & _); [by rewrite Hw1|congruence].
  - destruct (Z.leb_spec (pingInterval (ses s)) 0); [|done]. apply NoKeepAlive; [done|]. by apply pingInterval_pos.
  - by repeat case_match.
  - exfalso. apply bind_crash in Hc as [Hc|(? & _ & Hc)]; [|done]. revert Hc.
    by eapply (setState_safe _ _ s Hs); [congruence|..].
  - unfold flushRequests_turn in Hc. case_match; [done|].
    apply bind_crash in Hc as [Hc|(? & _ & Hc)]; [by destruct (deliver_no_crash _ _ _ Hc)|done].
  - by apply guard_crash in Hc.
  - by apply guard_crash in Hc.
  - by apply guard_crash in Hc.
  - exfalso. apply bind_crash in Hc as [Hc|(? & _ & Hc)]; [|done].
    destruct (winv_invalidate ErrClosing s Hw) as (s2 & H2 & _). congruence.
  - exfalso. destruct (ec_closed (ec s)) eqn:E; [|done]. pose proof (sane_events _ Hs E). congruence.
Qed.

(** A request that fits into the buffer is encoded: its length, its header and its packet. *)
Lemma encode_request_fits r : 12 + Z.of_nat (length (packet_wire (rq_pkt r))) ≤ Z.of_nat bufferSize →
  encode_request bufferSize r =
  Got (be_bytes 4 (u32 (8 + Z.of_nat (length (packet_wire (rq_pkt r))))) ++
       wire requestHeader (rq_xid r, (rq_opcode r, tt)) ++ packet_wire (rq_pkt r)).
Proof.
  intros Hf. unfold encode_request. set (h := wire requestHeader (rq_xid r, (rq_opcode r, tt))). set (p := packet_wire (rq_pkt r)) in *.
  assert (Hh : length h = 8%nat) by done.
  rewrite from_whole by (rewrite length_replicate; lia). cbn [mbind res_bind].
  change (Z.to_nat 4) with 4%nat. rewrite drop_replicate.
  rewrite (encodePacket_fits (Pkt requestHeader (rq_xid r, (rq_opcode r, tt)))) by
    (change (packet_wire _) with h; rewrite length_replicate; lia).
  change (packet_wire (Pkt requestHeader _)) with h. rewrite Hh. cbn [mbind res_bind fst snd].
  rewrite from_whole by (rewrite length_app, length_drop, length_replicate; lia). cbn [mbind res_bind].
  change (Z.to_nat (Z.of_nat 8)) with 8%nat. rewrite drop_app_ge, Hh, Nat.sub_diag, drop_0, drop_replicate by lia.
  rewrite encodePacket_fits by (fold p; rewrite length_replicate; lia). fold p. cbn [mbind res_bind fst snd].
  unfold join, whole. cbn [arr]. change (Z.to_nat (Z.of_nat 8)) with 8%nat.
  assert (Ht : ∀ l, take 8 (h ++ l) = h) by (intros; rewrite take_app_le, take_ge by lia; done). rewrite Ht. do 2 f_equal.
  rewrite app_assoc, take_app_le by (rewrite length_app; lia). apply take_ge. rewrite length_app. lia.
Qed.

Lemma send_crash x s : send_step bufferSize x s = Crash → panic_cause s (MSend x).
Proof.
  unfold send_step. intros Hc. destruct (spc_ (th s)) as [| |r], x as [|[]| |[]]; try discriminate;
    try (by apply guard_crash in Hc);
    try (apply bind_crash in Hc as [Hc|(? & _ & Hc)]; [by destruct (deliver_no_crash _ _ _ Hc)|done]).
  destruct (sendChan (q s)) as [|r rs] eqn:Hq; [done|]. apply (RequestTooLong s r rs Hq).
  destruct (Z.lt_ge_cases (Z.of_nat bufferSize) (12 + Z.of_nat (length (packet_wire (rq_pkt r))))); [done|].
  rewrite encode_request_fits in Hc by done. case_match; [|done].
  apply bind_crash in Hc as [Hc|(? & _ & Hc)]; [by destruct (deliver_no_crash _ _ _ Hc)|done].
Qed.

Lemma decode_body_crash g buf blen : decode_body (g := g) buf blen = Crash →
  Z.of_nat (length buf) < 16 + blen ∨ (∀ t, g = TgtTy t → no_bool t = false) ∨ refused.
Proof.
  unfold decode_body, frame_body. destruct (Z.ltb_spec (Z.of_nat (length buf)) (16 + blen)); [auto|]. cbn [mbind outcome_bind].
  intros Hc. right. destruct g as [t|]; [|by left]. destruct (no_bool t) eqn:Ht; [|left; by intros ? [= <-]].
  destruct (decodePacket_cases t (mkSlice (drop 16 buf) blen) Ht) as [[[] Hr]|[Hr|[Hr ?]]]; rewrite Hr in Hc; try done. by right.
Qed.

Lemma handle_frame_crash buf blen s : winv (w s) → ec_closed (ec s) = false → 16 ≤ Z.of_nat (length buf) →
  handle_frame buf blen s = Crash →
  Z.of_nat (length buf) < 16 + blen ∨
  (∃ x r, requests (q s) !! x = Some r ∧ ∀ t, rq_target r = TgtTy t → no_bool t = false) ∨ refused.
Proof.
  unfold handle_frame. intros Hw Hec Hlen Hs. destruct (Z.ltb_spec (Z.of_nat (length buf)) 16); [lia|].
  destruct (decodePacket_cases responseHeader (mkSlice buf 16) eq_refl) as [[[[x [zxid [e u]]] n] Hr]|[Hr|[Hr ?]]];
    rewrite Hr in Hs; [|done|by auto].
  destruct (x =? -1); [|destruct (x <? 0); [done|]].
  - apply bind_crash in Hs as [Hs|([err|[t [st [path ?]]]] & _ & Hs)]; [|done|].
    { apply (decode_body_crash (TgtTy watcherEvent)) in Hs as [?|[Hs|?]]; [by left| |by auto].
      by specialize (Hs watcherEvent eq_refl). }
    apply bind_crash in Hs as [Hs|(s1 & _ & Hs)]; [|done].
    apply bind_crash in Hs as [Hs|(k & _ & Hs)]; [unfold send_event in Hs; by rewrite Hec in Hs|].
    apply bind_crash in Hs as [Hs|(? & _ & Hs)]; [|done].
    destruct (winv_fire_types (mkEvent t st path None "") (fired_types t) (w s) Hw) as (? & Hf & _). cbn in *. congruence.
  - set (s0 := if 0 <? zxid then _ else s) in Hs.
    assert (Hq0 : q s0 = q s) by (subst s0; by destruct (0 <? zxid)). clearbody s0. rewrite <- Hq0.
    cbn in x. destruct (requests (q s0) !! x) as [r|] eqn:Hx; [|done].
    apply bind_crash in Hs as [Hs|(v & _ & Hs)]; [|cbv zeta in Hs; by destruct (run_recvFunc _ _ _)].
    destruct (e =? 0); [|done]. apply decode_body_crash in Hs as [?|[Hs|?]]; [by left| |by auto]. right. left. by exists x, r.
Qed.

Lemma recv_crash x s : (16 ≤ bufferSize)%nat → inv_sys s → sane s → winv (w s) →
  recv_step x s = Crash → panic_cause s (MRecv x).
Proof.
  intros H16 Hi Hs Hw Hc. unfold recv_step in Hc. pose proof (sane_buf _ Hs) as Hb.
  destruct (rpc_ (th s)) as [|buf|r d buf] eqn:Hr, x; try discriminate; cbn in Hb.
  - unfold guard_ in Hc. destruct (conn_open s && _) eqn:Hlen; [|done]. apply andb_prop in Hlen as [_ Hlen%Z.ltb_lt].
    rewrite frame_put in Hc by lia. cbn [arr whole] in Hc. apply bind_crash in Hc as [Hc|(? & _ & Hc)].
    { apply RefusedReply. eapply refused_bytes; [|by eapply make_room_crash]. lia. }
    pose proof (frame_buffer_length buf payload ltac:(lia)) as Hl. unfold frame_buffer in Hl.
    apply handle_frame_crash in Hc as [Hc|[(xid & r & Hx & Ht)|Hc]].
    + apply ReplyTooLong. lia.
    + by eapply ReplyMulti.
    + by apply RefusedReply.
    + done.
    + destruct (ec_closed (ec s)) eqn:E; [|done]. pose proof (sane_events _ Hs E) as Hf.
      destruct (inv_off _ _ _ _ Hi) as [_ Hoff]; [by rewrite Hf|congruence].
    + lia.
  - apply guard_crash, bind_crash in Hc as [Hc%make_room_crash|(? & _ & Hc)]; [by apply RefusedBuffer|done].
  - apply bind_crash in Hc as [Hc|(? & _ & Hc)]; [by destruct (deliver_no_crash _ _ _ Hc)|by case_match].
Qed.

(** C34: In every interleaving the connection panics for six reasons only: a second [Close], a server
    that grants a session without a timeout, a request longer than the send buffer, a
    reply whose length with its header counted twice exceeds the receive buffer, a reply to a
    request whose answer has a boolean (a multi request), or memory that the machine refuses for a length or
    count which the server named, in a reply or in its answer to the authentication.
    In particular no channel is closed twice or used after it was closed, and on a machine
    with enough memory no answer of the server breaks the authentication. *)
Theorem conn_panics m s :
  reached bufferSize reconnectDelay range s → (16 ≤ bufferSize)%nat →
  step bufferSize reconnectDelay range m s = Crash → panic_cause s m.
Proof.
  intros Hr H16 Hc. pose proof (reached_winv s Hr) as Hw. pose proof (reached_sane s ltac:(lia) Hr) as Hs.
  pose proof (reached_inv _ _ _ range_perm s Hr) as Hi. destruct m; cbn in Hc.
  - done.
  - unfold push in Hc. case_match; [|done]. by apply guard_crash in Hc.
  - apply bind_crash in Hc as [Hc|(? & _ & Hc)]; [|done]. unfold receive in Hc. by repeat case_match.
  - unfold Close in Hc. destruct (shouldQuit s) eqn:E; [|done]. by apply CloseTwice.
  - unfold run_pool in Hc. by case_match.
  - by apply loop_crash.
  - by apply send_crash.
  - by apply recv_crash.
  - by case_match.
  - by repeat case_match.
Qed.

(** ** The way of a request *)

(** The frame of a server that answers the request with number [x]. *)
Definition reply_frame (x zxid : Z) (t : ty) (v : den t) : list Z :=
  wire responseHeader (x, (zxid, (0, tt))) ++ wire t v.

Lemma reply_frame_length x zxid t v : length (reply_frame x zxid t v) = (16 + length (wire t v))%nat.
Proof. unfold reply_frame. by rewrite length_app. Qed.

(** [recvLoop] hands the value of a frame to the request with its number. *)
Lemma frame_answers s buf id op p t f x zxid (v : den t) :
  rpc_ (th s) = RRead buf → conn_open s = true → requests (q s) !! x = Some (mkRequest id x op p (TgtTy t) f) →
  0 ≤ x < 2 ^ 31 → is_i64 zxid → wf_val t v →
  32 + Z.of_nat (length (wire t v)) ≤ Z.of_nat (length buf) → Z.of_nat (length buf) < 2 ^ 32 →
  ∃ s1 d buf', recv_step (RFrame (reply_frame x zxid t v)) s = Next s1 ∧
    rpc_ (th s1) = RAnswer (mkRequest id x op p (TgtTy t) f) d buf' ∧
    d = mkDelivery zxid None (dl_target := TgtTy t) (Some v) (run_recvFunc f None (w s)).2 ∧
    q s1 = with_requests (delete x (requests (q s))) (q s) ∧ pc (th s1) = pc (th s) ∧ spc_ (th s1) = spc_ (th s).
Proof.
  intros Hr Ho Hx Hxb Hz Hv Hlen Hmax. set (payload := reply_frame x zxid t v).
  assert (Hpl : length payload = (16 + length (wire t v))%nat) by apply reply_frame_length.
  unfold recv_step. rewrite Hr, Ho. cbn [andb]. rewrite (proj2 (Z.ltb_lt _ _)) by lia. cbn [guard_].
  rewrite frame_put by lia. cbn [arr whole]. rewrite make_room_enough by (rewrite length_app, be_bytes_length, length_drop; lia).
  cbn [mbind outcome_bind]. fold (frame_buffer buf payload).
  pose proof (frame_buffer_length buf payload ltac:(lia)) as Hfl.
  set (h := wire responseHeader (x, (zxid, (0, tt)))).
  assert (Hfb : ∃ rest, frame_buffer buf payload = h ++ wire t v ++ rest)
    by (unfold frame_buffer; eexists; subst payload; unfold reply_frame; by rewrite <- app_assoc).
  destruct Hfb as [rest Hfb].
  unfold handle_frame. rewrite Hfl, (proj2 (Z.ltb_ge _ _)) by lia.
  assert (Hdec : decodePacket (mkSlice (frame_buffer buf payload) 16) (TgtTy responseHeader) = Got ((x, (zxid, (0, tt))), 16)).
  { unfold decodePacket. cbn [tden]. rewrite Hfb, (proj1 decode_reads responseHeader (x, (zxid, (0, tt)))); [done| |done].
    split; [cbn; unfold is_i32; lia|]. split; [done|]. by split. }
  rewrite Hdec. rewrite (proj2 (Z.eqb_neq x (-1))), (proj2 (Z.ltb_ge x 0)) by lia.
  set (s0 := if 0 <? zxid then _ else s).
  assert (H0 : q s0 = q s ∧ th s0 = th s ∧ w s0 = w s) by (subst s0; by destruct (0 <? zxid)).
  destruct H0 as (Hq0 & Ht0 & Hw0). cbv zeta. rewrite Hq0, Hx. unfold reply. cbn [rq_target rq_recvFunc].
  rewrite Z.eqb_refl. unfold decode_body, frame_body. rewrite Hfl, (proj2 (Z.ltb_ge _ _)) by lia.
  assert (Hdrop : drop 16 (frame_buffer buf payload) = wire t v ++ rest).
  { rewrite Hfb. by rewrite drop_app_ge by (change (length h) with 16%nat; lia). }
  cbn [mbind outcome_bind]. rewrite Hdrop.
  assert (Hbody : decodePacket (mkSlice (wire t v ++ rest) (Z.of_nat (length payload))) (TgtTy t) = Got (v, Z.of_nat (length (wire t v)))).
  { unfold decodePacket. cbn [tden]. rewrite (proj1 decode_reads t v Hv); [done|lia]. }
  rewrite Hbody. cbn [mbind outcome_bind w with_q]. rewrite Hw0. destruct (run_recvFunc f None (w s)) as [x' ech].
  eexists _, _, _. split; [reflexivity|]. cbn. by rewrite Ht0.
Qed.

(** A connection that waits for requests. *)
Record idle (s : sys) (buf : list Z) : Prop := {
  idle_send : spc_ (th s) = SIdle;
  idle_recv : rpc_ (th s) = RRead buf;
  idle_close : closeChan (th s) = false;
  idle_open : conn_open s = true;
  idle_unsent : waiting (q s) = [] ∧ sendChan (q s) = [];
  idle_buf : bufferSize = length buf;
}.

Lemma log_range k p sp rp i : inv k p sp rp → i ∈ (log k).*1 → (i < nid k)%nat.
Proof.
  intros Hi Hin. assert (Hm : i ∈ seq 0 (nid k) ++ wfailed k).
  { rewrite <- (inv_account _ _ _ _ Hi). rewrite elem_of_app. by left. }
  apply elem_of_app in Hm as [Hm%elem_of_seq|Hm]; [lia|].
  destruct (inv_wfailed _ _ _ _ Hi) as [_ Hfa]. rewrite Forall_forall in Hfa. by apply Hfa.
Qed.

Lemma request_way s buf op p t f zxid (v : den t) :
  reached bufferSize reconnectDelay range s → idle s buf → op ≠ opClose →
  is_i64 zxid → wf_val t v →
  12 + Z.of_nat (length (packet_wire p)) ≤ Z.of_nat bufferSize →
  32 + Z.of_nat (length (wire t v)) ≤ Z.of_nat bufferSize < 2 ^ 32 →
  let x := xid_of (nid (q s)) in
  let r := mkRequest (nid (q s)) x op p (TgtTy t) f in
  encode_request bufferSize r =
    Got (be_bytes 4 (u32 (8 + Z.of_nat (length (packet_wire p)))) ++ wire requestHeader (x, (op, tt)) ++ packet_wire p) ∧
  ∃ s', run bufferSize reconnectDelay range
          [MQueue op p (TgtTy t) f; MPush 0; MSend SNext; MSend (SWrote None);
           MRecv (RFrame (reply_frame x zxid t v)); MRecv RGo] s = Next s' ∧
    log (q s') = log (q s) ++ [(nid (q s), mkDelivery zxid None (dl_target := TgtTy t) (Some v) (run_recvFunc f None (w s)).2)] ∧
    written (q s') = written (q s) ++ [r].
Proof.
  intros Hr [Hsp Hrp Hcl Hop [Hwt Hsc] Hbl] Hne Hz Hv Hf1 Hf2 x r.
  pose proof (reached_inv _ _ _ range_perm s Hr) as Hi. split; [by apply (encode_request_fits r)|].
  pose proof (xid_of_bounds (nid (q s))) as Hxb. fold x in Hxb.
  (* queued, sent and registered *)
  set (k4 := mkQueue (u32 (Z.of_nat (S (nid (q s))))) (S (nid (q s))) [] [] (<[x := r]> (requests (q s))) (recvChans (q s))
               (log (q s)) (wfailed (q s)) (written (q s) ++ [r])).
  set (s4 := with_spc SIdle (with_q k4 s)).
  assert (H4 : run bufferSize reconnectDelay range
                 [MQueue op p (TgtTy t) f; MPush 0; MSend SNext; MSend (SWrote None)] s = Next s4).
  { cbn [run step mbind outcome_bind]. unfold queueRequest. rewrite (nextXid_spec (q s) (inv_counter _ _ _ _ Hi)). fold x.
    unfold push. cbn. rewrite Hwt, Hsc. cbn -[sendChanSize]. rewrite bool_decide_eq_true_2 by (unfold sendChanSize; lia).
    cbn. unfold send_step. cbn. rewrite Hsp.
    pose proof (encode_request_fits r ltac:(done)) as He. unfold r in He. rewrite He. cbn. rewrite Hcl. cbn.
    unfold conn_open in *. cbn. rewrite Hop. cbn. by subst s4 k4. }
  change [MQueue op p (TgtTy t) f; MPush 0; MSend SNext; MSend (SWrote None);
    MRecv (RFrame (reply_frame x zxid t v)); MRecv RGo] with
    ([MQueue op p (TgtTy t) f; MPush 0; MSend SNext; MSend (SWrote None)] ++ [MRecv (RFrame (reply_frame x zxid t v)); MRecv RGo]).
  rewrite run_app, H4. cbn [mbind outcome_bind run step].
  destruct (frame_answers s4 buf (nid (q s)) op p t f x zxid v) as (s5 & d & buf' & H5 & Hr5 & Hd & Hq5 & _ & _); try done.
  { apply lookup_insert_eq. }
  { lia. }
  { lia. }
  rewrite H5. cbn [mbind outcome_bind]. unfold recv_step. rewrite Hr5.
  assert (Hch : ∃ k6, deliver r d (q s5) = Next k6 ∧ log k6 = log (q s) ++ [(nid (q s), d)] ∧ written k6 = written (q s) ++ [r]).
  { rewrite Hq5. unfold deliver. cbn. destruct (recvChans (q s) !! nid (q s)) as [[|d' ds]|] eqn:E; try by eexists.
    apply (inv_chans _ _ _ _ Hi), (log_range _ _ _ _ _ Hi) in E. lia. }
  destruct Hch as (k6 & Hdl & Hlog & Hwr). fold r. rewrite Hdl. cbn [mbind outcome_bind]. subst d.
  rewrite (proj2 (Z.eqb_neq _ _)) by done. eexists. split; [reflexivity|]. by cbn.
Qed.

(** C35: A request makes its way: the bytes that are written are its length, its number, its
    operation and its packet; a frame of the server with that number and the encoding of a value
    comes back to this caller as that value, with the watch the caller asked for. *)
Theorem request_round_trip s buf op p t f zxid (v : den t) :
  reached bufferSize reconnectDelay range s → idle s buf → op ≠ opClose →
  is_i64 zxid → wf_val t v →
  12 + Z.of_nat (length (packet_wire p)) ≤ Z.of_nat bufferSize →
  32 + Z.of_nat (length (wire t v)) ≤ Z.of_nat bufferSize < 2 ^ 32 →
  let x := xid_of (nid (q s)) in
  let r := mkRequest (nid (q s)) x op p (TgtTy t) f in
  encode_request bufferSize r =
    Got (be_bytes 4 (u32 (8 + Z.of_nat (length (packet_wire p)))) ++ wire requestHeader (x, (op, tt)) ++ packet_wire p) ∧
  ∃ s', run bufferSize reconnectDelay range
          [MQueue op p (TgtTy t) f; MPush 0; MSend SNext; MSend (SWrote None);
           MRecv (RFrame (reply_frame x zxid t v)); MRecv RGo] s = Next s' ∧
    log (q s') = log (q s) ++ [(nid (q s), mkDelivery zxid None (dl_target := TgtTy t) (Some v) (run_recvFunc f None (w s)).2)] ∧
    written (q s') = written (q s) ++ [r].
Proof. apply request_way. Qed.

(** ** Finding a server, and the watches of a session *)

Lemma connect_turn_some s : servers (dial s) ≠ [] →
  connect_turn s =
  (let d := dial s in
   let i := (serverIndex d + 1) mod Z.of_nat (length (servers d)) in
   s ← setState StateConnecting (with_dial (mkDial (servers d) i (lastServerIndex d)) s);
   if i =? lastServerIndex d then Next (with_pc (FlushUnsent ErrNoServer ThenWait) s)
   else if lastServerIndex d <? 0 then Next (with_pc AtDial (set_lastServerIndex 0 s))
   else Next (with_pc AtDial s)).
Proof. unfold connect_turn. by destruct (servers (dial s)). Qed.

Lemma sane_nonempty s : sane s → servers (dial s) ≠ [].
Proof. intros Hs Hn. pose proof (sane_servers _ Hs) as H. rewrite Hn in H. simpl in H. lia. Qed.

(** One server is tried and refuses. *)
Lemma refused_turn s : (4 ≤ bufferSize)%nat → sane s → pc (th s) = AtConnect → 0 ≤ lastServerIndex (dial s) →
  let i := (serverIndex (dial s) + 1) mod Z.of_nat (length (servers (dial s))) in i ≠ lastServerIndex (dial s) →
  ∃ s', run bufferSize reconnectDelay range [MLoop LGo; MLoop (LDial false)] s = Next s' ∧
    sane s' ∧ pc (th s') = AtConnect ∧ dial s' = mkDial (servers (dial s)) i (lastServerIndex (dial s)) ∧ q s' = q s.
Proof.
  intros H4 Hs Hp Hl i Hi. set (s0 := with_dial (mkDial (servers (dial s)) i (lastServerIndex (dial s))) s).
  pose proof (sane_servers _ Hs) as Hsv.
  assert (Hs0 : sane s0).
  { split; [|apply (sane_events _ Hs)|apply (sane_buf _ Hs)]. cbn. apply Z.mod_pos_bound. lia. }
  destruct (setState_goes StateConnecting s0 Hs0) as [s1 H1]; [cbn; congruence|].
  pose proof (setState_next _ _ _ H1) as (Hq & Ht & _ & _ & Hd & _).
  assert (Hgo : loop_step bufferSize reconnectDelay range LGo s = Next (with_pc AtDial s1)).
  { unfold loop_step. rewrite Hp, connect_turn_some by (by apply sane_nonempty). cbv zeta. fold i. fold s0.
    rewrite H1. cbn [mbind outcome_bind].
    rewrite (proj2 (Z.eqb_neq _ _)), (proj2 (Z.ltb_ge _ _)) by done. done. }
  exists (with_pc AtConnect (with_pc AtDial s1)). cbn [run step mbind outcome_bind]. rewrite Hgo. split; [done|].
  split; [|cbn; by rewrite Hd, Hq].
  eapply (loop_step_sane (LDial false) (with_pc AtDial s1)); [done|]. by eapply loop_step_sane.
Qed.

(** After a disconnection each other server is tried once, in the order of the list, before the
    requests that were not sent are failed with [ErrNoServer]; while servers refuse no
    request is touched. *)
Theorem connect_tries_all s :
  (4 ≤ bufferSize)%nat → sane s → pc (th s) = AtConnect → lastServerIndex (dial s) = serverIndex (dial s) →
  let n := Z.of_nat (length (servers (dial s))) in
  ∀ k, Z.of_nat k < n →
  ∃ s', run bufferSize reconnectDelay range (concat (replicate k [MLoop LGo; MLoop (LDial false)])) s = Next s' ∧
    pc (th s') = AtConnect ∧ q s' = q s ∧ serverIndex (dial s') = (serverIndex (dial s) + Z.of_nat k) mod n ∧
    (Z.of_nat k = n - 1 →
     ∃ s'', run bufferSize reconnectDelay range [MLoop LGo] s' = Next s'' ∧ pc (th s'') = FlushUnsent ErrNoServer ThenWait).
Proof.
  intros H4 Hs Hp Hl n. pose proof (sane_servers _ Hs) as Hsv.
  assert (Hmain : ∀ k, Z.of_nat k < n → ∃ s',
    run bufferSize reconnectDelay range (concat (replicate k [MLoop LGo; MLoop (LDial false)])) s = Next s' ∧
    sane s' ∧ pc (th s') = AtConnect ∧ q s' = q s ∧
    dial s' = mkDial (servers (dial s)) ((serverIndex (dial s) + Z.of_nat k) mod n) (serverIndex (dial s))).
  { induction k as [|k IH]; intros Hk.
    - exists s. split; [done|]. split; [done|]. split; [done|]. split; [done|].
      rewrite Z.add_0_r, Z.mod_small by done. destruct (dial s). cbn in *. by subst.
    - destruct IH as (s1 & Hr1 & Hs1 & Hp1 & Hq1 & Hd1); [lia|].
      assert (Hnext : ((serverIndex (dial s) + Z.of_nat k) mod n + 1) mod n = (serverIndex (dial s) + Z.of_nat (S k)) mod n)
        by (rewrite Z.add_mod_idemp_l by lia; f_equal; lia).
      destruct (refused_turn s1 H4 Hs1 Hp1) as (s2 & Hr2 & Hs2 & Hp2 & Hd2 & Hq2); rewrite ?Hd1; cbn [lastServerIndex serverIndex servers]; [lia|..].
      { fold n. rewrite Hnext. intros Heq.
        assert (Hm : (serverIndex (dial s) + Z.of_nat (S k)) mod n = serverIndex (dial s) mod n) by (rewrite (Z.mod_small (serverIndex (dial s))); lia).
        apply Z.cong_iff_0 in Hm. replace (_ - _) with (Z.of_nat (S k)) in Hm by lia. rewrite Z.mod_small in Hm; lia. }
      exists s2. split; [|split; [done|split; [done|split; [congruence|]]]].
      + rewrite replicate_S_end, concat_app, run_app, Hr1. cbn [mbind outcome_bind concat]. by rewrite app_nil_r.
      + rewrite Hd2, Hd1. cbn [lastServerIndex serverIndex servers]. fold n. by rewrite Hnext. }
  intros k Hk. destruct (Hmain k Hk) as (s1 & Hr1 & Hs1 & Hp1 & Hq1 & Hd1). exists s1.
  split; [done|]. split; [done|]. split; [done|]. split; [by rewrite Hd1|]. intros Hlast.
  assert (Hback : ((serverIndex (dial s) + Z.of_nat k) mod n + 1) mod n = serverIndex (dial s)).
  { rewrite Z.add_mod_idemp_l by lia. replace (_ + Z.of_nat k + 1) with (serverIndex (dial s) + 1 * n) by lia.
    rewrite Z.mod_add, Z.mod_small by lia. done. }
  set (s0 := with_dial (mkDial (servers (dial s)) (serverIndex (dial s)) (serverIndex (dial s))) s1).
  assert (Hs0 : sane s0) by (split; [done|apply (sane_events _ Hs1)|apply (sane_buf _ Hs1)]).
  destruct (setState_goes StateConnecting s0 Hs0) as [s2 H2]; [cbn; congruence|].
  exists (with_pc (FlushUnsent ErrNoServer ThenWait) s2). split; [|done].
  cbn [run step mbind outcome_bind]. unfold loop_step. rewrite Hp1, connect_turn_some by (by apply sane_nonempty).
  cbv zeta. rewrite Hd1. cbn [servers serverIndex lastServerIndex]. fold n. rewrite Hback. fold s0. rewrite H2.
  cbn [mbind outcome_bind]. by rewrite Z.eqb_refl.
Qed.

(** The request that a new connection sends to set the watches of the session again names exactly
    the paths with a watcher, each once and under the type of its watch. *)
Theorem watches_resumed s t path :
  let l := watch_paths t (range _ (ticks (th s)) (map_to_list (watchers (w s)))) in
  NoDup l ∧ (path ∈ l ↔ ∃ chs, watchers (w s) !! mkWatchPath path t = Some chs ∧ chs ≠ []).
Proof.
  cbv zeta. set (f := λ pw : watchPathType * list nat,
    if bool_decide (wType pw.1 = t) && negb (bool_decide (pw.2 = [])) then Some (wp_path pw.1) else None).
  assert (Hp : watch_paths t (range _ (ticks (th s)) (map_to_list (watchers (w s)))) ≡ₚ omap f (map_to_list (watchers (w s)))).
  { unfold watch_paths. apply omap_Permutation. apply range_perm. }
  rewrite Hp. split.
  - clear Hp. pose proof (NoDup_fst_map_to_list (watchers (w s))) as Hnd. revert Hnd.
    generalize (map_to_list (watchers (w s))) as l. induction l as [|[[p' t'] chs] l IH]; [intros; apply NoDup_nil_2|].
    rewrite fmap_cons. intros [Hni Hnd]%NoDup_cons. cbn [omap list_omap]. change (list_omap _ _ f l) with (omap f l).
    destruct (f (mkWatchPath p' t', chs)) as [y|] eqn:Hf; [|by apply IH]. apply NoDup_cons. split; [|by apply IH].
    unfold f in Hf. cbn in Hf. destruct (bool_decide (t' = t)) eqn:Ht; [|done]. apply bool_decide_eq_true in Ht as ->.
    case_match; [|done]. injection Hf as <-. intros ([[p2 t2] chs2] & Hin & Hf2)%list_elem_of_omap. unfold f in Hf2. cbn in Hf2.
    destruct (bool_decide (t2 = t)) eqn:Ht2; [|done]. apply bool_decide_eq_true in Ht2 as ->. case_match; [|done]. injection Hf2 as ->.
    apply Hni. apply list_elem_of_fmap. by exists (mkWatchPath p' t, chs2).
  - rewrite list_elem_of_omap. unfold f. split.
    + intros ([[p' t'] chs] & Hin%elem_of_map_to_list & Hf). cbn in Hf. destruct (bool_decide (t' = t)) eqn:Ht; [|done].
      apply bool_decide_eq_true in Ht as ->. destruct (bool_decide (chs = [])) eqn:Hc; [done|]. injection Hf as ->.
      exists chs. split; [done|]. by apply bool_decide_eq_false in Hc.
    + intros (chs & Hin & Hne). exists (mkWatchPath path t, chs). split; [by apply elem_of_map_to_list|]. cbn.
      by rewrite bool_decide_eq_true_2, bool_decide_eq_false_2.
Qed.
End Safe.
