(* ===== verification/ZkOps.v ===== *)
(** * The operations of the ZooKeeper client (samuel/go-zookeeper/zk, vendored)

    conn.go from [AddAuth] on: each operation is the request it queues and what it makes of
    the answer ([Call]); [CreateProtectedEphemeralSequential] is a loop over two of them.
    An answer is an error, or the value of the struct that was decoded; the values next to an
    error are not modelled.  The theorems take an operation through the connection of
    ZkConn.v. *)

From Stdlib Require Import Ascii.
From stdpp Require Import base strings list numbers gmap.
From S2P Require Import Prelude GoStd Md5 Bytes Errors ZkWire ZkConn ZkConnProps ZkConnSafe.

Open Scope Z_scope.

(** ** Calls *)

(** [c_ret] is applied to the error, the decoded value and the channel of the watch. *)
Record Call (A : Type) := mkCall {
  c_op : Z; c_pkt : packet; c_target : target; c_recvFunc : recvFunc;
  c_ret : option zkError → option (tden c_target) → option nat → zkError + A
}.
Arguments mkCall {A}.
Arguments c_op {A}.
Arguments c_pkt {A}.
Arguments c_target {A}.
Arguments c_recvFunc {A}.
Arguments c_ret {A}.

(** [res.X, err]: a value that was not decoded goes with an error. *)
Definition plain {V A} (get : V → A) (err : option zkError) (v : option V) (ech : option nat) : zkError + A :=
  match err, v with
  | Some e, _ => inl e
  | None, Some v => inr (get v)
  | None, None => inl ErrUnknown
  end.

(** [err == ErrNoNode] is the answer that the node does not exist. *)
Definition existing {V A} (yes : V → option nat → A) (no : option nat → A) (err : option zkError) (v : option V)
    (ech : option nat) : zkError + A :=
  match err, v with
  | Some ErrNoNode, _ => inr (no ech)
  | Some e, _ => inl e
  | None, Some v => inr (yes v ech)
  | None, None => inl ErrUnknown
  end.

Definition AddAuth (scheme : string) (a : option (list Z)) : Call unit :=
  mkCall opSetAuth (Pkt setAuthRequest (0, (scheme, (a, tt)))) (TgtTy setAuthResponse) NoRecvFunc (plain (λ _, tt)).

Definition Children (path : string) : Call (list string * den Stat) :=
  mkCall opGetChildren2 (Pkt getChildren2Request (path, (false, tt))) (TgtTy getChildren2Response) NoRecvFunc
    (plain (λ v, (v.1, v.2.1))).

Definition ChildrenW (path : string) : Call (list string * den Stat * option nat) :=
  mkCall opGetChildren2 (Pkt getChildren2Request (path, (true, tt))) (TgtTy getChildren2Response) (WatchChild path)
    (λ err v ech, plain (λ v, (v.1, v.2.1, ech)) err v ech).

Definition Get (path : string) : Call (option (list Z) * den Stat) :=
  mkCall opGetData (Pkt getDataRequest (path, (false, tt))) (TgtTy getDataResponse) NoRecvFunc (plain (λ v, (v.1, v.2.1))).

Definition GetW (path : string) : Call (option (list Z) * den Stat * option nat) :=
  mkCall opGetData (Pkt getDataRequest (path, (true, tt))) (TgtTy getDataResponse) (WatchData path)
    (λ err v ech, plain (λ v, (v.1, v.2.1, ech)) err v ech).

Definition Set_ (path : string) (data : option (list Z)) (version : Z) : zkError + Call (den Stat) :=
  if bool_decide (path = "") then inl ErrInvalidPath
  else inr (mkCall opSetData (Pkt SetDataRequest (path, (data, (version, tt)))) (TgtTy setDataResponse) NoRecvFunc
              (plain (λ v, v.1))).

Definition Create (path : string) (data : option (list Z)) (flags : Z) (acl : list (den ACL)) : Call string :=
  mkCall opCreate (Pkt CreateRequest (path, (data, (acl, (flags, tt))))) (TgtTy createResponse) NoRecvFunc
    (plain (λ v, v.1)).

Definition Delete (path : string) (version : Z) : Call unit :=
  mkCall opDelete (Pkt DeleteRequest (path, (version, tt))) (TgtTy deleteResponse) NoRecvFunc (plain (λ _, tt)).

Definition Exists (path : string) : Call (option (den Stat)) :=
  mkCall opExists (Pkt existsRequest (path, (false, tt))) (TgtTy existsResponse) NoRecvFunc
    (existing (λ v _, Some v.1) (λ _, None)).

Definition ExistsW (path : string) : Call (option (den Stat) * option nat) :=
  mkCall opExists (Pkt existsRequest (path, (true, tt))) (TgtTy existsResponse) (WatchExists path)
    (existing (λ v ech, (Some v.1, ech)) (λ ech, (None, ech))).

Definition GetACL (path : string) : Call (list (den ACL) * den Stat) :=
  mkCall opGetAcl (Pkt getAclRequest (path, tt)) (TgtTy getAclResponse) NoRecvFunc (plain (λ v, (v.1, v.2.1))).

Definition SetACL (path : string) (acl : list (den ACL)) (version : Z) : Call (den Stat) :=
  mkCall opSetAcl (Pkt setAclRequest (path, (acl, (version, tt)))) (TgtTy setAclResponse) NoRecvFunc (plain (λ v, v.1)).

Definition Sync (path : string) : Call string :=
  mkCall opSync (Pkt syncRequest (path, tt)) (TgtTy syncResponse) NoRecvFunc (plain (λ v, v.1)).

(** The operations [Multi] takes. *)
Inductive MultiOp :=
  | MCreate (r : den CreateRequest)
  | MSetData (r : den SetDataRequest)
  | MDelete (r : den DeleteRequest)
  | MCheck (r : den CheckVersionRequest).

Definition multi_request_op (o : MultiOp) : multiRequestOp :=
  match o with
  | MCreate r => mkMRO (opCreate, (false, (-1, tt))) (mro_t := CreateRequest) r
  | MSetData r => mkMRO (opSetData, (false, (-1, tt))) (mro_t := SetDataRequest) r
  | MDelete r => mkMRO (opDelete, (false, (-1, tt))) (mro_t := DeleteRequest) r
  | MCheck r => mkMRO (opCheck, (false, (-1, tt))) (mro_t := CheckVersionRequest) r
  end.

Definition Multi (ops : list MultiOp) : Call (list (option (den Stat) * string)) :=
  mkCall opMulti (PktMulti (mkMultiRequest (multi_request_op <$> ops) (-1, (true, (-1, tt))))) TgtMulti NoRecvFunc
    (plain (λ r, (λ o, (mrs_Stat o, mrs_String o)) <$> ms_Ops r)).

(** *** ACLs (util.go) *)

Definition AuthACL (perms : Z) : list (den ACL) := [(perms, ("auth", ("", tt)))].
Definition WorldACL (perms : Z) : list (den ACL) := [(perms, ("world", ("anyone", tt)))].

(** ** Protected nodes *)

(** The path with the identifier in its last part, and its directory. *)
Definition protected_parts (path guid : string) : list string :=
  let parts := Split path "/" in
  removelast parts ++ [protectedPrefix +:+ guid +:+ "-" +:+ List.last parts ""].
Definition rootPath (path guid : string) : string := Join (removelast (protected_parts path guid)) "/".
Definition protectedPath (path guid : string) : string := Join (protected_parts path guid) "/".

(** The first child with the identifier; a name that begins like a protected one and is shorter
    panics. *)
Fixpoint find_protected (guid : string) (children : list string) : go (option string) :=
  match children with
  | [] => Returns None
  | p :: children =>
      let pth := List.last (Split p "/") "" in
      if HasPrefix pth protectedPrefix then
        if bool_decide (String.length pth < 35)%nat then Panics
        else if bool_decide (String.substring 3 32 pth = guid) then Returns (Some p)
        else find_protected guid children
      else find_protected guid children
  end.

(** The loop from its [i]-th turn; the answers of [Create] and [Children] in each turn are the
    environment's.  [err] is the error of the turn before. *)
Fixpoint create_loop (create : nat → zkError + string) (children : nat → zkError + list string) (path guid : string)
    (i n : nat) (err : zkError) : go (zkError + string) :=
  match n with
  | O => Returns (inl err)
  | S n =>
      match create i with
      | inr newPath => Returns (inr newPath)
      | inl ErrSessionExpired => create_loop create children path guid (S i) n ErrSessionExpired
      | inl ErrConnectionClosed =>
          match children i with
          | inl e => Returns (inl e)
          | inr cs =>
              match find_protected guid cs with
              | Panics => Panics
              | Returns (Some p) => Returns (inr (rootPath path guid +:+ "/" +:+ p))
              | Returns None => create_loop create children path guid (S i) n ErrConnectionClosed
              end
          end
      | inl e => Returns (inl e)
      end
  end.

Definition CreateProtectedEphemeralSequential (create : nat → zkError + string) (children : nat → zkError + list string)
    (path guid : string) : go (zkError + string) :=
  create_loop create children path guid 0 3 ErrUnknown.

(** ** Properties *)

Definition wf_multi {mem : Memory} (o : MultiOp) : Prop :=
  match o with
  | MCreate r => wf_val CreateRequest r
  | MSetData r => wf_val SetDataRequest r
  | MDelete r => wf_val DeleteRequest r
  | MCheck r => wf_val CheckVersionRequest r
  end.

Lemma wf_multi_header {mem : Memory} op : 0 ≤ op < 100 → wf_val multiHeader (op, (false, (-1, tt))).
Proof. intros. cbn. unfold is_i32. repeat split; lia. Qed.

Lemma multi_request_ok {mem : Memory} o : wf_multi o → multi_op (multi_request_op o).
Proof.
  intros Ho. destruct o; (split; [done|split; [done|split; [by apply wf_multi_header|exact Ho]]]).
Qed.

(** The packet of a multi request, written into any buffer that is long enough, is read back as
    the operations [Multi] was given, in their order and each with its kind. *)
Theorem multi_round_trip {mem : Memory} (ops : list MultiOp) (a : list Z) r :
  c_pkt (Multi ops) = PktMulti r → Forall wf_multi ops → (length (multi_wire r) ≤ length a)%nat →
  ∃ b, encodePacket (whole a) (c_pkt (Multi ops)) = Got (b, Z.of_nat (length (multi_wire r))) ∧
    multiRequest_Decode b = Some (Got (r, Z.of_nat (length (multi_wire r)))) ∧
    mr_Ops r = multi_request_op <$> ops.
Proof.
  intros [= Hr] Hwf Hlen. unfold Multi. cbn [c_pkt]. rewrite Hr. eexists. split; [by apply (encodePacket_fits (PktMulti r))|]. split; [|by subst r].
  cbn [packet_wire]. apply multi_reads.
  - subst r. cbn. apply Forall_fmap. eapply Forall_impl; [exact Hwf|]. apply multi_request_ok.
  - subst r. cbn. unfold is_i32. repeat split; lia.
  - by subst r.
  - rewrite length_app. lia.
Qed.

(** A node name that [find_protected] can look at. *)
Definition readable (p : string) : Prop :=
  let pth := List.last (Split p "/") "" in HasPrefix pth protectedPrefix = true → (35 ≤ String.length pth)%nat.
Definition carries (guid p : string) : Prop :=
  let pth := List.last (Split p "/") "" in HasPrefix pth protectedPrefix = true ∧ String.substring 3 32 pth = guid.

Lemma find_protected_spec guid cs : Forall readable cs →
  ∃ o, find_protected guid cs = Returns o ∧
    match o with
    | Some p => p ∈ cs ∧ carries guid p
    | None => Forall (λ p, ¬ carries guid p) cs
    end.
Proof.
  intros Hcs. induction Hcs as [|p cs Hp Hcs (o & Ho & IH)]; [by exists None|]. cbn [find_protected].
  assert (Hskip : ¬ carries guid p → ∃ o, find_protected guid cs = Returns o ∧
    match o with Some p' => p' ∈ p :: cs ∧ carries guid p' | None => Forall (λ p, ¬ carries guid p) (p :: cs) end).
  { intros Hn. exists o. split; [done|]. destruct o; [destruct IH; split; [by right|done]|by constructor]. }
  unfold readable in Hp. destruct (HasPrefix (List.last (Split p "/") "") protectedPrefix) eqn:Hpre.
  - specialize (Hp eq_refl). rewrite bool_decide_eq_false_2 by lia. case_bool_decide as Hg.
    + exists (Some p). split; [done|]. split; [by left|]. by split.
    + apply Hskip. by intros [_ ?].
  - apply Hskip. intros [? _]. congruence.
Qed.

Lemma substring_app_skip n m a s : String.length a = n → String.substring n m (a +:+ s) = String.substring 0 m s.
Proof. revert n. induction a as [|x a IH]; intros [|n] [=]; [done|]. rewrite sapp_cons. by apply IH. Qed.

Lemma substring_prefix g s : String.substring 0 (String.length g) (g +:+ s) = g.
Proof.
  induction g as [|x g IH]; [by destruct s|]. rewrite sapp_cons. cbn [String.length String.substring]. by rewrite IH.
Qed.

(** The name under which the server lists the node it created for [path]: the last part of the
    protected path and a sequence number. *)
Definition created_name (path guid seq : string) : string :=
  protectedPrefix +:+ guid +:+ "-" +:+ List.last (Split path "/") "" +:+ seq.

Lemma created_name_carries path guid seq : String.length guid = 32%nat → has_no "/" guid = true →
  has_no "/" (List.last (Split path "/") "") = true → has_no "/" seq = true → carries guid (created_name path guid seq).
Proof.
  intros Hl Hg Hp Hs. unfold carries, created_name.
  assert (Hno : has_no "/" (protectedPrefix +:+ guid +:+ "-" +:+ List.last (Split path "/") "" +:+ seq) = true).
  { unfold has_no in *. by rewrite !all_bytes_app, Hg, Hp, Hs. }
  rewrite (Split_no _ _ Hno). cbn [List.last]. split; [apply HasPrefix_app|].
  rewrite (substring_app_skip 3 32 protectedPrefix) by done. rewrite <- Hl at 1. apply substring_prefix.
Qed.

(** C37: When the answer to the creation of a protected node is lost with the connection, the node is
    found again by its identifier: the loop returns a child that carries it, without
    a second creation, whatever later creations would answer. *)
Theorem protected_not_created_twice create children path guid seq cs :
  create 0%nat = inl ErrConnectionClosed → children 0%nat = inr cs → Forall readable cs →
  String.length guid = 32%nat → has_no "/" guid = true → has_no "/" (List.last (Split path "/") "") = true →
  has_no "/" seq = true → created_name path guid seq ∈ cs →
  ∃ p, p ∈ cs ∧ carries guid p ∧
    CreateProtectedEphemeralSequential create children path guid = Returns (inr (rootPath path guid +:+ "/" +:+ p)).
Proof.
  intros Hc Hch Hcs Hl Hg Hp Hs Hin. destruct (find_protected_spec guid cs Hcs) as ([p|] & Hf & Hspec).
  - exists p. destruct Hspec. split; [done|]. split; [done|].
    unfold CreateProtectedEphemeralSequential. cbn. by rewrite Hc, Hch, Hf.
  - exfalso. rewrite Forall_forall in Hspec. by apply (Hspec _ Hin), created_name_carries.
Qed.

(** A child whose name begins like a protected one and is too short ends the process. *)
Lemma short_protected_name_panics create children path guid :
  create 0%nat = inl ErrConnectionClosed → children 0%nat = inr ["_c_backup"] →
  CreateProtectedEphemeralSequential create children path guid = Panics.
Proof. intros Hc Hch. unfold CreateProtectedEphemeralSequential. cbn. by rewrite Hc, Hch. Qed.

(** What a server answers to [Get] is what the caller gets: the run of the connection from the call
    to the answer, with the value decoded by the call. *)
Lemma get_through_connection {mem : Memory} bufferSize reconnectDelay range s buf path zxid data (stat : den Stat) :
  (∀ A n (l : list A), range A n l ≡ₚ l) →
  reached bufferSize reconnectDelay range s → idle bufferSize s buf → is_i64 zxid →
  wf_val getDataResponse (data, (stat, tt)) →
  17 + Z.of_nat (String.length path) ≤ Z.of_nat bufferSize →
  32 + Z.of_nat (length (wire getDataResponse (data, (stat, tt)))) ≤ Z.of_nat bufferSize < 2 ^ 32 →
  let c := Get path in
  ∃ s' d (v : option (tden (c_target c))), run bufferSize reconnectDelay range
      [MQueue (c_op c) (c_pkt c) (c_target c) (c_recvFunc c); MPush 0; MSend SNext; MSend (SWrote None);
       MRecv (RFrame (reply_frame (xid_of (nid (q s))) zxid getDataResponse (data, (stat, tt)))); MRecv RGo] s = Next s' ∧
    log (q s') = log (q s) ++ [(nid (q s), d)] ∧
    d = mkDelivery zxid (dl_err d) (dl_target := c_target c) v (dl_ech d) ∧
    c_ret c (dl_err d) v (dl_ech d) = inr (data, stat).
Proof.
  intros Hperm Hr Hid Hz Hv Hp Hb c.
  destruct (request_way bufferSize reconnectDelay range Hperm s buf opGetData (Pkt getDataRequest (path, (false, tt)))
              getDataResponse NoRecvFunc zxid (data, (stat, tt)) Hr Hid) as (_ & s' & Hs' & Hl & _); try done.
  { change (packet_wire _) with (block (string_bytes path) ++ [0]). unfold block.
    rewrite !length_app, be_bytes_length, string_bytes_length. cbn [length]. lia. }
  eexists s', _, _. split; [exact Hs'|]. split; [exact Hl|]. cbn. done.
Qed.
