(* ===== verification/ZkRuns.v ===== *)
(** * Runs of the ZooKeeper client

    Concrete runs of ZkConn.v: instances of the theorems of ZkConnProps.v, ZkConnSafe.v and ZkOps.v, and
    the behaviours that look unintended. *)

From Stdlib Require Import Ascii.
From stdpp Require Import base strings list numbers gmap.
From S2P Require Import Prelude GoStd Md5 Bytes Errors ZkWire ZkConn ZkConnProps ZkConnSafe ZkOps.

Open Scope Z_scope.

(** Maps are ranged over in the order of their keys, the buffers are 256 bytes long, and there is
    memory enough. *)
Definition in_order : ∀ A, nat → list A → list A := λ A _ l, l.

Lemma in_order_perm A n (l : list A) : in_order A n l ≡ₚ l.
Proof. done. Qed.

#[local] Existing Instance plenty.

Abbreviation zrun := (run 256 0 in_order).
Abbreviation zstep := (step 256 0 in_order).

Definition conn0 : sys :=
  mkSys (mkSession 0 0 10000 emptyPassword) (mkDial ["zk1:2181"; "zk2:1"] 0 (-1)) StateDisconnected (mkEventChan [] false) false
    (mkQueue 0 0 [] [] ∅ ∅ [] [] []) (mkWatch ∅ ∅ 0) (mkThreads AtConnect SOff ROff false 0 ∅ [] 0).

Lemma conn0_connects : ConnectWithDialer (λ i, i) ["zk1"; "zk2:1"] 10000000000 = Some conn0.
Proof. reflexivity. Qed.

(** A server that grants the session [sid] for [ms] milliseconds. *)
Definition accept (sid ms : Z) : auth_io :=
  let body := wire connectResponse (0, (ms, (sid, (Some (replicate 16 9), tt)))) in
  mkAuthIo None (inr (be_bytes 4 (Z.of_nat (length body)))) (inr body).

Definition after (ms : list move) : sys := match zrun ms conn0 with Next s => s | _ => conn0 end.

(** Run a connection from the start, and check that the run is possible. *)
Lemma after_reached ms : zrun ms conn0 = Next (after ms) → Z.of_nat (nid (q (after ms))) < 2 ^ 31 → reached 256 0 in_order (after ms).
Proof. intros Hr Hn. by exists (λ i, i), ["zk1"; "zk2:1"], 10000000000, conn0, ms. Qed.

Definition connects : list move := [MLoop LGo; MLoop (LDial true); MLoop (LAuth (accept 77 9000)); MLoop LGo; MLoop LGo].
Definition call {A} (c : Call A) : list move := [MQueue (c_op c) (c_pkt c) (c_target c) (c_recvFunc c); MPush 0; MSend SNext].
Definition sent {A} (c : Call A) : list move := call c ++ [MSend (SWrote None)].

Definition stat0 : den Stat := (1, (2, (3, (4, (5, (6, (7, (8, (9, (10, (11, tt))))))))))).

(** Two requests, the first answered, the write of the second failed. *)
Definition run_failed_write : list move :=
  connects ++ sent (GetW "/a") ++
  [MRecv (RFrame (reply_frame 1 5 getDataResponse (Some [1; 2], (stat0, tt)))); MRecv RGo] ++
  call (Get "/b") ++ [MSend (SWrote (Some (ErrNet "broken pipe")))].

Lemma requests_answered_once_witness :
  answers (after run_failed_write) 0 = 1%nat ∧
  (answers (after run_failed_write) 1 + count_occ Nat.eq_dec (ids (pending_sys (after run_failed_write))) 1 = 2)%nat.
Proof.
  split; [vm_compute; reflexivity|].
  pose proof (requests_answered_once 256 0 in_order in_order_perm (after run_failed_write) 1%nat) as H.
  assert (Hw : wfailed (q (after run_failed_write)) = [1%nat]) by (vm_compute; reflexivity).
  rewrite Hw, decide_True in H by (by left).
  apply H; [apply after_reached; vm_compute; reflexivity|apply Nat.ltb_lt; vm_compute; reflexivity].
Defined.

Definition get_b : request := mkRequest 1 2 opGetData (Pkt getDataRequest ("/b", (false, tt))) (TgtTy getDataResponse) NoRecvFunc.

(** The answer of a request that is in flight. *)
Definition run_in_flight : list move := connects ++ sent (GetW "/a") ++ sent (Get "/b").

Lemma answers_never_block_witness :
  deliver get_b (failure get_b ErrConnectionClosed) (q (after run_in_flight)) ≠ Stuck.
Proof.
  apply (answers_never_block 256 0 in_order in_order_perm).
  - apply after_reached; vm_compute; reflexivity.
  - unfold pending_sys, pending. rewrite !elem_of_app. right. left.
    assert (H : registered (q (after run_in_flight)) (pc (th (after run_in_flight))) !! 0%nat = Some get_b) by (vm_compute; reflexivity).
    by apply list_elem_of_lookup_2 in H.
  - assert (Hw : wfailed (q (after run_in_flight)) = []) by (vm_compute; reflexivity). rewrite Hw. apply not_elem_of_nil.
Defined.

(** The connection is closed while a second caller queues a request. *)
Definition run_closed : list move :=
  connects ++ [MClose; MPush 0; MSend SNext; MSend (SWrote None); MQueue opGetData (Pkt getDataRequest ("/b", (false, tt))) (TgtTy getDataResponse) NoRecvFunc; MPush 0;
    MRecv (RFrame (wire responseHeader (1, (6, (0, tt))))); MRecv RGo; MSend SStop] ++
  replicate 7 (MLoop LGo).

Lemma closed_connection_witness :
  pc (th (after run_closed)) = Finished ∧
  answers (after run_closed) 1 = 0%nat ∧
  (∀ ms s', zrun ms (after run_closed) = Next s' → answers s' 1 = 0%nat).
Proof.
  assert (Hf : pc (th (after run_closed)) = Finished) by (vm_compute; reflexivity).
  assert (Hr : reached 256 0 in_order (after run_closed)) by (apply after_reached; vm_compute; reflexivity).
  destruct (closed_connection 256 0 in_order in_order_perm (after run_closed) Hr Hf) as [_ H].
  split; [exact Hf|]. split; [vm_compute; reflexivity|]. intros ms s'. apply H. left.
  assert (Hu : ids (unsent (q (after run_closed))) = [1%nat]) by (vm_compute; reflexivity).
  rewrite Hu. by left.
Defined.

Lemma watches_fire_once_witness :
  winv (w (after run_in_flight)) ∧ ∃ s', invalidateWatches in_order ErrSessionExpired (after run_in_flight) = Next s' ∧ watchers (w s') = ∅.
Proof.
  destruct (watches_fire_once 256 0 in_order in_order_perm (after run_in_flight)
              (mkEvent EventNodeDeleted 3 "/a" None "") ErrSessionExpired) as (H1 & _ & H2).
  - apply after_reached; vm_compute; reflexivity.
  - split; [exact H1|exact H2].
Defined.

(** An event of the server that is 241 bytes long. *)
Definition long_event : list Z := be_bytes 4 (-1) ++ replicate 237 0.

Lemma conn_panics_witness :
  zstep (MRecv (RFrame long_event)) (after connects) = Crash ∧ panic_cause 256 (after connects) (MRecv (RFrame long_event)).
Proof.
  assert (Hc : zstep (MRecv (RFrame long_event)) (after connects) = Crash) by (vm_compute; reflexivity).
  split; [exact Hc|]. apply (conn_panics 256 0 in_order in_order_perm).
  - apply after_reached; vm_compute; reflexivity.
  - apply Nat.leb_le. vm_compute. reflexivity.
  - exact Hc.
Defined.

Lemma request_round_trip_witness :
  let s := after connects in
  ∃ s', zrun [MQueue opCreate (c_pkt (Create "/a" None 0 (WorldACL 31))) (TgtTy createResponse) NoRecvFunc; MPush 0; MSend SNext;
              MSend (SWrote None); MRecv (RFrame (reply_frame 1 8 createResponse ("/a", tt))); MRecv RGo] s = Next s' ∧
    answers s' 0 = 1%nat.
Proof.
  intros s.
  destruct (request_round_trip 256 0 in_order in_order_perm s (replicate 256 0) opCreate (c_pkt (Create "/a" None 0 (WorldACL 31)))
              createResponse NoRecvFunc 8 ("/a", tt)) as (_ & s' & Hs' & Hl & _).
  - apply after_reached; vm_compute; reflexivity.
  - split; try (vm_compute; reflexivity). split; vm_compute; reflexivity.
  - discriminate.
  - unfold is_i64. lia.
  - cbn. split; [lia|exact I].
  - vm_compute. discriminate.
  - split; vm_compute; [discriminate|reflexivity].
  - exists s'. split; [exact Hs'|]. unfold answers. rewrite Hl. vm_compute. reflexivity.
Defined.

Lemma multi_round_trip_witness :
  let ops := [MCreate ("/a", (Some [7], (WorldACL 31, (0, tt)))); MDelete ("/b", (-1, tt))] in
  ∃ b n, encodePacket (whole (replicate 128 0)) (c_pkt (Multi ops)) = Got (b, n) ∧
    multiRequest_Decode b = Some (Got (mkMultiRequest (multi_request_op <$> ops) (-1, (true, (-1, tt))), n)).
Proof.
  intros ops.
  destruct (multi_round_trip ops (replicate 128 0) (mkMultiRequest (multi_request_op <$> ops) (-1, (true, (-1, tt)))) eq_refl)
    as (b & Hb & Hd & _).
  - repeat constructor; cbn; unfold is_i32; lia.
  - apply Nat.leb_le. vm_compute. reflexivity.
  - exists b. eexists. split; [exact Hb|exact Hd].
Defined.

Definition guid0 : string := "0123456789abcdef0123456789abcdef".

Lemma protected_not_created_twice_witness :
  ∃ p, p ∈ ["lock-1"; created_name "/locks/n" guid0 "0000000002"] ∧ carries guid0 p ∧
    CreateProtectedEphemeralSequential (λ _, inl ErrConnectionClosed)
      (λ _, inr ["lock-1"; created_name "/locks/n" guid0 "0000000002"]) "/locks/n" guid0 =
    Returns (inr (rootPath "/locks/n" guid0 +:+ "/" +:+ p)).
Proof.
  apply (protected_not_created_twice _ _ "/locks/n" guid0 "0000000002" ["lock-1"; created_name "/locks/n" guid0 "0000000002"]);
    try reflexivity.
  - constructor; [intros H; vm_compute in H; discriminate|]. constructor; [|constructor].
    intros _. apply Nat.leb_le. vm_compute. reflexivity.
  - right. by left.
Defined.

(** A connection that was lost. *)
Definition run_lost : list move :=
  connects ++ sent (GetW "/a") ++
  [MRecv (RFrame (reply_frame 1 5 getDataResponse (Some [1; 2], (stat0, tt)))); MRecv RGo; MRecv RFail; MSend SStop] ++ replicate 4 (MLoop LGo).

Lemma connect_tries_all_witness :
  ∃ s', zrun [MLoop LGo; MLoop (LDial false)] (after run_lost) = Next s' ∧ serverIndex (dial s') = 0 ∧
    ∃ s'', zrun [MLoop LGo] s' = Next s'' ∧ pc (th s'') = FlushUnsent ErrNoServer ThenWait.
Proof.
  destruct (connect_tries_all 256 0 in_order (after run_lost)) with (k := 1%nat) as (s' & Hs' & _ & _ & Hi & Hl).
  - apply Nat.leb_le. vm_compute. reflexivity.
  - apply (reached_sane 256 0 in_order); [apply Nat.leb_le; vm_compute; reflexivity|].
    apply after_reached; vm_compute; reflexivity.
  - vm_compute. reflexivity.
  - vm_compute. reflexivity.
  - vm_compute. reflexivity.
  - exists s'. split; [exact Hs'|]. split; [rewrite Hi; vm_compute; reflexivity|]. apply Hl. vm_compute. reflexivity.
Defined.

Lemma watches_resumed_witness :
  "/a" ∈ watch_paths watchTypeData (in_order _ (ticks (th (after run_lost))) (map_to_list (watchers (w (after run_lost))))).
Proof.
  apply (watches_resumed in_order in_order_perm). exists [0%nat]. split; [vm_compute; reflexivity|discriminate].
Defined.

(** ** Behaviours that look unintended *)

(** A second [Close] panics. *)
Lemma close_twice_panics : zrun (connects ++ [MClose; MClose]) conn0 = Crash.
Proof. vm_compute. reflexivity. Qed.

(** The caller of [Close] leaves after a second.  When the write of its request failed, the
    flush that follows finds the channel of the request full and waits, with the lock of the requests
    held: no input of the loop is possible, and the channel of events is not closed. *)
Definition run_close_unread : list move :=
  connects ++ [MClose; MPush 0; MSend SNext; MSend (SWrote (Some (ErrNet "i/o timeout"))); MRecv RFail; MLoop LGo; MLoop LGo].

Lemma close_blocks_loop x : zstep (MLoop x) (after run_close_unread) = Stuck ∧ ec_closed (ec (after run_close_unread)) = false.
Proof.
  destruct x as [| | |ok|io]; split; vm_compute; reflexivity.
Qed.

(** The socket of a session that expired is not closed when the next one is opened. *)
Lemma expired_session_leaks :
  open_socks (th (after ([MLoop LGo; MLoop (LDial true); MLoop (LAuth (accept 0 9000)); MLoop LGo; MLoop LGo; MLoop LGo; MLoop LGo; MLoop LGo;
                          MLoop LTimer; MLoop (LDial true)]))) = {[1%nat; 2%nat]}.
Proof. vm_compute. reflexivity. Qed.

(** A session without a timeout panics in the ticker of [sendLoop]. *)
Lemma zero_timeout_panics : zrun [MLoop LGo; MLoop (LDial true); MLoop (LAuth (accept 77 0)); MLoop LGo] conn0 = Crash.
Proof. vm_compute. reflexivity. Qed.

(** A frame of four bytes with the number of a request: the rest of its header and its answer
    are read from the frame before it, so that the second creation returns the path of the first. *)
Definition run_short_frame : list move :=
  connects ++ sent (Create "/first" None 0 []) ++ [MRecv (RFrame (reply_frame 1 8 createResponse ("/first", tt))); MRecv RGo] ++
  sent (Create "/other" None 0 []) ++ [MRecv (RFrame (be_bytes 4 2)); MRecv RGo].

Lemma short_frame_answers_with_old_path :
  log (q (after run_short_frame)) =
    [(0%nat, mkDelivery 8 None (dl_target := TgtTy createResponse) (Some ("/first", tt)) None);
     (1%nat, mkDelivery 8 None (dl_target := TgtTy createResponse) (Some ("/first", tt)) None)].
Proof. vm_compute. reflexivity. Qed.

(** Four bytes from the server end a process on a machine that cannot give four gigabytes. *)
Lemma long_frame_ends_process :
  run (mem := small_machine) 256 0 in_order (connects ++ [MRecv (RCut (2 ^ 32 - 1))]) conn0 = Crash.
Proof. vm_compute. reflexivity. Qed.
