(* ===== verification/ProtoWire.v ===== *)
(** * Protocol buffers: the registration of a Mesos master

    mesos-go/mesosproto/mesos.pb.go (generated) for [MasterInfo] and [Address]: what the
    masters write to ZooKeeper and what the detector and the proxy read from it, with
    [proto.Unmarshal] of the vendored gogo/protobuf in front.  The code reads bytes at an index
    that may overflow: indices are [int], 64 bits.  Output is a list of bytes; [Size], by which
    the source allocates the buffer, is shown to be its length.  The bytes of
    unknown fields are skipped and not kept. *)

From Stdlib Require Import Ascii.
From stdpp Require Import base strings list numbers.
From S2P Require Import Prelude GoStd Errors Md5 Bytes Mesos World Zk.

Open Scope Z_scope.

(** ** Results *)

Inductive protoError :=
  | ErrIntOverflowMesos
  | ErrInvalidLengthMesos
  | ErrUnexpectedEOF
  | EndGroup
  | IllegalTag
  | WrongWireType
  | IllegalWireType
  | RequiredNotSet (field : string).

Inductive pres (A : Type) := PGot (a : A) | PErr (e : protoError) | PPanic.
Arguments PGot {A} a.
Arguments PErr {A} e.
Arguments PPanic {A}.

#[export] Instance pres_ret : MRet pres := λ A a, PGot a.
#[export] Instance pres_bind : MBind pres := λ A B f m,
  match m with PGot a => f a | PErr e => PErr e | PPanic => PPanic end.

Definition len64 (data : list Z) : Z := Z.of_nat (length data).

(** [data[i]]. *)
Definition byte_of (data : list Z) (i : Z) : pres Z :=
  if (0 <=? i) && (i <? len64 data) then PGot (data !!! Z.to_nat i) else PPanic.

(** [data[i:j]]. *)
Definition slice_of (data : list Z) (i j : Z) : pres (list Z) :=
  if (0 <=? i) && (i <=? j) && (j <=? len64 data)
  then PGot (take (Z.to_nat (j - i)) (drop (Z.to_nat i) data)) else PPanic.

(** ** Variable-length integers *)

(** The loop over [shift]; ten turns bring it to 64.  [wrap] is the width of the variable. *)
Fixpoint varint_loop (wrap : Z → Z) (data : list Z) (turns : nat) (shift i acc : Z) : pres (Z * Z) :=
  match turns with
  | O => PErr ErrIntOverflowMesos
  | S turns =>
      if len64 data <=? i then PErr ErrUnexpectedEOF else
      b ← byte_of data i;
      let acc := Z.lor acc (wrap (Z.shiftl (Z.land b 0x7F) shift)) in
      if b <? 0x80 then PGot (acc, i + 1) else varint_loop wrap data turns (shift + 7) (i + 1) acc
  end.

Definition varint (wrap : Z → Z) (data : list Z) (i : Z) : pres (Z * Z) := varint_loop wrap data 10 0 i 0.

Fixpoint encodeVarint (turns : nat) (v : Z) : list Z :=
  match turns with
  | O => []
  | S turns => if v <? 0x80 then [v] else Z.lor (Z.land v 0x7f) 0x80 :: encodeVarint turns (Z.shiftr v 7)
  end.

Definition encodeVarintMesos (v : Z) : list Z := encodeVarint 10 v.

Fixpoint sov (turns : nat) (x : Z) : Z :=
  match turns with
  | O => 0
  | S turns => let x := Z.shiftr x 7 in 1 + (if x =? 0 then 0 else sov turns x)
  end.

Definition sovMesos (x : Z) : Z := sov 10 x.

(** ** Fields *)

(** A string or bytes: the length as [uint64], converted to [int]. *)
Definition read_bytes (data : list Z) (i : Z) : pres (list Z * Z) :=
  r ← varint u64 data i;
  let n := i64 r.1 in
  if n <? 0 then PErr ErrInvalidLengthMesos else
  let post := i64 (r.2 + n) in
  if len64 data <? post then PErr ErrUnexpectedEOF else
  s ← slice_of data r.2 post; PGot (s, post).

(** [skipMesos], and its loop over the fields of a group from [i].  [None] is fuel that is
    used up; twice the number of bytes is enough ([skip_ends]). *)
Fixpoint skip (fuel : nat) (data : list Z) : option (pres Z) :=
  match fuel with
  | O => None
  | S fuel =>
      match varint u64 data 0 with
      | PErr e => Some (PErr e)
      | PPanic => Some PPanic
      | PGot (wire, i) =>
          let wt := Z.land wire 7 in
          if wt =? 0 then Some (r ← varint u64 data i; PGot r.2)
          else if wt =? 1 then Some (PGot (i + 8))
          else if wt =? 2 then
            Some (r ← varint u64 data i;
                  let n := i64 r.1 in
                  if n <? 0 then PErr ErrInvalidLengthMesos else PGot (i64 (r.2 + n)))
          else if wt =? 3 then skip_group fuel data i
          else if wt =? 4 then Some (PGot i)
          else if wt =? 5 then Some (PGot (i + 4))
          else Some (PErr IllegalWireType)
      end
  end
with skip_group (fuel : nat) (data : list Z) (i : Z) : option (pres Z) :=
  match fuel with
  | O => None
  | S fuel =>
      match varint u64 data i with
      | PErr e => Some (PErr e)
      | PPanic => Some PPanic
      | PGot (wire, j) =>
          if Z.land wire 7 =? 4 then Some (PGot j) else
          match skip fuel (drop (Z.to_nat i) data) with
          | None => None
          | Some (PGot next) => skip_group fuel data (i64 (i + next))
          | Some (PErr e) => Some (PErr e)
          | Some PPanic => Some PPanic
          end
      end
  end.

(** [skipMesos] loops over an input that is not empty; an empty one is not skipped. *)
Definition skipMesos (data : list Z) : option (pres Z) := skip (2 * length data + 2) data.

(** ** Messages *)

Section Message.
(** The message and the flags of its required fields; [field] decodes a known field from the index after
    its tag, [None] is an unknown one.  The last test of the source, for an index past the end, cannot
    hold after the loop ([unmarshal_turn_ends]). *)
Context {M : Type} (field : Z → Z → list Z → Z → M * Z → option (option (pres (M * Z * Z)))).

Definition tag_field (wire : Z) : Z := i32 (Z.shiftr wire 3).
Definition tag_type (wire : Z) : Z := Z.land wire 7.

(** The field that starts at [pre]. *)
Definition unmarshal_turn (data : list Z) (pre : Z) (m : M * Z) : option (pres (M * Z * Z)) :=
  match varint u64 data pre with
  | PErr e => Some (PErr e)
  | PPanic => Some PPanic
  | PGot (wire, i) =>
      if tag_type wire =? 4 then Some (PErr EndGroup)
      else if tag_field wire <=? 0 then Some (PErr IllegalTag)
      else match field (tag_field wire) (tag_type wire) data i m with
           | Some r => r
           | None =>
               match skipMesos (drop (Z.to_nat pre) data) with
               | None => None
               | Some (PErr e) => Some (PErr e)
               | Some PPanic => Some PPanic
               | Some (PGot n) =>
                   Some (if n <? 0 then PErr ErrInvalidLengthMesos
                         else if len64 data <? i64 (pre + n) then PErr ErrUnexpectedEOF
                         else _ ← slice_of data pre (i64 (pre + n)); PGot (m, i64 (pre + n)))
               end
           end
  end.

Fixpoint unmarshal_loop (fuel : nat) (data : list Z) (i : Z) (m : M * Z) : option (pres (M * Z)) :=
  match fuel with
  | O => None
  | S fuel =>
      if len64 data <=? i then Some (PGot m) else
      match unmarshal_turn data i m with
      | None => None
      | Some (PGot (m, i)) => unmarshal_loop fuel data i m
      | Some (PErr e) => Some (PErr e)
      | Some PPanic => Some PPanic
      end
  end.

Definition unmarshal_fields (data : list Z) (m : M) : option (pres (M * Z)) :=
  unmarshal_loop (S (length data)) data 0 (m, 0).
End Message.

(** A known field whose wire type must be [want]. *)
Definition typed {A} (want wt : Z) (r : pres A) : option (option (pres A)) :=
  Some (Some (if wt =? want then r else PErr WrongWireType)).

(** *** Address *)

Definition address_zero : Address := mkAddress None None None.

Definition address_field (num wt : Z) (data : list Z) (i : Z) (m : Address * Z) : option (option (pres (Address * Z * Z))) :=
  let '(a, has) := m in
  if num =? 1 then
    typed 2 wt (r ← read_bytes data i; PGot (mkAddress (Some (string_of_bytes r.1)) (AddrIp a) (AddrPort a), has, r.2))
  else if num =? 2 then
    typed 2 wt (r ← read_bytes data i; PGot (mkAddress (AddrHostname a) (Some (string_of_bytes r.1)) (AddrPort a), has, r.2))
  else if num =? 3 then
    typed 0 wt (r ← varint u32 data i; PGot (mkAddress (AddrHostname a) (AddrIp a) (Some (i32 r.1)), Z.lor has 1, r.2))
  else None.

Definition Address_Unmarshal (data : list Z) (a : Address) : option (pres Address) :=
  (λ r, m ← r; if Z.land m.2 1 =? 0 then PErr (RequiredNotSet "port") else PGot m.1) <$> unmarshal_fields address_field data a.

(** *** MasterInfo *)

Definition set_Id s (m : MasterInfo) := mkMasterInfo (Some s) (MIIp m) (MIPort m) (MIHostname m) (MIAddress m) (MIPid m) (MIVersion m).
Definition set_Ip z (m : MasterInfo) := mkMasterInfo (MIId m) (Some z) (MIPort m) (MIHostname m) (MIAddress m) (MIPid m) (MIVersion m).
Definition set_Port z (m : MasterInfo) := mkMasterInfo (MIId m) (MIIp m) (Some z) (MIHostname m) (MIAddress m) (MIPid m) (MIVersion m).
Definition set_Hostname s (m : MasterInfo) := mkMasterInfo (MIId m) (MIIp m) (MIPort m) (Some s) (MIAddress m) (MIPid m) (MIVersion m).
Definition set_Address a (m : MasterInfo) := mkMasterInfo (MIId m) (MIIp m) (MIPort m) (MIHostname m) (Some a) (MIPid m) (MIVersion m).
Definition set_Pid s (m : MasterInfo) := mkMasterInfo (MIId m) (MIIp m) (MIPort m) (MIHostname m) (MIAddress m) (Some s) (MIVersion m).
Definition set_Version s (m : MasterInfo) := mkMasterInfo (MIId m) (MIIp m) (MIPort m) (MIHostname m) (MIAddress m) (MIPid m) (Some s).

(** A string field. *)
Definition string_field (set : string → MasterInfo → MasterInfo) (flag wt : Z) (data : list Z) (i : Z) (m : MasterInfo * Z)
    : option (option (pres (MasterInfo * Z * Z))) :=
  typed 2 wt (r ← read_bytes data i; PGot (set (string_of_bytes r.1) m.1, Z.lor m.2 flag, r.2)).

Definition uint32_field (set : Z → MasterInfo → MasterInfo) (flag wt : Z) (data : list Z) (i : Z) (m : MasterInfo * Z)
    : option (option (pres (MasterInfo * Z * Z))) :=
  typed 0 wt (r ← varint u32 data i; PGot (set r.1 m.1, Z.lor m.2 flag, r.2)).

(** The address is merged into the one read before it. *)
Definition nested_address (data : list Z) (i : Z) (m : MasterInfo * Z) : option (pres (MasterInfo * Z * Z)) :=
  match read_bytes data i with
  | PErr e => Some (PErr e)
  | PPanic => Some PPanic
  | PGot (bs, post) =>
      (λ r, a ← r; PGot (set_Address a m.1, m.2, post)) <$> Address_Unmarshal bs (default address_zero (MIAddress m.1))
  end.

Definition master_field (num wt : Z) (data : list Z) (i : Z) (m : MasterInfo * Z)
    : option (option (pres (MasterInfo * Z * Z))) :=
  if num =? 1 then string_field set_Id 1 wt data i m
  else if num =? 2 then uint32_field set_Ip 2 wt data i m
  else if num =? 3 then uint32_field set_Port 4 wt data i m
  else if num =? 4 then string_field set_Pid 0 wt data i m
  else if num =? 5 then string_field set_Hostname 0 wt data i m
  else if num =? 6 then string_field set_Version 0 wt data i m
  else if num =? 7 then Some (if wt =? 2 then nested_address data i m else Some (PErr WrongWireType))
  else None.

Definition required (m : MasterInfo * Z) : pres MasterInfo :=
  if Z.land m.2 1 =? 0 then PErr (RequiredNotSet "id")
  else if Z.land m.2 2 =? 0 then PErr (RequiredNotSet "ip")
  else if Z.land m.2 4 =? 0 then PErr (RequiredNotSet "port")
  else PGot m.1.

Definition MasterInfo_Unmarshal (data : list Z) (m : MasterInfo) : option (pres MasterInfo) :=
  (λ r, m ← r; required m) <$> unmarshal_fields master_field data m.

(** [proto.Unmarshal]: [Reset], then the method of the message. *)
Definition Unmarshal (data : list Z) : option (pres MasterInfo) := MasterInfo_Unmarshal data master_info_zero.

(** ** Marshalling *)

Definition bytes_field (tag : Z) (bs : list Z) : list Z := tag :: encodeVarintMesos (len64 bs) ++ bs.
Definition opt_field {A} (f : A → list Z) (o : option A) : list Z := match o with None => [] | Some a => f a end.

Definition Address_MarshalTo (a : Address) : pres (list Z) :=
  match AddrPort a with
  | None => PErr (RequiredNotSet "port")
  | Some port =>
      PGot (opt_field (bytes_field 0xa ∘ string_bytes) (AddrHostname a) ++
            opt_field (bytes_field 0x12 ∘ string_bytes) (AddrIp a) ++
            0x18 :: encodeVarintMesos (u64 port))
  end.

Definition str_size (o : option string) : Z :=
  match o with None => 0 | Some s => let l := Z.of_nat (String.length s) in 1 + l + sovMesos l end.

Definition Address_Size (a : Address) : Z :=
  str_size (AddrHostname a) + str_size (AddrIp a) + match AddrPort a with None => 0 | Some p => 1 + sovMesos (u64 p) end.

Definition MasterInfo_MarshalTo (m : MasterInfo) : pres (list Z) :=
  match MIId m, MIIp m, MIPort m with
  | None, _, _ => PErr (RequiredNotSet "id")
  | _, None, _ => PErr (RequiredNotSet "ip")
  | _, _, None => PErr (RequiredNotSet "port")
  | Some id, Some ip, Some port =>
      a ← match MIAddress m with
           | None => PGot []
           | Some a => bs ← Address_MarshalTo a; PGot (0x3a :: encodeVarintMesos (Address_Size a) ++ bs)
           end;
      PGot (bytes_field 0xa (string_bytes id) ++ (0x10 :: encodeVarintMesos ip) ++ (0x18 :: encodeVarintMesos port) ++
            opt_field (bytes_field 0x22 ∘ string_bytes) (MIPid m) ++
            opt_field (bytes_field 0x2a ∘ string_bytes) (MIHostname m) ++
            opt_field (bytes_field 0x32 ∘ string_bytes) (MIVersion m) ++ a)
  end.

Definition MasterInfo_Size (m : MasterInfo) : Z :=
  str_size (MIId m) + match MIIp m with None => 0 | Some z => 1 + sovMesos z end +
  match MIPort m with None => 0 | Some z => 1 + sovMesos z end +
  str_size (MIPid m) + str_size (MIHostname m) + str_size (MIVersion m) +
  match MIAddress m with None => 0 | Some a => let l := Address_Size a in 1 + l + sovMesos l end.

(** ** Varints are read back *)

(** What the loops need of the width: it keeps the low bits. *)
Class Width (wrap : Z → Z) := { wrap_lor a b : wrap (Z.lor a b) = Z.lor (wrap a) (wrap b) }.

Lemma mod_pow2_lor k a b : 0 ≤ k → Z.lor a b mod 2 ^ k = Z.lor (a mod 2 ^ k) (b mod 2 ^ k).
Proof. intros. by rewrite <- !Z.land_ones, Z.land_lor_distr_l. Qed.

#[export] Instance u64_width : Width u64.
Proof. split. intros. by apply mod_pow2_lor. Qed.
#[export] Instance u32_width : Width u32.
Proof. split. intros. by apply mod_pow2_lor. Qed.

Lemma len64_app a b : len64 (a ++ b) = len64 a + len64 b.
Proof. unfold len64. rewrite length_app. lia. Qed.
Lemma len64_cons a b : len64 (a :: b) = 1 + len64 b.
Proof. unfold len64. simpl. lia. Qed.
Lemma len64_nonneg a : 0 ≤ len64 a.
Proof. unfold len64. lia. Qed.

Lemma byte_of_at pre b post : byte_of (pre ++ b :: post) (len64 pre) = PGot b.
Proof.
  unfold byte_of. rewrite len64_app, len64_cons. pose proof (len64_nonneg pre). pose proof (len64_nonneg post).
  bounds. unfold len64. rewrite Nat2Z.id, lookup_total_app_r, Nat.sub_diag; done.
Qed.

Lemma slice_of_at pre bs post : slice_of (pre ++ bs ++ post) (len64 pre) (len64 pre + len64 bs) = PGot bs.
Proof.
  unfold slice_of. rewrite !len64_app. pose proof (len64_nonneg pre). pose proof (len64_nonneg bs).
  pose proof (len64_nonneg post). bounds. rewrite Z.add_simpl_l. unfold len64. rewrite !Nat2Z.id.
  by rewrite drop_app_length, take_app_length.
Qed.

Lemma land_127 z : Z.land z 0x7f = z mod 128.
Proof. exact (Z.land_ones z 7 ltac:(lia)). Qed.

(** Seven bits with the continuation bit. *)
Lemma more_byte v : 128 ≤ Z.lor (Z.land v 0x7f) 0x80 ∧ Z.land (Z.lor (Z.land v 0x7f) 0x80) 0x7f = Z.land v 0x7f.
Proof.
  split.
  - assert (0 ≤ Z.land v 0x7f) by (rewrite land_127; by apply Z.mod_pos_bound).
    assert (Hp : 0 ≤ Z.lor (Z.land v 0x7f) 0x80) by (apply Z.lor_nonneg; lia).
    apply Z.nlt_ge. intros Hlt. assert (Hl : Z.log2 (Z.lor (Z.land v 0x7f) 0x80) ≤ 6).
    { destruct (decide (Z.lor (Z.land v 0x7f) 0x80 = 0)) as [->|]; [done|].
      enough (Z.log2 (Z.lor (Z.land v 0x7f) 0x80) < 7) by lia. apply Z.log2_lt_pow2; simpl; lia. }
    rewrite Z.log2_lor in Hl by lia. change (Z.log2 0x80) with 7 in Hl. lia.
  - rewrite Z.land_lor_distr_l, <- Z.land_assoc. change (Z.land 0x7f 0x7f) with 0x7f. change (Z.land 0x80 0x7f) with 0.
    apply Z.lor_0_r.
Qed.

Lemma split_7 v : Z.lor (Z.land v 0x7f) (Z.shiftl (Z.shiftr v 7) 7) = v.
Proof.
  apply Z.bits_inj'. intros n Hn. rewrite Z.lor_spec, Z.land_spec, Z.shiftl_spec by done.
  change 0x7f with (Z.ones 7). destruct (Z.lt_ge_cases n 7).
  - rewrite Z.ones_spec_low, (Z.testbit_neg_r _ (n - 7)) by lia. by rewrite andb_true_r, orb_false_r.
  - rewrite Z.ones_spec_high, Z.shiftr_spec by lia. rewrite andb_false_r. simpl. f_equal. lia.
Qed.

Lemma varint_loop_reads `{Width wrap} turns v pre post shift acc :
  0 ≤ v < 2 ^ (7 * Z.of_nat turns) → 0 ≤ shift → (0 < turns)%nat →
  varint_loop wrap (pre ++ encodeVarint turns v ++ post) turns shift (len64 pre) acc =
  PGot (Z.lor acc (wrap (Z.shiftl v shift)), len64 pre + len64 (encodeVarint turns v)).
Proof.
  revert v pre shift acc. induction turns as [|turns IH]; intros v pre shift acc Hv Hs Ht; [lia|].
  assert (Hin : ∀ b r, (len64 (pre ++ (b :: r) ++ post) <=? len64 pre) = false).
  { intros. rewrite !len64_app, len64_cons. pose proof (len64_nonneg r). pose proof (len64_nonneg post). apply Z.leb_gt. lia. }
  cbn [encodeVarint varint_loop]. destruct (Z.ltb_spec v 0x80) as [Hsmall|Hbig]; rewrite Hin, <- app_comm_cons, byte_of_at;
    cbn [mbind pres_bind].
  - rewrite (proj2 (Z.ltb_lt v 0x80)) by done. rewrite land_127, Z.mod_small by lia. done.
  - destruct (more_byte v) as [Hm Hl]. rewrite (proj2 (Z.ltb_ge _ _) Hm), Hl.
    rewrite (cons_middle _ pre), app_assoc.
    replace (len64 pre + 1) with (len64 (pre ++ [Z.lor (Z.land v 0x7f) 0x80])) by (rewrite len64_app; done).
    destruct turns as [|turns]; [change (2 ^ (7 * Z.of_nat 1)) with 128 in Hv; lia|].
    replace (7 * Z.of_nat (S (S turns))) with (7 * Z.of_nat (S turns) + 7) in Hv by lia.
    rewrite Z.pow_add_r in Hv by lia. rewrite IH.
    + do 2 f_equal; [|rewrite len64_app, !len64_cons; unfold len64; simpl length; lia].
      rewrite <- Z.lor_assoc, <- wrap_lor. do 2 f_equal.
      rewrite <- (split_7 v) at 3. rewrite Z.shiftl_lor, Z.shiftl_shiftl by lia. do 2 f_equal. lia.
    + rewrite Z.shiftr_div_pow2 by lia. split; [apply Z.div_pos; lia|]. apply Z.div_lt_upper_bound; lia.
    + lia.
    + lia.
Qed.

Lemma varint_reads `{Width wrap} v pre post : 0 ≤ v < 2 ^ 64 →
  varint wrap (pre ++ encodeVarintMesos v ++ post) (len64 pre) = PGot (wrap v, len64 pre + len64 (encodeVarintMesos v)).
Proof.
  intros. unfold varint, encodeVarintMesos. rewrite varint_loop_reads by lia. by rewrite Z.shiftl_0_r, Z.lor_0_l.
Qed.

Lemma encodeVarintMesos_small v : 0 ≤ v < 128 → encodeVarintMesos v = [v].
Proof. intros. unfold encodeVarintMesos, encodeVarint. destruct (Z.ltb_spec v 0x80); [done|lia]. Qed.

Lemma sov_length turns v : 0 ≤ v < 2 ^ (7 * Z.of_nat turns) → (0 < turns)%nat → sov turns v = len64 (encodeVarint turns v).
Proof.
  revert v. induction turns as [|turns IH]; intros v Hv Ht; [lia|]. cbn [sov encodeVarint].
  rewrite Z.shiftr_div_pow2 by lia. change (2 ^ 7) with 128.
  destruct (Z.ltb_spec v 0x80); [rewrite Z.div_small by lia; done|].
  destruct turns as [|turns]; [change (2 ^ (7 * Z.of_nat 1)) with 128 in Hv; lia|].
  assert (1 ≤ v / 128) by (apply Z.div_le_lower_bound; lia). rewrite (proj2 (Z.eqb_neq _ _)) by lia.
  rewrite len64_cons. f_equal. apply IH; [|lia].
  replace (7 * Z.of_nat (S (S turns))) with (7 * Z.of_nat (S turns) + 7) in Hv by lia. rewrite Z.pow_add_r in Hv by lia.
  split; [lia|]. apply Z.div_lt_upper_bound; lia.
Qed.

Lemma sovMesos_length v : 0 ≤ v < 2 ^ 64 → sovMesos v = len64 (encodeVarintMesos v).
Proof. intros. apply sov_length; lia. Qed.

(** ** Fields are read back *)

Lemma i64_id z : 0 ≤ z < 2 ^ 63 → i64 z = z.
Proof. unfold i64. intros. rewrite Z.mod_small; lia. Qed.

Lemma read_bytes_reads pre bs post :
  len64 (pre ++ encodeVarintMesos (len64 bs) ++ bs ++ post) < 2 ^ 63 →
  read_bytes (pre ++ encodeVarintMesos (len64 bs) ++ bs ++ post) (len64 pre) =
  PGot (bs, len64 pre + len64 (encodeVarintMesos (len64 bs)) + len64 bs).
Proof.
  intros Hl. set (n := encodeVarintMesos (len64 bs)) in *. rewrite !len64_app in Hl.
  pose proof (len64_nonneg pre). pose proof (len64_nonneg bs). pose proof (len64_nonneg post). pose proof (len64_nonneg n).
  unfold read_bytes, n. rewrite varint_reads by lia. fold n. cbn [mbind pres_bind fst snd].
  rewrite i64_u64, (i64_id (len64 bs)) by lia. rewrite (proj2 (Z.ltb_ge (len64 bs) 0)) by lia.
  rewrite i64_id by lia. rewrite (proj2 (Z.ltb_ge _ _)) by (rewrite !len64_app; lia).
  rewrite <- len64_app, app_assoc, slice_of_at. done.
Qed.

Section Reads.
Context {M : Type} (field : Z → Z → list Z → Z → M * Z → option (option (pres (M * Z * Z)))).

(** The loop gets past [bs], wherever they stand, and has then [m'] for [m]. *)
Definition reads (bs : list Z) (m m' : M * Z) : Prop := ∀ pre post fuel,
  len64 (pre ++ bs ++ post) < 2 ^ 63 → (length bs ≤ fuel)%nat →
  ∃ fuel', (fuel - length bs ≤ fuel')%nat ∧
    unmarshal_loop field fuel (pre ++ bs ++ post) (len64 pre) m =
    unmarshal_loop field fuel' (pre ++ bs ++ post) (len64 (pre ++ bs)) m'.

Lemma reads_nil m : reads [] m m.
Proof. intros pre post fuel _ _. exists fuel. rewrite app_nil_r. split; [lia|done]. Qed.

Lemma reads_app bs bs' m m' m'' : reads bs m m' → reads bs' m' m'' → reads (bs ++ bs') m m''.
Proof.
  intros H1 H2 pre post fuel Hl Hf. rewrite length_app in Hf.
  destruct (H1 pre (bs' ++ post) fuel) as (f1 & Hf1 & E1); [by rewrite <- !app_assoc in *|lia|].
  destruct (H2 (pre ++ bs) post f1) as (f2 & Hf2 & E2); [by rewrite <- !app_assoc in *|lia|].
  exists f2. rewrite <- !app_assoc in *. split; [rewrite length_app; lia|]. by rewrite E1, E2.
Qed.

(** A known field: its tag, then what [field] reads. *)
Lemma reads_field tag body m m' num wt :
  0 ≤ tag < 128 → Z.land tag 7 = wt → Z.shiftr tag 3 = num → wt ≠ 4 → 0 < num →
  (∀ pre post, len64 (pre ++ body ++ post) < 2 ^ 63 →
     field num wt (pre ++ body ++ post) (len64 pre) m = Some (Some (PGot (m', len64 pre + len64 body)))) →
  reads (tag :: body) m m'.
Proof.
  intros Ht Hwt Hnum H4 Hpos Hf pre post [|fuel] Hl Hfuel; [simpl in Hfuel; lia|].
  exists fuel. split; [simpl; lia|]. cbn [unmarshal_loop].
  rewrite (proj2 (Z.leb_gt _ _)) by (rewrite !len64_app, len64_cons; pose proof (len64_nonneg body); pose proof (len64_nonneg post); lia).
  unfold unmarshal_turn. assert (Henc : tag :: body = encodeVarintMesos tag ++ body) by (by rewrite encodeVarintMesos_small).
  rewrite Henc in *. rewrite <- !app_assoc in *. rewrite varint_reads by lia.
  unfold u64. rewrite Z.mod_small by lia. unfold tag_type, tag_field. rewrite Hwt, Hnum.
  rewrite (proj2 (Z.eqb_neq wt 4)) by done.
  assert (num < 128) by (rewrite <- Hnum, Z.shiftr_div_pow2 by lia; apply Z.div_lt_upper_bound; lia).
  rewrite i32_small by (unfold is_i32; lia). rewrite (proj2 (Z.leb_gt num 0)) by lia.
  rewrite (app_assoc pre) in *. rewrite <- len64_app, Hf by done. by rewrite <- len64_app, <- !app_assoc.
Qed.

Lemma unmarshal_reads bs m m' : len64 bs < 2 ^ 63 → reads bs (m, 0) m' → unmarshal_fields field bs m = Some (PGot m').
Proof.
  intros Hl H. unfold unmarshal_fields. destruct (H [] [] (S (length bs))) as (f & Hf & E); [by rewrite app_nil_r|lia|].
  cbn [app] in E. rewrite app_nil_r in E. change (len64 []) with 0 in E. rewrite E. destruct f as [|f]; [lia|].
  cbn [unmarshal_loop]. by rewrite Z.leb_refl.
Qed.
End Reads.

Lemma reads_bytes {M} field tag num (set : string → M * Z → M * Z) s m :
  0 ≤ tag < 128 → Z.land tag 7 = 2 → Z.shiftr tag 3 = num → 0 < num →
  (∀ data i, field num 2 data i m = Some (Some (r ← read_bytes data i; PGot (set (string_of_bytes r.1) m, r.2)))) →
  reads (M := M) field (bytes_field tag (string_bytes s)) m (set s m).
Proof.
  intros Ht Hw Hn Hp Hf. apply (reads_field _ _ _ _ _ num 2); [done..|]. intros pre post Hl. rewrite Hf.
  rewrite <- app_assoc in *. rewrite read_bytes_reads by done. cbn [mbind pres_bind fst snd].
  rewrite string_of_bytes_of, len64_app. do 4 f_equal. lia.
Qed.

Lemma reads_varint {M} field tag num `{Width wrap} (set : Z → M * Z → M * Z) v m :
  0 ≤ tag < 128 → Z.land tag 7 = 0 → Z.shiftr tag 3 = num → 0 < num → 0 ≤ v < 2 ^ 64 →
  (∀ data i, field num 0 data i m = Some (Some (r ← varint wrap data i; PGot (set r.1 m, r.2)))) →
  reads (M := M) field (tag :: encodeVarintMesos v) m (set (wrap v) m).
Proof.
  intros Ht Hw Hn Hp Hv Hf. apply (reads_field _ _ _ _ _ num 0); [done..|]. intros pre post Hl. rewrite Hf.
  by rewrite varint_reads by done.
Qed.

Lemma reads_opt {M A} field (f : A → list Z) (set : A → M * Z → M * Z) o m :
  (∀ a, o = Some a → reads field (f a) m (set a m)) →
  reads field (opt_field f o) m (match o with None => m | Some a => set a m end).
Proof. destruct o as [a|]; intros H; [by apply H|apply reads_nil]. Qed.

(** ** Address *)

Definition wf_address (a : Address) : Prop := match AddrPort a with Some p => is_i32 p | None => False end.

Lemma u64_range z : 0 ≤ u64 z < 2 ^ 64.
Proof. by apply Z.mod_pos_bound. Qed.

Lemma u32_u64 z : u32 (u64 z) = u32 z.
Proof. unfold u32, u64. change (2 ^ 64) with (2 ^ 32 * 2 ^ 32). by rewrite Z.rem_mul_r, Z.mul_comm, Z_mod_plus_full, Z.mod_mod. Qed.

Lemma Address_reads a : wf_address a →
  ∃ bs, Address_MarshalTo a = PGot bs ∧ (len64 bs < 2 ^ 63 → Address_Unmarshal bs address_zero = Some (PGot a)).
Proof.
  unfold wf_address, Address_MarshalTo. destruct a as [h ip [p|]]; cbn [AddrPort AddrHostname AddrIp]; [|done]. intros Hp.
  eexists; split; [done|]. intros Hl. unfold Address_Unmarshal.
  erewrite (unmarshal_reads _ _ _ (mkAddress h ip (Some p), 1)); [done|done|].
  pose (sh s (m : Address * Z) := (mkAddress (Some s) (AddrIp m.1) (AddrPort m.1), m.2)).
  pose (si s (m : Address * Z) := (mkAddress (AddrHostname m.1) (Some s) (AddrPort m.1), m.2)).
  pose (sp z (m : Address * Z) := (mkAddress (AddrHostname m.1) (AddrIp m.1) (Some (i32 z)), Z.lor m.2 1)).
  eapply reads_app; [|eapply reads_app].
  - apply (reads_opt _ _ sh). intros s ->. by apply (reads_bytes _ _ 1 sh).
  - apply (reads_opt _ _ si). intros s ->. apply (reads_bytes _ _ 2 si); try done. by destruct h.
  - assert (E : (mkAddress h ip (Some p), 1) = sp (u32 (u64 p)) (mkAddress h ip None, 0)).
    { unfold sp. cbn. by rewrite u32_u64, i32_u32, i32_small. }
    replace (match ip with Some a => _ | None => _ end) with (mkAddress h ip None, 0) by (by destruct h, ip).
    rewrite E. apply (reads_varint _ _ 3 sp); try done. apply u64_range.
Qed.

(** ** Sizes *)

Lemma bytes_field_size tag bs : len64 bs < 2 ^ 64 → len64 (bytes_field tag bs) = 1 + len64 bs + sovMesos (len64 bs).
Proof.
  intros. unfold bytes_field. rewrite len64_cons, len64_app, sovMesos_length by (pose proof (len64_nonneg bs); lia). lia.
Qed.

Lemma varint_field_size tag v : 0 ≤ v < 2 ^ 64 → len64 (tag :: encodeVarintMesos v) = 1 + sovMesos v.
Proof. intros. by rewrite len64_cons, sovMesos_length. Qed.

(** A string short enough for a Go [int]. *)
Definition short (o : option string) : Prop := match o with None => True | Some s => Z.of_nat (String.length s) < 2 ^ 63 end.

Lemma str_field_size tag o : short o → len64 (opt_field (bytes_field tag ∘ string_bytes) o) = str_size o.
Proof.
  destruct o as [s|]; [|done]. cbn. intros H. rewrite bytes_field_size; unfold len64; rewrite string_bytes_length; [done|lia].
Qed.

Lemma Address_sized a bs : short (AddrHostname a) → short (AddrIp a) → Address_MarshalTo a = PGot bs → len64 bs = Address_Size a.
Proof.
  unfold Address_MarshalTo, Address_Size. destruct (AddrPort a) as [p|]; [|done]. intros Hh Hi [= <-].
  rewrite !len64_app, !str_field_size, varint_field_size by (done || apply u64_range). lia.
Qed.

(** ** MasterInfo *)

Definition is_u32 (z : Z) : Prop := 0 ≤ z < 2 ^ 32.

(** The fields that are required are there, integers are in their range, strings fit an [int]. *)
Definition wf_master (m : MasterInfo) : Prop :=
  is_Some (MIId m) ∧ (∃ ip, MIIp m = Some ip ∧ is_u32 ip) ∧ (∃ port, MIPort m = Some port ∧ is_u32 port) ∧
  Forall short [MIId m; MIHostname m; MIPid m; MIVersion m] ∧
  match MIAddress m with
  | None => True
  | Some a => wf_address a ∧ short (AddrHostname a) ∧ short (AddrIp a) ∧ Address_Size a < 2 ^ 63
  end.

Lemma u32_id z : is_u32 z → u32 z = z.
Proof. intros. by apply Z.mod_small. Qed.

Lemma u32_u64_range z : is_u32 z → 0 ≤ z < 2 ^ 64.
Proof. unfold is_u32. lia. Qed.

(** The bytes of the address, empty when there is none. *)
Lemma address_part m : wf_master m → ∃ ab,
  match MIAddress m with
  | None => PGot []
  | Some a => bs ← Address_MarshalTo a; PGot (0x3a :: encodeVarintMesos (Address_Size a) ++ bs)
  end = PGot ab ∧
  len64 ab = match MIAddress m with None => 0 | Some a => let l := Address_Size a in 1 + l + sovMesos l end ∧
  ∀ mi flags, MIAddress mi = None →
    reads master_field ab (mi, flags) (match MIAddress m with None => mi | Some a => set_Address a mi end, flags).
Proof.
  intros (_ & _ & _ & _ & Ha). destruct (MIAddress m) as [a|]; [|by exists []; split_and!; [..|intros; apply reads_nil]].
  destruct Ha as (Hwf & Hh & Hi & Hs). destruct (Address_reads a Hwf) as (bs & Hm & Hu). pose proof (Address_sized _ _ Hh Hi Hm) as Hsz.
  exists (bytes_field 0x3a bs). rewrite Hm. split; [unfold bytes_field; by rewrite Hsz|]. split; [rewrite bytes_field_size, Hsz; [done|lia]|].
  intros mi flags Hmi. apply (reads_field _ _ _ _ _ 7 2); [done..|]. intros pre post Hl.
  unfold master_field. cbn [Z.eqb Pos.eqb]. unfold nested_address. rewrite <- app_assoc in *. rewrite read_bytes_reads by done.
  cbn [fst snd]. rewrite Hmi. cbn [default from_option]. rewrite Hu by lia. cbn. rewrite len64_app. do 4 f_equal. lia.
Qed.

(** Setting a field and its flag. *)
Definition flagged {A} (set : A → MasterInfo → MasterInfo) (flag : Z) (a : A) (m : MasterInfo * Z) : MasterInfo * Z :=
  (set a m.1, Z.lor m.2 flag).

Lemma master_reads m : wf_master m → ∃ bs,
  MasterInfo_MarshalTo m = PGot bs ∧ len64 bs = MasterInfo_Size m ∧ reads master_field bs (master_info_zero, 0) (m, 7).
Proof.
  intros Hwf. destruct (address_part m Hwf) as (ab & Hab & Hsz & Hrd).
  destruct Hwf as ([id Hid] & (ip & Hip & Rip) & (port & Hport & Rport) & Hshort & _).
  rewrite !Forall_cons_iff in Hshort. destruct Hshort as (S1 & S2 & S3 & S4 & _).
  unfold MasterInfo_MarshalTo, MasterInfo_Size. rewrite Hid, Hip, Hport, Hab in *. cbn [mbind pres_bind].
  eexists; split; [done|]. split.
  { pose proof (str_field_size 0xa (Some id) S1) as E. cbn [opt_field compose] in E.
    rewrite !len64_app, E, !str_field_size, !varint_field_size, Hsz by (done || by apply u32_u64_range). cbn zeta. lia. }
  eapply reads_app; [by apply (reads_bytes _ _ 1 (flagged set_Id 1))|].
  eapply reads_app; [apply (reads_varint (wrap := u32) _ _ 2 (flagged set_Ip 2)); try done; by apply u32_u64_range|].
  eapply reads_app; [apply (reads_varint (wrap := u32) _ _ 3 (flagged set_Port 4)); try done; by apply u32_u64_range|].
  rewrite (u32_id ip Rip), (u32_id port Rport). cbn.
  eapply reads_app; [apply (reads_opt _ _ (flagged set_Pid 0)); intros s _; by apply (reads_bytes _ _ 4 (flagged set_Pid 0))|].
  eapply reads_app; [apply (reads_opt _ _ (flagged set_Hostname 0)); intros s _; apply (reads_bytes _ _ 5 (flagged set_Hostname 0)); try done; by destruct (MIPid m)|].
  eapply reads_app; [apply (reads_opt _ _ (flagged set_Version 0)); intros s _; apply (reads_bytes _ _ 6 (flagged set_Version 0)); try done; by destruct (MIPid m), (MIHostname m)|].
  destruct m as [mid mip mport mh ma mp mv]. cbn [MIId MIIp MIPort MIHostname MIAddress MIPid MIVersion] in *. subst.
  replace (match mv with Some a => _ | None => _ end) with (mkMasterInfo (Some id) (Some ip) (Some port) mh None mp mv, 7)
    by (by destruct mp, mh, mv).
  replace (mkMasterInfo (Some id) (Some ip) (Some port) mh ma mp mv, 7)
    with (match ma with None => mkMasterInfo (Some id) (Some ip) (Some port) mh None mp mv
                      | Some a => set_Address a (mkMasterInfo (Some id) (Some ip) (Some port) mh None mp mv) end, 7)
    by (by destruct ma). by apply Hrd.
Qed.

Lemma PGot_inj {A} (a b : A) : PGot a = PGot b → a = b.
Proof. by injection 1. Qed.

Lemma marshalled_reads m bs : wf_master m → MasterInfo_Size m < 2 ^ 63 → MasterInfo_MarshalTo m = PGot bs →
  len64 bs = MasterInfo_Size m ∧ Unmarshal bs = Some (PGot m).
Proof.
  intros Hwf Hs Hm. destruct (master_reads m Hwf) as (bs' & Hm' & Hl & Hr). rewrite Hm in Hm'. apply PGot_inj in Hm' as <-.
  split; [done|]. unfold Unmarshal, MasterInfo_Unmarshal. rewrite (unmarshal_reads _ _ _ (m, 7)); [done|lia|done].
Qed.

(** ** Unmarshalling ends *)

Lemma varint_loop_advances wrap data turns shift i acc v j :
  varint_loop wrap data turns shift i acc = PGot (v, j) → 0 ≤ i < j ∧ j ≤ len64 data.
Proof.
  revert shift i acc. induction turns as [|turns IH]; intros shift i acc; [done|]. cbn [varint_loop].
  destruct (Z.leb_spec (len64 data) i); [done|]. unfold byte_of.
  destruct (Z.leb_spec 0 i); [|done]. destruct (Z.ltb_spec i (len64 data)); [|done]. cbn [andb mbind pres_bind].
  destruct (_ <? 0x80); [intros [= _ <-]; lia|]. intros H'%IH. lia.
Qed.

Lemma varint_advances wrap data i v j : varint wrap data i = PGot (v, j) → 0 ≤ i < j ∧ j ≤ len64 data.
Proof. apply varint_loop_advances. Qed.

(** A sum of two indices wraps around to a negative number at worst. *)
Lemma i64_sum a b : 0 ≤ a < 2 ^ 63 → 0 ≤ b < 2 ^ 63 → 
  2 ^ 63 ≤ a + b ∧ i64 (a + b) = a + b - 2 ^ 64 ∨ a + b < 2 ^ 63 ∧ i64 (a + b) = a + b.
Proof.
  intros. unfold i64. destruct (Z.lt_ge_cases (a + b) (2 ^ 63)); [right; rewrite Z.mod_small; lia|left].
  rewrite <- (Z_mod_plus_full _ (-1)), Z.mod_small; lia.
Qed.

Lemma i64_neg z : - 2 ^ 63 ≤ z < 0 → i64 z = z.
Proof. intros. unfold i64. rewrite Z.mod_small; lia. Qed.

Lemma i64_range z : - 2 ^ 63 ≤ i64 z < 2 ^ 63.
Proof. unfold i64. pose proof (Z.mod_pos_bound (z + 2 ^ 63) (2 ^ 64)). lia. Qed.

(** What a skipped field may say of where it ends: past its start, or before it by overflow. *)
Definition skipped (r : pres Z) : Prop := match r with PGot n => - 2 ^ 63 ≤ n < - 2 ^ 62 ∨ 1 ≤ n < 2 ^ 63 | _ => True end.

Lemma skip_ends_both fuel :
  (∀ data, len64 data < 2 ^ 62 → (2 * length data + 1 ≤ fuel)%nat → ∃ r, skip fuel data = Some r ∧ skipped r) ∧
  (∀ data i, len64 data < 2 ^ 62 → 2 * (len64 data - i) + 2 ≤ Z.of_nat fuel ∨ i < 0 → (1 ≤ fuel)%nat →
     ∃ r, skip_group fuel data i = Some r ∧ skipped r).
Proof.
  induction fuel as [|fuel [IHs IHg]]; [split; intros; lia|]. split.
  - intros data Hl Hf. cbn [skip]. destruct (varint u64 data 0) as [[wire i]| |] eqn:Hv; [|by eexists..].
    apply varint_advances in Hv. unfold len64 in Hv, Hl.
    repeat match goal with |- context [if ?b then _ else _] => destruct b eqn:?; try (eexists; split; [reflexivity|]) end.
    + destruct (varint u64 data i) as [[v j]| |] eqn:Hv'; [|done..]. apply varint_advances in Hv'. unfold len64 in Hv'. cbn. lia.
    + cbn. lia.
    + destruct (varint u64 data i) as [[v j]| |] eqn:Hv'; [|done..]. apply varint_advances in Hv'. unfold len64 in Hv'.
      cbn [mbind pres_bind fst snd]. destruct (Z.ltb_spec (i64 v) 0); [done|]. cbn.
      pose proof (i64_range v). destruct (i64_sum j (i64 v)); lia.
    + apply IHg; [done| |lia]. unfold len64. lia.
    + cbn. lia.
    + cbn. lia.
    + done.
  - intros data i Hl Hi Hf. cbn [skip_group]. destruct (varint u64 data i) as [[wire j]| |] eqn:Hv; [|by eexists..].
    apply varint_advances in Hv. destruct (_ =? 4); [eexists; split; [done|]; cbn; lia|].
    destruct (IHs (drop (Z.to_nat i) data)) as (r & Hr & Hn).
    { unfold len64 in *. rewrite length_drop. lia. }
    { unfold len64 in *. rewrite length_drop. lia. }
    rewrite Hr. destruct r as [n| |]; [|by eexists..]. unfold len64 in *. apply IHg; [done| |lia].
    destruct Hn as [Hn|Hn].
    + right. rewrite i64_neg; lia.
    + destruct (i64_sum i n); lia.
Qed.

(** Twice the number of bytes is fuel enough. *)
Lemma skip_ends data : len64 data < 2 ^ 62 → ∃ r, skipMesos data = Some r ∧ skipped r.
Proof. intros. apply skip_ends_both; [done|]. lia. Qed.

Lemma read_bytes_advances data i bs j : len64 data < 2 ^ 62 → read_bytes data i = PGot (bs, j) →
  0 ≤ i < j ∧ j ≤ len64 data ∧ len64 bs ≤ len64 data.
Proof.
  intros Hl. unfold read_bytes. destruct (varint u64 data i) as [[v k]| |] eqn:Hv; [|done..].
  apply varint_advances in Hv. cbn [mbind pres_bind fst snd]. destruct (Z.ltb_spec (i64 v) 0); [done|].
  destruct (Z.ltb_spec (len64 data) (i64 (k + i64 v))); [done|]. unfold slice_of.
  destruct (Z.leb_spec 0 k); [|done]. destruct (Z.leb_spec k (i64 (k + i64 v))); [|done].
  destruct (Z.leb_spec (i64 (k + i64 v)) (len64 data)); [|done]. cbn. intros [= <- <-].
  split; [lia|]. split; [lia|]. unfold len64. rewrite length_take, length_drop. lia.
Qed.

Section Ends.
Context {M : Type} (field : Z → Z → list Z → Z → M * Z → option (option (pres (M * Z * Z)))).

(** A known field ends, and past where it began. *)
Definition field_ends : Prop := ∀ num wt data i m r, len64 data < 2 ^ 62 → field num wt data i m = Some r →
  ∃ p, r = Some p ∧ match p with PGot (_, j) => i < j ≤ len64 data | _ => True end.

Lemma unmarshal_turn_ends data i m : field_ends → len64 data < 2 ^ 62 →
  ∃ p, unmarshal_turn field data i m = Some p ∧ match p with PGot (_, j) => i < j ≤ len64 data | _ => True end.
Proof.
  intros Hf Hl. unfold unmarshal_turn. destruct (varint u64 data i) as [[wire k]| |] eqn:Hv; [|by eexists..].
  apply varint_advances in Hv. destruct (_ =? 4); [by eexists|]. destruct (_ <=? 0); [by eexists|].
  destruct (field _ _ _ _ _) as [r|] eqn:Hr.
  - apply Hf in Hr as (p & -> & Hp); [|done]. exists p. split; [done|]. destruct p as [[? ?]| |]; [|done..]. lia.
  - destruct (skip_ends (drop (Z.to_nat i) data)) as (r & -> & Hn).
    { unfold len64 in *. rewrite length_drop. lia. }
    destruct r as [n| |]; [|by eexists..]. eexists; split; [done|]. destruct (Z.ltb_spec n 0); [done|].
    destruct (Z.ltb_spec (len64 data) (i64 (i + n))); [done|]. unfold slice_of.
    destruct (Z.leb_spec 0 i); [|done]. destruct (Z.leb_spec i (i64 (i + n))); [|done].
    destruct (Z.leb_spec (i64 (i + n)) (len64 data)); [|done]. cbn. cbn in Hn.
    destruct (i64_sum i n); lia.
Qed.

Lemma unmarshal_loop_ends fuel data i m : field_ends → len64 data < 2 ^ 62 → i ≤ len64 data < i + Z.of_nat fuel →
  is_Some (unmarshal_loop field fuel data i m).
Proof.
  intros Hf Hl. revert i m. induction fuel as [|fuel IH]; intros i m Hi; cbn [unmarshal_loop]; [lia|].
  destruct (_ <=? _); [done|]. destruct (unmarshal_turn_ends data i m Hf Hl) as (p & -> & Hp).
  destruct p as [[m' j]| |]; [|done..]. apply IH. lia.
Qed.

Lemma unmarshal_fields_ends data m : field_ends → len64 data < 2 ^ 62 → is_Some (unmarshal_fields field data m).
Proof. intros. apply unmarshal_loop_ends; [done..|]. unfold len64. lia. Qed.
End Ends.

Ltac field_end :=
  intros; match goal with
  | |- context [read_bytes ?d ?i] =>
      destruct (read_bytes d i) as [[? ?]| |] eqn:Hrd; cbn; try done; apply read_bytes_advances in Hrd; [lia|done]
  | |- context [varint ?w ?d ?i] => destruct (varint w d i) as [[? ?]| |] eqn:Hrd; cbn; try done; apply varint_advances in Hrd; lia
  end.

Lemma address_field_ends : field_ends address_field.
Proof.
  intros num wt data i [a has] r Hl. unfold address_field, typed. intros Hr.
  repeat (destruct (num =? _); [injection Hr as <-; eexists; split; [done|]; destruct (wt =? _); [|done]; field_end|]). done.
Qed.

Lemma Address_Unmarshal_ends data a : len64 data < 2 ^ 62 → is_Some (Address_Unmarshal data a).
Proof. intros. apply fmap_is_Some, unmarshal_fields_ends; [apply address_field_ends|done]. Qed.

Lemma nested_address_ends data i m : len64 data < 2 ^ 62 →
  ∃ p, nested_address data i m = Some p ∧ match p with PGot (_, j) => i < j ≤ len64 data | _ => True end.
Proof.
  intros Hl. unfold nested_address. destruct (read_bytes data i) as [[bs j]| |] eqn:Hrd; [|by eexists..].
  apply read_bytes_advances in Hrd; [|done].
  destruct (Address_Unmarshal_ends bs (default address_zero (MIAddress m.1))) as [r ->]; [lia|].
  eexists; split; [done|]. destruct r; cbn; [lia|done..].
Qed.

Lemma master_field_ends : field_ends master_field.
Proof.
  intros num wt data i m r Hl. unfold master_field, string_field, uint32_field, typed. intros Hr.
  do 6 (destruct (num =? _); [injection Hr as <-; eexists; split; [done|]; destruct (wt =? _); [|done]; field_end|]).
  destruct (num =? 7); [|done]. injection Hr as <-. destruct (wt =? 2); [by apply nested_address_ends|by eexists].
Qed.

(** ** Theorems *)

(** The protocol buffer of a master is read back.  A registration whose required fields are
    set marshals without error, into as many bytes as [Size] allocated, and [proto.Unmarshal]
    of these bytes returns the same registration, its nested address included. *)
Theorem master_info_round_trip m : wf_master m → MasterInfo_Size m < 2 ^ 63 →
  ∃ bs, MasterInfo_MarshalTo m = PGot bs ∧ len64 bs = MasterInfo_Size m ∧ Unmarshal bs = Some (PGot m).
Proof.
  intros Hwf Hs. destruct (master_reads m Hwf) as (bs & Hm & _). exists bs. split; [done|]. by apply marshalled_reads.
Qed.

(** Unmarshalling ends on every input.  Whatever bytes a registration holds, including groups
    nested in groups and lengths that overflow an [int], the loops of [Unmarshal] and of
    [skipMesos] end: they return a registration or an error, or panic. *)
Theorem unmarshal_ends data m : len64 data < 2 ^ 62 →
  is_Some (MasterInfo_Unmarshal data m) ∧ is_Some (skipMesos data).
Proof.
  intros Hl. split; [|destruct (skip_ends data Hl) as (r & -> & _); by eexists].
  apply fmap_is_Some, unmarshal_fields_ends; [apply master_field_ends|done].
Qed.

(** A length of 2^63-1 overflows [postIndex] to a negative number, which passes the test against the end. *)
Lemma unmarshal_length_panics : Unmarshal (0x0a :: encodeVarintMesos (2 ^ 63 - 1)) = Some PPanic.
Proof. by vm_compute. Qed.

(** The same overflow inside an unknown group makes [skipMesos] index below its input. *)
Lemma skip_group_panics : Unmarshal (0x43 :: 0x0a :: encodeVarintMesos (2 ^ 63 - 1)) = Some PPanic.
Proof. by vm_compute. Qed.

(** ** The decoder of the detector *)

(** What the readers of ZooKeeper are given: a decoder that returns what [Unmarshal] returns. *)
Class ProtoDecoder (dec : decoder) := {
  decodes raw m : Unmarshal (string_bytes raw) = Some (PGot m) → dec raw = Ok m;
  rejects raw e : Unmarshal (string_bytes raw) = Some (PErr e) → dec raw = Err ErrProto;
}.

Definition proto_decoder : decoder := λ raw,
  match Unmarshal (string_bytes raw) with Some (PGot m) => Ok m | _ => Err ErrProto end.

#[export] Instance proto_decoder_decodes : ProtoDecoder proto_decoder.
Proof. by split; unfold proto_decoder; intros ? ? ->. Qed.

Lemma string_bytes_of bs : are_bytes bs → string_bytes (string_of_bytes bs) = bs.
Proof.
  unfold string_of_bytes. induction 1 as [|b bs Hb _ IH]; [done|]. cbn -[ascii_of_N]. rewrite IH. f_equal.
  unfold byte. rewrite N_ascii_embedding by lia. lia.
Qed.

Lemma encodeVarint_bytes turns v : 0 ≤ v → are_bytes (encodeVarint turns v).
Proof.
  revert v. induction turns as [|turns IH]; intros v Hv; [constructor|]. cbn [encodeVarint].
  destruct (Z.ltb_spec v 0x80); constructor; [lia|constructor| |by apply IH, Z.shiftr_nonneg].
  pose proof (more_byte v) as [? _]. split; [lia|]. change 256 with (2 ^ 8).
  assert (Z.log2 (Z.lor (Z.land v 0x7f) 0x80) < 8); [|apply Z.log2_lt_pow2; lia].
  rewrite land_127, Z.log2_lor by (try apply Z.mod_pos_bound; lia). pose proof (Z.mod_pos_bound v 128).
  assert (Z.log2 (v mod 128) ≤ Z.log2 127) by (apply Z.log2_le_mono; lia). change (Z.log2 127) with 6 in *.
  change (Z.log2 0x80) with 7. lia.
Qed.

Lemma bytes_field_bytes tag bs : is_byte tag → are_bytes bs → are_bytes (bytes_field tag bs).
Proof. intros. constructor; [done|]. apply Forall_app; split; [|done]. apply encodeVarint_bytes, len64_nonneg. Qed.

Lemma opt_string_bytes tag o : is_byte tag → are_bytes (opt_field (bytes_field tag ∘ string_bytes) o).
Proof. intros. destruct o as [s|]; [|constructor]. apply bytes_field_bytes; [done|apply string_bytes_small]. Qed.

Lemma varint_field_bytes tag v : is_byte tag → 0 ≤ v → are_bytes (tag :: encodeVarintMesos v).
Proof. intros. constructor; [done|]. by apply encodeVarint_bytes. Qed.

Lemma Address_bytes a bs : Address_MarshalTo a = PGot bs → are_bytes bs.
Proof.
  unfold Address_MarshalTo. destruct (AddrPort a); [|done]. intros <-%PGot_inj. unfold are_bytes. rewrite !Forall_app.
  split_and!; [by apply opt_string_bytes..|]. apply varint_field_bytes; [done|apply u64_range].
Qed.

Lemma master_bytes m bs : wf_master m → MasterInfo_MarshalTo m = PGot bs → are_bytes bs.
Proof.
  intros (_ & (ip & Hip & [? _]) & (port & Hport & [? _]) & _ & Hwa). unfold MasterInfo_MarshalTo. rewrite Hip, Hport.
  destruct (MIId m) as [id|]; [|done].
  destruct (match MIAddress m with None => _ | Some _ => _ end) as [ab| |] eqn:Ha; cbn [mbind pres_bind]; [|done..]. intros <-%PGot_inj.
  assert (are_bytes ab).
  { destruct (MIAddress m) as [a|]; [|injection Ha as <-; constructor].
    destruct Hwa as (_ & Hh & Hi & _). destruct (Address_MarshalTo a) as [b| |] eqn:Hb; [|done..].
    cbn [mbind pres_bind] in Ha. apply PGot_inj in Ha as <-. rewrite <- (Address_sized a b) by done.
    apply bytes_field_bytes; [done|by eapply Address_bytes]. }
  unfold are_bytes. rewrite !Forall_app.
  split_and!; first [done|by apply opt_string_bytes|by apply varint_field_bytes|by apply bytes_field_bytes, string_bytes_small].
Qed.

(** C38: A master that registers as a protocol buffer is found.  When ZooKeeper serves the bytes
    that [Marshal] wrote for the leading master and no JSON registration of it, [GetMasterFromZK]
    with a decoder that implements [proto.Unmarshal] returns the address of that master. *)
Theorem registered_master_found `{ProtoDecoder dec} env h le uri servers chroot cs k m bs :
  ParseZKURI uri = Ok (servers, chroot) → Forall wf_child cs → leads cs k → json_node k ∉ cs →
  wf_master m → MasterInfo_Size m < 2 ^ 63 → MasterInfo_MarshalTo m = PGot bs → addressFrom le m ≠ "" →
  zk_serves env servers chroot cs (proto_node k) (string_of_bytes bs) →
  (GetMasterFromZK le dec uri env h).1 = Returns (Ok (addressFrom le m)).
Proof.
  intros Huri Hcs Hk Hj Hwf Hs Hm Ha Hzk.
  assert (He : leader_entry dec cs k = (proto_node k, dec)) by (unfold leader_entry; by rewrite bool_decide_eq_false_2).
  erewrite GetMasterFromZK_reads; [|done..|by rewrite He|]; [by rewrite bool_decide_eq_false_2|].
  rewrite He. cbn [snd]. apply decodes. rewrite string_bytes_of by (by eapply master_bytes).
  by apply marshalled_reads.
Qed.

(** ** Witnesses *)

Definition sample_master : MasterInfo :=
  mkMasterInfo (Some "20150801") (Some 16777343) (Some 5050) (Some "m1")
    (Some (mkAddress (Some "m1.example") (Some "10.0.0.1") (Some 5051))) (Some "master@10.0.0.1:5051") (Some "0.23.0").

Definition sample_bytes : list Z := Eval vm_compute in match MasterInfo_MarshalTo sample_master with PGot bs => bs | _ => [] end.

Lemma sample_wf : wf_master sample_master ∧ MasterInfo_Size sample_master < 2 ^ 63.
Proof.
  split; [|by vm_compute]. unfold wf_master, sample_master, wf_address, is_i32, is_u32. cbn.
  split; [by eexists|]. split; [by eexists|]. split; [by eexists|]. split; [repeat constructor|]. by vm_compute.
Qed.

Lemma master_info_round_trip_witness : Unmarshal sample_bytes = Some (PGot sample_master).
Proof.
  destruct (master_info_round_trip sample_master (proj1 sample_wf) (proj2 sample_wf)) as (bs & Hm & _ & Hu).
  vm_compute in Hm. injection Hm as <-. exact Hu.
Defined.

Lemma unmarshal_ends_witness : is_Some (skipMesos [0x43; 0x0b; 0x0c; 0x44]).
Proof. apply (unmarshal_ends _ master_info_zero). by vm_compute. Defined.

(** A directory with one master, registered as a protocol buffer. *)
Definition proto_env : Env := {|
  env_http := env_http quiet_env;
  env_etcd_sync := env_etcd_sync quiet_env;
  env_etcd_get := env_etcd_get quiet_env;
  env_zk_connect _ _ := None;
  env_zk_create := env_zk_create quiet_env;
  env_zk_set := env_zk_set quiet_env;
  env_zk_get _ _ := Ok (string_of_bytes sample_bytes);
  env_zk_delete := env_zk_delete quiet_env;
  env_zk_children _ _ := Ok ["info_01"];
  env_reconcile := env_reconcile quiet_env;
  env_status := env_status quiet_env;
  env_exec := env_exec quiet_env;
  env_fs := env_fs quiet_env;
  env_clock := env_clock quiet_env;
  env_net := env_net quiet_env;
  env_range := env_range quiet_env;
  env_range_perm := env_range_perm quiet_env;
|}.

Lemma proto_children : Forall wf_child ["info_01"] ∧ leads ["info_01"] "01" ∧ json_node "01" ∉ ["info_01"].
Proof.
  split_and!.
  - constructor; [left; exists "01"; by split; [|left]|constructor].
  - split_and!; [done|by left; left|]. intros k' [H|H]; unfold proto_node, json_node in H;
      rewrite !sapp_cons, sapp_nil_l in H; apply list_elem_of_singleton in H; [by injection H as ->|done].
  - intros H. by apply list_elem_of_singleton in H.
Qed.

Lemma registered_master_found_witness :
  (GetMasterFromZK true proto_decoder "zk://h:2181/mesos" proto_env []).1 = Returns (Ok "m1.example:5051").
Proof.
  apply (registered_master_found proto_env [] true _ ["h:2181"] "/mesos" ["info_01"] "01" sample_master sample_bytes);
    try apply proto_children; try apply sample_wf; done.
Defined.
